(* ===== verification/_CoqProject ===== *)
-Q . S2P
Prelude.v
Util.v
Framing.v
Repositories.v
Session.v
Presence.v
RoomManager.v
Crypto.v
MysqlPool.v
MysqlRepositories.v
Messages.v
Json.v
MysqlTables.v
MysqlStores.v
MysqlRefinement.v
JsonProofs.v
JsonRoundTrip.v
JsonTermination.v
Connection.v
ThreadPool.v
Config.v
Logger.v
World.v
Router.v
Handlers.v
HandlerLogic.v
HandlerSpecs.v
Server.v
Workers.v
Programs.v
Concurrency.v
Client.v
ReactorLoops.v
Socket.v
ClientMain.v
Startup.v
HandlerProps.v
MessageProps.v
Interleaving.v
Shutdown.v
Tests.v
