(* ===== verification/Prelude.v ===== *)
(** * A verification of the chat server

    The program is a chat server in C++: a reactor thread accepts connections and
    cuts their byte streams into length-prefixed frames, each frame is a JSON
    request that becomes a task of a thread pool, a worker runs the handler of the
    request over the store, the sessions, the presence table and the room cache,
    and the answers and events go back through the write buffers of connections.
    This library translates that program into executable definitions and proves
    what makes it correct.

    ** The files

    - [Prelude] (this file): machine integers, bytes and strings, the type
      [outcome] of C++ results (a value or an exception), the state monad [M] that
      keeps the state when an exception is thrown, tactics, hint databases [chat]
      and [chat_rw], lemmas on lists and integers.
    - [Util]: [src/common/util.cpp] (trim, split, case, hexadecimal, base64, random
      bytes), and the Standard Library conversions [stoi], [stoul], [to_string] the
      program relies on.
    - [Framing]: [src/protocol/framing.cpp], [frame] and [FrameDecoder].
    - [Repositories]: the in-memory half of [src/db/repositories.cpp].
    - [Session]: [src/auth/session.cpp] against the class [SessionStore]; its laws
      are proved for [Repositories].
    - [Presence]: [src/chat/presence.cpp].
    - [RoomManager]: [src/chat/room_manager.cpp] against the class [RoomStore],
      with the interleavings of its operations with the handlers' store updates.
    - [Crypto]: [src/auth/crypto.cpp] (SHA-256, HMAC, PBKDF2, password hashes).
    - [MysqlPool]: [src/db/mysql_pool.cpp], leases and connections with the clients
      interleaved.
    - [MysqlRepositories]: the MySQL half of [src/db/repositories.cpp], whose
      operations have the names of the in-memory ones; the database server is the
      class [MysqlServer], the promise of its escaping function [EscapeLaw].
    - [MysqlTables]: the tables of [scripts/init_db.sql], the statements the MySQL
      half sends and what the server's manual says they do ([sql_effect], the class
      [SqlServer]); a server that does so.
    - [MysqlStores]: the MySQL half as an instance of [SessionStore] and
      [RoomStore], over a [SqlServer].
    - [MysqlRefinement]: the MySQL half against the in-memory half, operation by
      operation, over a [SqlServer].
    - [Messages]: [src/protocol/messages.cpp] and the JSON values.
    - [Json], [JsonProofs], [JsonRoundTrip], [JsonTermination]: the serializer, the
      lexer and the parser of [third_party/nlohmann/json.hpp] that [dump] and [parse]
      use; what a parsed value can be; the round trip; that parsing stops.
    - [Connection]: [src/net/connection.cpp] with the part of the reactor it calls.
    - [ThreadPool]: [src/common/thread_pool.cpp] as interleaved threads.
    - [Config]: [src/common/config.cpp].
    - [Logger]: [src/common/logger.cpp], its sink and its lines.
    - [World]: the members of [ChatServer] as one state.
    - [Router]: [src/chat/message_router.cpp].
    - [Handlers]: [src/handlers/handlers.cpp] and the callbacks of
      [src/chat/chat_server.cpp].
    - [HandlerLogic], [HandlerSpecs]: a program logic for handlers (what is sent to
      whom, the invariant [world_ok]) and a specification of each handler.
    - [Server]: [src/net/server.cpp], the post queue of the epoll reactor, frames as
      tasks, workers; [server_step] is one action of one thread.
    - [Workers]: [Server] with the pool of [ThreadPool] in place of its task list.
    - [Programs]: the handlers, the router, presence, sessions and [send_frame] again,
      as programs of type [prog] whose steps are the accesses to shared state
      (what one lock or one atomic protects); run without interruption each equals
      its definition in [Handlers] or [Router].
    - [Concurrency]: a program logic for such programs that holds whatever other
      threads do between two accesses; a triple for each handler.
    - [Interleaving]: the threads: workers with their programs, the reactor with its
      batch of closures and the close handler it is in, and the stopping thread;
      [conc_step] is one access of one of them.
    - [Client]: [client/cli_client.cpp], commands, sending and receiving.
    - [ClientMain]: [main] of the client and its reader thread interleaved,
      connecting, and printing with indentation.
    - [ReactorLoops]: the loops of [src/net/reactor_epoll.cpp] and
      [src/net/reactor_select.cpp] over the state of [Server], and how [post] wakes
      them.
    - [Socket]: [src/net/socket.cpp] and the descriptors the reactors open, on the
      process's descriptor table.
    - [Startup]: [src/main.cpp], [ChatServer::init] and [ChatServer::stop], from the
      command line to the state [Server] runs from.
    - [Shutdown]: [ChatServer::stop] and the signal handler of [src/main.cpp].
    - [HandlerProps], [MessageProps]: what requests do, end to end.
    - [Tests]: the repository's own tests as computations on the model.

    ** State and effects

    A class is a record of its members; a method is a function of that record, in
    [M] when it can throw.  Identifiers are [Z] with the wrap-around of their C++
    type written where the code performs it.  A [std::unordered_map] is a [gmap], an
    ordered container a list.  Shared objects (connections) are entries of a map by
    id, so two holders see one object.  What comes from outside is an argument: the
    results of system calls, of the MySQL client library and of [fopen] are scripts,
    clock readings and random draws are the class [Env], the text of doubles and
    [strtod] the class [FloatText], the result of an out-of-range cast of a double
    the class [FloatCast], the settings the class [Settings].  No theorem assumes a
    law of [FloatText] or [FloatCast].

    ** What the theorems show

    - The server: in any run every frame is answered by exactly one reply with its
      request's id and no exception escapes ([server_answers_every_task]); the
      whole state stays consistent ([server_stays_consistent]).  The event loops
      make exactly the actions of their batches on that machine, the callback found
      for the descriptor of each event, also when a descriptor is used again
      ([epoll_refines_server], [select_refines_server]); posted closures run at
      most once and in order, all of them unless the loop is stopped or fails, and
      the loop is woken for them ([posts_run_once_and_wake]); [main] reaches the
      initial state from any configuration ([startup_serves],
      [settings_precedence]).
    - Concurrent requests: under every interleaving of the workers' and the reactor's
      accesses the store stays consistent and keeps its accounts, rooms and messages,
      each request gets exactly one reply, and a message id in it names a stored
      message with the request's text ([concurrent_requests_answered]).  That the
      two transcriptions of the handlers, as one transition and as accesses, agree
      when nothing interrupts is [atomic_requests_are_schedules].
    - Requests: authentication is required where it should be, registration, login,
      logout, direct and room messages do what the protocol says, including the
      offline queue ([HandlerProps], [MessageProps]).
    - Connections: the outgoing stream is the accepted frames in order under partial
      writes, incoming streams are cut exactly, bad lengths close, closing happens
      once, buffered output is never stranded ([Connection]).
    - Codecs: framing, base64, JSON and configuration round trips; framing is
      independent of chunking and bounded in memory; parsing JSON stops on every
      input and gives only well-typed values; a line typed at the client reaches the
      handler it names ([client_requests_arrive]).
    - The client: its socket has the requests typed, in order, its reader prints one
      line for each frame received ([client_exchange]), and when leaving it waits
      for nothing but its reader's [recv] ([client_quit_waits]).
    - Cryptography: the streaming SHA-256, HMAC and PBKDF2 equal the standards'
      definitions; password hashes verify exactly for passwords with the same key.
    - Stores and caches: consistency of the tables after any calls, exact history
      pages, FIFO queues; sessions and rooms cached coherently with the store.  In
      the MySQL half no argument changes the structure of a statement
      ([statements_keep_data_apart]), failures are absent results, a pooled
      connection has one user at a time, and the caches are coherent with its tables
      ([mysql_serves_caches]); on users, rooms, messages and queues it refines the
      in-memory half ([mysql_accounts_agree], [mysql_messages_agree]), but for the
      result of [leave_room] and with the conditions under which the two differ
      otherwise left out by each operation's precondition.
    - Resources: descriptors and log files are opened, owned and closed exactly once
      on every path ([socket_ownership], [open_tcp_correct], [reactor_descriptors],
      [logger_streams]).
    - Threads: each task runs once and in order, no wake-up is lost while the pool
      runs, a shutdown that returns has drained the queue; with its pool the server
      still refines [server_step], and every accepted request is answered
      ([threads_answer_requests]).
    - Some theorems state defects: [shutdown_can_hang], [room_cache_race],
      [second_login_leaves_first_online], [replay_offline_drops_when_unbound],
      [message_time_text], [mysql_pool_starves], [drain_race_loses], [client_dm_sends_one_word],
      [port_wraps], [login_races_with_close], [stop_drops_replies] with
      [stop_loses_message], and the last parts of [reactor_descriptors] and
      [mysql_serves_caches].

    ** Bounds and fuel

    [feed] and the [M] loops recurse on their input.  The parser's fuel is twice the
    number of bytes plus two; [parse_terminates] shows that it is never what ends
    the loop.  [parse_frames] runs on the length of the buffer; [conn_reads_stream]
    shows every frame is delivered.  [dump_pairs] and [dec_digits] run on the digits
    of a 64-bit number.  Theorems on whole runs bound the number of actions by 2^64
    so that no identifier wraps; an action of [conc_step] is one access, and
    creates at most one identifier.  Programs of [Programs] are trees without
    loops, finite by construction.

    ** Not modelled

    The installation of the signal handlers and a handler that interrupts a thread in
    the middle of an access, the log lines other components write, the default
    action of SIGPIPE in the client, the Windows half of [platform.h], the function
    [parse_ts], which nothing calls, and of the JSON library what the program does
    not use.  The MySQL server is a parameter: how it reads a statement and what the
    statement does with the tables are hypotheses, shown to hold of a server
    written for it.  The handlers and the interleaved machine run over the
    in-memory store; what they would do over MySQL follows only one store
    operation at a time, and apart from [drain_race_loses] the statements of one
    operation are not interleaved with other clients'.  The reactor runs the
    callback of one event as one action.  In [Connection] [send_frame] is one step;
    that the source releases the lock before it posts the flush is seen only from
    [Programs] on.  [base64_decode] is a function: its table is a static that the
    first caller fills in without a lock, and two first callers at once are not
    modelled. *)
From Stdlib Require Export Ascii ZArith Lia.
From stdpp Require Export base gmap strings list fin_maps.

Set Default Proof Using "Type".

Declare Scope chat_scope.
Delimit Scope chat_scope with chat.
Open Scope Z_scope.
Open Scope chat_scope.

(** ** Machine integers

    A [w]-bit unsigned value is a [Z] in [[0, 2^w)]; the wrap-around that the
    C++ conversions perform is written out at the place the code performs it. *)
Definition u8 (z : Z) : Z := z mod 256.
Definition u32 (z : Z) : Z := z mod 4294967296.
Definition u64 (z : Z) : Z := z mod 18446744073709551616.

(** Two's-complement reading of the low 64 bits ([std::int64_t]). *)
Definition i64 (z : Z) : Z :=
  (z + 9223372036854775808) mod 18446744073709551616 - 9223372036854775808.

Definition u64_max : Z := 18446744073709551615.

Definition is_u8 (z : Z) : Prop := 0 <= z < 256.
Definition is_u32 (z : Z) : Prop := 0 <= z < 4294967296.
Definition is_u64 (z : Z) : Prop := 0 <= z < 18446744073709551616.

(** ** Bytes and [std::string]

    [std::string] is a Rocq [string] (a sequence of 8-bit characters) and a
    [std::vector<std::uint8_t>] is a [list Z] of bytes; the two conversions are
    the [reinterpret_cast]s of the source. *)
Definition byte_of_ascii (c : ascii) : Z := Z.of_N (Ascii.N_of_ascii c).
Definition ascii_of_byte (b : Z) : ascii := Ascii.ascii_of_N (Z.to_N b).

Fixpoint to_bytes (s : string) : list Z :=
  match s with
  | EmptyString => []
  | String c s => byte_of_ascii c :: to_bytes s
  end.

Fixpoint of_bytes (l : list Z) : string :=
  match l with
  | [] => EmptyString
  | b :: l => String (ascii_of_byte b) (of_bytes l)
  end.

Definition bytes_ok (l : list Z) : Prop := Forall is_u8 l.

(** [s.empty()]. *)
Definition str_empty (s : string) : bool :=
  match s with EmptyString => true | _ => false end.

(** The characters of a string, and back. *)
Fixpoint chars (s : string) : list ascii :=
  match s with
  | EmptyString => []
  | String c s => c :: chars s
  end.

Fixpoint of_chars (l : list ascii) : string :=
  match l with
  | [] => EmptyString
  | c :: l => String c (of_chars l)
  end.

(** ** Exceptions and the state-exception monad *)
Inductive exn :=
| RuntimeError (what : string)
| OutOfRange
| InvalidArgument
| JsonTypeError.

Inductive outcome (A : Type) :=
| Ret (a : A)
| Throw (e : exn).
Arguments Ret {A} a.
Arguments Throw {A} e.

#[export] Instance outcome_ret : MRet outcome := λ A a, Ret a.
#[export] Instance outcome_bind : MBind outcome := λ A B k o,
  match o with Ret a => k a | Throw e => Throw e end.

(** A C++ function over the mutable state [S]: what it returns or throws, and
    the state it leaves, which keeps the effects made before a throw. *)
Definition M (S A : Type) : Type := S -> outcome A * S.

#[export] Instance M_ret {S : Type} : MRet (M S) := λ A a s, (Ret a, s).
#[export] Instance M_bind {S : Type} : MBind (M S) := λ A B k m s,
  match m s with
  | (Ret a, s') => k a s'
  | (Throw e, s') => (Throw e, s')
  end.

Definition throw {S A : Type} (e : exn) : M S A := λ s, (Throw e, s).
Definition get_state {S : Type} : M S S := λ s, (Ret s, s).
Definition modify {S : Type} (f : S -> S) : M S unit := λ s, (Ret tt, f s).

(** A range-[for] loop over a container's elements. *)
Fixpoint mfor {S A : Type} (l : list A) (f : A -> M S unit) : M S unit :=
  match l with
  | [] => mret tt
  | x :: l => f x ;; mfor l f
  end.

(** ** Proof automation *)
Create HintDb chat discriminated.
Create Rewrite HintDb chat_rw.

(** Split every conjunction, and case on the scrutinee of a [match] or [if] in
    the goal or in a hypothesis. *)
Ltac split_matches :=
  repeat match goal with
  | H : _ ∧ _ |- _ => destruct H
  | |- context [match ?x with _ => _ end] => destruct x eqn:?
  | H : context [match ?x with _ => _ end] |- _ => destruct x eqn:?
  end.

(** Turn boolean comparisons of the code into propositions. *)
Ltac to_prop :=
  repeat match goal with
  | H : (_ && _) = true |- _ => apply andb_prop in H; destruct H
  | H : (_ || _) = false |- _ => apply orb_false_elim in H; destruct H
  | H : negb _ = true |- _ => apply negb_true_iff in H
  | H : negb _ = false |- _ => apply negb_false_iff in H
  | H : (_ <? _)%Z = true |- _ => apply Z.ltb_lt in H
  | H : (_ <? _)%Z = false |- _ => apply Z.ltb_ge in H
  | H : (_ <=? _)%Z = true |- _ => apply Z.leb_le in H
  | H : (_ <=? _)%Z = false |- _ => apply Z.leb_gt in H
  | H : (_ =? _)%Z = true |- _ => apply Z.eqb_eq in H
  | H : (_ =? _)%Z = false |- _ => apply Z.eqb_neq in H
  | H : (_ <? _)%nat = true |- _ => apply Nat.ltb_lt in H
  | H : (_ <? _)%nat = false |- _ => apply Nat.ltb_ge in H
  | H : bool_decide _ = true |- _ => apply bool_decide_eq_true in H
  | H : bool_decide _ = false |- _ => apply bool_decide_eq_false in H
  end.

(** ** Lemmas on the monad *)

Lemma M_bind_ret {S A B : Type} (m : M S A) (k : A → M S B) s a s' :
  m s = (Ret a, s') → (m ≫= k) s = k a s'.
Proof. intros Hm. unfold mbind, M_bind. by rewrite Hm. Qed.

Lemma M_bind_throw {S A B : Type} (m : M S A) (k : A → M S B) s e s' :
  m s = (Throw e, s') → (m ≫= k) s = (Throw e, s').
Proof. intros Hm. unfold mbind, M_bind. by rewrite Hm. Qed.

(** ** Integer lemmas *)

Lemma u32_small z : is_u32 z → u32 z = z.
Proof. unfold is_u32, u32. intros. by apply Z.mod_small. Qed.

Lemma u64_small z : is_u64 z → u64 z = z.
Proof. unfold is_u64, u64. intros. by apply Z.mod_small. Qed.

Lemma u64_range z : is_u64 (u64 z).
Proof. unfold is_u64, u64. by apply Z.mod_pos_bound. Qed.

Lemma u8_range z : is_u8 (u8 z).
Proof. unfold is_u8, u8. by apply Z.mod_pos_bound. Qed.

Lemma land_ff z : Z.land z 255 = z mod 256.
Proof. change 255 with (Z.ones 8). by rewrite Z.land_ones. Qed.

Lemma land_ff_range z : is_u8 (Z.land z 255).
Proof. rewrite land_ff. apply u8_range. Qed.

(** [a << n | b] is [a * 2^n + b] when [b] has no bit at or above [n]. *)
Lemma lor_shiftl_add a b n :
  0 <= n → 0 <= b < 2 ^ n → Z.lor (Z.shiftl a n) b = a * 2 ^ n + b.
Proof.
  intros Hn Hb. rewrite <-Z.shiftl_mul_pow2 by done.
  rewrite <-(Z.mod_small b (2 ^ n)) by done.
  assert (Z.land (Z.shiftl a n) (b mod 2 ^ n) = 0) as Hdisj.
  { apply Z.bits_inj'. intros i Hi. rewrite Z.land_spec, Z.bits_0.
    destruct (decide (i < n)).
    - by rewrite Z.shiftl_spec_low.
    - rewrite Z.mod_pow2_bits_high by lia. apply andb_false_r. }
  by rewrite <-Z.lxor_lor, <-Z.add_nocarry_lxor.
Qed.

(** Big-endian assembly of four bytes at 32 bits, as an arithmetic value. *)
Lemma lor_be32 a b c d :
  is_u8 a → is_u8 b → is_u8 c → is_u8 d →
  Z.lor (Z.lor (Z.lor (u32 (Z.shiftl a 24)) (u32 (Z.shiftl b 16)))
               (u32 (Z.shiftl c 8))) d
  = ((a * 256 + b) * 256 + c) * 256 + d.
Proof.
  unfold is_u8, u32. intros.
  rewrite !(Z.mod_small (Z.shiftl _ _)) by (rewrite Z.shiftl_mul_pow2 by done; lia).
  rewrite <-!Z.lor_assoc, (lor_shiftl_add c d 8) by lia.
  rewrite (lor_shiftl_add b) by lia. rewrite (lor_shiftl_add a) by lia. lia.
Qed.

(** A property of a small range, decided by evaluation. *)
Lemma forallb_range (P : Z → bool) n :
  forallb P (seqZ 0 n) = true → ∀ i, 0 <= i < n → P i = true.
Proof.
  intros H i Hi. rewrite forallb_forall in H. apply H.
  apply list_elem_of_In, elem_of_seqZ. lia.
Qed.

(** Induction three elements at a time. *)
Lemma list_ind_3 {A} (P : list A → Prop) :
  P [] → (∀ x, P [x]) → (∀ x y, P [x; y]) →
  (∀ x y z l, P l → P (x :: y :: z :: l)) → ∀ l, P l.
Proof.
  intros H0 H1 H2 H3. fix IH 1.
  intros [|x [|y [|z l]]]; [apply H0|apply H1|apply H2|apply H3, IH].
Qed.

(** ** Byte/string conversions *)

Lemma ascii_of_byte_of_ascii c : ascii_of_byte (byte_of_ascii c) = c.
Proof.
  unfold ascii_of_byte, byte_of_ascii. rewrite N2Z.id. apply Ascii.ascii_N_embedding.
Qed.

Lemma byte_of_ascii_of_byte b : is_u8 b → byte_of_ascii (ascii_of_byte b) = b.
Proof.
  unfold is_u8, ascii_of_byte, byte_of_ascii. intros [? ?].
  rewrite Ascii.N_ascii_embedding by lia. lia.
Qed.

Lemma byte_of_ascii_range c : is_u8 (byte_of_ascii c).
Proof.
  unfold is_u8, byte_of_ascii. pose proof (Ascii.N_ascii_bounded c). lia.
Qed.

Lemma of_bytes_to_bytes s : of_bytes (to_bytes s) = s.
Proof. induction s; simpl; rewrite ?ascii_of_byte_of_ascii; congruence. Qed.

Lemma to_bytes_of_bytes l : bytes_ok l → to_bytes (of_bytes l) = l.
Proof.
  induction 1; simpl; [done|]. rewrite byte_of_ascii_of_byte by done. congruence.
Qed.

Lemma to_bytes_ok s : bytes_ok (to_bytes s).
Proof. induction s; constructor; auto using byte_of_ascii_range. Qed.

Lemma str_app_cons c s t : String c s +:+ t = String c (s +:+ t).
Proof. reflexivity. Qed.

Lemma str_app_nil_r s : s +:+ "" = s.
Proof. induction s as [|c s IH]; [done|]. by rewrite str_app_cons, IH. Qed.

Lemma str_app_assoc s t u : s +:+ (t +:+ u) = (s +:+ t) +:+ u.
Proof. induction s as [|c s IH]; [done|]. by rewrite !str_app_cons, IH. Qed.

Lemma to_bytes_app s t : to_bytes (s +:+ t) = to_bytes s ++ to_bytes t.
Proof. induction s as [|c s IH]; [done|]. rewrite str_app_cons. simpl. by rewrite IH. Qed.

Lemma of_bytes_app l k : of_bytes (l ++ k) = of_bytes l +:+ of_bytes k.
Proof. induction l as [|b l IH]; [done|]. simpl. by rewrite IH, str_app_cons. Qed.

Lemma length_to_bytes s : length (to_bytes s) = String.length s.
Proof. induction s; simpl; congruence. Qed.

Lemma length_of_bytes l : String.length (of_bytes l) = length l.
Proof. induction l; simpl; congruence. Qed.

Lemma to_bytes_inj s t : to_bytes s = to_bytes t → s = t.
Proof.
  intros H. by rewrite <-(of_bytes_to_bytes s), <-(of_bytes_to_bytes t), H.
Qed.

Lemma bytes_ok_app l k : bytes_ok (l ++ k) ↔ bytes_ok l ∧ bytes_ok k.
Proof. apply Forall_app. Qed.

Lemma of_chars_chars s : of_chars (chars s) = s.
Proof. induction s; simpl; congruence. Qed.

Lemma chars_of_chars l : chars (of_chars l) = l.
Proof. induction l; simpl; congruence. Qed.

Lemma chars_inj s t : chars s = chars t → s = t.
Proof. intros H. by rewrite <-(of_chars_chars s), <-(of_chars_chars t), H. Qed.

Lemma chars_app s t : chars (s +:+ t) = chars s ++ chars t.
Proof. induction s as [|c s IH]; [done|]. rewrite str_app_cons. simpl. by rewrite IH. Qed.

Lemma length_chars s : length (chars s) = String.length s.
Proof. induction s; simpl; congruence. Qed.

Lemma get_chars i s : String.get i s = chars s !! i.
Proof. revert i. induction s as [|c s IH]; intros [|i]; simpl; auto. Qed.

Lemma chars_substring a n s : chars (String.substring a n s) = take n (drop a (chars s)).
Proof.
  revert a n. induction s as [|c s IH]; intros [|a] [|n]; simpl; rewrite ?IH; auto.
Qed.

#[export] Hint Resolve u64_range u8_range land_ff_range byte_of_ascii_range to_bytes_ok : chat.
#[export] Hint Rewrite to_bytes_app of_bytes_app length_to_bytes length_of_bytes
  of_bytes_to_bytes : chat_rw.
