(* ===== verification/Util.v ===== *)
(** * [src/common/util.cpp]: string helpers, hex and base64 codecs

    Also the decimal conversions of the standard library the sources use
    ([std::to_string], [std::stoi], [std::stoul], [std::stoll]). *)
From S2P Require Import Prelude.

(** ** Characters ("C" locale) *)

Definition isspace (c : ascii) : bool :=
  let b := byte_of_ascii c in ((9 <=? b) && (b <=? 13)) || (b =? 32).

Definition tolower (c : ascii) : ascii :=
  let b := byte_of_ascii c in
  if (65 <=? b) && (b <=? 90) then ascii_of_byte (b + 32) else c.

Definition toupper (c : ascii) : ascii :=
  let b := byte_of_ascii c in
  if (97 <=? b) && (b <=? 122) then ascii_of_byte (b - 32) else c.

(** ** [trim], [split], [to_lower], [to_upper] *)

Definition isspace_at (s : string) (i : nat) : bool :=
  match String.get i s with Some c => isspace c | None => false end.

(** [while (a < b && isspace(s[a])) ++a;] with [n = b - a] iterations left. *)
Fixpoint skip_front (n : nat) (s : string) (a : nat) : nat :=
  match n with
  | O => a
  | S n => if isspace_at s a then skip_front n s (S a) else a
  end.

(** [while (b > a && isspace(s[b-1])) --b;] with [n = b - a] iterations left. *)
Fixpoint skip_back (n : nat) (s : string) (b : nat) : nat :=
  match n with
  | O => b
  | S n => if isspace_at s (b - 1) then skip_back n s (b - 1) else b
  end.

Definition trim (s : string) : string :=
  let a := skip_front (String.length s) s 0 in
  let b := skip_back (String.length s - a) s (String.length s) in
  String.substring a (b - a) s.

Fixpoint split_loop (s : string) (d : ascii) (out : list string) (cur : string)
    : list string :=
  match s with
  | EmptyString => out ++ [cur]
  | String c s =>
      if Ascii.eqb c d then split_loop s d (out ++ [cur]) ""
      else split_loop s d out (cur +:+ String c "")
  end.

Definition split (s : string) (d : ascii) : list string := split_loop s d [] "".

Definition to_lower (s : string) : string := of_chars (tolower <$> chars s).
Definition to_upper (s : string) : string := of_chars (toupper <$> chars s).

(** ** Hexadecimal *)

Definition kHex : string := "0123456789abcdef".

(** [table[i]] for an index the code has masked into range. *)
Definition char_at (table : string) (i : Z) : ascii :=
  default (ascii_of_byte 0) (String.get (Z.to_nat i) table).

Fixpoint hex_encode (data : list Z) : string :=
  match data with
  | [] => ""
  | b :: data =>
      String (char_at kHex (Z.land (Z.shiftr b 4) 15))
        (String (char_at kHex (Z.land b 15)) (hex_encode data))
  end.

Definition hex_val (c : ascii) : Z :=
  let b := byte_of_ascii c in
  if (48 <=? b) && (b <=? 57) then b - 48
  else if (97 <=? b) && (b <=? 102) then 10 + (b - 97)
  else if (65 <=? b) && (b <=? 70) then 10 + (b - 65)
  else -1.

(** The loop of [hex_decode]; [None] is the early [return {}]. *)
Fixpoint hex_decode_loop (s : string) (out : list Z) : option (list Z) :=
  match s with
  | String c1 (String c2 s) =>
      let hi := hex_val c1 in
      let lo := hex_val c2 in
      if (hi <? 0) || (lo <? 0) then None
      else hex_decode_loop s (out ++ [u8 (Z.lor (Z.shiftl hi 4) lo)])
  | _ => Some out
  end.

Definition hex_decode (s : string) : list Z :=
  if negb (Nat.even (String.length s)) then []
  else default [] (hex_decode_loop s []).

(** ** Base64 *)

Definition kB64 : string :=
  "ABCDEFGHIJKLMNOPQRSTUVWXYZabcdefghijklmnopqrstuvwxyz0123456789+/".

Definition b64_at (v : Z) : ascii := char_at kB64 (Z.land v 63).

Fixpoint base64_encode (data : list Z) : string :=
  match data with
  | d0 :: d1 :: d2 :: data =>
      let v := Z.lor (Z.lor (Z.shiftl d0 16) (Z.shiftl d1 8)) d2 in
      String (b64_at (Z.shiftr v 18)) (String (b64_at (Z.shiftr v 12))
        (String (b64_at (Z.shiftr v 6)) (String (b64_at v) (base64_encode data))))
  | [d0; d1] =>
      let v := Z.lor (Z.shiftl d0 16) (Z.shiftl d1 8) in
      String (b64_at (Z.shiftr v 18)) (String (b64_at (Z.shiftr v 12))
        (String (b64_at (Z.shiftr v 6)) (String "="%char "")))
  | [d0] =>
      let v := Z.shiftl d0 16 in
      String (b64_at (Z.shiftr v 18)) (String (b64_at (Z.shiftr v 12))
        (String "="%char (String "="%char "")))
  | [] => ""
  end.

(** The table [T]: -1 everywhere, then [T[kB64[i]] = i] for [i = 0..63]. *)
Fixpoint b64_table (alphabet : string) (i : Z) (c : ascii) (t : Z) : Z :=
  match alphabet with
  | EmptyString => t
  | String a alphabet => b64_table alphabet (i + 1) c (if Ascii.eqb a c then i else t)
  end.

Definition b64_val (c : ascii) : Z := b64_table kB64 0 c (-1).

(** The padding and line-break characters [base64_decode] skips. *)
Definition b64_skipped (c : ascii) : bool :=
  let b := byte_of_ascii c in (b =? 61) || (b =? 10) || (b =? 13) || (b =? 32).

(** The loop state is [out], the 32-bit accumulator [v] and [bits]. *)
Fixpoint base64_decode_loop (s : string) (out : list Z) (v bits : Z) : option (list Z) :=
  match s with
  | EmptyString => Some out
  | String c s =>
      if b64_skipped c then base64_decode_loop s out v bits
      else
        let t := b64_val c in
        if t <? 0 then None
        else
          let v := Z.lor (u32 (Z.shiftl v 6)) t in
          let bits := bits + 6 in
          if 8 <=? bits then
            let bits := bits - 8 in
            base64_decode_loop s (out ++ [Z.land (Z.shiftr v bits) 255]) v bits
          else base64_decode_loop s out v bits
  end.

(** The source fills a static table on the first call, without a lock; here the
    table is [b64_val]. *)
Definition base64_decode (s : string) : list Z :=
  default [] (base64_decode_loop s [] 0 0).

(** ** Random bytes *)

(** [while (got < n)]: each element is what one [read] of the device returned, at
    most the bytes asked for; an empty one is an error or the end. *)
Fixpoint urandom_loop (reads : list (list Z)) (n : nat) : list Z :=
  match n, reads with
  | O, _ | _, [] => []
  | S _, r :: reads =>
      match take n r with
      | [] => []
      | got => got ++ urandom_loop reads (n - length got)
      end
  end.

(** [random_bytes]: the device when it opens and delivers all of it, else the
    generator [g], seeded from [std::random_device]. *)
Definition fill_random (device : option (list (list Z))) (g : nat → list Z) (n : nat) : list Z :=
  match device with
  | Some reads =>
      let got := urandom_loop reads n in
      if (length got =? n)%nat then got else g n
  | None => g n
  end.

(** ** C strings *)

(** A [std::string] made from a C string ends at the first NUL. *)
Fixpoint cstr (s : string) : string :=
  match s with
  | EmptyString => EmptyString
  | String c s => if Ascii.eqb c "000" then EmptyString else String c (cstr s)
  end.

(** ** Decimal conversions of the standard library *)

Fixpoint dec_digits (fuel : nat) (n : Z) (acc : string) : string :=
  match fuel with
  | O => acc
  | S fuel =>
      let acc := String (ascii_of_byte (48 + n mod 10)) acc in
      if n <? 10 then acc else dec_digits fuel (n / 10) acc
  end.

(** [std::to_string] of a 64-bit integer: at most 20 digits. *)
Definition to_string (n : Z) : string :=
  if n <? 0 then "-" +:+ dec_digits 20 (- n) "" else dec_digits 20 n "".

Definition isdigit (c : ascii) : bool :=
  let b := byte_of_ascii c in (48 <=? b) && (b <=? 57).

(** The digits [strtol] consumes; [None] when there is none. *)
Fixpoint scan_digits (s : string) (acc : option Z) : option Z :=
  match s with
  | String c s' =>
      if isdigit c
      then scan_digits s' (Some (default 0 acc * 10 + (byte_of_ascii c - 48)))
      else acc
  | EmptyString => acc
  end.

Fixpoint skip_spaces (s : string) : string :=
  match s with
  | String c s' => if isspace c then skip_spaces s' else s
  | EmptyString => s
  end.

(** Optional sign and digits after leading white space: the sign and magnitude
    [strtol]/[strtoul] read in base 10. *)
Definition scan_int (s : string) : option (bool * Z) :=
  match skip_spaces s with
  | String c s' =>
      if Ascii.eqb c "-" then (λ m, (true, m)) <$> scan_digits s' None
      else if Ascii.eqb c "+" then (λ m, (false, m)) <$> scan_digits s' None
      else (λ m, (false, m)) <$> scan_digits (String c s') None
  | EmptyString => None
  end.

Definition sto_signed (lo hi : Z) (s : string) : outcome Z :=
  match scan_int s with
  | None => Throw InvalidArgument
  | Some (neg, m) =>
      let z := if neg then - m else m in
      if (lo <=? z) && (z <=? hi) then Ret z else Throw OutOfRange
  end.

(** [std::stoi] and [std::stoll]. *)
Definition stoi : string → outcome Z := sto_signed (-2147483648) 2147483647.
Definition stoll : string → outcome Z :=
  sto_signed (-9223372036854775808) 9223372036854775807.

(** [std::stoul] with a 64-bit [unsigned long]: a minus sign negates modulo 2^64. *)
Definition stoul (s : string) : outcome Z :=
  match scan_int s with
  | None => Throw InvalidArgument
  | Some (neg, m) =>
      if u64_max <? m then Throw OutOfRange
      else Ret (if neg then u64 (- m) else m)
  end.

(** ** Reference notions *)

Definition all_space (s : string) : Prop := Forall (λ c, isspace c = true) (chars s).

(** [join d l] puts [d] between the elements of [l]. *)
Fixpoint join (d : ascii) (l : list string) : string :=
  match l with
  | [] => ""
  | [s] => s
  | s :: l => s +:+ String d (join d l)
  end.

(** ** [trim] *)

Lemma skip_front_spec n s a :
  (a <= skip_front n s a <= a + n)%nat ∧
  (∀ i c, (a <= i < skip_front n s a)%nat → chars s !! i = Some c → isspace c = true) ∧
  ((skip_front n s a < a + n)%nat → ∀ c, chars s !! skip_front n s a = Some c → isspace c = false).
Proof.
  revert a. induction n as [|n IH]; intros a; simpl.
  - split; [lia|]. split; intros; lia.
  - unfold isspace_at. rewrite get_chars. destruct (chars s !! a) as [c|] eqn:Ha.
    + destruct (isspace c) eqn:Hc.
      * destruct (IH (S a)) as (H1 & H2 & H3). split; [lia|]. split.
        -- intros i c' Hi Hl. destruct (decide (i = a)) as [->|]; [congruence|].
           apply (H2 i); [lia|done].
        -- intros Hlt. apply H3. lia.
      * split; [lia|]. split; intros; [lia|congruence].
    + split; [lia|]. split; intros; [lia|congruence].
Qed.

Lemma skip_back_spec n s b :
  (n <= b)%nat →
  (b - n <= skip_back n s b <= b)%nat ∧
  (∀ i c, (skip_back n s b <= i < b)%nat → chars s !! i = Some c → isspace c = true) ∧
  ((b - n < skip_back n s b)%nat → ∀ c, chars s !! (skip_back n s b - 1)%nat = Some c → isspace c = false).
Proof.
  revert b. induction n as [|n IH]; intros b Hb; simpl.
  - split; [lia|]. split; intros; lia.
  - unfold isspace_at. rewrite get_chars. destruct (chars s !! (b - 1)%nat) as [c|] eqn:Ha.
    + destruct (isspace c) eqn:Hc.
      * destruct (IH (b - 1)%nat) as (H1 & H2 & H3); [lia|]. split; [lia|]. split.
        -- intros i c' Hi Hl. destruct (decide (i = b - 1)%nat) as [->|]; [congruence|].
           apply (H2 i); [lia|done].
        -- intros Hlt. apply H3. lia.
      * split; [lia|]. split; intros; [lia|congruence].
    + split; [lia|]. split; intros; [lia|congruence].
Qed.

(** A list cut at two positions. *)
Lemma take_drop_middle {A} (l : list A) a b :
  (a <= b)%nat → l = take a l ++ take (b - a) (drop a l) ++ drop b l.
Proof.
  intros H. rewrite <-(take_drop a l) at 1. f_equal.
  rewrite <-(take_drop (b - a) (drop a l)) at 1. rewrite drop_drop. do 2 f_equal. lia.
Qed.

Lemma Forall_take_lookup {A} (P : A → Prop) (l : list A) n :
  (∀ i x, (i < n)%nat → l !! i = Some x → P x) → Forall P (take n l).
Proof.
  intros H. apply Forall_lookup. intros i x Hx.
  apply lookup_take_Some in Hx as [Hx Hi]. eauto.
Qed.

Lemma Forall_drop_lookup {A} (P : A → Prop) (l : list A) n :
  (∀ i x, (n <= i)%nat → l !! i = Some x → P x) → Forall P (drop n l).
Proof.
  intros H. apply Forall_lookup. intros i x Hx. rewrite lookup_drop in Hx.
  apply (H (n + i)%nat); [lia|done].
Qed.

(** [trim] removes exactly the maximal white-space prefix and suffix: the
    string is white space, the result, white space; and the result neither
    starts nor ends with white space. *)
Lemma trim_correct s :
  ∃ l r, s = l +:+ trim s +:+ r ∧ all_space l ∧ all_space r ∧
    (∀ c, head (chars (trim s)) = Some c → isspace c = false) ∧
    (∀ c, last (chars (trim s)) = Some c → isspace c = false).
Proof.
  pose proof (skip_front_spec (String.length s) s 0) as (Ha1 & Ha2 & Ha3).
  unfold trim. set (a := skip_front (String.length s) s 0) in *.
  pose proof (skip_back_spec (String.length s - a) s (String.length s) ltac:(lia))
    as (Hb1 & Hb2 & Hb3).
  set (b := skip_back (String.length s - a) s (String.length s)) in *.
  pose proof (length_chars s) as Hlen.
  exists (of_chars (take a (chars s))), (of_chars (drop b (chars s))).
  unfold all_space. rewrite chars_substring, !chars_of_chars.
  split_and!.
  - apply chars_inj. rewrite !chars_app, chars_substring, !chars_of_chars.
    apply take_drop_middle. lia.
  - apply Forall_take_lookup. intros i c ? Hi. apply (Ha2 i); [lia|done].
  - apply Forall_drop_lookup. intros i c ? Hi. apply (Hb2 i); [|done].
    apply lookup_lt_Some in Hi. lia.
  - intros c Hc. rewrite head_lookup, lookup_take_Some, lookup_drop in Hc.
    destruct Hc as [Hc ?]. rewrite Nat.add_0_r in Hc. apply Ha3; [lia|done].
  - intros c Hc. rewrite last_lookup, lookup_take_Some, lookup_drop, length_take, length_drop in Hc.
    destruct Hc as [Hc ?]. apply Hb3; [lia|]. rewrite <-Hc. f_equal. lia.
Qed.

(** ** [split] *)

Lemma join_snoc d l s : l ≠ [] → join d (l ++ [s]) = join d l +:+ String d s.
Proof.
  induction l as [|x [|y l] IH]; intros Hne; [done|done|].
  change (join d ((x :: y :: l) ++ [s])) with (x +:+ String d (join d ((y :: l) ++ [s]))).
  rewrite IH by done.
  change (join d (x :: y :: l)) with (x +:+ String d (join d (y :: l))).
  by rewrite <-str_app_assoc, str_app_cons.
Qed.

Lemma split_loop_join s d out cur :
  join d (split_loop s d out cur) = join d (out ++ [cur +:+ s]).
Proof.
  revert out cur. induction s as [|c s IH]; intros out cur; simpl.
  - by rewrite str_app_nil_r.
  - destruct (Ascii.eqb_spec c d) as [->|Hne]; rewrite IH.
    + change ("" +:+ s) with s. destruct out as [|x out]; [done|].
      rewrite !join_snoc by done. by rewrite <-str_app_assoc, !str_app_cons.
    + by rewrite <-str_app_assoc, str_app_cons.
Qed.

Lemma split_loop_no_delim s d out cur :
  Forall (λ p, d ∉ chars p) out → d ∉ chars cur →
  Forall (λ p, d ∉ chars p) (split_loop s d out cur).
Proof.
  revert out cur. induction s as [|c s IH]; intros out cur Ho Hc; simpl.
  - apply Forall_app; auto.
  - destruct (Ascii.eqb_spec c d) as [->|Hne]; apply IH; auto.
    + apply Forall_app; auto.
    + apply not_elem_of_nil.
    + rewrite chars_app. simpl. intros [?|?%list_elem_of_singleton]%elem_of_app; congruence.
Qed.

(** [split] cuts the string at every delimiter and nowhere else: joining the
    pieces with the delimiter gives the string back and no piece contains it. *)
Lemma split_join s d :
  join d (split s d) = s ∧ Forall (λ p, d ∉ chars p) (split s d).
Proof.
  unfold split. split; [by rewrite split_loop_join|].
  apply split_loop_no_delim; [constructor|apply not_elem_of_nil].
Qed.

(** ** Hexadecimal *)

Lemma hex_val_char_at i : 0 <= i < 16 → hex_val (char_at kHex i) = i.
Proof.
  intros Hi. apply Z.eqb_eq.
  by apply (forallb_range (λ i, hex_val (char_at kHex i) =? i) 16).
Qed.

Lemma land_15 z : Z.land z 15 = z mod 16.
Proof. change 15 with (Z.ones 4). by rewrite Z.land_ones. Qed.

Lemma land_63 z : Z.land z 63 = z mod 64.
Proof. change 63 with (Z.ones 6). by rewrite Z.land_ones. Qed.

Lemma hex_decode_loop_encode l out :
  bytes_ok l → hex_decode_loop (hex_encode l) out = Some (out ++ l).
Proof.
  intros Hl. revert out. induction Hl as [|b l Hb Hl IH]; intros out; simpl.
  - by rewrite app_nil_r.
  - unfold is_u8 in Hb. rewrite !land_15, Z.shiftr_div_pow2 by done.
    change (2 ^ 4) with 16.
    rewrite !hex_val_char_at by (apply Z.mod_pos_bound; done).
    rewrite !(proj2 (Z.ltb_ge _ _)) by (apply Z.mod_pos_bound; done). simpl.
    rewrite IH, <-app_assoc. simpl. do 3 f_equal.
    rewrite lor_shiftl_add by (try done; apply Z.mod_pos_bound; done).
    unfold u8. change (2 ^ 4) with 16. Z.div_mod_to_equations. lia.
Qed.

Lemma hex_encode_length l : String.length (hex_encode l) = (2 * length l)%nat.
Proof. induction l; simpl; lia. Qed.

(** [hex_decode] inverts [hex_encode] on every byte string. *)
Lemma hex_roundtrip l : bytes_ok l → hex_decode (hex_encode l) = l.
Proof.
  intros Hl. unfold hex_decode. rewrite hex_encode_length, hex_decode_loop_encode by done.
  replace (Nat.even (2 * length l)) with true; [done|].
  symmetry. apply Nat.even_spec. by exists (length l).
Qed.

(** ** Base64 *)

Lemma b64_val_at i : b64_val (b64_at i) = i mod 64 ∧ b64_skipped (b64_at i) = false.
Proof.
  unfold b64_at. rewrite land_63.
  pose proof (Z.mod_pos_bound i 64 eq_refl) as Hi.
  set (k := i mod 64) in *. clearbody k.
  assert (((b64_val (char_at kB64 k) =? k) && negb (b64_skipped (char_at kB64 k))) = true) as H.
  { by apply (forallb_range (λ k, (b64_val (char_at kB64 k) =? k) &&
      negb (b64_skipped (char_at kB64 k))) 64). }
  by to_prop.
Qed.

(** One character of the alphabet shifts six bits in and emits a byte when
    eight are available. *)
Lemma base64_decode_step i s out v bits :
  0 <= bits <= 6 →
  base64_decode_loop (String (b64_at i) s) out v bits =
  let v' := (v * 64) mod 4294967296 + i mod 64 in
  if bits <? 2 then base64_decode_loop s out v' (bits + 6)
  else base64_decode_loop s (out ++ [(v' / 2 ^ (bits - 2)) mod 256]) v' (bits - 2).
Proof.
  intros Hb. cbn [base64_decode_loop]. destruct (b64_val_at i) as [-> ->].
  pose proof (Z.mod_pos_bound i 64 eq_refl) as Hi.
  rewrite (proj2 (Z.ltb_ge _ _)) by lia.
  assert (Z.lor (u32 (Z.shiftl v 6)) (i mod 64) = (v * 64) mod 4294967296 + i mod 64) as ->.
  { unfold u32. rewrite Z.shiftl_mul_pow2 by done. change (2 ^ 6) with 64.
    replace ((v * 64) mod 4294967296) with (Z.shiftl (v mod 67108864) 6).
    - rewrite lor_shiftl_add by done. by rewrite Z.shiftl_mul_pow2.
    - rewrite Z.shiftl_mul_pow2 by done. change 4294967296 with (67108864 * 64).
      by rewrite Z.mul_mod_distr_r. }
  cbv zeta. destruct (8 <=? bits + 6) eqn:E; to_prop.
  - rewrite (proj2 (Z.ltb_ge _ _)), land_ff, Z.shiftr_div_pow2 by lia. by replace (bits + 6 - 8) with (bits - 2) by lia.
  - by rewrite (proj2 (Z.ltb_lt _ _)) by lia.
Qed.

(** Run [base64_decode_step] at a literal bit count and evaluate it. *)
Ltac b64_step k :=
  rewrite (base64_decode_step _ _ _ _ k) by lia; cbv zeta;
  let t := eval vm_compute in (k <? 2) in change (k <? 2) with t; cbv iota;
  let a := eval vm_compute in (k + 6) in change (k + 6) with a;
  let b := eval vm_compute in (k - 2) in change (k - 2) with b.

Lemma base64_group d0 d1 d2 w s out v :
  is_u8 d0 → is_u8 d1 → is_u8 d2 → w = d0 * 65536 + d1 * 256 + d2 →
  ∃ v', base64_decode_loop
    (String (b64_at (w / 262144)) (String (b64_at (w / 4096))
      (String (b64_at (w / 64)) (String (b64_at w) s)))) out v 0
  = base64_decode_loop s (out ++ [d0; d1; d2]) v' 0.
Proof.
  unfold is_u8. intros H0 H1 H2 Hw.
  b64_step 0. b64_step 6. b64_step 4. b64_step 2.
  eexists. rewrite <-!app_assoc. simpl app.
  f_equal. f_equal. f_equal; [|f_equal; [|f_equal]].
  all: change (2 ^ 4) with 16; change (2 ^ 2) with 4; change (2 ^ 0) with 1.
  all: Z.div_mod_to_equations; lia.
Qed.

Lemma base64_tail2 d0 d1 w out v :
  is_u8 d0 → is_u8 d1 → w = d0 * 65536 + d1 * 256 →
  base64_decode_loop (String (b64_at (w / 262144)) (String (b64_at (w / 4096))
    (String (b64_at (w / 64)) "="))) out v 0 = Some (out ++ [d0; d1]).
Proof.
  unfold is_u8. intros H0 H1 Hw. b64_step 0. b64_step 6. b64_step 4. simpl.
  rewrite <-!app_assoc. simpl app. f_equal. f_equal. f_equal; [|f_equal].
  all: Z.div_mod_to_equations; lia.
Qed.

Lemma base64_tail1 d0 w out v :
  is_u8 d0 → w = d0 * 65536 →
  base64_decode_loop (String (b64_at (w / 262144)) (String (b64_at (w / 4096)) "==")) out v 0
  = Some (out ++ [d0]).
Proof.
  unfold is_u8. intros H0 Hw. b64_step 0. b64_step 6. simpl.
  f_equal. f_equal. f_equal. Z.div_mod_to_equations. lia.
Qed.

(** The shifts of the encoder as divisions of the group's 24-bit value. *)
Lemma b64_group_val d0 d1 d2 :
  is_u8 d1 → is_u8 d2 →
  Z.lor (Z.lor (Z.shiftl d0 16) (Z.shiftl d1 8)) d2 = d0 * 65536 + d1 * 256 + d2.
Proof.
  unfold is_u8. intros H1 H2. rewrite <-Z.lor_assoc, (lor_shiftl_add d1), lor_shiftl_add by lia.
  change (2 ^ 16) with 65536. lia.
Qed.

Lemma b64_pair_val d0 d1 :
  is_u8 d1 → Z.lor (Z.shiftl d0 16) (Z.shiftl d1 8) = d0 * 65536 + d1 * 256.
Proof.
  intros H1. rewrite <-(Z.lor_0_r (Z.lor _ _)), b64_group_val by done. lia.
Qed.

Ltac b64_shifts :=
  rewrite !Z.shiftr_div_pow2 by done;
  change (2 ^ 18) with 262144; change (2 ^ 12) with 4096; change (2 ^ 6) with 64.

Lemma base64_decode_loop_encode l out v :
  bytes_ok l → base64_decode_loop (base64_encode l) out v 0 = Some (out ++ l).
Proof.
  unfold bytes_ok. revert out v.
  induction l as [|d0|d0 d1|d0 d1 d2 l IH] using list_ind_3; intros out v Hl; cbn [base64_encode].
  - simpl. by rewrite app_nil_r.
  - apply Forall_cons in Hl as [H0 _]. b64_shifts. apply base64_tail1; [done|].
    by rewrite Z.shiftl_mul_pow2.
  - apply Forall_cons in Hl as [H0 [H1 _]%Forall_cons]. rewrite b64_pair_val by done.
    b64_shifts. by apply base64_tail2.
  - apply Forall_cons in Hl as [H0 [H1 [H2 Hl]%Forall_cons]%Forall_cons].
    rewrite b64_group_val by done. b64_shifts.
    destruct (base64_group d0 d1 d2 _ (base64_encode l) out v H0 H1 H2 eq_refl) as [v' ->].
    rewrite IH by done. by rewrite <-app_assoc.
Qed.

(** [base64_decode] inverts [base64_encode] on every byte string: the
    32-bit accumulator, whose high bits overflow, never leaks into a byte. *)
Theorem base64_roundtrip l : bytes_ok l → base64_decode (base64_encode l) = l.
Proof. intros Hl. unfold base64_decode. by rewrite base64_decode_loop_encode. Qed.

Lemma base64_roundtrip_witness : base64_decode "AAEC/w==" = [0; 1; 2; 255].
Proof. apply (base64_roundtrip [0; 1; 2; 255]). repeat constructor; done. Defined.

(** No character of an encoded text is the field separator of password hashes. *)
Lemma b64_at_not_dollar i : b64_at i ≠ "$"%char.
Proof.
  unfold b64_at. rewrite land_63.
  pose proof (Z.mod_pos_bound i 64 eq_refl) as Hi.
  pose proof (forallb_range (λ k, negb (Ascii.eqb (char_at kB64 k) "$")) 64 eq_refl _ Hi) as H.
  apply negb_true_iff in H. by apply Ascii.eqb_neq.
Qed.

Lemma base64_no_dollar l : "$"%char ∉ chars (base64_encode l).
Proof.
  induction l as [|d0|d0 d1|d0 d1 d2 l IH] using list_ind_3; cbn [base64_encode chars];
    rewrite ?elem_of_cons; [by apply not_elem_of_nil|..];
    intros H; repeat match type of H with _ ∨ _ => destruct H as [H|H] end;
    first [done | exact (b64_at_not_dollar _ (eq_sym H)) | by apply not_elem_of_nil in H].
Qed.

(** ** Decimal *)

Lemma digit_char k :
  0 <= k < 10 →
  byte_of_ascii (ascii_of_byte (48 + k)) = 48 + k ∧ isdigit (ascii_of_byte (48 + k)) = true.
Proof.
  intros Hk. unfold isdigit. rewrite byte_of_ascii_of_byte by (unfold is_u8; lia).
  split; [done|]. apply andb_true_intro. split; apply Z.leb_le; lia.
Qed.

(** Decimal digits avoid every other character. *)
Lemma dec_digits_avoid c fuel n acc :
  isdigit c = false → c ∉ chars acc → c ∉ chars (dec_digits fuel n acc).
Proof.
  intros Hc. revert n acc. induction fuel as [|fuel IH]; intros n acc Ha; [done|]. cbn [dec_digits].
  assert (c ∉ chars (String (ascii_of_byte (48 + n mod 10)) acc)) as Hs.
  { cbn [chars]. rewrite not_elem_of_cons. split; [|done]. intros ->.
    by rewrite (proj2 (digit_char _ (Z.mod_pos_bound n 10 eq_refl))) in Hc. }
  destruct (n <? 10); [done|]. by apply IH.
Qed.

Lemma to_string_avoid c n : 0 <= n → isdigit c = false → c ∉ chars (to_string n).
Proof.
  intros Hn Hc. unfold to_string. rewrite (proj2 (Z.ltb_ge _ _)) by lia.
  apply dec_digits_avoid; [done|]. apply not_elem_of_nil.
Qed.

Lemma cstr_id s : "000"%char ∉ chars s → cstr s = s.
Proof.
  induction s as [|c s IH]; [done|]. cbn [chars cstr]. rewrite not_elem_of_cons. intros [Hc Hs].
  destruct (Ascii.eqb_spec c "000") as [->|]; [done|]. by rewrite IH.
Qed.

Lemma cstr_to_string n : 0 <= n → cstr (to_string n) = to_string n.
Proof.
  intros Hn. by apply cstr_id, to_string_avoid.
Qed.

Lemma scan_digits_digit k s acc :
  0 <= k < 10 →
  scan_digits (String (ascii_of_byte (48 + k)) s) acc = scan_digits s (Some (default 0 acc * 10 + k)).
Proof.
  intros Hk. destruct (digit_char k Hk) as [Hb Hd]. cbn [scan_digits]. rewrite Hd, Hb.
  do 2 f_equal. lia.
Qed.

Lemma scan_digits_dec fuel n s :
  0 <= n < 10 ^ Z.of_nat (S fuel) →
  scan_digits (dec_digits (S fuel) n s) None = scan_digits s (Some n).
Proof.
  revert n s. induction fuel as [|fuel IH]; intros n s Hn.
  all: pose proof (Z.mod_pos_bound n 10 eq_refl) as Hm.
  - vm_compute (10 ^ Z.of_nat 1) in Hn. cbn [dec_digits]. rewrite (proj2 (Z.ltb_lt _ _)) by lia.
    rewrite scan_digits_digit by done. rewrite Z.mod_small by lia. done.
  - change (dec_digits (S (S fuel)) n s) with
      (if n <? 10 then String (ascii_of_byte (48 + n mod 10)) s
       else dec_digits (S fuel) (n / 10) (String (ascii_of_byte (48 + n mod 10)) s)).
    rewrite Nat2Z.inj_succ, Z.pow_succ_r in Hn by lia. destruct (n <? 10) eqn:E; to_prop.
    + rewrite scan_digits_digit by done. rewrite Z.mod_small by lia. done.
    + rewrite IH by (split; [apply Z.div_pos; lia|apply Z.div_lt_upper_bound; lia]).
      rewrite scan_digits_digit by done. simpl default. do 2 f_equal.
      Z.div_mod_to_equations. lia.
Qed.

Lemma dec_digits_head fuel n s :
  0 <= n → ∃ c t, dec_digits (S fuel) n s = String c t ∧ isdigit c = true.
Proof.
  revert n s. induction fuel as [|fuel IH]; intros n s Hn.
  all: pose proof (Z.mod_pos_bound n 10 eq_refl) as Hm.
  all: destruct (digit_char (n mod 10) Hm) as [Hb Hd].
  - cbn [dec_digits]. destruct (n <? 10); eauto.
  - change (dec_digits (S (S fuel)) n s) with
      (if n <? 10 then String (ascii_of_byte (48 + n mod 10)) s
       else dec_digits (S fuel) (n / 10) (String (ascii_of_byte (48 + n mod 10)) s)).
    destruct (n <? 10); [eauto|]. apply IH. by apply Z.div_pos.
Qed.

Lemma digit_not_space_sign c :
  isdigit c = true → isspace c = false ∧ Ascii.eqb c "-" = false ∧ Ascii.eqb c "+" = false.
Proof. destruct c as [[] [] [] [] [] [] [] []]; vm_compute; auto. Qed.

Lemma scan_int_to_string n :
  is_u64 n → scan_int (to_string n) = Some (false, n).
Proof.
  intros [Hn Hmax]. unfold to_string, scan_int. rewrite (proj2 (Z.ltb_ge _ _)) by lia.
  destruct (dec_digits_head 19 n "" Hn) as (c & t & Heq & Hd).
  destruct (digit_not_space_sign c Hd) as (Hs & Hm & Hp).
  pose proof (scan_digits_dec 19 n "") as Hscan. rewrite Heq in *.
  simpl skip_spaces. rewrite Hs, Hm, Hp, Hscan; [done|]. simpl. lia.
Qed.

(** [std::stoul] reads back what [std::to_string] wrote (the iteration count
    stored in a password hash is read this way). *)
Lemma stoul_to_string n : is_u64 n → stoul (to_string n) = Ret n.
Proof.
  intros Hn. unfold stoul. rewrite scan_int_to_string by done.
  unfold u64_max. destruct Hn. by rewrite (proj2 (Z.ltb_ge _ _)) by lia.
Qed.

Lemma stoi_to_string n : 0 <= n <= 2147483647 → stoi (to_string n) = Ret n.
Proof.
  intros Hn. unfold stoi, sto_signed. rewrite scan_int_to_string by (unfold is_u64; lia).
  by rewrite (proj2 (Z.leb_le _ _)), (proj2 (Z.leb_le _ _)) by lia.
Qed.

(** However the reads are cut, exactly [n] bytes are produced. *)
Lemma fill_random_length device g n : length (g n) = n → length (fill_random device g n) = n.
Proof.
  intros Hg. unfold fill_random. destruct device as [reads|]; [|done].
  destruct (Nat.eqb_spec (length (urandom_loop reads n)) n); done.
Qed.
