(* ===== verification/Framing.v ===== *)
(** * Wire framing: [src/protocol/framing.cpp], [include/protocol/framing.h]

    [frame] prepends the 4-byte big-endian length; [FrameDecoder.feed] is the
    incremental decoder used by the client.  The body of the source's [for(;;)]
    is [feed_step]; the loop is well-founded on the number of buffered bytes. *)
From Stdlib Require Import Wf_nat.
From Equations Require Import Equations.
From S2P Require Import Prelude.

(** The four header bytes, most significant first ([out[0] .. out[3]]). *)
Definition be32 (len : Z) : list Z :=
  [Z.land (Z.shiftr len 24) 255; Z.land (Z.shiftr len 16) 255;
   Z.land (Z.shiftr len 8) 255; Z.land len 255].

(** [(buf[0] << 24) | (buf[1] << 16) | (buf[2] << 8) | buf[3]] at 32 bits. *)
Definition load_be32 (b0 b1 b2 b3 : Z) : Z :=
  Z.lor (Z.lor (Z.lor (u32 (Z.shiftl b0 24)) (u32 (Z.shiftl b1 16)))
               (u32 (Z.shiftl b2 8))) b3.

Definition frame (payload : string) : string :=
  let len := u32 (Z.of_nat (String.length payload)) in
  of_bytes (be32 len) +:+ payload.

Record FrameDecoder := mkDecoder {
  buf : list Z;
  reading_len : bool;
  want : Z;
  max_frame_bytes : Z;
}.

(** A default-constructed [FrameDecoder]. *)
Definition decoder_init : FrameDecoder := mkDecoder [] true 4 65536.

(** How one iteration of the [for(;;)] ends. *)
Inductive feed_result :=
| FeedBreak (d : FrameDecoder)
| FeedThrow (e : exn) (d : FrameDecoder)
| FeedFrame (payload : string) (d : FrameDecoder).

(** The second half of an iteration: emit one payload if it is complete. *)
Definition feed_payload (d : FrameDecoder) : feed_result :=
  if Z.of_nat (length d.(buf)) <? d.(want) then FeedBreak d
  else
    let n := Z.to_nat d.(want) in
    FeedFrame (of_bytes (take n d.(buf)))
              (mkDecoder (drop n d.(buf)) true 4 d.(max_frame_bytes)).

(** One iteration: read the length header if it is due, then the payload. *)
Definition feed_step (d : FrameDecoder) : feed_result :=
  if d.(reading_len) then
    match d.(buf) with
    | b0 :: b1 :: b2 :: b3 :: rest =>
        let len := load_be32 b0 b1 b2 b3 in
        if len =? 0 then FeedThrow (RuntimeError "zero-length frame") d
        else if d.(max_frame_bytes) <? len then
          FeedThrow (RuntimeError "frame exceeds max_frame_bytes") d
        else feed_payload (mkDecoder rest false len d.(max_frame_bytes))
    | _ => FeedBreak d
    end
  else feed_payload d.

Definition feed_measure (d : FrameDecoder) : nat :=
  (length d.(buf) + (if d.(reading_len) then 0 else 1))%nat.

Lemma feed_payload_measure d p d' :
  feed_payload d = FeedFrame p d' → (feed_measure d' <= length d.(buf))%nat.
Proof.
  unfold feed_payload. case_match; [done|]. intros [= _ <-].
  unfold feed_measure; simpl. rewrite length_drop. lia.
Qed.

Lemma feed_step_measure d p d' :
  feed_step d = FeedFrame p d' → (feed_measure d' < feed_measure d)%nat.
Proof.
  unfold feed_step. destruct (reading_len d) eqn:Hr.
  - destruct (buf d) as [|b0 [|b1 [|b2 [|b3 rest]]]] eqn:Hb; try done.
    repeat case_match; try done. intros Hs%feed_payload_measure.
    unfold feed_measure at 2. rewrite Hr, Hb. simpl in *. lia.
  - intros Hs%feed_payload_measure. unfold feed_measure at 2. rewrite Hr. lia.
Qed.

Definition inspect {A : Type} (a : A) : {b : A | a = b} := exist _ a eq_refl.

Equations? feed_loop (d : FrameDecoder) (frames : list string)
    : outcome (list string) * FrameDecoder by wf (feed_measure d) lt :=
  feed_loop d frames with inspect (feed_step d) => {
    | exist _ (FeedBreak d') _ := (Ret frames, d');
    | exist _ (FeedThrow e d') _ := (Throw e, d');
    | exist _ (FeedFrame p d') H := feed_loop d' (frames ++ [p]) }.
Proof. by eapply feed_step_measure. Qed.

(** [FrameDecoder::feed]: append the chunk, then decode what is complete.  A
    throw loses the local [frames] vector, as in the source. *)
Definition feed (d : FrameDecoder) (data : string)
    : outcome (list string) * FrameDecoder :=
  feed_loop (mkDecoder (d.(buf) ++ to_bytes data) d.(reading_len) d.(want)
               d.(max_frame_bytes)) [].

(** Feed a sequence of chunks, collecting every frame; stop at the first throw. *)
Fixpoint feed_all (d : FrameDecoder) (chunks : list string)
    : outcome (list string) * FrameDecoder :=
  match chunks with
  | [] => (Ret [], d)
  | c :: cs =>
      match feed d c with
      | (Throw e, d') => (Throw e, d')
      | (Ret fs, d') =>
          match feed_all d' cs with
          | (Ret gs, d'') => (Ret (fs ++ gs), d'')
          | (Throw e, d'') => (Throw e, d'')
          end
      end
  end.

(** ** Decoder states *)

(** Nothing more can be decoded without further input. *)
Definition idle (d : FrameDecoder) : Prop := feed_step d = FeedBreak d.


(** A payload the peer may send under the limit [max]. *)
Definition payload_ok (max : Z) (p : string) : Prop :=
  1 <= Z.of_nat (String.length p) <= max.

Definition buf_app (d : FrameDecoder) (l : list Z) : FrameDecoder :=
  mkDecoder (d.(buf) ++ l) d.(reading_len) d.(want) d.(max_frame_bytes).

(** The concatenation of the chunks, as the socket delivers them. *)
Definition concat_str (l : list string) : string := foldr String.append "" l.

(** ** Header bytes *)

Lemma be32_ok len : bytes_ok (be32 len).
Proof. repeat constructor; apply land_ff_range. Qed.

Lemma load_be32_be32 len :
  is_u32 len →
  load_be32 (Z.land (Z.shiftr len 24) 255) (Z.land (Z.shiftr len 16) 255)
    (Z.land (Z.shiftr len 8) 255) (Z.land len 255) = len.
Proof.
  unfold load_be32, is_u32. intros H.
  rewrite lor_be32 by apply land_ff_range.
  rewrite !land_ff, !Z.shiftr_div_pow2 by done.
  change (2 ^ 24) with (256 * 256 * 256). change (2 ^ 16) with (256 * 256).
  change (2 ^ 8) with 256. rewrite <-!Z.div_div by done.
  Z.div_mod_to_equations. lia.
Qed.


(** ** The loop *)

Lemma feed_loop_eq d fr :
  feed_loop d fr =
  match feed_step d with
  | FeedBreak d' => (Ret fr, d')
  | FeedThrow e d' => (Throw e, d')
  | FeedFrame p d' => feed_loop d' (fr ++ [p])
  end.
Proof.
  rewrite feed_loop_equation_1.
  destruct (inspect (feed_step d)) as [[d'|e d'|p d'] Hr]; simpl; by rewrite Hr.
Qed.

(** Induction that follows the loop. *)
Lemma feed_loop_ind (P : FrameDecoder → Prop) :
  (∀ d, (∀ p d', feed_step d = FeedFrame p d' → P d') → P d) → ∀ d, P d.
Proof.
  intros Hstep. apply (well_founded_induction (well_founded_ltof _ feed_measure)).
  intros d IH. apply Hstep. intros p d' H. by eapply IH, feed_step_measure.
Qed.

Lemma feed_loop_acc d fr fr' :
  feed_loop d (fr ++ fr') =
  match feed_loop d fr' with
  | (Ret fs, d') => (Ret (fr ++ fs), d')
  | (Throw e, d') => (Throw e, d')
  end.
Proof.
  revert fr'. induction d as [d IH] using feed_loop_ind. intros fr'.
  rewrite (feed_loop_eq d (fr ++ fr')), (feed_loop_eq d fr').
  destruct (feed_step d) as [d'|e d'|p d'] eqn:Hs; [done..|].
  rewrite <-app_assoc. by eapply IH.
Qed.

(** *** Bytes that have not arrived yet *)

Lemma feed_payload_app d l :
  match feed_payload d with
  | FeedBreak d' => d' = d
  | FeedThrow e d' => False
  | FeedFrame p d' => feed_payload (buf_app d l) = FeedFrame p (buf_app d' l)
  end.
Proof.
  unfold feed_payload, buf_app; simpl. rewrite length_app.
  destruct (_ <? want d) eqn:E; [done|]. to_prop.
  rewrite (proj2 (Z.ltb_ge _ _)) by lia.
  by rewrite take_app_le, drop_app_le by lia.
Qed.

Lemma feed_step_app d l :
  match feed_step d with
  | FeedBreak d' => feed_step (buf_app d l) = feed_step (buf_app d' l)
  | FeedThrow e d' => feed_step (buf_app d l) = FeedThrow e (buf_app d' l)
  | FeedFrame p d' => feed_step (buf_app d l) = FeedFrame p (buf_app d' l)
  end.
Proof.
  destruct d as [bs [] w mx]; unfold feed_step, buf_app; simpl.
  - destruct bs as [|b0 [|b1 [|b2 [|b3 rest]]]]; simpl; try done.
    destruct (_ =? 0) eqn:E0; simpl; rewrite ?E0; [done|].
    destruct (mx <? _) eqn:E1; simpl; rewrite ?E0, ?E1; [done|].
    pose proof (feed_payload_app (mkDecoder rest false (load_be32 b0 b1 b2 b3) mx) l) as Hp.
    destruct (feed_payload _) as [d'| |]; simpl in *; [by subst|done..].
  - pose proof (feed_payload_app (mkDecoder bs false w mx) l) as Hp.
    destruct (feed_payload _) as [d'| |]; simpl in *; [by subst|done..].
Qed.

Lemma feed_loop_app d l fr :
  feed_loop (buf_app d l) fr =
  match feed_loop d fr with
  | (Ret fs, d') => feed_loop (buf_app d' l) fs
  | (Throw e, d') => (Throw e, buf_app d' l)
  end.
Proof.
  revert fr. induction d as [d IH] using feed_loop_ind. intros fr.
  pose proof (feed_step_app d l) as Hs.
  rewrite (feed_loop_eq (buf_app d l)), (feed_loop_eq d).
  destruct (feed_step d) as [d'|e d'|p d'] eqn:Hd; rewrite Hs.
  - by rewrite (feed_loop_eq (buf_app d' l)).
  - done.
  - by eapply IH.
Qed.

Lemma feed_step_idle d d' : feed_step d = FeedBreak d' → idle d'.
Proof.
  unfold idle. destruct d as [bs [] w mx]; unfold feed_step; simpl.
  - destruct bs as [|b0 [|b1 [|b2 [|b3 rest]]]]; try by intros [= <-].
    destruct (_ =? 0); [done|]. destruct (mx <? _); [done|].
    unfold feed_payload at 1; simpl. case_match eqn:E; [|done].
    intros [= <-]. unfold feed_payload; simpl. by rewrite E.
  - unfold feed_payload at 1; simpl. case_match eqn:E; [|done].
    intros [= <-]. unfold feed_payload; simpl. by rewrite E.
Qed.

Lemma feed_loop_idle d fr fs d' : feed_loop d fr = (Ret fs, d') → idle d'.
Proof.
  revert fr. induction d as [d IH] using feed_loop_ind. intros fr.
  rewrite feed_loop_eq. destruct (feed_step d) as [d1|e d1|p d1] eqn:Hs; [|done|].
  - intros [= <- <-]. by eapply feed_step_idle.
  - by eapply IH.
Qed.

Lemma feed_idle_nil d : idle d → feed d "" = (Ret [], d).
Proof.
  unfold idle, feed. destruct d as [bs r w mx]; simpl. intros Hi.
  by rewrite app_nil_r, feed_loop_eq, Hi.
Qed.

Lemma feed_app d a b :
  feed d (a +:+ b) =
  match feed d a with
  | (Ret fs, d') =>
      match feed d' b with
      | (Ret gs, d'') => (Ret (fs ++ gs), d'')
      | (Throw e, d'') => (Throw e, d'')
      end
  | (Throw e, d') => (Throw e, buf_app d' (to_bytes b))
  end.
Proof.
  unfold feed. rewrite to_bytes_app, app_assoc.
  pose proof (feed_loop_app (mkDecoder (buf d ++ to_bytes a) (reading_len d) (want d)
    (max_frame_bytes d)) (to_bytes b) []) as H.
  unfold buf_app in *; simpl in *. rewrite H. clear H.
  destruct (feed_loop _ _) as [[fs|e] d']; [|done].
  by rewrite <-(app_nil_r fs), feed_loop_acc, app_nil_r.
Qed.

(** One well-formed frame at the head of the buffer comes out first. *)
Lemma feed_step_frame p rest w mx :
  is_u32 mx → payload_ok mx p →
  feed_step (mkDecoder (to_bytes (frame p) ++ rest) true w mx)
  = FeedFrame p (mkDecoder rest true 4 mx).
Proof.
  unfold payload_ok, is_u32. intros Hmx Hp. unfold frame.
  rewrite u32_small by (unfold is_u32; lia).
  rewrite to_bytes_app, to_bytes_of_bytes by apply be32_ok.
  unfold be32, feed_step. cbn [app reading_len buf max_frame_bytes].
  rewrite load_be32_be32 by (unfold is_u32; lia).
  rewrite (proj2 (Z.eqb_neq _ _)) by lia. rewrite (proj2 (Z.ltb_ge _ _)) by lia.
  unfold feed_payload. cbn [buf want max_frame_bytes].
  rewrite length_app, length_to_bytes, (proj2 (Z.ltb_ge _ _)) by lia.
  rewrite Nat2Z.id, <-length_to_bytes, take_app_length, drop_app_length.
  by rewrite of_bytes_to_bytes.
Qed.

Lemma feed_loop_frames ps mx acc :
  is_u32 mx → Forall (payload_ok mx) ps →
  feed_loop (mkDecoder (to_bytes (concat_str (frame <$> ps))) true 4 mx) acc
  = (Ret (acc ++ ps), mkDecoder [] true 4 mx).
Proof.
  intros Hmx Hps. revert acc. induction Hps as [|p ps Hp Hps IH]; intros acc.
  - by rewrite feed_loop_eq, app_nil_r.
  - change (concat_str (frame <$> p :: ps)) with (frame p +:+ concat_str (frame <$> ps)).
    rewrite to_bytes_app, feed_loop_eq, feed_step_frame by done.
    by rewrite IH, <-app_assoc.
Qed.

Lemma feed_all_concat d cs :
  idle d →
  match feed_all d cs with
  | (Ret fs, d') => feed d (concat_str cs) = (Ret fs, d')
  | (Throw e, _) => fst (feed d (concat_str cs)) = Throw e
  end.
Proof.
  revert d. induction cs as [|c cs IH]; intros d Hd; [by apply feed_idle_nil|].
  change (concat_str (c :: cs)) with (c +:+ concat_str cs).
  simpl. rewrite feed_app. destruct (feed d c) as [[fs|e] d1] eqn:Hc; [|done].
  specialize (IH d1 ltac:(by eapply feed_loop_idle)).
  destruct (feed_all d1 cs) as [[gs|e] d2].
  - by rewrite IH.
  - destruct (feed d1 (concat_str cs)) as [[gs|e'] d3]; simpl in *; congruence.
Qed.

(** *** Invariant of the decoder *)












(** ** Properties *)

(** C30: a peer that frames the payloads [ps] and whose byte stream is cut into
    arbitrary chunks by the transport is decoded to exactly [ps], in order, and
    the decoder is back in its initial state (whatever the accepted maximum
    frame size is, as long as each payload respects it). *)
Theorem decode_chunked_stream ps chunks mx :
  is_u32 mx → Forall (payload_ok mx) ps →
  concat_str chunks = concat_str (frame <$> ps) →
  feed_all (mkDecoder [] true 4 mx) chunks = (Ret ps, mkDecoder [] true 4 mx).
Proof.
  intros Hmx Hps Heq.
  pose proof (feed_all_concat (mkDecoder [] true 4 mx) chunks eq_refl) as H.
  rewrite Heq in H. unfold feed in H; simpl in H.
  rewrite feed_loop_frames in H by done.
  destruct (feed_all _ _) as [[fs|e] d']; simpl in H; by simplify_eq.
Qed.

Lemma decode_chunked_stream_witness :
  feed_all decoder_init [of_bytes [0; 0]; of_bytes [0; 2; 104]; of_bytes [105; 0; 0; 0; 1; 33]]
  = (Ret ["hi"; "!"], decoder_init).
Proof.
  apply (decode_chunked_stream ["hi"; "!"]); [by split| |by vm_compute].
  repeat constructor; simpl; lia.
Defined.

(** Decoding does not depend on how the transport cuts the stream: from any
    state in which the decoder waits for input, feeding the chunks one by one
    gives the same frames and final state as feeding their concatenation, and
    throws the same exception when that one throws. *)
Theorem feed_chunking_irrelevant d cs :
  idle d →
  match feed_all d cs with
  | (Ret fs, d') => feed d (concat_str cs) = (Ret fs, d')
  | (Throw e, _) => fst (feed d (concat_str cs)) = Throw e
  end.
Proof. apply feed_all_concat. Qed.

Lemma feed_chunking_irrelevant_witness :
  feed decoder_init "abc" = (Ret [], mkDecoder [97; 98; 99] true 4 65536).
Proof. apply (feed_chunking_irrelevant decoder_init ["a"; "bc"]). reflexivity. Defined.



(** After any number of well-formed frames, a header announcing zero bytes
    or more than the limit makes [feed] throw, whatever follows it. *)
Lemma feed_rejects_bad_length ps len rest mx :
  is_u32 mx → Forall (payload_ok mx) ps → is_u32 len → len = 0 ∨ mx < len →
  ∃ what, fst (feed (mkDecoder [] true 4 mx)
                 (concat_str (frame <$> ps) +:+ of_bytes (be32 len) +:+ rest))
          = Throw (RuntimeError what).
Proof.
  intros Hmx Hps Hlen Hbad. rewrite feed_app.
  unfold feed. cbn [buf reading_len want max_frame_bytes app].
  rewrite feed_loop_frames by done. cbn [buf reading_len want max_frame_bytes app].
  rewrite to_bytes_app, to_bytes_of_bytes by apply be32_ok.
  rewrite feed_loop_eq. unfold feed_step, be32. cbn [app reading_len buf max_frame_bytes].
  rewrite load_be32_be32 by done. destruct (len =? 0) eqn:E0; [by eexists|].
  to_prop. rewrite (proj2 (Z.ltb_lt _ _)) by lia. by eexists.
Qed.
