(* ===== verification/Repositories.v ===== *)
(** * The in-memory store: [include/db/repositories.h] and the [CHAT_NO_MYSQL]
      half of [src/db/repositories.cpp]

    One definition per method.  Every method of the source takes the mutex for
    its whole body, so each is one atomic transition of the record below; the
    clock reading of [util::now_unix_ms()] is an argument [now].  The iteration
    order of a [std::unordered_map] is unspecified in C++: the definitions use
    stdpp's [map_to_list]/[elements] order, and no theorem depends on it. *)
From Stdlib Require Import Sorted.
From S2P Require Import Prelude.

(** ** Rows *)

Record User := mkUser {
  u_id : Z;
  u_username : string;
  u_password_hash : string;
  u_created_at_ms : Z;
  u_last_seen_ms : Z;
}.

Record SessionRow := mkSessionRow {
  sr_token : string;
  sr_user_id : Z;
  sr_last_active_ms : Z;
}.

Record Room := mkRoom {
  room_id : Z;
  room_name : string;
  room_created_at_ms : Z;
}.

Record Message := mkMessage {
  m_id : Z;
  m_sender_id : Z;
  m_receiver_id : option Z;
  m_room_id : option Z;
  m_content : string;
  m_status : Z;
  m_created_at_ms : Z;
}.

(** ** The store *)

Record Repositories := mkRepos {
  next_user_id : Z;
  next_room_id : Z;
  next_msg_id : Z;
  users : gmap Z User;
  username_idx : gmap string Z;
  sessions : list SessionRow;
  rooms : gmap Z Room;
  room_name_idx : gmap string Z;
  room_members : gmap Z (gset Z);
  messages : list Message;
  undelivered : gmap Z (list Z);
}.

Definition repos_init : Repositories := mkRepos 1 1 1 ∅ ∅ [] ∅ ∅ ∅ [] ∅.

Definition set_users (f : gmap Z User → gmap Z User) (r : Repositories) : Repositories :=
  mkRepos r.(next_user_id) r.(next_room_id) r.(next_msg_id) (f r.(users)) r.(username_idx)
    r.(sessions) r.(rooms) r.(room_name_idx) r.(room_members) r.(messages) r.(undelivered).
Definition set_sessions (f : list SessionRow → list SessionRow) (r : Repositories) : Repositories :=
  mkRepos r.(next_user_id) r.(next_room_id) r.(next_msg_id) r.(users) r.(username_idx)
    (f r.(sessions)) r.(rooms) r.(room_name_idx) r.(room_members) r.(messages) r.(undelivered).
Definition set_room_members (f : gmap Z (gset Z) → gmap Z (gset Z)) (r : Repositories) : Repositories :=
  mkRepos r.(next_user_id) r.(next_room_id) r.(next_msg_id) r.(users) r.(username_idx)
    r.(sessions) r.(rooms) r.(room_name_idx) (f r.(room_members)) r.(messages) r.(undelivered).
Definition set_messages (f : list Message → list Message) (r : Repositories) : Repositories :=
  mkRepos r.(next_user_id) r.(next_room_id) r.(next_msg_id) r.(users) r.(username_idx)
    r.(sessions) r.(rooms) r.(room_name_idx) r.(room_members) (f r.(messages)) r.(undelivered).
Definition set_undelivered (f : gmap Z (list Z) → gmap Z (list Z)) (r : Repositories) : Repositories :=
  mkRepos r.(next_user_id) r.(next_room_id) r.(next_msg_id) r.(users) r.(username_idx)
    r.(sessions) r.(rooms) r.(room_name_idx) r.(room_members) r.(messages) (f r.(undelivered)).

(** [m.at(k)] of the standard maps: throws [std::out_of_range]. *)
Definition map_at {V : Type} (m : gmap Z V) (k : Z) : outcome V :=
  match m !! k with Some v => Ret v | None => Throw OutOfRange end.

(** *** Users *)

Definition find_user_by_id (id : Z) : M Repositories (option User) := λ r,
  (Ret (r.(users) !! id), r).

Definition find_user_by_username (n : string) : M Repositories (option User) := λ r,
  match r.(username_idx) !! n with
  | None => (Ret None, r)
  | Some id =>
      match map_at r.(users) id with
      | Ret u => (Ret (Some u), r)
      | Throw e => (Throw e, r)
      end
  end.

Definition create_user (n h : string) (now : Z) : M Repositories (option Z) := λ r,
  match r.(username_idx) !! n with
  | Some _ => (Ret None, r)
  | None =>
      let id := r.(next_user_id) in
      (Ret (Some id),
       mkRepos (u64 (id + 1)) r.(next_room_id) r.(next_msg_id)
         (<[id := mkUser id n h now 0]> r.(users)) (<[n := id]> r.(username_idx))
         r.(sessions) r.(rooms) r.(room_name_idx) r.(room_members) r.(messages)
         r.(undelivered))
  end.

Definition update_last_seen (id ts : Z) : M Repositories unit := λ r,
  match r.(users) !! id with
  | None => (Ret tt, r)
  | Some u =>
      (Ret tt, set_users (<[id := mkUser u.(u_id) u.(u_username) u.(u_password_hash)
                                    u.(u_created_at_ms) ts]>) r)
  end.

(** *** Sessions *)

Definition load_all_sessions : M Repositories (list SessionRow) := λ r,
  (Ret r.(sessions), r).

(** The loop of [insert_session]: update the first row with the token, or append. *)
Fixpoint upsert_session (tok : string) (uid ts : Z) (l : list SessionRow) : list SessionRow :=
  match l with
  | [] => [mkSessionRow tok uid ts]
  | s :: l =>
      if String.eqb s.(sr_token) tok then mkSessionRow s.(sr_token) uid ts :: l
      else s :: upsert_session tok uid ts l
  end.

Definition insert_session (tok : string) (uid ts : Z) : M Repositories unit := λ r,
  (Ret tt, set_sessions (upsert_session tok uid ts) r).

Definition delete_session (tok : string) : M Repositories unit := λ r,
  (Ret tt, set_sessions (List.filter (λ s, negb (String.eqb s.(sr_token) tok))) r).

(** *** Rooms *)

Definition find_room_by_name (n : string) : M Repositories (option Room) := λ r,
  match r.(room_name_idx) !! n with
  | None => (Ret None, r)
  | Some id =>
      match map_at r.(rooms) id with
      | Ret rm => (Ret (Some rm), r)
      | Throw e => (Throw e, r)
      end
  end.

Definition find_room_by_id (id : Z) : M Repositories (option Room) := λ r,
  (Ret (r.(rooms) !! id), r).

Definition create_room (n : string) (now : Z) : M Repositories (option Z) := λ r,
  match r.(room_name_idx) !! n with
  | Some _ => (Ret None, r)
  | None =>
      let id := r.(next_room_id) in
      (Ret (Some id),
       mkRepos r.(next_user_id) (u64 (id + 1)) r.(next_msg_id) r.(users) r.(username_idx)
         r.(sessions) (<[id := mkRoom id n now]> r.(rooms)) (<[n := id]> r.(room_name_idx))
         r.(room_members) r.(messages) r.(undelivered))
  end.

(** [room_members_[r]]: default-constructs an empty set for a missing key. *)
Definition members_slot (r : Repositories) (rid : Z) : gset Z :=
  default ∅ (r.(room_members) !! rid).

Definition join_room (rid uid : Z) : M Repositories bool := λ r,
  match r.(rooms) !! rid with
  | None => (Ret false, r)
  | Some _ => (Ret true, set_room_members (<[rid := {[uid]} ∪ members_slot r rid]>) r)
  end.

Definition leave_room (rid uid : Z) : M Repositories bool := λ r,
  match r.(room_members) !! rid with
  | None => (Ret false, r)
  | Some s => (Ret true, set_room_members (<[rid := s ∖ {[uid]}]>) r)
  end.

Definition is_member (rid uid : Z) : M Repositories bool := λ r,
  match r.(room_members) !! rid with
  | None => (Ret false, r)
  | Some s => (Ret (bool_decide (uid ∈ s)), r)
  end.

Fixpoint rooms_with_member (rooms : gmap Z Room) (uid : Z) (l : list (Z * gset Z))
    (out : list Room) : outcome (list Room) :=
  match l with
  | [] => Ret out
  | (rid, s) :: l =>
      if bool_decide (uid ∈ s) then
        match map_at rooms rid with
        | Ret rm => rooms_with_member rooms uid l (out ++ [rm])
        | Throw e => Throw e
        end
      else rooms_with_member rooms uid l out
  end.

Definition list_rooms_for_user (uid : Z) : M Repositories (list Room) := λ r,
  (rooms_with_member r.(rooms) uid (map_to_list r.(room_members)) [], r).

Definition list_room_members (rid : Z) : M Repositories (list Z) := λ r,
  match r.(room_members) !! rid with
  | None => (Ret [], r)
  | Some s => (Ret (elements s), r)
  end.

(** *** Messages *)

Definition push_message (mk : Z → Message) : M Repositories (option Z) := λ r,
  let id := r.(next_msg_id) in
  (Ret (Some id),
   mkRepos r.(next_user_id) r.(next_room_id) (u64 (id + 1)) r.(users) r.(username_idx)
     r.(sessions) r.(rooms) r.(room_name_idx) r.(room_members)
     (r.(messages) ++ [mk id]) r.(undelivered)).

Definition insert_dm (s rcv : Z) (c : string) (ts : Z) : M Repositories (option Z) :=
  push_message (λ id, mkMessage id s (Some rcv) None c 0 ts).

Definition insert_room_msg (s room : Z) (c : string) (ts : Z) : M Repositories (option Z) :=
  push_message (λ id, mkMessage id s None (Some room) c 0 ts).

(** The backward scan of the two history queries over [rbegin() .. rend()]. *)
Fixpoint history_loop (matches : Message → bool) (before lim : Z)
    (rl : list Message) (out : list Message) : list Message :=
  match rl with
  | [] => out
  | m :: rl =>
      if lim <=? Z.of_nat (length out) then out
      else if negb (before =? 0) && (before <=? m.(m_id)) then
        history_loop matches before lim rl out
      else if matches m then history_loop matches before lim rl (out ++ [m])
      else history_loop matches before lim rl out
  end.

Definition dm_matches (a b : Z) (m : Message) : bool :=
  match m.(m_receiver_id) with
  | None => false
  | Some rcv => ((m.(m_sender_id) =? a) && (rcv =? b)) || ((m.(m_sender_id) =? b) && (rcv =? a))
  end.

Definition room_matches (rid : Z) (m : Message) : bool :=
  match m.(m_room_id) with
  | None => false
  | Some x => x =? rid
  end.

Definition history_dm (a b before lim : Z) : M Repositories (list Message) := λ r,
  (Ret (rev (history_loop (dm_matches a b) before lim (rev r.(messages)) [])), r).

Definition history_room (rid before lim : Z) : M Repositories (list Message) := λ r,
  (Ret (rev (history_loop (room_matches rid) before lim (rev r.(messages)) [])), r).

Definition with_status (st : Z) (m : Message) : Message :=
  mkMessage m.(m_id) m.(m_sender_id) m.(m_receiver_id) m.(m_room_id) m.(m_content) st
    m.(m_created_at_ms).

Fixpoint set_status (id st : Z) (l : list Message) : list Message :=
  match l with
  | [] => []
  | m :: l => if m.(m_id) =? id then with_status st m :: l else m :: set_status id st l
  end.

Definition update_message_status (id st : Z) : M Repositories unit := λ r,
  (Ret tt, set_messages (set_status id st) r).

(** *** Offline queue *)

(** [undelivered_[uid]]. *)
Definition queue_of (r : Repositories) (uid : Z) : list Z :=
  default [] (r.(undelivered) !! uid).

Definition enqueue_undelivered (mid uid : Z) : M Repositories unit := λ r,
  (Ret tt, set_undelivered (<[uid := queue_of r uid ++ [mid]]>) r).

(** The inner loop of [drain_undelivered]: the first message with that id. *)
Fixpoint find_message (mid : Z) (l : list Message) : option Message :=
  match l with
  | [] => None
  | m :: l => if m.(m_id) =? mid then Some m else find_message mid l
  end.

Fixpoint collect_messages (msgs : list Message) (q : list Z) (out : list Message) : list Message :=
  match q with
  | [] => out
  | mid :: q =>
      match find_message mid msgs with
      | Some m => collect_messages msgs q (out ++ [m])
      | None => collect_messages msgs q out
      end
  end.

Definition drain_undelivered (uid : Z) : M Repositories (list Message) := λ r,
  match r.(undelivered) !! uid with
  | None => (Ret [], r)
  | Some q => (Ret (collect_messages r.(messages) q []), set_undelivered (delete uid) r)
  end.

(** ** Invariant *)

(** The schema's [chk_msg_target]: a message is a DM or a room message, not both. *)
Definition one_target (m : Message) : Prop :=
  (is_Some m.(m_receiver_id) ∧ m.(m_room_id) = None) ∨
  (m.(m_receiver_id) = None ∧ is_Some m.(m_room_id)).

(** A table of rows numbered [1 .. next - 1] with a unique name index. *)
Record table_ok {V : Type} (vid : V → Z) (vname : V → string) (next : Z)
    (tbl : gmap Z V) (idx : gmap string Z) : Prop := {
  tab_next : 1 <= next;
  tab_ids : ∀ id, is_Some (tbl !! id) ↔ 1 <= id < next;
  tab_rows : ∀ id v, tbl !! id = Some v → vid v = id ∧ idx !! vname v = Some id;
  tab_idx : ∀ n id, idx !! n = Some id → ∃ v, tbl !! id = Some v ∧ vname v = n;
}.

Record repos_ok (r : Repositories) : Prop := {
  ok_users : table_ok u_id u_username r.(next_user_id) r.(users) r.(username_idx);
  ok_rooms : table_ok room_id room_name r.(next_room_id) r.(rooms) r.(room_name_idx);
  ok_members : ∀ rid s, r.(room_members) !! rid = Some s → is_Some (r.(rooms) !! rid);
  ok_msg_ids : m_id <$> r.(messages) = seqZ 1 (Z.of_nat (length r.(messages)));
  ok_next_msg : r.(next_msg_id) = Z.of_nat (length r.(messages)) + 1;
  ok_targets : Forall one_target r.(messages);
  ok_queue : ∀ u q mid, r.(undelivered) !! u = Some q → mid ∈ q → 1 <= mid < r.(next_msg_id);
  ok_tokens : NoDup (sr_token <$> r.(sessions));
}.

(** The three id counters are at most [n + 1]: [n] calls cannot push them further. *)
Definition counters_le (n : Z) (r : Repositories) : Prop :=
  r.(next_user_id) <= n + 1 ∧ r.(next_room_id) <= n + 1 ∧ r.(next_msg_id) <= n + 1.

(** ** Call sequences *)

Inductive repo_call :=
| CCreateUser (n h : string) (now : Z)
| CUpdateLastSeen (id ts : Z)
| CInsertSession (tok : string) (uid ts : Z)
| CDeleteSession (tok : string)
| CCreateRoom (n : string) (now : Z)
| CJoinRoom (rid uid : Z)
| CLeaveRoom (rid uid : Z)
| CInsertDM (s rcv : Z) (c : string) (ts : Z)
| CInsertRoomMsg (s room : Z) (c : string) (ts : Z)
| CUpdateStatus (id st : Z)
| CEnqueue (mid uid : Z)
| CDrain (uid : Z).

Definition run_call (c : repo_call) (r : Repositories) : Repositories :=
  match c with
  | CCreateUser n h now => snd (create_user n h now r)
  | CUpdateLastSeen id ts => snd (update_last_seen id ts r)
  | CInsertSession tok uid ts => snd (insert_session tok uid ts r)
  | CDeleteSession tok => snd (delete_session tok r)
  | CCreateRoom n now => snd (create_room n now r)
  | CJoinRoom rid uid => snd (join_room rid uid r)
  | CLeaveRoom rid uid => snd (leave_room rid uid r)
  | CInsertDM s rcv c ts => snd (insert_dm s rcv c ts r)
  | CInsertRoomMsg s room c ts => snd (insert_room_msg s room c ts r)
  | CUpdateStatus id st => snd (update_message_status id st r)
  | CEnqueue mid uid => snd (enqueue_undelivered mid uid r)
  | CDrain uid => snd (drain_undelivered uid r)
  end.

(** A sequence of calls. *)
Definition run_calls (cs : list repo_call) (r : Repositories) : Repositories := foldl (λ r c, run_call c r) r cs.

(** Whether a call queues only a message that is stored.  The schema's foreign key
    [fk_und_msg] asks for that; the in-memory half does not check it. *)
Definition call_ok (c : repo_call) (r : Repositories) : Prop :=
  match c with
  | CEnqueue mid _ => 1 <= mid < r.(next_msg_id)
  | _ => True
  end.
Fixpoint calls_ok (cs : list repo_call) (r : Repositories) : Prop :=
  match cs with
  | [] => True
  | c :: cs => call_ok c r ∧ calls_ok cs (run_call c r)
  end.

(** [repos_ok] without the queues, which is kept whatever is queued. *)
Record records_ok (r : Repositories) : Prop := {
  rk_users : table_ok u_id u_username r.(next_user_id) r.(users) r.(username_idx);
  rk_rooms : table_ok room_id room_name r.(next_room_id) r.(rooms) r.(room_name_idx);
  rk_members : ∀ rid s, r.(room_members) !! rid = Some s → is_Some (r.(rooms) !! rid);
  rk_msg_ids : m_id <$> r.(messages) = seqZ 1 (Z.of_nat (length r.(messages)));
  rk_next_msg : r.(next_msg_id) = Z.of_nat (length r.(messages)) + 1;
  rk_targets : Forall one_target r.(messages);
  rk_tokens : NoDup (sr_token <$> r.(sessions));
}.

(** ** Lemmas *)

Section table.
Context {V : Type} (vid : V → Z) (vname : V → string).
Implicit Types (tbl : gmap Z V) (idx : gmap string Z).

Lemma table_init : table_ok vid vname 1 ∅ ∅.
Proof.
  split; [done|..]; intros *; rewrite ?lookup_empty; [|done..].
  split; [by intros []|lia].
Qed.

Lemma table_fresh next tbl idx : table_ok vid vname next tbl idx → tbl !! next = None.
Proof. intros Ht. apply eq_None_not_Some. rewrite (tab_ids _ _ _ _ _ Ht). lia. Qed.

(** Appending the row [next] under an unused name. *)
Lemma table_insert next tbl idx v :
  table_ok vid vname next tbl idx → vid v = next → idx !! vname v = None →
  table_ok vid vname (next + 1) (<[next := v]> tbl) (<[vname v := next]> idx).
Proof.
  intros Ht Hv Hn. pose proof (table_fresh _ _ _ Ht) as Hfresh.
  destruct Ht as [Hnext Hid Hrow Hidx]. split; [lia|..].
  - intros id. destruct (decide (id = next)) as [->|].
    + rewrite lookup_insert_eq. split; [lia|by eexists].
    + rewrite lookup_insert_ne by done. rewrite Hid. lia.
  - intros id w. destruct (decide (id = next)) as [->|].
    + rewrite lookup_insert_eq. intros [= <-]. by rewrite lookup_insert_eq.
    + rewrite lookup_insert_ne by done. intros Hl. destruct (Hrow _ _ Hl) as [-> Hl'].
      rewrite lookup_insert_ne; [done|]. intros Heq. rewrite <-Heq in Hl'. congruence.
  - intros n' id. destruct (decide (n' = vname v)) as [->|].
    + rewrite lookup_insert_eq. intros [= <-]. rewrite lookup_insert_eq. by eexists.
    + rewrite lookup_insert_ne by done. intros Hl. destruct (Hidx _ _ Hl) as (w & Hl' & ?).
      exists w. rewrite lookup_insert_ne; [done|]. intros <-. congruence.
Qed.

(** Replacing a row by one with the same id and name. *)
Lemma table_update next tbl idx id v w :
  table_ok vid vname next tbl idx → tbl !! id = Some v → vid w = vid v → vname w = vname v →
  table_ok vid vname next (<[id := w]> tbl) idx.
Proof.
  intros [Hnext Hid Hrow Hidx] Hv Hw Hn. split; [done|..].
  - intros id'. rewrite <-Hid. destruct (decide (id' = id)) as [->|].
    + rewrite lookup_insert_eq, Hv. split; by eexists.
    + by rewrite lookup_insert_ne.
  - intros id' x. destruct (decide (id' = id)) as [->|].
    + rewrite lookup_insert_eq. intros [= <-]. rewrite Hw, Hn. by apply Hrow.
    + rewrite lookup_insert_ne by done. apply Hrow.
  - intros n id' Hl. destruct (Hidx _ _ Hl) as (x & Hx & Hxn).
    destruct (decide (id' = id)) as [->|].
    + exists w. rewrite lookup_insert_eq. split; congruence.
    + exists x. by rewrite lookup_insert_ne.
Qed.

(** The [at] of a lookup through the index never throws. *)
Lemma table_at next tbl idx n id :
  table_ok vid vname next tbl idx → idx !! n = Some id →
  ∃ v, map_at tbl id = Ret v ∧ tbl !! id = Some v ∧ vname v = n.
Proof.
  intros Ht Hl. destruct (tab_idx _ _ _ _ _ Ht _ _ Hl) as (v & Hv & Hn).
  exists v. unfold map_at. by rewrite Hv.
Qed.
End table.

Lemma repos_init_ok : repos_ok repos_init.
Proof.
  split; simpl; [apply table_init|apply table_init| |done|done|by apply Forall_nil| |by apply NoDup_nil];
    intros *; by rewrite lookup_empty.
Qed.

Lemma set_status_ids id st l : m_id <$> set_status id st l = m_id <$> l.
Proof. induction l as [|m l IH]; simpl; [done|]. case_match; csimpl; congruence. Qed.

Lemma set_status_targets id st l : Forall one_target l → Forall one_target (set_status id st l).
Proof. induction 1 as [|m l Hm Hl IH]; simpl; [done|]. by case_match; constructor. Qed.

Lemma set_status_length id st l : length (set_status id st l) = length l.
Proof. rewrite <-(length_fmap m_id), set_status_ids. apply length_fmap. Qed.

Lemma upsert_session_tokens tok uid ts l :
  sr_token <$> upsert_session tok uid ts l =
  if bool_decide (tok ∈ sr_token <$> l) then sr_token <$> l else (sr_token <$> l) ++ [tok].
Proof.
  induction l as [|s l IH].
  - by rewrite bool_decide_eq_false_2 by apply not_elem_of_nil.
  - cbn [upsert_session]. destruct (String.eqb_spec (sr_token s) tok) as [<-|Hne].
    + rewrite bool_decide_eq_true_2; [done|]. rewrite fmap_cons. by constructor.
    + rewrite !fmap_cons, IH. case_bool_decide as H1; case_bool_decide as H2; try done.
      * exfalso. apply H2. by right.
      * exfalso. by apply elem_of_cons in H2 as [->|?].
Qed.

Lemma upsert_session_nodup tok uid ts l :
  NoDup (sr_token <$> l) → NoDup (sr_token <$> upsert_session tok uid ts l).
Proof.
  intros Hl. rewrite upsert_session_tokens. case_bool_decide; [done|].
  apply NoDup_app. split; [done|]. split; [|apply NoDup_singleton].
  intros x Hx ->%list_elem_of_singleton. done.
Qed.

Lemma filter_fmap_sublist {A B} (f : A → B) (P : A → bool) l :
  f <$> List.filter P l `sublist_of` f <$> l.
Proof. induction l as [|x l IH]; simpl; [done|]. destruct (P x); simpl; by constructor. Qed.

(** *** Each call keeps the invariant while the counters are below the limit *)

Lemma create_user_ok n h now r :
  repos_ok r → r.(next_user_id) < u64_max → repos_ok (snd (create_user n h now r)).
Proof.
  intros Hr Hlt. unfold create_user.
  destruct (username_idx r !! n) eqn:Hn; simpl; [done|].
  pose proof (tab_next _ _ _ _ _ (ok_users _ Hr)).
  rewrite u64_small by (unfold is_u64, u64_max in *; lia).
  destruct Hr. split; simpl; try done. by apply table_insert.
Qed.

Lemma create_room_ok n now r :
  repos_ok r → r.(next_room_id) < u64_max → repos_ok (snd (create_room n now r)).
Proof.
  intros Hr Hlt. unfold create_room.
  destruct (room_name_idx r !! n) eqn:Hn; simpl; [done|].
  pose proof (tab_next _ _ _ _ _ (ok_rooms _ Hr)).
  rewrite u64_small by (unfold is_u64, u64_max in *; lia).
  destruct Hr as [? Hrooms Hmem]. split; simpl; try done; [by apply table_insert|].
  intros rid s Hs. destruct (decide (rid = next_room_id r)) as [->|].
  - rewrite lookup_insert_eq. by eexists.
  - rewrite lookup_insert_ne by done. by eapply Hmem.
Qed.

Lemma push_message_ok mk r :
  repos_ok r → r.(next_msg_id) < u64_max →
  (∀ id, m_id (mk id) = id ∧ one_target (mk id)) →
  repos_ok (snd (push_message mk r)).
Proof.
  intros [Hu Hrm Hmem Hids Hnext Htgt Hq Htok] Hlt Hmk. unfold push_message; simpl.
  rewrite u64_small by (unfold is_u64, u64_max in *; lia).
  split; simpl; try done.
  - rewrite fmap_app, length_app, Hids, Nat2Z.inj_add, seqZ_app by lia. f_equal.
    rewrite fmap_cons, fmap_nil, (proj1 (Hmk _)), Hnext. rewrite seqZ_cons, seqZ_nil by done. f_equal. lia.
  - rewrite length_app. simpl. lia.
  - apply Forall_app. split; [done|]. constructor; [apply Hmk|constructor].
  - intros u q mid Hl Hin. pose proof (Hq u q mid Hl Hin). lia.
Qed.

Lemma set_room_members_ok f r :
  repos_ok r →
  (∀ rid s, f r.(room_members) !! rid = Some s → is_Some (r.(rooms) !! rid)) →
  repos_ok (set_room_members f r).
Proof. intros [] ?. by split. Qed.

Lemma join_room_ok rid uid r : repos_ok r → repos_ok (snd (join_room rid uid r)).
Proof.
  intros Hr. unfold join_room. destruct (rooms r !! rid) eqn:Hl; simpl; [|done].
  apply set_room_members_ok; [done|]. intros rid' s'.
  destruct (decide (rid' = rid)) as [->|]; [intros _; rewrite Hl; by eexists|].
  rewrite lookup_insert_ne by done. apply (ok_members _ Hr).
Qed.

Lemma leave_room_ok rid uid r : repos_ok r → repos_ok (snd (leave_room rid uid r)).
Proof.
  intros Hr. unfold leave_room. destruct (room_members r !! rid) as [s|] eqn:Hl; simpl; [|done].
  apply set_room_members_ok; [done|]. intros rid' s'.
  destruct (decide (rid' = rid)) as [->|]; [intros _; by eapply (ok_members _ Hr)|].
  rewrite lookup_insert_ne by done. apply (ok_members _ Hr).
Qed.

Lemma set_undelivered_ok f r :
  repos_ok r →
  (∀ u q mid, f r.(undelivered) !! u = Some q → mid ∈ q → 1 <= mid < r.(next_msg_id)) →
  repos_ok (set_undelivered f r).
Proof. intros [] ?. by split. Qed.

Lemma enqueue_ok mid uid r :
  repos_ok r → 1 <= mid < r.(next_msg_id) → repos_ok (snd (enqueue_undelivered mid uid r)).
Proof.
  intros Hr Hmid. apply set_undelivered_ok; [done|]. intros u q mid'.
  destruct (decide (u = uid)) as [->|].
  - rewrite lookup_insert_eq. intros [= <-]. unfold queue_of.
    rewrite elem_of_app, list_elem_of_singleton. intros [Hin| ->]; [|done].
    destruct (undelivered r !! uid) as [q|] eqn:Hl; simpl in Hin; [by eapply (ok_queue _ Hr)|].
    by apply not_elem_of_nil in Hin.
  - rewrite lookup_insert_ne by done. apply (ok_queue _ Hr).
Qed.

Lemma drain_ok uid r : repos_ok r → repos_ok (snd (drain_undelivered uid r)).
Proof.
  intros Hr. unfold drain_undelivered. destruct (undelivered r !! uid); simpl; [|done].
  apply set_undelivered_ok; [done|]. intros u q mid.
  destruct (decide (u = uid)) as [->|]; [by rewrite lookup_delete_eq|].
  rewrite lookup_delete_ne by done. apply (ok_queue _ Hr).
Qed.

Lemma update_last_seen_ok id ts r : repos_ok r → repos_ok (snd (update_last_seen id ts r)).
Proof.
  intros Hr. unfold update_last_seen. destruct (users r !! id) as [u|] eqn:Hl; simpl; [|done].
  destruct Hr. split; simpl; try done. by eapply table_update.
Qed.

Lemma update_status_ok id st r : repos_ok r → repos_ok (snd (update_message_status id st r)).
Proof.
  intros []. split; simpl; try done; rewrite ?set_status_length; try done.
  - by rewrite set_status_ids.
  - by apply set_status_targets.
Qed.

Lemma insert_session_ok tok uid ts r : repos_ok r → repos_ok (snd (insert_session tok uid ts r)).
Proof. intros []. split; simpl; try done. by apply upsert_session_nodup. Qed.

Lemma delete_session_ok tok r : repos_ok r → repos_ok (snd (delete_session tok r)).
Proof.
  intros []. split; simpl; try done. eapply sublist_NoDup; [done|apply filter_fmap_sublist].
Qed.

#[export] Hint Resolve repos_init_ok create_user_ok create_room_ok join_room_ok leave_room_ok
  enqueue_ok drain_ok update_last_seen_ok update_status_ok insert_session_ok
  delete_session_ok : chat.

Lemma insert_dm_ok s rcv c ts r :
  repos_ok r → r.(next_msg_id) < u64_max → repos_ok (snd (insert_dm s rcv c ts r)).
Proof. intros. apply push_message_ok; [done..|]. intros id. split; [done|]. left. by split; eexists. Qed.

Lemma insert_room_msg_ok s room c ts r :
  repos_ok r → r.(next_msg_id) < u64_max → repos_ok (snd (insert_room_msg s room c ts r)).
Proof. intros. apply push_message_ok; [done..|]. intros id. split; [done|]. right. by split; eexists. Qed.

#[export] Hint Resolve insert_dm_ok insert_room_msg_ok : chat.

Lemma run_call_ok c r :
  repos_ok r → counters_le (u64_max - 2) r → call_ok c r → repos_ok (run_call c r).
Proof.
  intros Hr (H1 & H2 & H3) Hc.
  assert (next_user_id r < u64_max) by lia. assert (next_room_id r < u64_max) by lia.
  assert (next_msg_id r < u64_max) by lia. destruct c; cbn [run_call call_ok] in *; auto with chat.
Qed.

Lemma u64_succ_le z n : 1 <= z → z <= n → u64 (z + 1) <= n + 1.
Proof. intros. unfold u64. pose proof (Z.mod_le (z + 1) 18446744073709551616). lia. Qed.

Lemma run_call_counters c n r :
  repos_ok r → counters_le n r → counters_le (n + 1) (run_call c r).
Proof.
  intros Hr (H1 & H2 & H3).
  pose proof (tab_next _ _ _ _ _ (ok_users _ Hr)). pose proof (tab_next _ _ _ _ _ (ok_rooms _ Hr)).
  pose proof (ok_next_msg _ Hr). unfold counters_le.
  destruct c; simpl; unfold create_user, update_last_seen, create_room, join_room, leave_room,
    drain_undelivered; repeat case_match; simpl; split_and!; try lia; apply u64_succ_le; lia.
Qed.

(** *** Any arguments *)

Definition clear_queues : Repositories → Repositories := set_undelivered (λ _, ∅).

Lemma records_ok_clear r : records_ok r ↔ repos_ok (clear_queues r).
Proof.
  split; intros []; split; simpl in *; try done.
Qed.

(** The queues influence nothing else. *)
Lemma clear_run_call c r :
  clear_queues (run_call c r) =
  match c with CEnqueue _ _ => clear_queues r | _ => clear_queues (run_call c (clear_queues r)) end.
Proof.
  destruct c; try reflexivity; simpl;
    unfold create_user, update_last_seen, create_room, join_room, leave_room, drain_undelivered, clear_queues,
      set_undelivered, members_slot; simpl; rewrite ?lookup_empty; by repeat case_match.
Qed.

Lemma run_call_records c r :
  records_ok r → counters_le (u64_max - 2) r → records_ok (run_call c r).
Proof.
  rewrite !records_ok_clear. intros Hr Hc. rewrite clear_run_call.
  assert (∀ r, repos_ok r → repos_ok (clear_queues r)) as Hclear.
  { clear. intros r []. apply records_ok_clear. by split. }
  destruct c; try exact Hr; by apply Hclear, run_call_ok.
Qed.

Lemma run_call_records_counters c n r :
  records_ok r → counters_le n r → counters_le (n + 1) (run_call c r).
Proof.
  intros Hr%records_ok_clear Hc.
  assert (counters_le (n + 1) (clear_queues (run_call c r))) as Hn; [|exact Hn]. rewrite clear_run_call.
  destruct c; [exact (run_call_counters _ n (clear_queues r) Hr Hc)..|unfold counters_le in *; simpl; lia|
    exact (run_call_counters (CDrain uid) n (clear_queues r) Hr Hc)].
Qed.

(** After [k] more calls on a store whose counters leave room for them. *)
Lemma run_calls_records cs n r :
  records_ok r → counters_le n r → n + Z.of_nat (length cs) <= u64_max - 2 →
  records_ok (run_calls cs r) ∧ (repos_ok r → calls_ok cs r → repos_ok (run_calls cs r)).
Proof.
  revert n r. induction cs as [|c cs IH]; intros n r Hr Hc Hn; [done|]. cbn [length] in Hn.
  assert (counters_le (u64_max - 2) r) as Hc' by (unfold counters_le in *; lia).
  destruct (IH (n + 1) (run_call c r)) as [H1 H2];
    [by apply run_call_records|by apply run_call_records_counters|lia|].
  split; [done|]. intros Hok [Hcall Hcalls]. apply H2; [|done]. by apply run_call_ok.
Qed.

(** [drain_undelivered] returns stored messages, whatever was queued. *)
Lemma drain_stored uid r : ∃ ms, fst (drain_undelivered uid r) = Ret ms ∧ Forall (λ m, m ∈ r.(messages)) ms.
Proof.
  unfold drain_undelivered. destruct (undelivered r !! uid) as [q|]; [|by exists []].
  eexists. split; [reflexivity|].
  assert (∀ q out, Forall (λ m, m ∈ r.(messages)) out →
    Forall (λ m, m ∈ r.(messages)) (collect_messages r.(messages) q out)) as Hgo; [|by apply Hgo].
  clear q. induction q as [|mid q IH]; intros out Hout; [done|]. cbn [collect_messages].
  destruct (find_message mid (messages r)) as [m|] eqn:Hf; [|by apply IH]. apply IH, Forall_app. split; [done|].
  apply Forall_singleton. clear -Hf. induction (messages r) as [|x l IHl]; [done|]. cbn [find_message] in Hf.
  destruct (m_id x =? mid); [injection Hf as <-; by left|right; by apply IHl].
Qed.

(** ** History queries *)

(** What the two history queries select. *)
Definition in_page (matches : Message → bool) (before : Z) (m : Message) : bool :=
  matches m && ((before =? 0) || (m.(m_id) <? before)).

(** The last [n] elements of a list. *)
Definition last_n {A : Type} (n : nat) (l : list A) : list A := drop (length l - n) l.

Lemma history_loop_spec matches before lim rl out :
  0 <= lim →
  history_loop matches before lim rl out =
  out ++ take (Z.to_nat lim - length out) (List.filter (in_page matches before) rl).
Proof.
  intros Hlim. revert out. induction rl as [|m rl IH]; intros out; simpl.
  - by rewrite take_nil, app_nil_r.
  - destruct (lim <=? Z.of_nat (length out)) eqn:Hfull; to_prop.
    + replace (Z.to_nat lim - length out)%nat with 0%nat by lia. by rewrite app_nil_r.
    + unfold in_page at 1. rewrite (Z.leb_antisym (m_id m) before), <-negb_orb.
      destruct ((before =? 0) || (m_id m <? before)); simpl;
        rewrite ?andb_true_r, ?andb_false_r; [|apply IH].
      destruct (matches m); rewrite IH; [|done].
      rewrite length_app, <-app_assoc. simpl.
      by replace (Z.to_nat lim - length out)%nat
        with (S (Z.to_nat lim - (length out + 1))) by lia.
Qed.

Lemma rev_take_rev {A} (n : nat) (l : list A) : rev (take n (rev l)) = last_n n l.
Proof. unfold last_n. by rewrite List.firstn_rev, rev_involutive. Qed.

Lemma history_eq matches before lim l :
  0 <= lim →
  rev (history_loop matches before lim (rev l) []) =
  last_n (Z.to_nat lim) (List.filter (in_page matches before) l).
Proof.
  intros Hlim. rewrite history_loop_spec by done. simpl.
  by rewrite Nat.sub_0_r, List.filter_rev, rev_take_rev.
Qed.

Lemma Forall_filter_bool {A} (Q : A → Prop) (P : A → bool) l :
  Forall Q l → Forall Q (List.filter P l).
Proof. induction 1; simpl; [done|]. by case_match; auto. Qed.

(** Message ids increase along the log, so along any selection from it. *)
Lemma fmap_filter_sorted (P : Message → bool) l :
  StronglySorted Z.lt (m_id <$> l) → StronglySorted Z.lt (m_id <$> List.filter P l).
Proof.
  induction l as [|m l IH]; csimpl; [done|]. intros [Hs Hall]%StronglySorted_inv.
  destruct (P m); csimpl; [|by apply IH]. constructor; [by apply IH|].
  rewrite Forall_fmap in *. by apply Forall_filter_bool.
Qed.

Lemma StronglySorted_drop (n : nat) (l : list Z) :
  StronglySorted Z.lt l → StronglySorted Z.lt (drop n l).
Proof.
  revert n. induction l as [|x l IH]; intros [|n] Hl; simpl; try done.
  apply StronglySorted_inv in Hl as [Hl _]. by apply IH.
Qed.

Lemma seqZ_sorted m n : StronglySorted Z.lt (seqZ m n).
Proof.
  destruct (decide (0 <= n)) as [Hn|Hn]; [|by rewrite seqZ_nil by lia; constructor].
  revert m. pattern n. apply natlike_ind; [intros m; rewrite seqZ_nil by lia; constructor| |done].
  intros k Hk IH m. rewrite seqZ_cons by lia. rewrite Z.pred_succ. constructor; [apply IH|].
  apply Forall_forall. intros x ?%elem_of_seqZ. lia.
Qed.

Lemma messages_sorted r : repos_ok r → StronglySorted Z.lt (m_id <$> r.(messages)).
Proof. intros Hr. rewrite (ok_msg_ids _ Hr). apply seqZ_sorted. Qed.

Lemma last_n_app {A} (n k : nat) (l : list A) :
  last_n n (take (length l - k) l) ++ last_n k l = last_n (n + k) l.
Proof.
  unfold last_n. rewrite length_take, Nat.min_l by lia.
  assert (∀ j c, (j <= c <= length l)%nat → drop j l = drop j (take c l) ++ drop c l) as H.
  { intros j c Hj. rewrite <-(take_drop c l) at 1. apply drop_app_le.
    rewrite length_take. lia. }
  rewrite (H (length l - (n + k))%nat (length l - k)%nat) by lia. do 2 f_equal. lia.
Qed.

(** In a list of increasing ids, the elements below the one at [k] are the first [k]. *)
Lemma filter_below_sorted (l : list Message) k m :
  StronglySorted Z.lt (m_id <$> l) → l !! k = Some m →
  List.filter (λ x, x.(m_id) <? m.(m_id)) l = take k l.
Proof.
  revert k. induction l as [|x l IH]; intros k Hs Hk; [done|].
  rewrite fmap_cons in Hs. apply StronglySorted_inv in Hs as [Hs Hall].
  destruct k as [|k]; simpl in *.
  - injection Hk as ->. rewrite Z.ltb_irrefl.
    rewrite (List.filter_ext_in _ (λ _, false)); [apply List.filter_false|].
    intros y Hy. apply Z.ltb_ge. rewrite Forall_fmap, Forall_forall in Hall.
    apply list_elem_of_In, Hall in Hy. simpl in Hy. lia.
  - rewrite Forall_fmap, Forall_forall in Hall.
    rewrite (proj2 (Z.ltb_lt _ _)) by (apply Hall; by eapply list_elem_of_lookup_2).
    f_equal. by apply IH.
Qed.

Lemma filter_filter {A} (P Q : A → bool) l :
  List.filter P (List.filter Q l) = List.filter (λ x, Q x && P x) l.
Proof.
  induction l as [|x l IH]; simpl; [done|].
  destruct (Q x); simpl; [destruct (P x); by rewrite IH|done].
Qed.

Lemma messages_ids_pos r : repos_ok r → Forall (λ m, 1 <= m.(m_id)) r.(messages).
Proof.
  intros Hr. assert (Forall (λ i, 1 <= i) (m_id <$> messages r)) as H; [|by rewrite Forall_fmap in H].
  rewrite (ok_msg_ids _ Hr). apply Forall_forall. intros x ?%elem_of_seqZ. lia.
Qed.

(** The page before message [m] of the selection is what precedes [m]. *)
Lemma in_page_cursor matches before l k m :
  StronglySorted Z.lt (m_id <$> l) → Forall (λ m, 1 <= m.(m_id)) l →
  List.filter (in_page matches before) l !! k = Some m →
  List.filter (in_page matches m.(m_id)) l = take k (List.filter (in_page matches before) l).
Proof.
  intros Hs Hpos Hk. rewrite <-(filter_below_sorted _ k m);
    [|by apply fmap_filter_sorted|done].
  rewrite filter_filter.
  assert (m ∈ List.filter (in_page matches before) l) as Hm by by eapply list_elem_of_lookup_2.
  apply list_elem_of_In, filter_In in Hm as [Hin Hm%andb_prop].
  rewrite Forall_forall in Hpos. apply list_elem_of_In in Hin.
  pose proof (Hpos _ Hin). destruct Hm as [_ Hm].
  apply List.filter_ext. intros x. unfold in_page.
  rewrite (proj2 (Z.eqb_neq (m_id m) 0)) by lia. simpl.
  destruct (matches x); [|done]. simpl.
  destruct (m_id x <? m_id m) eqn:E; [|by rewrite andb_false_r]. to_prop.
  rewrite andb_true_r. symmetry.
  apply orb_true_iff. apply orb_true_iff in Hm as [Hm|Hm]; [by left|right]. to_prop.
  apply Z.ltb_lt. lia.
Qed.

(** ** Offline queue *)

Lemma find_message_nth l m k :
  m_id <$> l = seqZ k (Z.of_nat (length l)) → k <= m < k + Z.of_nat (length l) →
  ∃ x, find_message m l = Some x ∧ x ∈ l ∧ x.(m_id) = m.
Proof.
  revert k. induction l as [|x l IH]; intros k Hl Hm; [simpl in Hm; lia|].
  rewrite fmap_cons in Hl. cbn [length] in *. rewrite seqZ_cons in Hl by lia.
  injection Hl as Hx Hl. cbn [find_message].
  destruct (m_id x =? m) eqn:E; to_prop.
  - exists x. split; [done|]. split; [by left|done].
  - destruct (IH (Z.succ k)) as (y & Hy & Hin & Hid); [|lia|].
    + rewrite Hl. f_equal. lia.
    + exists y. split; [done|]. split; [by right|done].
Qed.

Lemma collect_messages_ids r q out :
  repos_ok r → (∀ mid, mid ∈ q → 1 <= mid < r.(next_msg_id)) →
  Forall (λ m, m ∈ r.(messages)) out →
  m_id <$> collect_messages r.(messages) q out = (m_id <$> out) ++ q ∧
  Forall (λ m, m ∈ r.(messages)) (collect_messages r.(messages) q out).
Proof.
  intros Hr. revert out. induction q as [|mid q IH]; intros out Hq Hout; simpl.
  - by rewrite app_nil_r.
  - destruct (find_message_nth r.(messages) mid 1) as (x & -> & Hin & Hid).
    + apply Hr.
    + pose proof (Hq mid ltac:(by left)). rewrite (ok_next_msg _ Hr) in *. lia.
    + destruct (IH (out ++ [x])) as [Hids Hall].
      * intros mid' ?. apply Hq. by right.
      * apply Forall_app. by split; [|constructor].
      * split; [|done]. rewrite Hids, fmap_app, <-app_assoc. simpl. by rewrite Hid.
Qed.

Lemma drain_spec uid r out r' :
  repos_ok r → drain_undelivered uid r = (out, r') →
  ∃ ms, out = Ret ms ∧ m_id <$> ms = queue_of r uid ∧ Forall (λ m, m ∈ r.(messages)) ms ∧
    queue_of r' uid = [] ∧ (∀ u, u ≠ uid → queue_of r' u = queue_of r u) ∧
    r' = set_undelivered (delete uid) r.
Proof.
  intros Hr. unfold drain_undelivered, queue_of.
  destruct (undelivered r !! uid) as [q|] eqn:Hq; intros [= <- <-]; simpl.
  - destruct (collect_messages_ids r q []) as [Hids Hall]; [done| |done|].
    { intros mid Hin. by eapply (ok_queue _ Hr). }
    eexists. split; [done|]. split; [done|]. split; [done|].
    rewrite lookup_delete_eq. split; [done|]. split; [|done].
    intros u Hu. by rewrite lookup_delete_ne.
  - exists []. rewrite Hq. split; [done|]. split; [done|]. split; [constructor|].
    split; [done|]. split; [done|]. unfold set_undelivered. rewrite delete_id by done. by destruct r.
Qed.

(** ** Properties *)

(** A small store with a room message log, for the concrete instances below. *)
Definition sample : Repositories :=
  run_call (CInsertRoomMsg 1 1 "three" 7)
    (run_call (CInsertRoomMsg 1 1 "two" 6)
      (run_call (CInsertRoomMsg 1 1 "one" 5)
        (run_call (CCreateRoom "general" 4) (run_call (CCreateUser "ann" "h" 3) repos_init)))).

Lemma sample_ok : repos_ok sample.
Proof.
  unfold sample. repeat (apply run_call_ok; [|vm_compute; done|done]). apply repos_init_ok.
Qed.

(** C34: after any sequence of fewer than 2^64 - 2 calls (in any order, with any
    arguments) on a fresh store, its records are consistent: user and room ids are
    exactly [1 .. next-1] and the name indexes are inverse to the tables,
    memberships refer to existing rooms, message [i] has id [i+1] and exactly one
    of receiver and room, and no session token occurs twice.  Draining a queue
    returns stored messages only, whatever ids were queued; if every id queued is
    that of a message stored by then, the queues too refer to stored messages. *)
Theorem reachable_ok cs :
  Z.of_nat (length cs) < u64_max - 1 →
  let r := run_calls cs repos_init in
  records_ok r ∧
  (∀ uid, ∃ ms, fst (drain_undelivered uid r) = Ret ms ∧ Forall (λ m, m ∈ r.(messages)) ms) ∧
  (calls_ok cs repos_init → repos_ok r).
Proof.
  intros Hn r.
  assert (records_ok repos_init) as Hi by (pose proof repos_init_ok as []; by split).
  destruct (run_calls_records cs 0 repos_init Hi) as [H1 H2]; [done|lia|].
  split; [done|]. split; [intros uid; apply drain_stored|]. apply H2, repos_init_ok.
Qed.

(** The id 999 is queued although there is no such message. *)
Lemma reachable_ok_witness :
  let cs := [CCreateUser "ann" "h" 3; CInsertDM 1 1 "hi" 5; CEnqueue 999 1] in
  records_ok (run_calls cs repos_init) ∧ queue_of (run_calls cs repos_init) 1 = [999].
Proof.
  intros cs. split; [|reflexivity]. apply (reachable_ok cs). by vm_compute.
Defined.

(** [create_user] succeeds exactly when the name is unused; it then stores
    the given row under a fresh id, both lookups return it, every other user is
    untouched, and a taken name changes nothing. *)
Lemma create_user_correct n h now r :
  repos_ok r → r.(next_user_id) < u64_max →
  match create_user n h now r with
  | (Ret (Some id), r') =>
      r.(username_idx) !! n = None ∧ r.(users) !! id = None ∧
      fst (find_user_by_username n r') = Ret (Some (mkUser id n h now 0)) ∧
      fst (find_user_by_id id r') = Ret (Some (mkUser id n h now 0)) ∧
      (∀ id', id' ≠ id → r'.(users) !! id' = r.(users) !! id') ∧
      (∀ n', n' ≠ n → fst (find_user_by_username n' r') = fst (find_user_by_username n' r))
  | (Ret None, r') => r' = r ∧ ∃ u, fst (find_user_by_username n r) = Ret (Some u)
  | (Throw _, _) => False
  end.
Proof.
  intros Hr Hlt. unfold create_user, find_user_by_username, find_user_by_id.
  destruct (username_idx r !! n) as [id|] eqn:Hn.
  - split; [done|]. destruct (table_at _ _ _ _ _ _ _ (ok_users _ Hr) Hn) as (u & Hat & _).
    rewrite Hat. by exists u.
  - simpl. rewrite lookup_insert_eq. unfold map_at at 1. rewrite lookup_insert_eq.
    split; [done|]. split; [by eapply table_fresh, Hr|]. do 2 (split; [done|]).
    split; [intros; by rewrite lookup_insert_ne|].
    intros n' Hne. rewrite lookup_insert_ne by done.
    destruct (username_idx r !! n') as [id'|] eqn:Hn'; [|done].
    destruct (table_at _ _ _ _ _ _ _ (ok_users _ Hr) Hn') as (u & Hat & Hu & _).
    rewrite Hat. unfold map_at. rewrite lookup_insert_ne; [by rewrite Hu|].
    intros <-. by rewrite (table_fresh _ _ _ _ _ (ok_users _ Hr)) in Hu.
Qed.

Lemma rooms_with_member_spec rooms uid l out :
  (∀ rid s, (rid, s) ∈ l → is_Some (rooms !! rid)) →
  ∃ rms, rooms_with_member rooms uid l out = Ret (out ++ rms) ∧
    ∀ rm, rm ∈ rms ↔ ∃ rid s, (rid, s) ∈ l ∧ uid ∈ s ∧ rooms !! rid = Some rm.
Proof.
  revert out. induction l as [|[rid s] l IH]; intros out Hl; simpl.
  - exists []. rewrite app_nil_r. split; [done|]. intros rm. setoid_rewrite elem_of_nil. naive_solver.
  - destruct (Hl rid s ltac:(by left)) as [rm Hrm].
    assert (∀ rid s, (rid, s) ∈ l → is_Some (rooms !! rid)) as Hl'.
    { intros rid' s' ?. apply (Hl rid' s'). by right. }
    case_bool_decide as Hin.
    + unfold map_at. rewrite Hrm. destruct (IH (out ++ [rm]) Hl') as (rms & -> & Hspec).
      exists (rm :: rms). rewrite <-app_assoc. split; [done|]. intros rm'.
      setoid_rewrite elem_of_cons. rewrite Hspec. naive_solver.
    + destruct (IH out Hl') as (rms & -> & Hspec). exists rms. split; [done|]. intros rm'.
      rewrite Hspec. setoid_rewrite elem_of_cons. naive_solver.
Qed.

(** On a consistent store none of the methods that use [at] can throw, and
    [list_rooms_for_user] returns exactly the rooms the user is a member of. *)
Lemma lookups_never_throw r :
  repos_ok r →
  (∀ n, ∃ o, find_user_by_username n r = (Ret o, r)) ∧
  (∀ n, ∃ o, find_room_by_name n r = (Ret o, r)) ∧
  (∀ uid, ∃ rms, list_rooms_for_user uid r = (Ret rms, r) ∧
     ∀ rm, rm ∈ rms ↔ ∃ rid, r.(rooms) !! rid = Some rm ∧ is_member rid uid r = (Ret true, r)).
Proof.
  intros Hr. split_and!.
  - intros n. unfold find_user_by_username. destruct (_ !! n) as [id|] eqn:Hn; [|by eexists].
    destruct (table_at _ _ _ _ _ _ _ (ok_users _ Hr) Hn) as (u & -> & _). by eexists.
  - intros n. unfold find_room_by_name. destruct (_ !! n) as [id|] eqn:Hn; [|by eexists].
    destruct (table_at _ _ _ _ _ _ _ (ok_rooms _ Hr) Hn) as (u & -> & _). by eexists.
  - intros uid. unfold list_rooms_for_user.
    destruct (rooms_with_member_spec r.(rooms) uid (map_to_list r.(room_members)) [])
      as (rms & -> & Hspec).
    { intros rid s ?%elem_of_map_to_list. by eapply (ok_members _ Hr). }
    exists rms. split; [done|]. intros rm. rewrite Hspec. unfold is_member.
    setoid_rewrite elem_of_map_to_list. split.
    + intros (rid & s & Hs & Hin & Hrm). exists rid. split; [done|].
      rewrite Hs. by rewrite bool_decide_eq_true_2.
    + intros (rid & Hrm & Hmem). exists rid.
      destruct (room_members r !! rid) as [s|]; [|done]. exists s.
      case_bool_decide; by simplify_eq.
Qed.

(** [history_dm] returns the newest [lim] of the messages exchanged by [a]
    and [b] that precede [before] (all of them when [before] is 0), oldest
    first with strictly increasing ids, and changes nothing. *)
Theorem history_dm_correct a b before lim r :
  repos_ok r → 0 <= lim →
  ∃ page, history_dm a b before lim r = (Ret page, r) ∧
    page = last_n (Z.to_nat lim) (List.filter (in_page (dm_matches a b) before) r.(messages)) ∧
    StronglySorted Z.lt (m_id <$> page).
Proof.
  intros Hr Hlim. eexists. unfold history_dm. rewrite history_eq by done.
  split; [done|]. split; [done|]. unfold last_n. rewrite fmap_drop.
  apply StronglySorted_drop, fmap_filter_sorted, messages_sorted, Hr.
Qed.

Lemma history_dm_correct_witness :
  ∃ page, history_dm 1 2 0 50 sample = (Ret page, sample) ∧ page = [] ∧
    StronglySorted Z.lt (m_id <$> page).
Proof. apply (history_dm_correct 1 2 0 50 sample sample_ok). done. Defined.

(** C39: Cursor pagination of [history_room] is exact: asking again with
    [before] set to the lowest id of a page returns the messages just before
    that page, without gap or overlap, as one larger page would have. *)
Theorem history_room_pagination rid before lim lim' r page m :
  repos_ok r → 0 < lim → 0 <= lim' →
  history_room rid before lim r = (Ret page, r) → head page = Some m →
  ∃ older, history_room rid m.(m_id) lim' r = (Ret older, r) ∧
    history_room rid before (lim' + lim) r = (Ret (older ++ page), r).
Proof.
  intros Hr Hlim Hlim' Hp Hm. unfold history_room in *.
  rewrite history_eq in Hp by lia. injection Hp as <-. rewrite !history_eq by lia.
  unfold last_n in Hm at 1. rewrite head_lookup, lookup_drop, Nat.add_0_r in Hm.
  apply in_page_cursor in Hm; [|by apply messages_sorted|by apply messages_ids_pos].
  rewrite Hm. eexists. split; [done|]. rewrite last_n_app. do 3 f_equal. lia.
Qed.

Lemma history_room_pagination_witness :
  ∃ older, history_room 1 3 1 sample = (Ret older, sample) ∧
    history_room 1 0 2 sample = (Ret (older ++ [mkMessage 3 1 None (Some 1) "three" 0 7]), sample).
Proof.
  by apply (history_room_pagination 1 0 1 1 sample _ _ sample_ok eq_refl ltac:(done) eq_refl eq_refl).
Defined.

(** The offline queue is FIFO and drained once: after enqueueing [mids] for
    a user, [drain_undelivered] returns the stored messages with exactly the
    queued ids in queue order, empties that user's queue and no other. *)
Theorem drain_after_enqueue uid mids r :
  repos_ok r → (∀ mid, mid ∈ mids → 1 <= mid < r.(next_msg_id)) →
  let r1 := foldl (λ s mid, snd (enqueue_undelivered mid uid s)) r mids in
  ∃ ms r2, drain_undelivered uid r1 = (Ret ms, r2) ∧
    m_id <$> ms = queue_of r uid ++ mids ∧ Forall (λ m, m ∈ r.(messages)) ms ∧
    fst (drain_undelivered uid r2) = Ret [] ∧
    ∀ u, u ≠ uid → queue_of r2 u = queue_of r u.
Proof.
  intros Hr Hmids r1.
  assert (repos_ok r1 ∧ r1.(messages) = r.(messages) ∧ queue_of r1 uid = queue_of r uid ++ mids ∧
    ∀ u, u ≠ uid → queue_of r1 u = queue_of r u) as (Hr1 & Hmsgs & Hq & Hother).
  { subst r1. revert r Hr Hmids. induction mids as [|mid mids IH]; intros r Hr Hmids; simpl.
    - by rewrite app_nil_r.
    - destruct (IH (snd (enqueue_undelivered mid uid r))) as (H1 & H2 & H3 & H4).
      + apply enqueue_ok; [done|]. apply Hmids. by left.
      + intros mid' ?. apply Hmids. by right.
      + split; [done|]. split; [done|]. unfold enqueue_undelivered, set_undelivered, queue_of in *.
        simpl in *. rewrite lookup_insert_eq in H3. split; [rewrite H3; simpl; by rewrite <-app_assoc|].
        intros u Hu. by rewrite H4, lookup_insert_ne. }
  destruct (drain_undelivered uid r1) as [out r2] eqn:Hd.
  destruct (drain_spec _ _ _ _ Hr1 Hd) as (ms & -> & Hids & Hall & Hq2 & Hoth2 & ->).
  exists ms, (set_undelivered (delete uid) r1). split; [done|].
  rewrite Hids, Hq. split; [done|]. rewrite <-Hmsgs. split; [done|]. split.
  - unfold drain_undelivered. simpl. by rewrite lookup_delete_eq.
  - intros u Hu. by rewrite Hoth2, Hother.
Qed.

Lemma drain_after_enqueue_witness :
  ∃ ms r2, drain_undelivered 1 (snd (enqueue_undelivered 2 1 sample)) = (Ret ms, r2) ∧
    m_id <$> ms = [2] ∧ Forall (λ m, m ∈ sample.(messages)) ms ∧
    fst (drain_undelivered 1 r2) = Ret [] ∧ ∀ u, u ≠ 1 → queue_of r2 u = queue_of sample u.
Proof.
  apply (drain_after_enqueue 1 [2] sample sample_ok).
  intros mid ->%list_elem_of_singleton. by vm_compute.
Defined.
