(* ===== verification/Session.v ===== *)
(** * Sessions: [include/auth/session.h], [src/auth/session.cpp]

    [SessionManager] is an in-memory cache of sessions written through to the
    store.  It is proved against the interface [SessionStore] (what it needs of
    [Repositories]); the in-memory store is an instance.  The mutex makes every
    cache access atomic; clock readings ([now]) and the random bytes of a token
    ([rand]) are arguments. *)
From S2P Require Import Prelude Util Repositories.

(** ** What the session manager needs of the store *)

Class SessionStore (R : Type) := {
  ss_load : M R (list SessionRow);
  ss_insert : string → Z → Z → M R unit;
  ss_delete : string → M R unit;
}.

(** The promise: a view of the rows as a map from token to user and time stamp,
    stored with a resolution of one second or better.  A store may restrict the
    tokens it is given ([ss_key]) and which users and times it takes
    ([ss_accepts]). *)
Class SessionStoreLaws (R : Type) `{SessionStore R} := {
  ss_ok : R → Prop;
  ss_key : string → Prop;
  ss_accepts : R → Z → Z → Prop;
  ss_view : R → gmap string (Z * Z);
  ss_stamp : Z → Z;
  ss_stamp_bound : ∀ ts, ss_stamp ts <= ts < ss_stamp ts + 1000;
  ss_load_spec : ∀ r, ss_ok r → ∃ rows,
    ss_load r = (Ret rows, r) ∧ NoDup (sr_token <$> rows) ∧
    ∀ tok uid ts, mkSessionRow tok uid ts ∈ rows ↔ ss_view r !! tok = Some (uid, ts);
  ss_insert_spec : ∀ tok uid ts r, ss_ok r → ss_key tok → ss_accepts r uid ts →
    ss_view r !! tok = None → ∃ r',
    ss_insert tok uid ts r = (Ret tt, r') ∧ ss_ok r' ∧
    ss_view r' = <[tok := (uid, ss_stamp ts)]> (ss_view r);
  ss_delete_spec : ∀ tok r, ss_ok r → ss_key tok → ∃ r',
    ss_delete tok r = (Ret tt, r') ∧ ss_ok r' ∧ ss_view r' = delete tok (ss_view r);
}.

(** ** The manager *)

Record SessionInfo := mkSessionInfo { si_user_id : Z; si_expires_at_ms : Z }.

Record SessionManager := mkSessions {
  ttl_seconds : Z;
  session_cache : gmap string SessionInfo;
}.

(** The constructor's [ttl > 0 ? ttl : 86400]. *)
Definition sessions_init (ttl : Z) : SessionManager :=
  mkSessions (if 0 <? ttl then ttl else 86400) ∅.

Definition set_cache (f : gmap string SessionInfo → gmap string SessionInfo)
    (s : SessionManager) : SessionManager :=
  mkSessions s.(ttl_seconds) (f s.(session_cache)).

(** 32 random bytes, hex-encoded ([make_session_token]). *)
Definition make_session_token (rand : list Z) : string := hex_encode rand.

(** The loop of [warm]: skip what has expired, cache the rest. *)
Fixpoint warm_rows (now ttl : Z) (rows : list SessionRow) (c : gmap string SessionInfo)
    : gmap string SessionInfo :=
  match rows with
  | [] => c
  | r :: rows =>
      let exp := r.(sr_last_active_ms) + ttl * 1000 in
      if exp <=? now then warm_rows now ttl rows c
      else warm_rows now ttl rows (<[r.(sr_token) := mkSessionInfo r.(sr_user_id) exp]> c)
  end.

Section manager.
Context {R : Type} `{SessionStore R}.

Definition warm (now : Z) : M (SessionManager * R) unit := λ '(s, r),
  match ss_load r with
  | (Ret rows, r') => (Ret tt, (set_cache (warm_rows now s.(ttl_seconds) rows) s, r'))
  | (Throw e, r') => (Throw e, (s, r'))
  end.

Definition create (uid now : Z) (rand : list Z) : M (SessionManager * R) string := λ '(s, r),
  let token := make_session_token rand in
  let exp_ms := now + s.(ttl_seconds) * 1000 in
  let s := set_cache (<[token := mkSessionInfo uid exp_ms]>) s in
  match ss_insert token uid now r with
  | (Ret _, r') => (Ret token, (s, r'))
  | (Throw e, r') => (Throw e, (s, r'))
  end.

Definition validate (token : string) (now : Z) : M (SessionManager * R) (option SessionInfo) :=
  λ '(s, r),
  match s.(session_cache) !! token with
  | None => (Ret None, (s, r))
  | Some info =>
      if info.(si_expires_at_ms) <=? now then (Ret None, (set_cache (delete token) s, r))
      else (Ret (Some info), (s, r))
  end.

Definition touch (token : string) (now : Z) : M (SessionManager * R) unit := λ '(s, r),
  match s.(session_cache) !! token with
  | None => (Ret tt, (s, r))
  | Some info =>
      (Ret tt, (set_cache (<[token := mkSessionInfo info.(si_user_id)
                                        (now + s.(ttl_seconds) * 1000)]>) s, r))
  end.

Definition revoke (token : string) : M (SessionManager * R) unit := λ '(s, r),
  let s := set_cache (delete token) s in
  let '(o, r') := ss_delete token r in (o, (s, r')).
End manager.

(** ** The in-memory store implements the interface *)

#[export] Instance repos_session_store : SessionStore Repositories := {
  ss_load := load_all_sessions;
  ss_insert := insert_session;
  ss_delete := delete_session;
}.

Definition session_view (r : Repositories) : gmap string (Z * Z) :=
  list_to_map ((λ s, (s.(sr_token), (s.(sr_user_id), s.(sr_last_active_ms)))) <$> r.(sessions)).

Lemma session_view_keys (l : list SessionRow) :
  ((λ s, (s.(sr_token), (s.(sr_user_id), s.(sr_last_active_ms)))) <$> l).*1 = sr_token <$> l.
Proof. rewrite <-list_fmap_compose. done. Qed.

Lemma session_view_lookup r tok uid ts :
  NoDup (sr_token <$> r.(sessions)) →
  session_view r !! tok = Some (uid, ts) ↔ mkSessionRow tok uid ts ∈ r.(sessions).
Proof.
  intros Hnd. unfold session_view. rewrite <-elem_of_list_to_map by by rewrite session_view_keys.
  rewrite list_elem_of_fmap. split.
  - intros ([t u x] & Heq & Hin). by simplify_eq/=.
  - intros Hin. by eexists (mkSessionRow tok uid ts).
Qed.

Lemma upsert_session_view tok uid ts l :
  NoDup (sr_token <$> l) →
  ∀ t u x, mkSessionRow t u x ∈ upsert_session tok uid ts l ↔
    (t = tok ∧ u = uid ∧ x = ts) ∨ (t ≠ tok ∧ mkSessionRow t u x ∈ l).
Proof.
  induction l as [|s l IH]; intros Hnd t u x; cbn [upsert_session].
  - rewrite list_elem_of_singleton, elem_of_nil. naive_solver.
  - rewrite fmap_cons in Hnd. apply NoDup_cons in Hnd as [Hs Hnd].
    destruct (String.eqb_spec (sr_token s) tok) as [<-|Hne].
    + rewrite !elem_of_cons. split.
      * intros [[= -> -> ->]|Hin]; [by left|right]. split; [|by right].
        intros ->. apply Hs, list_elem_of_fmap. by eexists (mkSessionRow _ u x).
      * intros [(-> & -> & ->)|(Hn & [<-|Hin])]; [by left|done|by right].
    + rewrite !elem_of_cons, IH by done. split; [|naive_solver].
      intros [<-|[?|?]]; naive_solver.
Qed.

#[export, refine] Instance repos_session_laws : SessionStoreLaws Repositories := {|
  ss_ok := repos_ok;
  ss_key := λ _, True;
  ss_accepts := λ _ _ _, True;
  ss_view := session_view;
  ss_stamp := λ ts, ts;
|}.
Proof.
  - lia.
  - intros r Hr. exists r.(sessions). split; [done|]. split; [apply Hr|].
    intros tok uid ts. by rewrite session_view_lookup by apply Hr.
  - intros tok uid ts r Hr _ _ _. eexists. split; [done|].
    pose proof (insert_session_ok tok uid ts r Hr) as Hr'. split; [done|].
    apply map_eq. intros t. apply option_eq. intros [u x].
    rewrite session_view_lookup by apply Hr'. simpl.
    rewrite upsert_session_view by apply Hr.
    destruct (decide (t = tok)) as [->|].
    + rewrite lookup_insert_eq. naive_solver.
    + rewrite lookup_insert_ne, session_view_lookup by (done || apply Hr). naive_solver.
  - intros tok r Hr _. eexists. split; [done|].
    pose proof (delete_session_ok tok r Hr) as Hr'. split; [done|].
    apply map_eq. intros t. apply option_eq. intros [u x].
    rewrite session_view_lookup by apply Hr'. simpl.
    rewrite list_elem_of_In, filter_In, <-list_elem_of_In, negb_true_iff, String.eqb_neq. simpl.
    destruct (decide (t = tok)) as [->|].
    + rewrite lookup_delete_eq. naive_solver.
    + rewrite lookup_delete_ne, session_view_lookup by (done || apply Hr). naive_solver.
Defined.

(** ** Lemmas about the manager, for any store that keeps the promise *)

Lemma warm_rows_skip now ttl rows c tok :
  tok ∉ sr_token <$> rows → warm_rows now ttl rows c !! tok = c !! tok.
Proof.
  revert c. induction rows as [|row rows IH]; intros c Hn; [done|].
  rewrite fmap_cons, elem_of_cons in Hn. cbn [warm_rows].
  case_match; rewrite IH by tauto; [done|].
  rewrite lookup_insert_ne; [done|]. intros <-. tauto.
Qed.

Lemma warm_rows_lookup now ttl rows c tok uid ts :
  NoDup (sr_token <$> rows) → mkSessionRow tok uid ts ∈ rows →
  warm_rows now ttl rows c !! tok =
  if ts + ttl * 1000 <=? now then c !! tok else Some (mkSessionInfo uid (ts + ttl * 1000)).
Proof.
  revert c. induction rows as [|row rows IH]; intros c Hnd Hin; [by apply elem_of_nil in Hin|].
  rewrite fmap_cons in Hnd. apply NoDup_cons in Hnd as [Hrow Hnd].
  apply elem_of_cons in Hin as [<-|Hin]; cbn [warm_rows].
  - simpl in *. case_match; rewrite warm_rows_skip by done; [done|]. by rewrite lookup_insert_eq.
  - assert (sr_token row ≠ tok) as Hne.
    { intros Heq. apply Hrow, list_elem_of_fmap. rewrite Heq. by eexists (mkSessionRow tok uid ts). }
    destruct (sr_last_active_ms row + ttl * 1000 <=? now); rewrite IH by done; [done|].
    by rewrite lookup_insert_ne.
Qed.

Section laws.
Context {R : Type} `{SessionStoreLaws R}.
Implicit Types (s : SessionManager) (r : R).

(** The state a process holds: the cache agrees with the store on who owns a token. *)
Definition coherent (st : SessionManager * R) : Prop :=
  ss_ok st.2 ∧ 0 < st.1.(ttl_seconds) ∧
  ∀ tok info, st.1.(session_cache) !! tok = Some info →
    ∃ ts, ss_view st.2 !! tok = Some (info.(si_user_id), ts).

Lemma warm_spec now s r :
  ss_ok r → ∃ c, warm now (s, r) = (Ret tt, (mkSessions s.(ttl_seconds) c, r)) ∧
    ∀ tok, c !! tok =
      match ss_view r !! tok with
      | Some (uid, ts) =>
          if ts + s.(ttl_seconds) * 1000 <=? now then s.(session_cache) !! tok
          else Some (mkSessionInfo uid (ts + s.(ttl_seconds) * 1000))
      | None => s.(session_cache) !! tok
      end.
Proof.
  intros Hr. destruct (ss_load_spec r Hr) as (rows & Hload & Hnd & Hrows).
  unfold warm. rewrite Hload. eexists. split; [done|]. intros tok.
  destruct (ss_view r !! tok) as [[uid ts]|] eqn:Hv.
  - by apply warm_rows_lookup, Hrows.
  - apply warm_rows_skip. intros ([t u x] & -> & Hin)%list_elem_of_fmap.
    apply Hrows in Hin. simpl in *. congruence.
Qed.

(** The token of [rand] can be stored for [uid] and was not issued before. *)
Definition issuable (uid now : Z) (rand : list Z) r : Prop :=
  ss_key (make_session_token rand) ∧ ss_accepts r uid now ∧
  ss_view r !! make_session_token rand = None.

Lemma create_spec uid now rand s r :
  ss_ok r → issuable uid now rand r →
  ∃ r', create uid now rand (s, r) =
    (Ret (make_session_token rand),
     (set_cache (<[make_session_token rand :=
        mkSessionInfo uid (now + s.(ttl_seconds) * 1000)]>) s, r')) ∧
    ss_ok r' ∧
    ss_view r' = <[make_session_token rand := (uid, ss_stamp now)]> (ss_view r).
Proof.
  intros Hr (Hk & Ha & Hfresh).
  destruct (ss_insert_spec _ uid now r Hr Hk Ha Hfresh) as (r' & Hins & Hok & Hv).
  exists r'. unfold create. by rewrite Hins.
Qed.

Lemma revoke_spec tok s r :
  ss_ok r → ss_key tok → ∃ r', revoke tok (s, r) = (Ret tt, (set_cache (delete tok) s, r')) ∧
    ss_ok r' ∧ ss_view r' = delete tok (ss_view r).
Proof.
  intros Hr Hk. destruct (ss_delete_spec tok r Hr Hk) as (r' & Hdel & Hok & Hv).
  exists r'. unfold revoke. by rewrite Hdel.
Qed.
End laws.

(** ** Operations as a trace *)

Inductive session_op :=
| SWarm (now : Z)
| SCreate (uid now : Z) (rand : list Z)
| SValidate (tok : string) (now : Z)
| STouch (tok : string) (now : Z)
| SRevoke (tok : string).

Definition run_session_op {R} `{SessionStore R} (o : session_op)
    (st : SessionManager * R) : SessionManager * R :=
  match o with
  | SWarm now => snd (warm now st)
  | SCreate uid now rand => snd (create uid now rand st)
  | SValidate tok now => snd (validate tok now st)
  | STouch tok now => snd (touch tok now st)
  | SRevoke tok => snd (revoke tok st)
  end.

(** A token drawn for a new session was not issued before; a revoked one is of the
    form of those issued. *)
Definition op_fresh {R} `{SessionStoreLaws R} (o : session_op) (st : SessionManager * R) : Prop :=
  match o with
  | SCreate uid now rand => issuable uid now rand st.2
  | SRevoke tok => ss_key tok
  | _ => True
  end.

(** Any sequence of operations from a fresh manager over a store [r]. *)
Inductive session_reachable {R} `{SessionStoreLaws R} (ttl : Z) (r : R) : SessionManager * R → Prop :=
| sreach_init : session_reachable ttl r (sessions_init ttl, r)
| sreach_step st o : session_reachable ttl r st → op_fresh o st →
    session_reachable ttl r (run_session_op o st).

Lemma session_reach_coherent {R} `{SessionStoreLaws R} ttl (r : R) st :
  ss_ok r → session_reachable ttl r st → coherent st.
Proof.
  intros Hr. induction 1 as [|[s r1] o Hreach (Hok & Httl & Hc) Hfresh].
  - split; [done|]. split; [simpl; case_match; to_prop; lia|].
    intros tok info. simpl. by rewrite lookup_empty.
  - destruct o as [now|uid now rand|tok now|tok now|tok];
      cbn [run_session_op op_fresh fst snd] in *; unfold validate, touch.
    + destruct (warm_spec now s r1 Hok) as (c & -> & Hlk). split; [done|]. split; [done|].
      intros t i Ht. cbn in *. rewrite Hlk in Ht.
      destruct (ss_view r1 !! t) as [[u x]|] eqn:Hv; [|by apply Hc in Ht as [? ?]; simplify_eq].
      case_match; [apply Hc in Ht as [? ?]; simplify_eq; by eexists|]. simplify_eq/=. by eexists.
    + destruct (create_spec uid now rand s r1 Hok Hfresh) as (r' & -> & Hok' & Hv).
      split; [done|]. split; [done|]. intros t i. simpl. rewrite Hv.
      destruct (decide (t = make_session_token rand)) as [->|].
      * rewrite !lookup_insert_eq. intros [= <-]. by eexists.
      * rewrite !lookup_insert_ne by done. apply Hc.
    + destruct (session_cache s !! tok) as [info|] eqn:Hl; [|done].
      case_match; [|done]. split; [done|]. split; [done|]. intros t i. simpl.
      destruct (decide (t = tok)) as [->|]; [by rewrite lookup_delete_eq|].
      rewrite lookup_delete_ne by done. apply Hc.
    + destruct (session_cache s !! tok) as [info|] eqn:Hl; [|done].
      split; [done|]. split; [done|]. intros t i. simpl.
      destruct (decide (t = tok)) as [->|].
      * rewrite lookup_insert_eq. intros [= <-]. simpl. by apply Hc.
      * rewrite lookup_insert_ne by done. apply Hc.
    + destruct (revoke_spec tok s r1 Hok Hfresh) as (r' & -> & Hok' & Hv).
      split; [done|]. split; [done|]. intros t i. simpl. rewrite Hv.
      destruct (decide (t = tok)) as [->|]; [by rewrite lookup_delete_eq|].
      rewrite !lookup_delete_ne by done. apply Hc.
Qed.

(** ** Properties *)

(** In every state reachable by any interleaving of [warm], [create],
    [validate], [touch] and [revoke], each cached session has a row in the store
    with the same token and user: the cache never invents or reassigns a
    session. *)
Theorem session_cache_coherent {R} `{SessionStoreLaws R} ttl (r : R) st :
  ss_ok r → session_reachable ttl r st → coherent st.
Proof. apply session_reach_coherent. Qed.

Lemma session_cache_coherent_witness :
  coherent (run_session_op (SCreate 7 1000 [1; 2]) (sessions_init 60, repos_init)).
Proof.
  apply (session_cache_coherent 60 repos_init); [apply repos_init_ok|].
  apply sreach_step; [apply sreach_init|done].
Defined.

(** A created session validates, with its user and expiry, exactly until
    its time-to-live has elapsed, on whatever later clock reading; the first
    validation after that removes it for good. *)
Lemma create_then_validate {R} `{SessionStoreLaws R} uid now rand now' s (r : R) :
  ss_ok r → issuable uid now rand r →
  let tok := make_session_token rand in
  let exp := now + s.(ttl_seconds) * 1000 in
  ∃ st, create uid now rand (s, r) = (Ret tok, st) ∧
    fst (validate tok now' st) =
      Ret (if now' <? exp then Some (mkSessionInfo uid exp) else None) ∧
    (exp <= now' → ∀ now'', fst (validate tok now'' (snd (validate tok now' st))) = Ret None).
Proof.
  intros Hr Hfresh tok exp. destruct (create_spec uid now rand s r Hr Hfresh) as (r' & Hc & _).
  eexists. split; [done|]. unfold validate. simpl. rewrite lookup_insert_eq. simpl.
  fold tok exp. rewrite Z.leb_antisym. destruct (now' <? exp) eqn:E; to_prop; simpl.
  - split; [done|]. lia.
  - split; [done|]. intros _ now''. by rewrite lookup_delete_eq.
Qed.

(** A revoked token stays invalid: it does not validate afterwards, at any
    clock reading, not even after a process restart that reloads the sessions
    from the store. *)
Lemma revoke_is_final {R} `{SessionStoreLaws R} tok s (r : R) :
  ss_ok r → ss_key tok →
  ∃ st, revoke tok (s, r) = (Ret tt, st) ∧
    (∀ now, fst (validate tok now st) = Ret None) ∧
    ∀ ttl now now', ∃ st', warm now (sessions_init ttl, st.2) = (Ret tt, st') ∧
      fst (validate tok now' st') = Ret None.
Proof.
  intros Hr Hk. destruct (revoke_spec tok s r Hr Hk) as (r' & Hrev & Hok & Hv).
  eexists. split; [done|]. split.
  - intros now. unfold validate. simpl. by rewrite lookup_delete_eq.
  - intros ttl now now'. destruct (warm_spec now (sessions_init ttl) r' Hok) as (c & Hw & Hc).
    eexists. split; [exact Hw|]. unfold validate. simpl. rewrite Hc, Hv, lookup_delete_eq. simpl.
    by rewrite lookup_empty.
Qed.

(** Sessions survive a restart: a session created before a crash that loses
    the cache is valid after [warm], for the same user, until its original
    expiry less the store's resolution of at most one second. *)
Theorem session_survives_restart {R} `{SessionStoreLaws R} uid now rand now' s (r : R) :
  ss_ok r → 0 < s.(ttl_seconds) → issuable uid now rand r →
  let tok := make_session_token rand in
  let exp := now + s.(ttl_seconds) * 1000 in
  now' <= exp - 1000 →
  ∃ st1 st2 exp', create uid now rand (s, r) = (Ret tok, st1) ∧
    warm now' (sessions_init s.(ttl_seconds), st1.2) = (Ret tt, st2) ∧
    exp - 1000 < exp' <= exp ∧
    fst (validate tok now' st2) = Ret (Some (mkSessionInfo uid exp')).
Proof.
  intros Hr Httl Hfresh tok exp Hnow.
  destruct (create_spec uid now rand s r Hr Hfresh) as (r' & Hc & Hok & Hv).
  destruct (warm_spec now' (sessions_init s.(ttl_seconds)) r' Hok) as (c & Hw & Hlk).
  pose proof (ss_stamp_bound now) as Hst.
  eexists _, _, (ss_stamp now + s.(ttl_seconds) * 1000).
  split; [exact Hc|]. split; [exact Hw|]. split; [lia|].
  unfold validate. simpl. rewrite Hlk, Hv, lookup_insert_eq. simpl.
  rewrite (proj2 (Z.ltb_lt _ _)) by done.
  rewrite !(proj2 (Z.leb_gt _ _)) by (simpl; lia). simpl.
  by rewrite ?(proj2 (Z.leb_gt _ _)) by lia.
Qed.

Lemma session_survives_restart_witness :
  ∃ st1 st2 exp', create 7 1000 [171] (sessions_init 60, repos_init) = (Ret "ab", st1) ∧
    warm 2000 (sessions_init 60, st1.2) = (Ret tt, st2) ∧ 60000 < exp' <= 61000 ∧
    fst (validate "ab" 2000 st2) = Ret (Some (mkSessionInfo 7 exp')).
Proof.
  apply (session_survives_restart 7 1000 [171] 2000 (sessions_init 60) repos_init);
    [apply repos_init_ok|done|done|simpl; lia].
Defined.
