(* ===== verification/Presence.v ===== *)
(** * Presence: [include/chat/presence.h], [src/chat/presence.cpp]

    Which users are online and on which connections.  Connections are shared
    objects; the map holds pointers, here the connection ids under which the
    connection store keeps them (ids are unique).  [bind] and [unbind] run the
    transition handler after releasing the mutex, so they are functions over an
    arbitrary world [W] that contains the presence map. *)
From S2P Require Import Prelude.

Record Presence := mkPresence { presence_map : gmap Z (gset Z) }.

Definition presence_init : Presence := mkPresence ∅.

(** [map_[uid]]: a missing slot is default-constructed empty. *)
Definition slot_of (p : Presence) (uid : Z) : gset Z := default ∅ (p.(presence_map) !! uid).

Definition connections_of (p : Presence) (uid : Z) : list Z :=
  match p.(presence_map) !! uid with
  | None => []
  | Some s => elements s
  end.

Definition is_online (p : Presence) (uid : Z) : bool :=
  bool_decide (is_Some (p.(presence_map) !! uid)).

(** The locked section of [bind]: the new map and [transitioned]. *)
Definition bind_locked (uid cid : Z) (p : Presence) : Presence * bool :=
  let slot := slot_of p uid in
  (mkPresence (<[uid := {[cid]} ∪ slot]> p.(presence_map)), bool_decide (slot = ∅)).

(** The locked section of [unbind]: [None] is the early [return false]. *)
Definition unbind_locked (uid cid : Z) (p : Presence) : option (Presence * bool) :=
  match p.(presence_map) !! uid with
  | None => None
  | Some s =>
      let s := s ∖ {[cid]} in
      if bool_decide (s = ∅) then Some (mkPresence (delete uid p.(presence_map)), true)
      else Some (mkPresence (<[uid := s]> p.(presence_map)), false)
  end.

Section presence.
Context {W : Type} (get_p : W → Presence) (set_p : Presence → W → W).
Context (handler : option (Z → bool → M W unit)).

(** [if (transitioned && handler_) handler_(uid, online); return transitioned;] *)
Definition notify (uid : Z) (online transitioned : bool) : M W bool := λ w,
  match transitioned, handler with
  | true, Some h =>
      match h uid online w with
      | (Ret _, w') => (Ret true, w')
      | (Throw e, w') => (Throw e, w')
      end
  | t, _ => (Ret t, w)
  end.

Definition bind (uid cid : Z) : M W bool := λ w,
  let '(p, transitioned) := bind_locked uid cid (get_p w) in
  notify uid true transitioned (set_p p w).

Definition unbind (uid cid : Z) : M W bool := λ w,
  match unbind_locked uid cid (get_p w) with
  | None => (Ret false, w)
  | Some (p, went_offline) => notify uid false went_offline (set_p p w)
  end.
End presence.

(** ** Invariant and traces *)

(** No slot of the map is empty: a user in the map is online. *)
Definition presence_ok (p : Presence) : Prop :=
  ∀ uid s, p.(presence_map) !! uid = Some s → s ≠ ∅.

Inductive presence_op :=
| PBind (uid cid : Z)
| PUnbind (uid cid : Z).

(** The world of a presence map whose handler records the transitions. *)
Definition recorded : Type := Presence * list (Z * bool).

Definition record_handler : Z → bool → M recorded unit := λ uid online '(p, evs),
  (Ret tt, (p, evs ++ [(uid, online)])).

Definition run_presence_op (o : presence_op) (w : recorded) : recorded :=
  match o with
  | PBind uid cid => snd (bind fst (λ p '(_, evs), (p, evs)) (Some record_handler) uid cid w)
  | PUnbind uid cid => snd (unbind fst (λ p '(_, evs), (p, evs)) (Some record_handler) uid cid w)
  end.

Definition run_presence (ops : list presence_op) : recorded :=
  foldl (λ w o, run_presence_op o w) (presence_init, []) ops.

(** The transitions reported for one user, in order. *)
Definition events_of (uid : Z) (evs : list (Z * bool)) : list bool :=
  snd <$> List.filter (λ e, e.1 =? uid) evs.

Fixpoint alternates (b : bool) (l : list bool) : Prop :=
  match l with
  | [] => True
  | x :: l => x = b ∧ alternates (negb b) l
  end.

(** ** Lemmas *)

Lemma presence_init_ok : presence_ok presence_init.
Proof. intros uid s. simpl. by rewrite lookup_empty. Qed.

Lemma bind_locked_ok uid cid p : presence_ok p → presence_ok (bind_locked uid cid p).1.
Proof.
  intros Hp u s. simpl. destruct (decide (u = uid)) as [->|].
  - rewrite lookup_insert_eq. intros [= <-]. set_solver.
  - rewrite lookup_insert_ne by done. apply Hp.
Qed.

Lemma unbind_locked_ok uid cid p p' b :
  presence_ok p → unbind_locked uid cid p = Some (p', b) → presence_ok p'.
Proof.
  intros Hp. unfold unbind_locked. destruct (_ !! uid) as [s|] eqn:Hs; [|done].
  case_bool_decide; intros [= <- <-] u s'; simpl; destruct (decide (u = uid)) as [->|].
  - by rewrite lookup_delete_eq.
  - rewrite lookup_delete_ne by done. apply Hp.
  - rewrite lookup_insert_eq. by intros [= <-].
  - rewrite lookup_insert_ne by done. apply Hp.
Qed.

#[export] Hint Resolve presence_init_ok bind_locked_ok unbind_locked_ok : chat.

Lemma slot_empty_offline p uid :
  presence_ok p → slot_of p uid = ∅ ↔ is_online p uid = false.
Proof.
  intros Hp. unfold slot_of, is_online. rewrite bool_decide_eq_false.
  destruct (_ !! uid) as [s|] eqn:Hs; simpl.
  - split; [intros ->; by apply Hp in Hs|]. intros []. by eexists.
  - split; [|done]. intros _. apply is_Some_None.
Qed.

Lemma elem_connections_of p uid cid : cid ∈ connections_of p uid ↔ cid ∈ slot_of p uid.
Proof.
  unfold connections_of, slot_of. destruct (_ !! uid); simpl; [apply elem_of_elements|].
  rewrite elem_of_nil. set_solver.
Qed.

Lemma connections_nil p uid : connections_of p uid = [] ↔ slot_of p uid = ∅.
Proof.
  unfold connections_of, slot_of. destruct (_ !! uid) as [s|]; simpl; [|done].
  split; [|by intros ->]. intros Hs. apply elements_empty_iff in Hs. by apply leibniz_equiv.
Qed.

Lemma online_iff_connections p uid :
  presence_ok p → is_online p uid = true ↔ connections_of p uid ≠ [].
Proof.
  intros Hp. rewrite connections_nil, slot_empty_offline by done. by destruct (is_online p uid).
Qed.

Lemma alternates_snoc b l x :
  alternates b l → x = negb (default (negb b) (last l)) → alternates b (l ++ [x]).
Proof.
  revert b. induction l as [|y l IH]; intros b Hl Hx; cbn [alternates app] in *.
  - split; [|done]. simpl in Hx. by rewrite negb_involutive in Hx.
  - destruct Hl as [-> Hl]. split; [done|]. apply IH; [done|].
    rewrite last_cons in Hx. by destruct (last l); rewrite ?negb_involutive.
Qed.

Lemma events_of_snoc uid evs u b :
  events_of uid (evs ++ [(u, b)]) =
  if u =? uid then events_of uid evs ++ [b] else events_of uid evs.
Proof.
  unfold events_of. rewrite List.filter_app, fmap_app. simpl.
  destruct (u =? uid); simpl; [done|apply app_nil_r].
Qed.

(** What the recorded world keeps for every user. *)
Definition recorded_ok (w : recorded) : Prop :=
  presence_ok w.1 ∧
  ∀ uid, alternates true (events_of uid w.2) ∧
         is_online w.1 uid = default false (last (events_of uid w.2)).

Lemma is_online_insert m u s uid :
  is_online (mkPresence (<[u := s]> m)) uid = (u =? uid) || is_online (mkPresence m) uid.
Proof.
  unfold is_online; simpl. destruct (u =? uid) eqn:E; to_prop; simpl.
  - subst. rewrite lookup_insert_eq. by rewrite bool_decide_eq_true_2 by by eexists.
  - by rewrite lookup_insert_ne.
Qed.

Lemma is_online_delete m u uid :
  is_online (mkPresence (delete u m)) uid = negb (u =? uid) && is_online (mkPresence m) uid.
Proof.
  unfold is_online; simpl. destruct (u =? uid) eqn:E; to_prop; simpl.
  - subst. rewrite lookup_delete_eq. by rewrite bool_decide_eq_false_2 by apply is_Some_None.
  - by rewrite lookup_delete_ne.
Qed.

(** Reporting a change of [u]'s state keeps the record in step with the map. *)
Lemma record_transition p p' evs u b :
  presence_ok p' → is_online p u = negb b → is_online p' u = b →
  (∀ uid, uid ≠ u → is_online p' uid = is_online p uid) →
  recorded_ok (p, evs) → recorded_ok (p', evs ++ [(u, b)]).
Proof.
  intros Hok Hold Hnew Hother [_ Hw]. split; [done|]. intros uid. simpl.
  destruct (Hw uid) as [Halt Hon]. rewrite events_of_snoc. simpl in *.
  destruct (u =? uid) eqn:E; to_prop.
  - subst uid. rewrite last_snoc. simpl. split; [|done]. apply alternates_snoc; [done|].
    simpl. rewrite <-Hon, Hold. by destruct b.
  - by rewrite Hother.
Qed.

Lemma record_same p p' evs :
  presence_ok p' → (∀ uid, is_online p' uid = is_online p uid) →
  recorded_ok (p, evs) → recorded_ok (p', evs).
Proof. intros Hok Hs [_ Hw]. split; [done|]. intros uid. simpl. rewrite Hs. apply Hw. Qed.

Lemma run_presence_op_ok o w : recorded_ok w → recorded_ok (run_presence_op o w).
Proof.
  destruct w as [p evs]. intros Hw. pose proof (proj1 Hw) as Hp. simpl in Hp.
  destruct o as [u c|u c]; unfold run_presence_op, bind, unbind; simpl.
  - pose proof (bind_locked_ok u c p Hp) as Hok. unfold bind_locked in *. simpl in *.
    case_bool_decide as Hslot; simpl.
    + apply slot_empty_offline in Hslot; [|done].
      apply (record_transition p); [done|done| | |done].
      * rewrite is_online_insert, Z.eqb_refl. done.
      * intros uid Hne. rewrite is_online_insert.
        by rewrite (proj2 (Z.eqb_neq u uid)) by congruence; destruct p.
    + apply (record_same p); [done| |done]. intros uid. rewrite is_online_insert.
      destruct (u =? uid) eqn:E; to_prop; [|by destruct p]. subst. simpl.
      destruct (is_online p uid) eqn:Hon; [done|]. by apply slot_empty_offline in Hon.
  - destruct (unbind_locked u c p) as [[p' off]|] eqn:Hun; [|done].
    pose proof (unbind_locked_ok _ _ _ _ _ Hp Hun) as Hok.
    unfold unbind_locked in Hun. destruct (presence_map p !! u) as [s|] eqn:Hs; [|done].
    assert (is_online p u = true) as Hon.
    { unfold is_online. by rewrite bool_decide_eq_true_2 by by eexists. }
    case_bool_decide; injection Hun as <- <-; simpl.
    + apply (record_transition p); [done|done| | |done].
      * by rewrite is_online_delete, Z.eqb_refl.
      * intros uid Hne. rewrite is_online_delete.
        by rewrite (proj2 (Z.eqb_neq u uid)) by congruence; destruct p.
    + apply (record_same p); [done| |done]. intros uid. rewrite is_online_insert.
      destruct (u =? uid) eqn:E; to_prop; [|by destruct p]. by subst.
Qed.

(** ** Properties *)

(** For every sequence of [bind] and [unbind] calls, and every user, the
    transition handler is called with online and offline strictly alternating,
    starting with online, and [is_online] is what the last call reported (false
    before the first): no transition is missed, repeated or spurious, however
    many connections the user has. *)
Theorem presence_transitions_alternate ops uid :
  let '(p, evs) := run_presence ops in
  alternates true (events_of uid evs) ∧
  is_online p uid = default false (last (events_of uid evs)).
Proof.
  assert (recorded_ok (run_presence ops)) as Hok.
  { unfold run_presence. induction ops as [|o ops IH] using rev_ind.
    - split; [apply presence_init_ok|]. intros u. by simpl.
    - rewrite foldl_snoc. by apply run_presence_op_ok. }
  destruct (run_presence ops) as [p evs]. apply Hok.
Qed.

(** The connections bound to [uid] by a call sequence, by replaying it. *)
Fixpoint bound (uid : Z) (ops : list presence_op) (s : gset Z) : gset Z :=
  match ops with
  | [] => s
  | PBind u c :: ops => bound uid ops (if u =? uid then {[c]} ∪ s else s)
  | PUnbind u c :: ops => bound uid ops (if u =? uid then s ∖ {[c]} else s)
  end.

Lemma run_presence_op_slot o w uid :
  slot_of (run_presence_op o w).1 uid = bound uid [o] (slot_of w.1 uid).
Proof.
  destruct w as [p evs]. destruct o as [u c|u c]; unfold run_presence_op, bind, unbind; simpl.
  - case_bool_decide; simpl; unfold slot_of; simpl; destruct (u =? uid) eqn:E; to_prop; subst;
      by rewrite ?lookup_insert_eq, ?lookup_insert_ne.
  - unfold unbind_locked, slot_of. destruct (presence_map p !! u) as [s|] eqn:Hs; simpl.
    + case_bool_decide; simpl; destruct (u =? uid) eqn:E; to_prop; subst;
        rewrite ?lookup_insert_eq, ?lookup_insert_ne, ?lookup_delete_eq, ?lookup_delete_ne, ?Hs by done;
        by simpl.
    + destruct (u =? uid) eqn:E; to_prop; subst; [|done]. rewrite Hs. simpl. set_solver.
Qed.

(** After any call sequence, [connections_of] lists exactly the connections
    bound and not unbound since, each once, and it is non-empty exactly when
    [is_online] says so. *)
Theorem connections_of_correct ops uid :
  let p := (run_presence ops).1 in
  (∀ c, c ∈ connections_of p uid ↔ c ∈ bound uid ops ∅) ∧
  NoDup (connections_of p uid) ∧
  (is_online p uid = true ↔ connections_of p uid ≠ []).
Proof.
  intros p. split_and!.
  - intros c. rewrite elem_connections_of.
    enough (slot_of p uid = bound uid ops ∅) as -> by done. subst p. unfold run_presence.
    assert (∀ w, slot_of (foldl (λ w o, run_presence_op o w) w ops).1 uid =
                 bound uid ops (slot_of w.1 uid)) as H; [|by rewrite H].
    induction ops as [|o ops IH]; intros w; simpl; [done|].
    rewrite IH, run_presence_op_slot. by destruct o.
  - unfold connections_of. case_match; [apply NoDup_elements|apply NoDup_nil_2].
  - apply online_iff_connections. subst p. unfold run_presence.
    induction ops as [|o ops IH] using rev_ind; [apply presence_init_ok|].
    rewrite foldl_snoc. set (w := foldl _ _ ops) in *. destruct w as [p evs].
    destruct o as [u c|u c]; unfold run_presence_op, bind, unbind; simpl.
    + pose proof (bind_locked_ok u c p IH) as Hok. simpl in Hok.
      case_bool_decide; done.
    + destruct (unbind_locked u c p) as [[p' []]|] eqn:Hun; simpl; eauto with chat.
Qed.
