(* ===== verification/RoomManager.v ===== *)
(** * Room membership cache: [include/chat/room_manager.h], [src/chat/room_manager.cpp]

    [RoomManager] caches the member set of each room used since start-up; the
    store stays the source of truth.  The component is proved against the
    interface [RoomStore]; the in-memory store is an instance.  Each method holds
    the mutex throughout, so it is one transition.  The handlers, however, first
    write the store and then call [on_join]/[on_leave], in two separately locked
    steps on worker threads: the last part of this file interleaves those steps. *)
From S2P Require Import Prelude Repositories.

(** ** What the cache needs of the store *)

Class RoomStore (R : Type) := {
  rs_list_members : Z → M R (list Z);
  rs_join : Z → Z → M R bool;
  rs_leave : Z → Z → M R bool;
}.

(** The promise: each room has a set of members; joining adds to it or reports
    failure and changes nothing, leaving removes.  A store may restrict the
    identifiers it is given ([rs_id]) and who can join what ([rs_accepts]). *)
Class RoomStoreLaws (R : Type) `{RoomStore R} := {
  rs_ok : R → Prop;
  rs_id : Z → Prop;
  rs_accepts : R → Z → Z → Prop;
  rs_members : R → Z → gset Z;
  rs_list_spec : ∀ rid r, rs_ok r → rs_id rid → ∃ l,
    rs_list_members rid r = (Ret l, r) ∧ list_to_set l = rs_members r rid;
  rs_join_spec : ∀ rid uid r, rs_ok r → rs_accepts r rid uid → ∃ b r',
    rs_join rid uid r = (Ret b, r') ∧ rs_ok r' ∧
    ∀ rid', rs_members r' rid' =
      if b && (rid' =? rid) then {[uid]} ∪ rs_members r rid' else rs_members r rid';
  rs_leave_spec : ∀ rid uid r, rs_ok r → rs_id rid → rs_id uid → ∃ b r',
    rs_leave rid uid r = (Ret b, r') ∧ rs_ok r' ∧
    ∀ rid', rs_members r' rid' =
      if rid' =? rid then rs_members r rid' ∖ {[uid]} else rs_members r rid';
}.

(** ** The cache *)

Record RoomManager := mkRooms {
  room_cache : gmap Z (gset Z);
  room_loaded : gset Z;
}.

Definition rooms_init : RoomManager := mkRooms ∅ ∅.

Section room_manager.
Context {R : Type} `{RoomStore R}.

Definition ensure_loaded (rid : Z) : M (RoomManager * R) unit := λ '(rm, r),
  if bool_decide (rid ∈ rm.(room_loaded)) then (Ret tt, (rm, r))
  else match rs_list_members rid r with
       | (Ret members, r') =>
           (Ret tt, (mkRooms (<[rid := list_to_set members]> rm.(room_cache))
                             ({[rid]} ∪ rm.(room_loaded)), r'))
       | (Throw e, r') => (Throw e, (rm, r'))
       end.

Definition members_of (rid : Z) : M (RoomManager * R) (list Z) :=
  ensure_loaded rid ;;
  st ← get_state;
  mret match st.1.(room_cache) !! rid with
       | None => []
       | Some s => elements s
       end.

Definition is_member (rid uid : Z) : M (RoomManager * R) bool :=
  ensure_loaded rid ;;
  st ← get_state;
  mret match st.1.(room_cache) !! rid with
       | None => false
       | Some s => bool_decide (uid ∈ s)
       end.

(** [cache_[room_id].insert(user_id)]: [operator[]] creates a missing slot. *)
Definition on_join (rid uid : Z) : M (RoomManager * R) unit :=
  ensure_loaded rid ;;
  modify (λ '(rm, r),
    (mkRooms (<[rid := {[uid]} ∪ default ∅ (rm.(room_cache) !! rid)]> rm.(room_cache))
             rm.(room_loaded), r)).

Definition on_leave (rid uid : Z) : M (RoomManager * R) unit := λ '(rm, r),
  match rm.(room_cache) !! rid with
  | None => (Ret tt, (rm, r))
  | Some s => (Ret tt, (mkRooms (<[rid := s ∖ {[uid]}]> rm.(room_cache)) rm.(room_loaded), r))
  end.

Definition invalidate (rid : Z) : M (RoomManager * R) unit :=
  modify (λ '(rm, r),
    (mkRooms (delete rid rm.(room_cache)) (rm.(room_loaded) ∖ {[rid]}), r)).
End room_manager.

(** ** The in-memory store implements the interface *)

#[export] Instance repos_room_store : RoomStore Repositories := {
  rs_list_members := list_room_members;
  rs_join := join_room;
  rs_leave := leave_room;
}.

Lemma members_slot_insert rid s r rid' :
  members_slot (set_room_members (<[rid := s]>) r) rid' =
  if rid' =? rid then s else members_slot r rid'.
Proof.
  unfold members_slot; simpl. destruct (rid' =? rid) eqn:E; to_prop.
  - subst. by rewrite lookup_insert_eq.
  - by rewrite lookup_insert_ne by congruence.
Qed.

#[export, refine] Instance repos_room_laws : RoomStoreLaws Repositories := {|
  rs_ok := repos_ok;
  rs_id := λ _, True;
  rs_accepts := λ _ _ _, True;
  rs_members := members_slot;
|}.
Proof.
  - intros rid r _ _. simpl. unfold list_room_members, members_slot.
    destruct (room_members r !! rid) as [s|]; (eexists; split; [done|]); simpl; [|done].
    apply leibniz_equiv, list_to_set_elements.
  - intros rid uid r Hr _. pose proof (join_room_ok rid uid r Hr) as Hok. simpl.
    unfold join_room in *. destruct (rooms r !! rid).
    + do 2 eexists. split; [done|]. split; [exact Hok|]. intros rid'.
      rewrite members_slot_insert. simpl. by destruct (rid' =? rid) eqn:E; to_prop; subst.
    + do 2 eexists. split; [done|]. by split.
  - intros rid uid r Hr _ _. pose proof (leave_room_ok rid uid r Hr) as Hok. simpl.
    unfold leave_room in *. destruct (room_members r !! rid) as [s|] eqn:Hs.
    + do 2 eexists. split; [done|]. split; [exact Hok|]. intros rid'.
      rewrite members_slot_insert. destruct (rid' =? rid) eqn:E; to_prop; [|done].
      subst. unfold members_slot. by rewrite Hs.
    + do 2 eexists. split; [done|]. split; [done|]. intros rid'.
      destruct (rid' =? rid) eqn:E; to_prop; [|done]. subst.
      unfold members_slot. rewrite Hs. simpl. set_solver.
Defined.

(** ** Interleaved membership changes

    A membership change is two steps: the store write, then the cache update.
    [pending] holds the cache updates not made yet ([true] for a join). *)

Record room_sys (R : Type) := mkSys {
  sys_rooms : RoomManager;
  sys_store : R;
  sys_pending : gmap (Z * Z) bool;
}.
Arguments mkSys {R}.
Arguments sys_rooms {R}.
Arguments sys_store {R}.
Arguments sys_pending {R}.

Inductive room_label :=
| LStoreJoin (rid uid : Z)
| LStoreLeave (rid uid : Z)
| LOnJoin (rid uid : Z)
| LOnLeave (rid uid : Z)
| LMembersOf (rid : Z)
| LIsMember (rid uid : Z)
| LInvalidate (rid : Z).

Section steps.
Context {R : Type} `{RoomStore R}.

(** The store write of a change schedules its cache update (a failed join none). *)
Definition store_step (rid uid : Z) (joining : bool) (o : outcome bool * R) (y : room_sys R)
    : option (room_sys R) :=
  match o with
  | (Ret b, r') =>
      Some (mkSys y.(sys_rooms) r'
              (if joining && negb b then y.(sys_pending)
               else <[(rid, uid) := joining]> y.(sys_pending)))
  | (Throw _, _) => None
  end.

Definition cache_step {A : Type} (m : M (RoomManager * R) A) (y : room_sys R)
    (pending : gmap (Z * Z) bool) : option (room_sys R) :=
  match m (y.(sys_rooms), y.(sys_store)) with
  | (Ret _, (rm', r')) => Some (mkSys rm' r' pending)
  | (Throw _, _) => None
  end.

Definition room_step (l : room_label) (y : room_sys R) : option (room_sys R) :=
  match l with
  | LStoreJoin rid uid => store_step rid uid true (rs_join rid uid y.(sys_store)) y
  | LStoreLeave rid uid => store_step rid uid false (rs_leave rid uid y.(sys_store)) y
  | LOnJoin rid uid =>
      match y.(sys_pending) !! (rid, uid) with
      | Some true => cache_step (on_join rid uid) y (delete (rid, uid) y.(sys_pending))
      | _ => None
      end
  | LOnLeave rid uid =>
      match y.(sys_pending) !! (rid, uid) with
      | Some false => cache_step (on_leave rid uid) y (delete (rid, uid) y.(sys_pending))
      | _ => None
      end
  | LMembersOf rid => cache_step (members_of rid) y y.(sys_pending)
  | LIsMember rid uid => cache_step (is_member rid uid) y y.(sys_pending)
  | LInvalidate rid => cache_step (invalidate rid) y y.(sys_pending)
  end.

End steps.

Section runs.
Context {R : Type} `{RoomStoreLaws R}.

(** One user's changes to one room do not overlap: the next store write comes
    after the previous cache update.  The arguments are ones the store takes. *)
Definition serialised (l : room_label) (y : room_sys R) : Prop :=
  match l with
  | LStoreJoin rid uid => y.(sys_pending) !! (rid, uid) = None ∧ rs_accepts y.(sys_store) rid uid
  | LStoreLeave rid uid => y.(sys_pending) !! (rid, uid) = None ∧ rs_id rid ∧ rs_id uid
  | LOnJoin rid _ | LMembersOf rid | LIsMember rid _ => rs_id rid
  | _ => True
  end.

Inductive room_reach (y0 : room_sys R) : room_sys R → Prop :=
| rreach_refl : room_reach y0 y0
| rreach_step y l y' :
    room_reach y0 y → serialised l y → room_step l y = Some y' → room_reach y0 y'.
End runs.

(** ** Invariant *)

Section invariant.
Context {R : Type} `{RoomStoreLaws R}.

(** Loaded rooms are exactly the cached ones; a cached set agrees with the store
    on every user without a change in flight; a change in flight is already in
    the store. *)
Record rooms_inv (y : room_sys R) : Prop := {
  inv_ok : rs_ok y.(sys_store);
  inv_loaded : ∀ rid, rid ∈ y.(sys_rooms).(room_loaded) ↔
    is_Some (y.(sys_rooms).(room_cache) !! rid);
  inv_agree : ∀ rid s uid, y.(sys_rooms).(room_cache) !! rid = Some s →
    y.(sys_pending) !! (rid, uid) = None → uid ∈ s ↔ uid ∈ rs_members y.(sys_store) rid;
  inv_pending : ∀ rid uid b, y.(sys_pending) !! (rid, uid) = Some b →
    uid ∈ rs_members y.(sys_store) rid ↔ b = true;
}.

Lemma rooms_inv_init r : rs_ok r → rooms_inv (mkSys rooms_init r ∅).
Proof.
  intros Hr. split; simpl; [done| | |].
  - intros rid. rewrite lookup_empty. split; [set_solver|by intros []].
  - intros rid s uid. by rewrite lookup_empty.
  - intros rid uid b. by rewrite lookup_empty.
Qed.

Lemma ensure_loaded_spec rid rm r pend :
  rooms_inv (mkSys rm r pend) → rs_id rid → ∃ rm' s,
    ensure_loaded rid (rm, r) = (Ret tt, (rm', r)) ∧
    rooms_inv (mkSys rm' r pend) ∧ rm'.(room_cache) !! rid = Some s.
Proof.
  intros [Hok Hl Ha Hp] Hid. simpl in *. unfold ensure_loaded. case_bool_decide as Hin.
  - apply Hl in Hin as Hs. destruct Hs as [s Hs]. by exists rm, s.
  - destruct (rs_list_spec rid r Hok Hid) as (l & -> & Hm).
    eexists _, _. split; [done|]. split; [|apply lookup_insert_eq]. split; simpl; [done| |  |done].
    + intros rid'. destruct (decide (rid' = rid)) as [->|].
      * rewrite lookup_insert_eq. split; [by eexists|set_solver].
      * rewrite lookup_insert_ne by done. rewrite <-Hl. set_solver.
    + intros rid' s uid. destruct (decide (rid' = rid)) as [->|].
      * rewrite lookup_insert_eq. intros [= <-] _. by rewrite Hm.
      * rewrite lookup_insert_ne by done. apply Ha.
Qed.

(** Replacing the cached set of a room, with the store unchanged. *)
Lemma rooms_inv_update rid s' rm r pend pend' :
  rooms_inv (mkSys rm r pend) → is_Some (rm.(room_cache) !! rid) →
  (∀ k b, pend' !! k = Some b → pend !! k = Some b) →
  (∀ k, pend' !! k = None → k.1 ≠ rid → pend !! k = None) →
  (∀ uid, pend' !! (rid, uid) = None → uid ∈ s' ↔ uid ∈ rs_members r rid) →
  rooms_inv (mkSys (mkRooms (<[rid := s']> rm.(room_cache)) rm.(room_loaded)) r pend').
Proof.
  intros [Hok Hl Ha Hp] Hs Hsub Hother Hs'. simpl in *. split; simpl; [done| | |by eauto].
  - intros rid'. rewrite Hl. destruct (decide (rid' = rid)) as [->|].
    + rewrite lookup_insert_eq. split; [by eexists|done].
    + by rewrite lookup_insert_ne.
  - intros rid' s uid. destruct (decide (rid' = rid)) as [->|].
    + rewrite lookup_insert_eq. intros [= <-]. apply Hs'.
    + rewrite lookup_insert_ne by done. intros Hc Hn. apply (Ha rid' s uid Hc).
      by apply Hother.
Qed.

Lemma rooms_inv_on_join rid uid rm r pend :
  rooms_inv (mkSys rm r pend) → rs_id rid → pend !! (rid, uid) = Some true → ∃ rm',
    on_join rid uid (rm, r) = (Ret tt, (rm', r)) ∧
    rooms_inv (mkSys rm' r (delete (rid, uid) pend)).
Proof.
  intros Hi Hid Hpend. destruct (ensure_loaded_spec rid rm r pend Hi Hid) as (rm1 & s & He & Hi1 & Hs).
  eexists. unfold on_join. erewrite M_bind_ret by exact He. cbn. split; [done|]. rewrite Hs. simpl.
  apply (rooms_inv_update _ _ _ _ pend); [done|by eexists| | |].
  - intros k b. rewrite lookup_delete_Some. tauto.
  - intros k. rewrite lookup_delete_None. intros [<-|]; [done|done].
  - intros u. rewrite lookup_delete_None. intros [Heq|Hn].
    + simplify_eq. pose proof (proj2 (inv_pending _ Hi _ _ _ Hpend) eq_refl). set_solver.
    + assert (u ≠ uid) by congruence. rewrite <-(inv_agree _ Hi1 _ _ _ Hs Hn). set_solver.
Qed.

Lemma rooms_inv_on_leave rid uid rm r pend :
  rooms_inv (mkSys rm r pend) → pend !! (rid, uid) = Some false → ∃ rm',
    on_leave rid uid (rm, r) = (Ret tt, (rm', r)) ∧
    rooms_inv (mkSys rm' r (delete (rid, uid) pend)).
Proof.
  intros Hi Hpend.
  assert (uid ∉ rs_members r rid) as Hout.
  { intros Hin. by apply (inv_pending _ Hi _ _ _ Hpend) in Hin. }
  unfold on_leave. destruct (room_cache rm !! rid) as [s|] eqn:Hs; eexists; (split; [done|]).
  - apply (rooms_inv_update _ _ _ _ pend); [done|by eexists| | |].
    + intros k b. rewrite lookup_delete_Some. tauto.
    + intros k. rewrite lookup_delete_None. intros [<-|]; [done|done].
    + intros u. rewrite lookup_delete_None. intros [Heq|Hn].
      * simplify_eq. set_solver.
      * assert (u ≠ uid) by congruence. rewrite <-(inv_agree _ Hi _ _ _ Hs Hn). set_solver.
  - destruct Hi as [Hok Hl Ha Hp]. simpl in *. split; simpl; [done|done| |].
    + intros rid' s u Hc. rewrite lookup_delete_None. intros [Heq|Hn]; [|by apply (Ha rid' s u)].
      simplify_eq.
    + intros rid' u b. rewrite lookup_delete_Some. intros [_ Hb]. by apply (Hp rid' u).
Qed.

(** A store write by [(rid, uid)], which had no change in flight. *)
Lemma rooms_inv_store rid uid b rm r r' pend :
  rooms_inv (mkSys rm r pend) → pend !! (rid, uid) = None → rs_ok r' →
  (uid ∈ rs_members r' rid ↔ b = true) →
  (∀ rid' u, (rid', u) ≠ (rid, uid) → u ∈ rs_members r' rid' ↔ u ∈ rs_members r rid') →
  rooms_inv (mkSys rm r' (<[(rid, uid) := b]> pend)).
Proof.
  intros [Hok Hl Ha Hp] Hn Hok' Hself Hother. simpl in *. split; simpl; [done|done| |].
  - intros rid' s u Hc. rewrite lookup_insert_None. intros [Hn' Hne].
    rewrite Hother by congruence. by apply Ha.
  - intros rid' u b'. rewrite lookup_insert_Some. intros [[Heq <-]|[Hne Hb]].
    + by simplify_eq.
    + rewrite Hother by congruence. by apply Hp.
Qed.

Lemma room_step_inv l y y' :
  rooms_inv y → serialised l y → room_step l y = Some y' → rooms_inv y'.
Proof.
  destruct y as [rm r pend]. intros Hi Hser. pose proof (inv_ok _ Hi) as Hok. simpl in Hok.
  destruct l as [rid uid|rid uid|rid uid|rid uid|rid|rid uid|rid];
    cbn [room_step sys_rooms sys_store sys_pending serialised] in *; unfold cache_step; cbn [sys_rooms sys_store sys_pending].
  - destruct Hser as [Hser Hacc]. destruct (rs_join_spec rid uid r Hok Hacc) as ([] & r' & -> & Hok' & Hm);
      cbn [store_step andb negb sys_rooms sys_pending]; intros [= <-].
    + eapply rooms_inv_store; [done|done|done| |].
      * rewrite Hm, Z.eqb_refl. set_solver.
      * intros rid' u Hne. rewrite Hm. simpl. destruct (rid' =? rid) eqn:E; to_prop; [|done].
        subst. assert (u ≠ uid) by congruence. set_solver.
    + destruct Hi. split; simpl in *; [done|done| |]; intros ??; rewrite Hm; eauto.
  - destruct Hser as (Hser & Hid & Hid'). destruct (rs_leave_spec rid uid r Hok Hid Hid') as (b & r' & -> & Hok' & Hm);
      cbn [store_step andb sys_rooms sys_pending]; intros [= <-].
    eapply rooms_inv_store; [done|done|done| |].
    + rewrite Hm, Z.eqb_refl. set_solver.
    + intros rid' u Hne. rewrite Hm. destruct (rid' =? rid) eqn:E; to_prop; [|done].
      subst. assert (u ≠ uid) by congruence. set_solver.
  - destruct (pend !! (rid, uid)) as [[]|] eqn:Hp; [|done..].
    destruct (rooms_inv_on_join _ _ _ _ _ Hi Hser Hp) as (rm' & -> & Hi'). by intros [= <-].
  - destruct (pend !! (rid, uid)) as [[]|] eqn:Hp; [done| |done].
    destruct (rooms_inv_on_leave _ _ _ _ _ Hi Hp) as (rm' & -> & Hi'). by intros [= <-].
  - destruct (ensure_loaded_spec rid _ _ _ Hi Hser) as (rm1 & s & He & Hi1 & Hs).
    unfold members_of. erewrite M_bind_ret by exact He. cbn. by intros [= <-].
  - destruct (ensure_loaded_spec rid _ _ _ Hi Hser) as (rm1 & s & He & Hi1 & Hs).
    unfold is_member. erewrite M_bind_ret by exact He. cbn. by intros [= <-].
  - intros [= <-]. destruct Hi as [_ Hl Ha Hp]. simpl in *. split; simpl; [done| | |done].
    + intros rid'. destruct (decide (rid' = rid)) as [->|].
      * rewrite lookup_delete_eq. split; [set_solver|by intros []].
      * rewrite lookup_delete_ne by done. rewrite <-Hl. set_solver.
    + intros rid' s uid. destruct (decide (rid' = rid)) as [->|]; [by rewrite lookup_delete_eq|].
      rewrite lookup_delete_ne by done. apply Ha.
Qed.

Lemma room_reach_inv y0 y : rooms_inv y0 → room_reach y0 y → rooms_inv y.
Proof. intros Hi. induction 1; eauto using room_step_inv. Qed.

Lemma is_member_spec rid uid rm r pend :
  rooms_inv (mkSys rm r pend) → rs_id rid → pend !! (rid, uid) = None → ∃ rm',
    is_member rid uid (rm, r) = (Ret (bool_decide (uid ∈ rs_members r rid)), (rm', r)) ∧
    rooms_inv (mkSys rm' r pend).
Proof.
  intros Hi Hid Hn. destruct (ensure_loaded_spec rid rm r pend Hi Hid) as (rm' & s & He & Hi' & Hs).
  exists rm'. split; [|done]. unfold is_member. erewrite M_bind_ret by exact He.
  erewrite M_bind_ret by done. unfold mret, M_ret. cbn [fst]. rewrite Hs.
  f_equal. f_equal. apply bool_decide_ext. by apply (inv_agree _ Hi').
Qed.

(** Once [is_member] has loaded a room, [members_of] answers from the cache. *)
Lemma is_member_then_members rid uid rm r r1 :
  rooms_inv (mkSys rm r ∅) → rs_id rid → ∃ rm',
    is_member rid uid (rm, r) = (Ret (bool_decide (uid ∈ rs_members r rid)), (rm', r)) ∧
    rooms_inv (mkSys rm' r ∅) ∧
    members_of rid (rm', r1) = (Ret (elements (rs_members r rid)), (rm', r1)).
Proof.
  intros Hi Hid. destruct (ensure_loaded_spec rid rm r ∅ Hi Hid) as (rm' & s & He & Hi' & Hs).
  assert (s = rs_members r rid) as ->.
  { apply leibniz_equiv. intros u. apply (inv_agree _ Hi' _ _ _ Hs), lookup_empty. }
  exists rm'. split_and!; [|done|].
  - unfold is_member. erewrite M_bind_ret by exact He.
    erewrite M_bind_ret by done. unfold mret, M_ret. cbn [fst]. by rewrite Hs.
  - assert (rid ∈ rm'.(room_loaded)) as Hl by (apply (inv_loaded _ Hi'); by eexists).
    unfold members_of. erewrite M_bind_ret by (unfold ensure_loaded; by rewrite bool_decide_eq_true_2).
    erewrite M_bind_ret by done. unfold mret, M_ret. cbn [fst]. by rewrite Hs.
Qed.

Lemma members_of_spec rid rm r pend :
  rooms_inv (mkSys rm r pend) → rs_id rid → (∀ uid, pend !! (rid, uid) = None) → ∃ rm',
    members_of rid (rm, r) = (Ret (elements (rs_members r rid)), (rm', r)) ∧
    rooms_inv (mkSys rm' r pend).
Proof.
  intros Hi Hid Hn. destruct (ensure_loaded_spec rid rm r pend Hi Hid) as (rm' & s & He & Hi' & Hs).
  exists rm'. split; [|done]. unfold members_of. erewrite M_bind_ret by exact He.
  erewrite M_bind_ret by done. unfold mret, M_ret. cbn [fst]. rewrite Hs.
  do 3 f_equal. apply leibniz_equiv. intros u. by apply (inv_agree _ Hi').
Qed.
End invariant.

(** ** Properties *)

(** C35: the cache is coherent under every interleaving of joins, leaves, queries
    and invalidations, on rooms and users the store takes, in which one user's
    changes to one room do not overlap.  A change is a write to the store and later
    one to the cache; between the two it is in flight.  [is_member] answers what
    the store holds for every user with no change to the room in flight, and
    [members_of] lists the store's members when the room has no change in flight;
    neither ever throws.  A change in flight is in the store already, so the answer
    that can differ meanwhile is the one from before it. *)
Theorem room_cache_coherent {R} `{RoomStoreLaws R} (r0 : R) y rid :
  rs_ok r0 → room_reach (mkSys rooms_init r0 ∅) y → rs_id rid →
  (∀ uid, y.(sys_pending) !! (rid, uid) = None →
     fst (is_member rid uid (y.(sys_rooms), y.(sys_store))) =
     Ret (bool_decide (uid ∈ rs_members y.(sys_store) rid))) ∧
  ((∀ uid, y.(sys_pending) !! (rid, uid) = None) →
     fst (members_of rid (y.(sys_rooms), y.(sys_store))) =
     Ret (elements (rs_members y.(sys_store) rid))) ∧
  (∀ uid joining, y.(sys_pending) !! (rid, uid) = Some joining →
     bool_decide (uid ∈ rs_members y.(sys_store) rid) = joining).
Proof.
  intros Hr Hreach Hid. apply room_reach_inv in Hreach; [|by apply rooms_inv_init].
  destruct y as [rm r pend]. simpl. split_and!.
  - intros uid Hn. by destruct (is_member_spec rid uid _ _ _ Hreach Hid Hn) as (? & -> & _).
  - intros Hn. by destruct (members_of_spec rid _ _ _ Hreach Hid Hn) as (? & -> & _).
  - intros uid joining Hp. pose proof (inv_pending _ Hreach _ _ _ Hp) as Hiff. cbn in Hiff.
    case_bool_decide; destruct joining; naive_solver.
Qed.

(** A store with room 1, for the examples. *)
Definition one_room : Repositories := snd (create_room "lobby" 5 repos_init).

Lemma one_room_ok : repos_ok one_room.
Proof. apply create_room_ok; [apply repos_init_ok|done]. Qed.

Lemma room_cache_coherent_witness :
  ∃ y, room_reach (mkSys rooms_init one_room ∅) y ∧
    y.(sys_pending) !! (1, 7) = Some true ∧
    fst (is_member 1 8 (y.(sys_rooms), y.(sys_store))) = Ret true.
Proof.
  pose proof (rreach_step _ _ (LStoreJoin 1 8) _
                (rreach_refl (mkSys rooms_init one_room ∅)) (conj eq_refl I) eq_refl) as H1.
  pose proof (rreach_step _ _ (LOnJoin 1 8) _ H1 I eq_refl) as H2.
  pose proof (rreach_step _ _ (LStoreJoin 1 7) _ H2
                ltac:(split; [by vm_compute|exact I]) eq_refl) as H3.
  eexists. split; [exact H3|]. split; [done|].
  edestruct (room_cache_coherent one_room) as [Hm _]; [apply one_room_ok|exact H3|exact I|].
  rewrite Hm; by vm_compute.
Defined.

(** A step on the store alone, as the handlers make it. *)
Definition on_store {R A : Type} (m : M R A) : M (RoomManager * R) A := λ '(rm, r),
  let '(o, r') := m r in (o, (rm, r')).

(** Without that serialisation the cache can go wrong for good: when a
    leave has written the store and not yet the cache, a whole join of the same
    user runs, and the leave's cache update comes last, the store has the user in
    the room and [is_member] denies it (until [invalidate], which nothing calls). *)
Theorem room_cache_race :
  let leave_first := on_store (leave_room 1 7) in
  let join := on_store (join_room 1 7) ;; on_join 1 7 in
  let '(o, (rm, r)) :=
    (join ;; leave_first ;; join ;; on_leave 1 7 ;; is_member 1 7) (rooms_init, one_room) in
  o = Ret false ∧ bool_decide (7 ∈ rs_members r 1) = true.
Proof. by vm_compute. Qed.
