(* ===== verification/Crypto.v ===== *)
(** * Cryptography: [include/auth/crypto.h], [src/auth/crypto.cpp]

    SHA-256 (streaming), HMAC-SHA256, PBKDF2 and the stored password format, at
    32-bit word arithmetic.  The output of [util::random_bytes] is an argument.
    [buf_[0 .. blen_)] is the list [sha_buf]; the bytes of [buf_] beyond [blen_]
    are never read before they are written, so they are not part of the state. *)
From S2P Require Import Prelude Util.

(** ** Words *)

(** [ror(x, n)]. *)
Definition ror (x n : Z) : Z := Z.lor (Z.shiftr x n) (u32 (Z.shiftl x (32 - n))).

Definition add32 (x y : Z) : Z := u32 (x + y).

(** [load_be32(block + i*4)] for [i = 0 ..]: the words of a byte block. *)
Fixpoint load_words (block : list Z) : list Z :=
  match block with
  | p0 :: p1 :: p2 :: p3 :: block =>
      Z.lor (Z.lor (Z.lor (u32 (Z.shiftl p0 24)) (u32 (Z.shiftl p1 16)))
                   (u32 (Z.shiftl p2 8))) p3 :: load_words block
  | _ => []
  end.

Definition store_be32 (v : Z) : list Z :=
  [u8 (Z.shiftr v 24); u8 (Z.shiftr v 16); u8 (Z.shiftr v 8); u8 v].

(** The round constants [K[64]]. *)
Definition K : list Z :=
  0x428a2f98 :: 0x71374491 :: 0xb5c0fbcf :: 0xe9b5dba5 :: 0x3956c25b :: 0x59f111f1 :: 0x923f82a4 :: 0xab1c5ed5 ::
  0xd807aa98 :: 0x12835b01 :: 0x243185be :: 0x550c7dc3 :: 0x72be5d74 :: 0x80deb1fe :: 0x9bdc06a7 :: 0xc19bf174 ::
  0xe49b69c1 :: 0xefbe4786 :: 0x0fc19dc6 :: 0x240ca1cc :: 0x2de92c6f :: 0x4a7484aa :: 0x5cb0a9dc :: 0x76f988da ::
  0x983e5152 :: 0xa831c66d :: 0xb00327c8 :: 0xbf597fc7 :: 0xc6e00bf3 :: 0xd5a79147 :: 0x06ca6351 :: 0x14292967 ::
  0x27b70a85 :: 0x2e1b2138 :: 0x4d2c6dfc :: 0x53380d13 :: 0x650a7354 :: 0x766a0abb :: 0x81c2c92e :: 0x92722c85 ::
  0xa2bfe8a1 :: 0xa81a664b :: 0xc24b8b70 :: 0xc76c51a3 :: 0xd192e819 :: 0xd6990624 :: 0xf40e3585 :: 0x106aa070 ::
  0x19a4c116 :: 0x1e376c08 :: 0x2748774c :: 0x34b0bcb5 :: 0x391c0cb3 :: 0x4ed8aa4a :: 0x5b9cca4f :: 0x682e6ff3 ::
  0x748f82ee :: 0x78a5636f :: 0x84c87814 :: 0x8cc70208 :: 0x90befffa :: 0xa4506ceb :: 0xbef9a3f7 :: 0xc67178f2 :: [].

(** ** SHA-256 *)

Record Sha256 := mkSha {
  sha_st : list Z;
  sha_buf : list Z;
  sha_bits : Z;
}.

Definition sha_init : Sha256 :=
  mkSha [0x6a09e667; 0xbb67ae85; 0x3c6ef372; 0xa54ff53a;
         0x510e527f; 0x9b05688c; 0x1f83d9ab; 0x5be0cd19] [] 0.

(** [W[i]] for [i] in range. *)
Definition word_at (W : list Z) (i : nat) : Z := nth i W 0.

(** The loop [i = 16 .. 63] that extends the schedule, [n] iterations left. *)
Fixpoint extend_schedule (n : nat) (W : list Z) : list Z :=
  match n with
  | O => W
  | S n =>
      let i := length W in
      let w15 := word_at W (i - 15) in
      let w2 := word_at W (i - 2) in
      let s0 := Z.lxor (Z.lxor (ror w15 7) (ror w15 18)) (Z.shiftr w15 3) in
      let s1 := Z.lxor (Z.lxor (ror w2 17) (ror w2 19)) (Z.shiftr w2 10) in
      extend_schedule n (W ++ [add32 (add32 (add32 (word_at W (i - 16)) s0)
                                            (word_at W (i - 7))) s1])
  end.

(** The eight working variables [a .. h]. *)
Record regs := mkRegs { ra : Z; rb : Z; rc : Z; rd : Z; re : Z; rf : Z; rg : Z; rh : Z }.

(** One iteration of the compression loop with [k = K[i]], [w = W[i]]. *)
Definition sha_round (k w : Z) (r : regs) : regs :=
  let '(mkRegs a b c d e f g h) := r in
  let S1 := Z.lxor (Z.lxor (ror e 6) (ror e 11)) (ror e 25) in
  let ch := Z.lxor (Z.land e f) (Z.land (u32 (Z.lnot e)) g) in
  let t1 := add32 (add32 (add32 (add32 h S1) ch) k) w in
  let S0 := Z.lxor (Z.lxor (ror a 2) (ror a 13)) (ror a 22) in
  let mj := Z.lxor (Z.lxor (Z.land a b) (Z.land a c)) (Z.land b c) in
  let t2 := add32 S0 mj in
  mkRegs (add32 t1 t2) a b c (add32 d t1) e f g.

Fixpoint sha_rounds (ks ws : list Z) (r : regs) : regs :=
  match ks, ws with
  | k :: ks, w :: ws => sha_rounds ks ws (sha_round k w r)
  | _, _ => r
  end.

Definition compress (st block : list Z) : list Z :=
  let W := extend_schedule 48 (load_words block) in
  match st with
  | [a; b; c; d; e; f; g; h] =>
      let r := sha_rounds K W (mkRegs a b c d e f g h) in
      [add32 a r.(ra); add32 b r.(rb); add32 c r.(rc); add32 d r.(rd);
       add32 e r.(re); add32 f r.(rf); add32 g r.(rg); add32 h r.(rh)]
  | _ => st
  end.

(** The [while (n)] loop of [update]; every iteration takes at least one byte,
    so [length data] iterations are enough ([update_loop_absorb]). *)
Fixpoint update_loop (fuel : nat) (data st b : list Z) : list Z * list Z :=
  match fuel, data with
  | S fuel, _ :: _ =>
      let n := Nat.min (64 - length b) (length data) in
      let b := b ++ take n data in
      if (length b =? 64)%nat then update_loop fuel (drop n data) (compress st b) []
      else update_loop fuel (drop n data) st b
  | _, _ => (st, b)
  end.

Definition update (data : list Z) (h : Sha256) : Sha256 :=
  let '(st, b) := update_loop (length data) data h.(sha_st) h.(sha_buf) in
  mkSha st b (u64 (h.(sha_bits) + u64 (Z.of_nat (length data) * 8))).

(** [buf_[56 + i] = uint8_t(bits_ >> (56 - 8*i))]. *)
Definition bits_be64 (bits : Z) : list Z :=
  (λ i, u8 (Z.shiftr bits (56 - 8 * i))) <$> seqZ 0 8.

Definition finish (h : Sha256) : list Z :=
  let b := h.(sha_buf) ++ [0x80] in
  let '(st, b) :=
    if (56 <? length b)%nat
    then (compress h.(sha_st) (b ++ replicate (64 - length b) 0), [])
    else (h.(sha_st), b) in
  let b := b ++ replicate (56 - length b) 0 ++ bits_be64 h.(sha_bits) in
  concat (store_be32 <$> compress st b).

Definition sha256 (d : list Z) : list Z := finish (update d sha_init).

(** ** HMAC-SHA256 *)

(** [k[64] = {0}] filled with the key or its hash. *)
Definition hmac_key (key : list Z) : list Z :=
  let k := if (64 <? length key)%nat then sha256 key else key in
  k ++ replicate (64 - length k) 0.

Definition hmac_sha256 (key msg : list Z) : list Z :=
  let k := hmac_key key in
  let ipad := (λ b, Z.lxor b 0x36) <$> k in
  let opad := (λ b, Z.lxor b 0x5c) <$> k in
  let inner_h := finish (update msg (update ipad sha_init)) in
  finish (update inner_h (update opad sha_init)).

(** ** PBKDF2 *)

Definition xor_bytes (t u : list Z) : list Z := zip_with Z.lxor t u.

(** The inner [for (i = 1; i < iterations; ++i)] with [n] iterations left. *)
Fixpoint pbkdf2_iterate (n : nat) (password u t : list Z) : list Z :=
  match n with
  | O => t
  | S n =>
      let u := hmac_sha256 password u in
      pbkdf2_iterate n password u (xor_bytes t u)
  end.

Definition pbkdf2_block (password salt : list Z) (iterations block : Z) : list Z :=
  let block_be := [Z.land (Z.shiftr block 24) 255; Z.land (Z.shiftr block 16) 255;
                   Z.land (Z.shiftr block 8) 255; Z.land block 255] in
  let u := hmac_sha256 password (salt ++ block_be) in
  pbkdf2_iterate (Z.to_nat (iterations - 1)) password u u.

(** The [while (pos < out_len)] loop, [rem = out_len - pos]; each iteration
    writes at least one byte, so [out_len] iterations are enough. *)
Fixpoint pbkdf2_loop (fuel : nat) (password salt : list Z) (iterations block : Z)
    (rem : nat) (out : list Z) : list Z :=
  match fuel with
  | O => out
  | S fuel =>
      if (rem =? 0)%nat then out
      else
        let n := Nat.min 32 rem in
        pbkdf2_loop fuel password salt iterations (u32 (block + 1)) (rem - n)
          (out ++ take n (pbkdf2_block password salt iterations block))
  end.

Definition pbkdf2_hmac_sha256 (password : string) (salt : list Z) (iterations : Z)
    (out_len : nat) : list Z :=
  pbkdf2_loop out_len (to_bytes password) salt iterations 1 out_len [].

(** ** Stored passwords *)

Definition make_password_hash (password : string) (iter : Z) (salt : list Z) : string :=
  let dk := pbkdf2_hmac_sha256 password salt iter 32 in
  to_string iter +:+ "$" +:+ base64_encode salt +:+ "$" +:+ base64_encode dk.

(** [s.find(c)] split at: the text before the first [c] and after it. *)
Fixpoint find_char (c : ascii) (s : string) : option (string * string) :=
  match s with
  | EmptyString => None
  | String x s =>
      if Ascii.eqb x c then Some ("", s)
      else match find_char c s with
           | Some (l, r) => Some (String x l, r)
           | None => None
           end
  end.

(** The OR of the byte differences over the common length. *)
Fixpoint bytes_diff (got want : list Z) (diff : Z) : Z :=
  match got, want with
  | g :: got, w :: want => bytes_diff got want (Z.lor diff (Z.lxor g w))
  | _, _ => diff
  end.

Definition verify_password_hash (password stored : string) : bool :=
  match find_char "$" stored with
  | None => false
  | Some (f1, rest) =>
      match find_char "$" rest with
      | None => false
      | Some (f2, f3) =>
          match stoul f1 with
          | Throw _ => false
          | Ret n =>
              let iter := u32 n in
              let salt := base64_decode f2 in
              let want := base64_decode f3 in
              if bool_decide (salt = []) || bool_decide (want = []) then false
              else
                let got := pbkdf2_hmac_sha256 password salt iter (length want) in
                if negb (length got =? length want)%nat then false
                else bytes_diff got want 0 =? 0
          end
      end
  end.

(** ** Reference definitions *)

(** The padding of FIPS 180-4: a one bit, zeros, the 64-bit message length. *)
Definition pad (msg : list Z) : list Z :=
  msg ++ [0x80] ++ replicate (Z.to_nat ((55 - Z.of_nat (length msg)) mod 64)) 0
      ++ bits_be64 (u64 (Z.of_nat (length msg) * 8)).

(** SHA-256 block by block over the padded message. *)
Definition sha256_blocks (msg : list Z) : list Z :=
  let p := pad msg in
  concat (store_be32 <$>
    foldl compress sha_init.(sha_st) (reshape (replicate (length p / 64) 64%nat) p)).

(** HMAC as in RFC 2104, with [K0] the key block. *)
Definition hmac_rfc2104 (key msg : list Z) : list Z :=
  let K0 := (let k := if (length key <=? 64)%nat then key else sha256_blocks key in
             resize 64 0 k) in
  sha256_blocks ((Z.lxor 0x5c <$> K0) ++ sha256_blocks ((Z.lxor 0x36 <$> K0) ++ msg)).

(** [U_1, U_2, ...] and [T_i = U_1 xor ... xor U_c] as in RFC 8018. *)
Fixpoint rfc_U (password salt : list Z) (block : Z) (j : nat) : list Z :=
  match j with
  | O => hmac_rfc2104 password (salt ++ store_be32 block)
  | S j => hmac_rfc2104 password (rfc_U password salt block j)
  end.

Definition rfc_T (password salt : list Z) (c block : Z) : list Z :=
  foldl xor_bytes (rfc_U password salt block 0)
    (rfc_U password salt block <$> seq 1 (Z.to_nat (c - 1))).

Definition pbkdf2_rfc8018 (password salt : list Z) (c : Z) (dkLen : nat) : list Z :=
  take dkLen (concat (rfc_T password salt c <$> seqZ 1 (Z.of_nat ((dkLen + 31) / 32)))).

(** ** Streaming *)

(** Absorbing one byte: the reference for [update]'s block-wise copying. *)
Definition absorb (s : list Z * list Z) (x : Z) : list Z * list Z :=
  let b := s.2 ++ [x] in
  if (length b =? 64)%nat then (compress s.1 b, []) else (s.1, b).

Lemma absorb_fill st b d :
  (length b < 64)%nat → (length b + length d <= 64)%nat → d ≠ [] →
  foldl absorb (st, b) d =
  if (length (b ++ d) =? 64)%nat then (compress st (b ++ d), []) else (st, b ++ d).
Proof.
  revert b. induction d as [|x d IH]; intros b Hb Hle Hd; [done|]. simpl in Hle.
  destruct d as [|y d].
  - done.
  - change (foldl absorb (st, b) (x :: y :: d))
      with (foldl absorb (absorb (st, b) x) (y :: d)).
    assert (absorb (st, b) x = (st, b ++ [x])) as ->.
    { unfold absorb; cbn [fst snd]. rewrite length_app. simpl in *.
      by rewrite (proj2 (Nat.eqb_neq _ _)) by lia. }
    rewrite IH; [|rewrite length_app; simpl in *; lia..|done]. by rewrite <-app_assoc.
Qed.

Lemma update_loop_absorb fuel data st b :
  (length data <= fuel)%nat → (length b < 64)%nat →
  update_loop fuel data st b = foldl absorb (st, b) data.
Proof.
  revert data st b. induction fuel as [|fuel IH]; intros data st b Hf Hb.
  - destruct data; [done|simpl in Hf; lia].
  - destruct data as [|x data]; [done|]. cbn [update_loop].
    set (d := x :: data) in *. set (n := Nat.min (64 - length b) (length d)).
    assert (1 <= n <= length d)%nat as Hn by (subst n d; simpl; lia).
    transitivity (foldl absorb (st, b) (take n d ++ drop n d)); [|by rewrite take_drop].
    rewrite foldl_app.
    rewrite absorb_fill; [|done|rewrite length_take; lia| ].
    2:{ intros Heq. apply (f_equal length) in Heq. rewrite length_take in Heq. simpl in Heq. lia. }
    destruct (length (b ++ take n d) =? 64)%nat eqn:E.
    + apply IH; [rewrite length_drop; lia|simpl; lia].
    + apply Nat.eqb_neq in E. rewrite length_app, length_take in E.
      apply IH; [rewrite length_drop; lia|rewrite length_app, length_take; lia].
Qed.

Lemma absorb_buf s data :
  (length s.2 < 64)%nat →
  Z.of_nat (length (foldl absorb s data).2) = (Z.of_nat (length s.2) + Z.of_nat (length data)) mod 64.
Proof.
  revert s. induction data as [|x data IH]; intros s Hs; simpl foldl.
  - simpl. rewrite Z.mod_small; lia.
  - unfold absorb at 2. rewrite length_app. simpl length.
    destruct (_ =? 64)%nat eqn:E; rewrite IH; simpl.
    + apply Nat.eqb_eq in E. Z.div_mod_to_equations. lia.
    + lia.
    + rewrite length_app. simpl. f_equal. lia.
    + apply Nat.eqb_neq in E. rewrite length_app. simpl. lia.
Qed.

Lemma absorb_buf_lt s data : (length s.2 < 64)%nat → (length (foldl absorb s data).2 < 64)%nat.
Proof.
  intros Hs. pose proof (absorb_buf s data Hs).
  pose proof (Z.mod_pos_bound (Z.of_nat (length s.2) + Z.of_nat (length data)) 64). lia.
Qed.

Lemma absorb_block st blk : length blk = 64%nat → foldl absorb (st, []) blk = (compress st blk, []).
Proof.
  intros Hl. rewrite absorb_fill; [|simpl; lia..|by intros ->]. simpl. by rewrite Hl.
Qed.

Lemma absorb_blocks st l n :
  length l = (n * 64)%nat →
  foldl absorb (st, []) l = (foldl compress st (reshape (replicate n 64%nat) l), []).
Proof.
  revert st l. induction n as [|n IH]; intros st l Hl; simpl in Hl.
  - by destruct l.
  - simpl replicate. simpl reshape. 
    transitivity (foldl absorb (st, []) (take 64 l ++ drop 64 l)); [by rewrite take_drop|].
    rewrite foldl_app.
    rewrite absorb_block by (rewrite length_take; lia). rewrite IH by (rewrite length_drop; lia). done.
Qed.

(** A hasher that has consumed [msg]. *)
Definition consumed (msg : list Z) (h : Sha256) : Prop :=
  (h.(sha_st), h.(sha_buf)) = foldl absorb (sha_init.(sha_st), []) msg ∧
  h.(sha_bits) = u64 (Z.of_nat (length msg) * 8).

Lemma consumed_init : consumed [] sha_init.
Proof. done. Qed.

Lemma consumed_update msg data h : consumed msg h → consumed (msg ++ data) (update data h).
Proof.
  intros [Hs Hb]. unfold update.
  assert (length h.(sha_buf) < 64)%nat as Hlt.
  { pose proof (absorb_buf_lt (sha_st sha_init, []) msg). rewrite <-Hs in *. simpl in *. lia. }
  rewrite update_loop_absorb by done. rewrite Hs.
  destruct (foldl absorb (foldl absorb _ msg) data) as [st b] eqn:E. split; cbn [sha_st sha_buf sha_bits].
  - by rewrite foldl_app, E.
  - rewrite Hb, length_app. unfold u64. rewrite <-Zplus_mod. f_equal. lia.
Qed.

Lemma length_bits_be64 bits : length (bits_be64 bits) = 8%nat.
Proof. done. Qed.

Lemma finish_absorb h z :
  (length h.(sha_buf) < 64)%nat →
  z = Z.to_nat ((55 - Z.of_nat (length h.(sha_buf))) mod 64) →
  finish h = concat (store_be32 <$>
    (foldl absorb (h.(sha_st), h.(sha_buf)) ([0x80] ++ replicate z 0 ++ bits_be64 h.(sha_bits))).1).
Proof.
  intros Hlt Hz. unfold finish. rewrite length_app. simpl (length [128]).
  destruct (56 <? length h.(sha_buf) + 1)%nat eqn:E; to_prop.
  - assert (z = (64 - (length h.(sha_buf) + 1)) + 56)%nat as ->.
    { subst z. rewrite <-(Z.mod_add _ 1) by done. rewrite Z.mod_small; lia. }
    rewrite replicate_add, !app_assoc, <-!(app_assoc _ (replicate 56 0)), foldl_app.
    rewrite absorb_fill; [|done|rewrite length_app, length_replicate; simpl; lia|done].
    rewrite (proj2 (Nat.eqb_eq _ _)) by (rewrite !length_app, length_replicate; simpl; lia).
    rewrite absorb_block by done. cbn [fst]. by rewrite <-!app_assoc.
  - assert (z = 56 - (length h.(sha_buf) + 1))%nat as ->.
    { subst z. rewrite Z.mod_small; lia. }
    rewrite absorb_fill; [|done|rewrite !length_app, length_replicate, length_bits_be64; simpl; lia|done].
    rewrite (proj2 (Nat.eqb_eq _ _))
      by (rewrite !length_app, length_replicate, length_bits_be64; simpl; lia).
    rewrite length_app. simpl (length [128]). by rewrite <-!app_assoc.
Qed.

Lemma length_pad msg : ∃ n, length (pad msg) = (n * 64)%nat.
Proof.
  exists (Z.to_nat ((Z.of_nat (length msg) + 9 + (55 - Z.of_nat (length msg)) mod 64) / 64)).
  unfold pad. rewrite !length_app, length_replicate, length_bits_be64. simpl.
  Z.div_mod_to_equations. lia.
Qed.

Lemma finish_consumed msg h : consumed msg h → finish h = sha256_blocks msg.
Proof.
  intros [Hs Hb].
  assert (length h.(sha_buf) < 64)%nat as Hlt.
  { pose proof (absorb_buf_lt (sha_st sha_init, []) msg). rewrite <-Hs in *. simpl in *. lia. }
  assert (Z.of_nat (length h.(sha_buf)) = Z.of_nat (length msg) mod 64) as Hlen.
  { pose proof (absorb_buf (sha_st sha_init, []) msg) as Ha. rewrite <-Hs in Ha. simpl in Ha.
    apply Ha. lia. }
  rewrite (finish_absorb h (Z.to_nat ((55 - Z.of_nat (length msg)) mod 64))); [|done|].
  2:{ rewrite Hlen. by rewrite Zminus_mod_idemp_r. }
  unfold sha256_blocks. destruct (length_pad msg) as [n Hn].
  rewrite Hn, Nat.div_mul by done. rewrite Hs, Hb, <-foldl_app.
  fold (pad msg). by rewrite (absorb_blocks _ _ n).
Qed.

Lemma sha256_eq msg : sha256 msg = sha256_blocks msg.
Proof. apply finish_consumed. apply (consumed_update [] msg sha_init consumed_init). Qed.

(** ** Sizes and byte ranges *)

Lemma length_compress st blk : length st = 8%nat → length (compress st blk) = 8%nat.
Proof.
  intros Hl. unfold compress.
  do 8 (destruct st as [|? st]; [done|]). by destruct st.
Qed.

Lemma length_foldl_compress st bs :
  length st = 8%nat → length (foldl compress st bs) = 8%nat.
Proof. revert st. induction bs; simpl; auto using length_compress. Qed.

Lemma length_sha256_blocks msg : length (sha256_blocks msg) = 32%nat.
Proof.
  unfold sha256_blocks. set (st := foldl _ _ _).
  assert (length st = 8%nat) as Hst by by apply length_foldl_compress.
  clearbody st. do 8 (destruct st as [|? st]; [done|]). by destruct st.
Qed.

Lemma store_be32_ok v : bytes_ok (store_be32 v).
Proof. repeat constructor; apply u8_range. Qed.

Lemma sha256_blocks_ok msg : bytes_ok (sha256_blocks msg).
Proof.
  unfold sha256_blocks, bytes_ok. apply Forall_concat, Forall_fmap, Forall_forall.
  intros x _. apply store_be32_ok.
Qed.

Lemma lxor_u8 a b : is_u8 a → is_u8 b → is_u8 (Z.lxor a b).
Proof.
  unfold is_u8. intros Ha Hb. rewrite <-(Z.mod_small a 256), <-(Z.mod_small b 256) by done.
  change 256 with (2 ^ 8). rewrite <-!Z.land_ones by done.
  assert (Z.lxor (Z.land a (Z.ones 8)) (Z.land b (Z.ones 8)) = Z.land (Z.lxor a b) (Z.ones 8)) as ->.
  { apply Z.bits_inj'. intros i Hi. rewrite !Z.lxor_spec, !Z.land_spec, Z.lxor_spec.
    destruct (Z.testbit (Z.ones 8) i); by rewrite ?andb_true_r, ?andb_false_r. }
  rewrite Z.land_ones by done. by apply Z.mod_pos_bound.
Qed.

Lemma xor_bytes_ok t u : bytes_ok t → bytes_ok u → bytes_ok (xor_bytes t u).
Proof.
  intros Ht. revert u. induction Ht as [|x t Hx Ht IH]; intros u Hu; [constructor|].
  destruct Hu as [|y u Hy Hu]; [constructor|]. constructor; [by apply lxor_u8|by apply IH].
Qed.

Lemma length_xor_bytes t u : length t = 32%nat → length u = 32%nat → length (xor_bytes t u) = 32%nat.
Proof. intros Ht Hu. unfold xor_bytes. rewrite length_zip_with. lia. Qed.

(** ** HMAC and PBKDF2 against their references *)

Lemma hmac_eq key msg : hmac_sha256 key msg = hmac_rfc2104 key msg.
Proof.
  unfold hmac_sha256, hmac_rfc2104.
  assert (hmac_key key = resize 64 0
    (if (length key <=? 64)%nat then key else sha256_blocks key)) as ->.
  { unfold hmac_key. rewrite sha256_eq, Nat.ltb_antisym.
    destruct (length key <=? 64)%nat eqn:E; simpl negb; cbv iota.
    - apply Nat.leb_le in E. by rewrite resize_ge.
    - by rewrite resize_ge by (rewrite length_sha256_blocks; lia). }
  set (K0 := resize _ _ _). clearbody K0.
  assert (∀ c, (λ b, Z.lxor b c) <$> K0 = Z.lxor c <$> K0) as Hx.
  { intros c. apply list_fmap_ext. intros _ b _. apply Z.lxor_comm. }
  rewrite !Hx.
  rewrite (finish_consumed ((Z.lxor 0x36 <$> K0) ++ msg)
    (update msg (update (Z.lxor 0x36 <$> K0) sha_init))).
  2:{ apply consumed_update, (consumed_update [] _ _ consumed_init). }
  apply finish_consumed, consumed_update, (consumed_update [] _ _ consumed_init).
Qed.

Lemma length_hmac key msg : length (hmac_rfc2104 key msg) = 32%nat.
Proof. apply length_sha256_blocks. Qed.

Lemma hmac_ok key msg : bytes_ok (hmac_rfc2104 key msg).
Proof. apply sha256_blocks_ok. Qed.

Lemma pbkdf2_iterate_eq n password salt block j t :
  pbkdf2_iterate n password (rfc_U password salt block j) t =
  foldl xor_bytes t (rfc_U password salt block <$> seq (S j) n).
Proof.
  revert j t. induction n as [|n IH]; intros j t; [done|].
  cbn [pbkdf2_iterate]. rewrite hmac_eq. cbn [seq]. rewrite fmap_cons.
  change (hmac_rfc2104 password (rfc_U password salt block j))
    with (rfc_U password salt block (S j)).
  cbn [foldl]. apply IH.
Qed.

Lemma pbkdf2_block_eq password salt c block :
  pbkdf2_block password salt c block = rfc_T password salt c block.
Proof.
  unfold pbkdf2_block, rfc_T. rewrite hmac_eq, !land_ff.
  change (hmac_rfc2104 password (salt ++ [_; _; _; _])) with (rfc_U password salt block 0).
  apply pbkdf2_iterate_eq.
Qed.

Lemma rfc_U_size password salt block j :
  length (rfc_U password salt block j) = 32%nat ∧ bytes_ok (rfc_U password salt block j).
Proof. destruct j; (split; [apply length_hmac|apply hmac_ok]). Qed.

Lemma rfc_T_size password salt c block :
  length (rfc_T password salt c block) = 32%nat ∧ bytes_ok (rfc_T password salt c block).
Proof.
  unfold rfc_T. pose proof (rfc_U_size password salt block 0) as H0.
  set (t := rfc_U password salt block 0) in *. clearbody t. revert t H0.
  induction (seq _ _) as [|j l IH]; intros t [Hl Hb]; [done|]. rewrite fmap_cons. cbn [foldl].
  destruct (rfc_U_size password salt block j). apply IH.
  split; [by apply length_xor_bytes|by apply xor_bytes_ok].
Qed.

Lemma length_concat_blocks (f : Z → list Z) l :
  (∀ i, length (f i) = 32%nat) → length (concat (f <$> l)) = (32 * length l)%nat.
Proof.
  intros Hf. induction l as [|i l IH]; [done|]. rewrite fmap_cons. cbn [concat].
  rewrite length_app, Hf, IH. simpl. lia.
Qed.

Lemma pbkdf2_loop_eq fuel password salt c block rem out :
  (rem <= fuel)%nat → 1 <= block → block + Z.of_nat ((rem + 31) / 32) <= 4294967296 →
  pbkdf2_loop fuel password salt c block rem out =
  out ++ take rem (concat (rfc_T password salt c <$> seqZ block (Z.of_nat ((rem + 31) / 32)))).
Proof.
  revert block rem out. induction fuel as [|fuel IH]; intros block rem out Hf Hb Hmax.
  - assert (rem = 0)%nat as -> by lia. simpl. by rewrite app_nil_r.
  - cbn [pbkdf2_loop]. destruct (rem =? 0)%nat eqn:E.
    + apply Nat.eqb_eq in E. subst. simpl. by rewrite app_nil_r.
    + apply Nat.eqb_neq in E. rewrite pbkdf2_block_eq.
      assert (Z.of_nat ((rem + 31) / 32) = Z.of_nat ((rem - Nat.min 32 rem + 31) / 32) + 1) as Hn.
      { pose proof (Nat.div_mod_eq (rem + 31) 32). pose proof (Nat.mod_upper_bound (rem + 31) 32).
        pose proof (Nat.div_mod_eq (rem - Nat.min 32 rem + 31) 32).
        pose proof (Nat.mod_upper_bound (rem - Nat.min 32 rem + 31) 32). lia. }
      rewrite Hn in *. rewrite seqZ_cons by lia. rewrite fmap_cons. cbn [concat].
      replace (Z.pred (Z.of_nat ((rem - Nat.min 32 rem + 31) / 32) + 1))
        with (Z.of_nat ((rem - Nat.min 32 rem + 31) / 32)) by lia.
      destruct (decide (rem <= 32)%nat) as [Hle|Hgt].
      * rewrite Nat.min_r by done. replace (rem - rem)%nat with 0%nat by lia.
        assert (∀ o b, pbkdf2_loop fuel password salt c b 0 o = o) as -> by (intros; by destruct fuel).
        simpl seqZ. rewrite app_nil_r. done.
      * rewrite Nat.min_l in * by lia.
        assert (1 <= (rem - 32 + 31) / 32)%nat by (apply Nat.div_le_lower_bound; lia).
        unfold u32. rewrite Z.mod_small by lia. rewrite IH by lia. rewrite <-app_assoc. f_equal.
        destruct (rfc_T_size password salt c block) as [HT _].
        rewrite take_app, HT. rewrite take_ge by lia. by rewrite (take_ge _ rem) by lia.
Qed.

Lemma pbkdf2_eq p salt c n :
  Z.of_nat n <= 32 * 4294967295 →
  pbkdf2_hmac_sha256 p salt c n = pbkdf2_rfc8018 (to_bytes p) salt c n.
Proof.
  intros Hn. unfold pbkdf2_hmac_sha256, pbkdf2_rfc8018. rewrite pbkdf2_loop_eq; [done|lia|lia|].
  pose proof (Nat.div_mod_eq (n + 31) 32). pose proof (Nat.mod_upper_bound (n + 31) 32). lia.
Qed.

Lemma pbkdf2_size password salt c n :
  length (pbkdf2_rfc8018 password salt c n) = n ∧ bytes_ok (pbkdf2_rfc8018 password salt c n).
Proof.
  unfold pbkdf2_rfc8018. split.
  - rewrite length_take, length_concat_blocks by apply rfc_T_size. rewrite length_seqZ.
    pose proof (Nat.div_mod_eq (n + 31) 32). pose proof (Nat.mod_upper_bound (n + 31) 32). lia.
  - apply Forall_take, Forall_concat, Forall_fmap, Forall_forall. intros i _. apply rfc_T_size.
Qed.

(** ** The stored format *)

Lemma find_char_Some c s l r :
  find_char c s = Some (l, r) ↔ s = l +:+ String c r ∧ c ∉ chars l.
Proof.
  revert l. induction s as [|x s IH]; intros l; cbn [find_char].
  - split; [done|]. intros [H _]. by destruct l.
  - destruct (Ascii.eqb_spec x c) as [->|Hne].
    + split.
      * intros [= <- <-]. split; [done|apply not_elem_of_nil].
      * intros [H Hn]. destruct l as [|y l]; [by injection H as ->|].
        rewrite str_app_cons in H. injection H as -> _. cbn in Hn. set_solver.
    + destruct (find_char c s) as [[l' r']|] eqn:E.
      * split.
        -- intros [= <- <-]. destruct (proj1 (IH l') eq_refl) as [-> Hn].
           split; [done|]. cbn. rewrite not_elem_of_cons. done.
        -- intros [H Hn]. destruct l as [|y l]; [by injection H|].
           rewrite str_app_cons in H. injection H as -> H. cbn in Hn.
           apply not_elem_of_cons in Hn as [_ Hn].
           pose proof (proj2 (IH l) (conj H Hn)). by simplify_eq.
      * split; [done|]. intros [H Hn]. destruct l as [|y l]; [by injection H|].
        rewrite str_app_cons in H. injection H as -> H. cbn in Hn.
        apply not_elem_of_cons in Hn as [_ Hn]. by pose proof (proj2 (IH l) (conj H Hn)).
Qed.

Lemma bytes_diff_zero got want diff :
  length got = length want → bytes_diff got want diff = 0 ↔ diff = 0 ∧ got = want.
Proof.
  revert want diff. induction got as [|g got IH]; intros [|w want] diff Hl; try done; simpl.
  - naive_solver.
  - rewrite IH by (simpl in Hl; lia). rewrite Z.lor_eq_0_iff, Z.lxor_eq_0_iff. naive_solver.
Qed.

(** What it takes for [verify_password_hash] to accept. *)
Definition stored_as (password stored : string) : Prop :=
  ∃ f1 f2 f3 n,
    stored = f1 +:+ String "$" (f2 +:+ String "$" f3) ∧
    ("$"%char ∉ chars f1) ∧ ("$"%char ∉ chars f2) ∧ stoul f1 = Ret n ∧
    base64_decode f2 ≠ [] ∧ base64_decode f3 ≠ [] ∧
    pbkdf2_hmac_sha256 password (base64_decode f2) (u32 n) (length (base64_decode f3))
      = base64_decode f3.

Lemma verify_iff password stored :
  verify_password_hash password stored = true ↔ stored_as password stored.
Proof.
  unfold verify_password_hash. split.
  - destruct (find_char "$" stored) as [[f1 rest]|] eqn:E1; [|done].
    destruct (find_char "$" rest) as [[f2 f3]|] eqn:E2; [|done].
    apply find_char_Some in E1 as [-> H1], E2 as [-> H2].
    destruct (stoul f1) as [n|] eqn:E3; [|done].
    destruct (_ || _) eqn:E4; [done|]. to_prop.
    destruct (negb _) eqn:E5; [done|]. to_prop. apply Nat.eqb_eq in E5.
    intros E6. to_prop. apply bytes_diff_zero in E6 as [_ E6]; [|done].
    by exists f1, f2, f3, n.
  - intros (f1 & f2 & f3 & n & -> & H1 & H2 & Hn & Hs & Hw & Heq).
    rewrite (proj2 (find_char_Some _ _ f1 _)) by done.
    rewrite (proj2 (find_char_Some _ _ f2 _)) by done.
    rewrite Hn, !bool_decide_eq_false_2 by done. cbn [orb]. rewrite Heq, Nat.eqb_refl. cbn [negb].
    apply Z.eqb_eq. by apply bytes_diff_zero.
Qed.

(** ** Properties *)

(** C37: A SHA-256 hasher fed any sequence of chunks yields the digest of their
    concatenation: the block-by-block compression of the FIPS 180-4 padded
    message, however [update]'s calls are split and whichever of [finish]'s two
    padding branches is taken. *)
Theorem sha256_streaming chunks :
  finish (foldl (λ h c, update c h) sha_init chunks) = sha256_blocks (concat chunks).
Proof.
  apply finish_consumed. enough (∀ msg h, consumed msg h →
    consumed (msg ++ concat chunks) (foldl (λ h c, update c h) h chunks)) as H
    by apply (H [] sha_init consumed_init).
  induction chunks as [|c cs IH]; intros msg h Hc; simpl; [by rewrite app_nil_r|].
  rewrite app_assoc. by apply IH, consumed_update.
Qed.

(** The standard test vectors: SHA-256 of the empty string, of abc and of
    the 56-byte two-block message (RFC 6234), HMAC-SHA256 with a short key and
    with a key longer than a block (RFC 4231, cases 2 and 6), PBKDF2 with two
    iterations (RFC 7914 parameters of the SHA-256 variant). *)
Lemma crypto_test_vectors :
  hex_encode (sha256 []) = "e3b0c44298fc1c149afbf4c8996fb92427ae41e4649b934ca495991b7852b855" ∧
  hex_encode (sha256 (to_bytes "abc")) =
    "ba7816bf8f01cfea414140de5dae2223b00361a396177a9cb410ff61f20015ad" ∧
  hex_encode (sha256 (to_bytes "abcdbcdecdefdefgefghfghighijhijkijkljklmklmnlmnomnopnopq")) =
    "248d6a61d20638b8e5c026930c3e6039a33ce45964ff2167f6ecedd419db06c1" ∧
  hex_encode (hmac_sha256 (to_bytes "Jefe") (to_bytes "what do ya want for nothing?")) =
    "5bdcc146bf60754e6a042426089575c75a003f089d2739839dec58b964ec3843" ∧
  hex_encode (hmac_sha256 (replicate 131 0xaa)
      (to_bytes "Test Using Larger Than Block-Size Key - Hash Key First")) =
    "60e431591ee0b67f0d8a26aacbf5b77f8e0bc6213728c5140546040f0ee37f54" ∧
  hex_encode (pbkdf2_hmac_sha256 "password" (to_bytes "salt") 2 32) =
    "ae4d0c95af6b46d32d0adff928f06dd02a303f8ef3c251dfd6e2d85a95474c43".
Proof. by vm_compute. Qed.

(** [hmac_sha256] is RFC 2104's H(K0 xor opad, H(K0 xor ipad, msg)) for keys
    of every length. *)
Theorem hmac_is_rfc2104 key msg : hmac_sha256 key msg = hmac_rfc2104 key msg.
Proof. apply hmac_eq. Qed.

(** C38: [pbkdf2_hmac_sha256] terminates with exactly [out_len] bytes, and they
    are the first [out_len] bytes of RFC 8018's T_1, T_2, ... for every length
    the standard allows. *)
Theorem pbkdf2_is_rfc8018 p salt c n :
  Z.of_nat n <= 32 * 4294967295 →
  pbkdf2_hmac_sha256 p salt c n = pbkdf2_rfc8018 (to_bytes p) salt c n ∧
  length (pbkdf2_hmac_sha256 p salt c n) = n.
Proof. intros Hn. rewrite pbkdf2_eq by done. split; [done|apply pbkdf2_size]. Qed.

Lemma pbkdf2_is_rfc8018_witness :
  length (pbkdf2_hmac_sha256 "pw" [1; 2] 3 40) = 40%nat.
Proof. apply (pbkdf2_is_rfc8018 "pw" [1; 2] 3 40). lia. Defined.

(** [verify_password_hash] accepts exactly the texts iter$salt$hash whose
    two base64 fields decode to something non-empty and whose hash is the PBKDF2
    output for this password, salt and iteration count; every malformed text is
    rejected without an exception. *)
Lemma verify_accepts_iff password stored :
  verify_password_hash password stored = true ↔ stored_as password stored.
Proof. apply verify_iff. Qed.


(** The accepting run on a text made by [make_password_hash]. *)
Lemma verify_made q password iter salt :
  is_u32 iter → bytes_ok salt → salt ≠ [] →
  verify_password_hash q (make_password_hash password iter salt) =
  bool_decide (pbkdf2_hmac_sha256 q salt iter 32 = pbkdf2_hmac_sha256 password salt iter 32).
Proof.
  intros Hi Hs Hne. set (dk := pbkdf2_hmac_sha256 password salt iter 32).
  assert (∀ q, bytes_ok (pbkdf2_hmac_sha256 q salt iter 32) ∧
    length (pbkdf2_hmac_sha256 q salt iter 32) = 32%nat) as Hsize.
  { intros q'. rewrite pbkdf2_eq by lia. split; apply pbkdf2_size. }
  destruct (Hsize password) as [Hdk Hlen]. fold dk in Hdk, Hlen.
  assert ("$"%char ∉ chars (to_string iter)) as Hd.
  { destruct Hi. by apply to_string_avoid. }
  unfold verify_password_hash, make_password_hash. fold dk. clearbody dk.
  rewrite (proj2 (find_char_Some _ _ (to_string iter)
    (base64_encode salt +:+ "$" +:+ base64_encode dk))) by done.
  rewrite (proj2 (find_char_Some _ _ (base64_encode salt) (base64_encode dk)))
    by (split; [done|apply base64_no_dollar]).
  rewrite stoul_to_string by (unfold is_u32, is_u64 in *; lia).
  assert (∀ l, bytes_ok l → base64_decode (base64_encode l) = l) as Hb64.
  { intros l Hl. unfold base64_decode. by rewrite base64_decode_loop_encode. }
  rewrite !Hb64 by done.
  rewrite !bool_decide_eq_false_2 by (done || by intros Heq; rewrite Heq in Hlen). cbn [orb].
  rewrite u32_small, Hlen, (proj2 (Hsize q)) by done. cbn [negb Nat.eqb].
  destruct (bytes_diff _ dk 0 =? 0) eqn:E; symmetry.
  - apply Z.eqb_eq, bytes_diff_zero in E as [_ E]; [by apply bool_decide_eq_true_2|].
    by rewrite Hlen, (proj2 (Hsize q)).
  - apply bool_decide_eq_false_2. intros Heq. apply Z.eqb_neq in E. apply E.
    by apply bytes_diff_zero; [rewrite Heq|].
Qed.

(** C36: a hash made with [make_password_hash] verifies for a password exactly
    when that password derives the same 32-byte key; in particular for the
    password it was made from. *)
Theorem password_roundtrip password password' iter salt :
  is_u32 iter → bytes_ok salt → salt ≠ [] →
  verify_password_hash password (make_password_hash password iter salt) = true ∧
  verify_password_hash password' (make_password_hash password iter salt) =
    bool_decide (pbkdf2_hmac_sha256 password' salt iter 32 =
                 pbkdf2_hmac_sha256 password salt iter 32).
Proof.
  intros Hi Hs Hne. rewrite !verify_made by done. by rewrite bool_decide_eq_true_2.
Qed.

Lemma password_roundtrip_witness :
  verify_password_hash "hunter2" (make_password_hash "hunter2" 2 [1; 2; 3]) = true ∧
  verify_password_hash "hunter3" (make_password_hash "hunter2" 2 [1; 2; 3]) = false.
Proof.
  destruct (password_roundtrip "hunter2" "hunter3" 2 [1; 2; 3]) as [H1 H2];
    [done|repeat constructor; done|done|].
  split; [exact H1|]. rewrite H2. apply bool_decide_eq_false_2. intros Heq.
  apply (f_equal hex_encode) in Heq. revert Heq. vm_compute. discriminate.
Defined.
