(* ===== verification/MysqlPool.v ===== *)
(** * The connection pool: [include/db/mysql_pool.h], [src/db/mysql_pool.cpp]

    [acquire], [release] and the destructor run under [mu_]; a client that finds no
    idle connection blocks in [cv_.wait] and looks again when it is woken.
    Connections are handles of the client library: the results of
    [mysql_real_connect] and [mysql_ping] are arguments, [handles] is the set of
    open handles, [close_log] the handles closed and [lost] counts the broken
    connections that could not be replaced; the last three are ghost state. *)
From S2P Require Import Prelude.

Record MysqlConfig := mkMysqlConfig {
  my_host : string;
  my_port : Z;
  my_user : string;
  my_password : string;
  my_database : string;
  pool_size : Z;
}.
Definition default_config : MysqlConfig := mkMysqlConfig "127.0.0.1" 3306 "root" "" "chat_system" 4.

Record MysqlPool := mkMysqlPool {
  my_cfg : MysqlConfig;
  idle : list Z;
  outstanding : Z;
  my_stopping : bool;
  next_handle : Z;
  handles : gset Z;
  close_log : list Z;
  lost : nat;
}.

Definition mysql_pool (cfg : MysqlConfig) : MysqlPool := mkMysqlPool cfg [] 0 false 1 ∅ [] 0.

Definition set_idle (l : list Z) (p : MysqlPool) : MysqlPool :=
  mkMysqlPool p.(my_cfg) l p.(outstanding) p.(my_stopping) p.(next_handle) p.(handles) p.(close_log) p.(lost).
Definition set_outstanding (n : Z) (p : MysqlPool) : MysqlPool :=
  mkMysqlPool p.(my_cfg) p.(idle) n p.(my_stopping) p.(next_handle) p.(handles) p.(close_log) p.(lost).
Definition count_lost (p : MysqlPool) : MysqlPool :=
  mkMysqlPool p.(my_cfg) p.(idle) p.(outstanding) p.(my_stopping) p.(next_handle) p.(handles)
    p.(close_log) (S p.(lost)).

(** [mysql_close]. *)
Definition mysql_close (c : Z) (p : MysqlPool) : MysqlPool :=
  mkMysqlPool p.(my_cfg) p.(idle) p.(outstanding) p.(my_stopping) p.(next_handle)
    (p.(handles) ∖ {[c]}) (p.(close_log) ++ [c]) p.(lost).

(** [mysql_init]: a new handle. *)
Definition mysql_init (p : MysqlPool) : Z * MysqlPool :=
  (p.(next_handle),
   mkMysqlPool p.(my_cfg) p.(idle) p.(outstanding) p.(my_stopping) (p.(next_handle) + 1)
     ({[p.(next_handle)]} ∪ p.(handles)) p.(close_log) p.(lost)).

(** What the library answers to [mysql_init] and [mysql_real_connect]. *)
Inductive connect_result := InitFails | ConnectFails | Connected.

Definition make_connection (r : connect_result) (p : MysqlPool) : option Z * MysqlPool :=
  match r with
  | InitFails => (None, p)
  | ConnectFails => let '(c, p) := mysql_init p in (None, mysql_close c p)
  | Connected => let '(c, p) := mysql_init p in (Some c, p)
  end.

(** The loop of [init]; the script gives one result per connection. *)
Fixpoint init_loop (script : list connect_result) (n : nat) (p : MysqlPool) : bool * MysqlPool :=
  match n with
  | O => (true, p)
  | S n =>
      match make_connection (hd InitFails script) p with
      | (None, p) => (false, p)
      | (Some c, p) => init_loop (tl script) n (set_idle (p.(idle) ++ [c]) p)
      end
  end.

(** [init]: [library] is whether [mysql_library_init] succeeded. *)
Definition init (library : bool) (script : list connect_result) (p : MysqlPool) : bool * MysqlPool :=
  if library then init_loop script (Z.to_nat p.(my_cfg).(pool_size)) p else (false, p).

(** [acquire] when it holds [mu_] and the wait's predicate is tested. *)
Inductive acquired := Blocks | NoLease | Leased (c : Z) (p : MysqlPool).
Definition acquire (p : MysqlPool) : acquired :=
  if p.(my_stopping) then NoLease
  else match p.(idle) with
       | [] => Blocks
       | c :: l => Leased c (set_outstanding (u64 (p.(outstanding) + 1)) (set_idle l p))
       end.

(** [release]: whether it notified a waiter, and the pool. *)
Definition release (c : option Z) (ping : bool) (r : connect_result) (p : MysqlPool) : bool * MysqlPool :=
  let p := set_outstanding (u64 (p.(outstanding) - 1)) p in
  match c with
  | None => (false, p)
  | Some c =>
      if p.(my_stopping) then (false, mysql_close c p)
      else if ping then (true, set_idle (p.(idle) ++ [c]) p)
      else
        match make_connection r (mysql_close c p) with
        | (None, p) => (false, count_lost p)
        | (Some c, p) => (true, set_idle (p.(idle) ++ [c]) p)
        end
  end.

(** [~MysqlPool]: nobody is notified. *)
Definition destroy (p : MysqlPool) : MysqlPool :=
  let p := mkMysqlPool p.(my_cfg) p.(idle) p.(outstanding) true p.(next_handle) p.(handles)
             p.(close_log) p.(lost) in
  set_idle [] (foldl (λ p c, mysql_close c p) p p.(idle)).

(** ** Leases *)

(** [conn_] of a lease whose [pool_] is set exactly when [conn_] is. *)
Record Lease := mkLease { conn : option Z }.

(** [Lease::release]; with a null [conn_] it does nothing. *)
Definition lease_release (l : Lease) (ping : bool) (r : connect_result) (p : MysqlPool)
    : Lease * (bool * MysqlPool) :=
  match l.(conn) with
  | Some c => (mkLease None, release (Some c) ping r p)
  | None => (l, (false, p))
  end.

(** Move construction: the source is left empty. *)
Definition lease_move (o : Lease) : Lease * Lease := (mkLease o.(conn), mkLease None).

(** Move assignment, [this != &o]: the lease it had ends, the other's is taken over. *)
Definition lease_assign (l o : Lease) (ping : bool) (r : connect_result) (p : MysqlPool)
    : Lease * Lease * (bool * MysqlPool) :=
  let '(_, res) := lease_release l ping r p in
  let '(l, o) := lease_move o in (l, o, res).

(** The connections of a lease. *)
Definition held (l : Lease) : list Z := option_list l.(conn).

(** ** Clients *)

Inductive client := Trying | Waiting | Holding (c : Z).

Record pool_sys := mkPoolSys { ps_pool : MysqlPool; ps_clients : gmap Z client }.

Definition is_waiting (x : client) : bool := match x with Waiting => true | _ => false end.
Definition some_waiting (cs : gmap Z client) : bool :=
  existsb is_waiting (map_to_list cs).*2.

Inductive mpool_op :=
| MStart (t : Z)                                              (** a client calls [acquire] *)
| MAcquire (t : Z)                                            (** it tests the predicate *)
| MSpurious (t : Z)                                           (** its wait returns by itself *)
| MRelease (t : Z) (ping : bool) (r : connect_result) (w : Z) (** its lease ends; [w] is woken *)
| MDestroy.

Definition mpool_step (o : mpool_op) (y : pool_sys) : option pool_sys :=
  let '(mkPoolSys p cs) := y in
  match o with
  | MStart t => match cs !! t with None => Some (mkPoolSys p (<[t := Trying]> cs)) | Some _ => None end
  | MAcquire t =>
      match cs !! t with
      | Some Trying =>
          match acquire p with
          | Blocks => Some (mkPoolSys p (<[t := Waiting]> cs))
          | NoLease => Some (mkPoolSys p (delete t cs))
          | Leased c p => Some (mkPoolSys p (<[t := Holding c]> cs))
          end
      | _ => None
      end
  | MSpurious t =>
      match cs !! t with Some Waiting => Some (mkPoolSys p (<[t := Trying]> cs)) | _ => None end
  | MRelease t ping r w =>
      match cs !! t with
      | Some (Holding c) =>
          let '(_, (notify, p)) := lease_release (mkLease (Some c)) ping r p in
          let cs := delete t cs in
          if notify && some_waiting cs then
            match cs !! w with
            | Some Waiting => Some (mkPoolSys p (<[w := Trying]> cs))
            | _ => None
            end
          else Some (mkPoolSys p cs)
      | _ => None
      end
  | MDestroy => Some (mkPoolSys (destroy p) cs)
  end.

(** The states after a successful [init]. *)
Inductive mpool_reach (cfg : MysqlConfig) : pool_sys → Prop :=
| mpreach_init script p :
    init true script (mysql_pool cfg) = (true, p) → mpool_reach cfg (mkPoolSys p ∅)
| mpreach_step o y y' : mpool_reach cfg y → mpool_step o y = Some y' → mpool_reach cfg y'.

(** ** Invariant *)

(** The connections of the pool with the leases [l]: each open connection is idle
    or leased, never both, never twice; closed ones are closed once. *)
Record handles_inv (p : MysqlPool) (l : list Z) : Prop := {
  hi_nodup : NoDup (p.(idle) ++ l);
  hi_handles : ∀ c, c ∈ p.(handles) ↔ c ∈ p.(idle) ++ l;
  hi_fresh : ∀ c, c ∈ p.(handles) ∨ c ∈ p.(close_log) → c < p.(next_handle);
  hi_closed : NoDup p.(close_log) ∧ ∀ c, c ∈ p.(close_log) → c ∉ p.(handles);
}.

(** The numbers agree with it, for a pool of [n] connections. *)
Record pool_inv (n : nat) (p : MysqlPool) (l : list Z) : Prop := {
  pi_handles : handles_inv p l;
  pi_outstanding : p.(outstanding) = Z.of_nat (length l);
  pi_count : p.(my_stopping) = false → (length p.(idle) + length l + p.(lost) = n)%nat;
  pi_bound : (length l <= n)%nat;
  pi_stopped : p.(my_stopping) = true → p.(idle) = [];
}.

Lemma pool_inv_perm n p l l' : l ≡ₚ l' → pool_inv n p l → pool_inv n p l'.
Proof.
  intros Hp [[H1 H2 H3 H4] H5 H6 H7 H8]. rewrite Hp in *. split; [split|..]; try done.
  intros c. by rewrite <-Hp.
Qed.

(** Everything but the counters: what opening and closing handles changes. *)
Definition same_but_handles (p p' : MysqlPool) : Prop :=
  p'.(idle) = p.(idle) ∧ p'.(outstanding) = p.(outstanding) ∧ p'.(my_stopping) = p.(my_stopping) ∧
  p'.(lost) = p.(lost).

Lemma make_connection_fresh r p c p' :
  (∀ c, c ∈ p.(handles) ∨ c ∈ p.(close_log) → c < p.(next_handle)) →
  NoDup p.(close_log) → (∀ c, c ∈ p.(close_log) → c ∉ p.(handles)) →
  make_connection r p = (c, p') →
  same_but_handles p p' ∧
  (∀ c, c ∈ p'.(handles) ∨ c ∈ p'.(close_log) → c < p'.(next_handle)) ∧
  NoDup p'.(close_log) ∧ (∀ c, c ∈ p'.(close_log) → c ∉ p'.(handles)) ∧
  match c with
  | Some c => (c ∉ p.(handles)) ∧ p'.(handles) = {[c]} ∪ p.(handles)
  | None => p'.(handles) = p.(handles)
  end.
Proof.
  intros Hf Hn Hc Hm.
  assert (next_handle p ∉ handles p) as H1 by (intros H; pose proof (Hf _ (or_introl H)); lia).
  assert (next_handle p ∉ close_log p) as H2 by (intros H; pose proof (Hf _ (or_intror H)); lia).
  destruct r; cbn in Hm; injection Hm as <- <-; cbn.
  - by split_and!.
  - split_and!; [done| | | |set_solver].
    + intros c [H|H]; [assert (c ∈ handles p) as H' by set_solver; pose proof (Hf c (or_introl H')); lia|].
      apply elem_of_app in H as [H| ->%list_elem_of_singleton]; [pose proof (Hf c (or_intror H)); lia|lia].
    + apply NoDup_app. split_and!; [done|set_solver|apply NoDup_singleton].
    + intros c H. apply elem_of_app in H as [H| ->%list_elem_of_singleton]; [|set_solver].
      pose proof (Hc c H). set_solver.
  - split_and!; [done| |done| |done|done].
    + intros c [[->%elem_of_singleton|H]%elem_of_union|H];
        [lia|pose proof (Hf c (or_introl H)); lia|pose proof (Hf c (or_intror H)); lia].
    + intros c H. pose proof (Hc c H). pose proof (Hf c (or_intror H)). intros [->%elem_of_singleton|?]%elem_of_union; [lia|done].
Qed.

Lemma close_handles c p l : handles_inv p (c :: l) → handles_inv (mysql_close c p) l.
Proof.
  intros [H1 H2 H3 [H4 H4']]. rewrite <-Permutation_middle in H1. apply NoDup_cons in H1 as [Hc H1].
  assert (c ∈ handles p) as Hin by (rewrite H2; set_solver). split; cbn.
  - done.
  - intros x. rewrite elem_of_difference, H2, elem_of_singleton, !elem_of_app, elem_of_cons.
    rewrite elem_of_app in Hc. naive_solver.
  - intros x [H|H]; [apply H3; set_solver|].
    apply elem_of_app in H as [H| ->%list_elem_of_singleton]; apply H3; auto.
  - split; [apply NoDup_app; split_and!; [done|set_solver|apply NoDup_singleton]|].
    intros x H. apply elem_of_app in H as [H| ->%list_elem_of_singleton]; [|set_solver].
    pose proof (H4' x H). set_solver.
Qed.

Lemma idle_handles c p l :
  handles_inv p (c :: l) → handles_inv (set_idle (p.(idle) ++ [c]) p) l.
Proof.
  intros [H1 H2 H3 H4]. split; cbn; try done; rewrite <-app_assoc; done.
Qed.

Lemma connect_handles r p l c p' :
  handles_inv p l → make_connection r p = (c, p') →
  same_but_handles p p' ∧ match c with Some c => handles_inv p' (c :: l) | None => handles_inv p' l end.
Proof.
  intros [H1 H2 H3 [H4 H4']] Hm.
  apply make_connection_fresh in Hm as (Hs & Hf & Hn & Hc & Hh); [|done..]. split; [done|].
  destruct Hs as (Hi & _ & _ & _). destruct c as [c|].
  - destruct Hh as [Hnew Hh]. rewrite H2 in Hnew. split; rewrite ?Hi, ?Hh; try done.
    + rewrite <-Permutation_middle. by apply NoDup_cons.
    + intros x. rewrite elem_of_union, elem_of_singleton, H2, !elem_of_app, elem_of_cons. naive_solver.
    + rewrite <-Hh. done.
    + by rewrite <-Hh.
  - split; rewrite ?Hi, ?Hh; try done; rewrite <-Hh; done.
Qed.

(** Sizes that a [std::size_t] counts without wrapping. *)
Definition small (n : nat) : Prop := Z.of_nat n <= 4294967295.

Lemma acquire_inv n p l c p' :
  small n → pool_inv n p l → acquire p = Leased c p' →
  p'.(my_stopping) = false ∧ p.(idle) = c :: p'.(idle) ∧ pool_inv n p' (c :: l).
Proof.
  intros Hn [[H1 H2 H3 H4] H5 H6 H7 H8] Ha. unfold acquire in Ha.
  destruct (my_stopping p) eqn:Hs; [done|]. destruct (idle p) as [|c' l'] eqn:Hi; [done|].
  injection Ha as <- <-. cbn. specialize (H6 eq_refl). cbn in H6. split_and!; [done|done|].
  split; [split|..]; cbn; try done.
  - by rewrite <-Permutation_middle.
  - intros x. rewrite H2. by rewrite <-Permutation_middle.
  - rewrite H5, u64_small; [lia|]. unfold is_u64, small in *. lia.
  - lia.
  - lia.
  - by rewrite Hs.
Qed.

Lemma release_inv n c ping r p l b p' :
  small n → pool_inv n p (c :: l) → release (Some c) ping r p = (b, p') →
  pool_inv n p' l ∧ p'.(my_stopping) = p.(my_stopping) ∧
  (length p'.(idle) = length p.(idle) + (if b then 1 else 0))%nat.
Proof.
  intros Hn [Hh H5 H6 H7 H8] Hr. unfold release in Hr. cbn in H7.
  set (p1 := set_outstanding (u64 (outstanding p - 1)) p) in *.
  assert (outstanding p1 = Z.of_nat (length l)) as Ho.
  { cbn. rewrite H5, u64_small; cbn; [lia|]. unfold is_u64, small in *. lia. }
  assert (handles_inv p1 (c :: l)) as Hh1 by (by destruct Hh).
  change (my_stopping p) with (my_stopping p1) in *. change (idle p) with (idle p1) in *.
  change (lost p) with (lost p1) in *. clearbody p1. clear Hh H5. cbn in H6.
  destruct (my_stopping p1) eqn:Hs.
  - injection Hr as <- <-. cbn. split; [|by rewrite Nat.add_0_r].
    split; cbn; [by apply close_handles|done|congruence|lia|auto].
  - specialize (H6 eq_refl). destruct ping.
    + injection Hr as <- <-. cbn. rewrite length_app. split; [|done].
      split; cbn; [by apply idle_handles|done| |lia|congruence]. rewrite length_app. cbn. lia.
    + destruct (make_connection r (mysql_close c p1)) as [o p2] eqn:Hm.
      apply (connect_handles _ _ l) in Hm as [(Hi & Hou & Hst & Hlo) Hm2]; [|by apply close_handles].
      cbn in Hi, Hou, Hst, Hlo. destruct o as [c2|]; injection Hr as <- <-; cbn; rewrite Hst, Hi.
      * rewrite length_app. split; [|done].
        split; cbn; rewrite ?Hst, ?Hi, ?Hlo, ?Hou; [|done| |lia|congruence].
        -- rewrite <-Hi. by apply idle_handles.
        -- rewrite length_app. cbn. lia.
      * split; [|by rewrite Nat.add_0_r].
        split; cbn; rewrite ?Hst, ?Hi, ?Hlo, ?Hou; [|done|lia|lia|congruence]. by destruct Hm2.
Qed.

Lemma destroy_inv n p l :
  pool_inv n p l → pool_inv n (destroy p) l ∧ (destroy p).(my_stopping) = true.
Proof.
  intros [Hh H5 H6 H7 H8]. unfold destroy.
  set (q := mkMysqlPool _ _ _ true _ _ _ _).
  assert (∀ ks q, handles_inv (set_idle ks q) l →
    let q' := foldl (λ p c, mysql_close c p) q ks in
    handles_inv (set_idle [] q') l ∧ q'.(outstanding) = q.(outstanding) ∧
    q'.(my_stopping) = q.(my_stopping)) as Hgo.
  { clear. induction ks as [|c ks IH]; intros q Hq; [done|]. cbn [foldl].
    destruct (IH (mysql_close c q)) as (Ha & Hb & Hc); [|done].
    assert (handles_inv (set_idle ks q) (c :: l)) as Hq'.
    { destruct Hq as [H1 H2 H3 H4]. split; cbn in *; try done.
      - by rewrite <-Permutation_middle.
      - intros x. rewrite H2. by rewrite <-Permutation_middle. }
    apply close_handles in Hq'. by destruct Hq'. }
  destruct (Hgo (idle q) q) as (Ha & Hb & Hc); [by destruct Hh|].
  split; [|exact Hc]. split; cbn; [exact Ha|etrans; [exact Hb|exact H5]| |done|done].
  intros Hst. cbn in Hc. rewrite Hc in Hst. done.
Qed.

(** ** The clients *)

(** The items [f] gives for the clients. *)
Definition collect (f : client → list Z) (cs : gmap Z client) : list Z :=
  map_to_list cs ≫= λ tx, f tx.2.

Definition holds (x : client) : list Z := match x with Holding c => [c] | _ => [] end.
Definition tries (x : client) : list Z := match x with Trying => [0] | _ => [] end.
Definition waits (x : client) : list Z := match x with Waiting => [0] | _ => [] end.

Lemma collect_insert f cs t x :
  cs !! t = None → collect f (<[t := x]> cs) ≡ₚ f x ++ collect f cs.
Proof. intros Ht. unfold collect. by rewrite map_to_list_insert. Qed.

Lemma collect_delete f cs t x :
  cs !! t = Some x → collect f cs ≡ₚ f x ++ collect f (delete t cs).
Proof.
  intros Ht. rewrite <-(insert_delete_id cs t x) at 1 by done.
  rewrite collect_insert by apply lookup_delete_eq. done.
Qed.

Lemma collect_update f cs t x x' :
  cs !! t = Some x → ∃ k, collect f cs ≡ₚ f x ++ k ∧ collect f (<[t := x']> cs) ≡ₚ f x' ++ k.
Proof.
  intros Ht. exists (collect f (delete t cs)). split; [by apply collect_delete|].
  rewrite <-insert_delete_eq. by rewrite collect_insert by apply lookup_delete_eq.
Qed.

Lemma some_waiting_collect cs : some_waiting cs = true ↔ (0 < length (collect waits cs))%nat.
Proof.
  unfold some_waiting, collect. induction (map_to_list cs) as [|[t x] l IH]; [cbn; split; [done|lia]|].
  rewrite fmap_cons. cbn [existsb snd mbind list_bind]. destruct x; cbn; [exact IH|split; [intros _; lia|done]|exact IH].
Qed.

Record mpool_ok (n : nat) (y : pool_sys) : Prop := {
  mo_pool : pool_inv n y.(ps_pool) (collect holds y.(ps_clients));
  mo_waiting : y.(ps_pool).(my_stopping) = false → (0 < length (collect waits y.(ps_clients)))%nat →
    (length y.(ps_pool).(idle) <= length (collect tries y.(ps_clients)))%nat;
}.

Lemma init_loop_inv script k n p p' :
  pool_inv n p [] → p.(my_stopping) = false → init_loop script k p = (true, p') →
  pool_inv (n + k) p' [] ∧ p'.(my_stopping) = false.
Proof.
  revert script n p. induction k as [|k IH]; intros script n p Hp Hs Hi; cbn [init_loop] in Hi.
  { injection Hi as <-. by rewrite Nat.add_0_r. }
  destruct (make_connection _ p) as [[c|] p1] eqn:Hm; [|done].
  destruct Hp as [Hh H5 H6 H7 H8]. specialize (H6 Hs).
  apply (connect_handles _ _ []) in Hm as [(E1 & E2 & E3 & E4) Hc]; [|done].
  replace (n + S k)%nat with (S n + k)%nat by lia. apply (IH (tl script) (S n) (set_idle (idle p1 ++ [c]) p1)); [|exact (eq_trans E3 Hs)|exact Hi].
  split; cbn; rewrite ?E2, ?E3, ?E4; [by apply idle_handles|done| |lia|congruence].
  intros _. rewrite E1, length_app. cbn in *. lia.
Qed.

Lemma init_ok cfg script p :
  0 <= pool_size cfg → init true script (mysql_pool cfg) = (true, p) →
  mpool_ok (Z.to_nat (pool_size cfg)) (mkPoolSys p ∅).
Proof.
  intros Hn Hi. unfold init in Hi.
  destruct (init_loop_inv script (Z.to_nat (pool_size cfg)) 0 (mysql_pool cfg) p) as [Hp Hs]; [|done|done|].
  { split; [split|..]; cbn; try done; [constructor|set_solver|set_solver|split; [constructor|set_solver]]. }
  split; cbn [ps_pool ps_clients]; [exact Hp|]. intros _ H.
  unfold collect in H. rewrite map_to_list_empty in H. cbn in H. lia.
Qed.

(** Move assignment neither leaks nor duplicates a connection. *)
Lemma lease_assign_inv n l o k ping r p l' o' b p' :
  small n → pool_inv n p (held l ++ held o ++ k) → lease_assign l o ping r p = (l', o', (b, p')) →
  pool_inv n p' (held l' ++ held o' ++ k) ∧ held l' = held o ∧ held o' = [].
Proof.
  intros Hn Hp. destruct l as [[c|]], o as [oc]; unfold lease_assign, lease_release, lease_move; cbn [conn].
  - intros [= <- <- Hr]. by destruct (release_inv n c ping r p _ b p' Hn Hp Hr).
  - by intros [= <- <- _ <-].
Qed.

(** Replacing a client's state by another with the same lease. *)
Lemma mpool_ok_client n p cs t x x' :
  mpool_ok n (mkPoolSys p cs) → cs !! t = Some x → holds x' = holds x →
  (p.(my_stopping) = false → (0 < length (collect waits (<[t := x']> cs)))%nat →
   (length p.(idle) <= length (collect tries (<[t := x']> cs)))%nat) →
  mpool_ok n (mkPoolSys p (<[t := x']> cs)).
Proof.
  intros [Hp _] Ht Hh Hw. split; [|done]. cbn in *.
  destruct (collect_update holds cs t x x' Ht) as (k & E1 & E2).
  eapply pool_inv_perm; [|exact Hp]. by rewrite E1, E2, Hh.
Qed.

(** A woken client tries again. *)
Lemma mpool_ok_wake n p cs t :
  mpool_ok n (mkPoolSys p cs) → cs !! t = Some Waiting →
  mpool_ok n (mkPoolSys p (<[t := Trying]> cs)).
Proof.
  intros Hy Ht. apply (mpool_ok_client n p cs t Waiting Trying Hy Ht eq_refl).
  destruct Hy as [_ Hw]. cbn in Hw. intros Hs _.
  destruct (collect_update waits cs t Waiting Trying Ht) as (k & E1 & _).
  destruct (collect_update tries cs t Waiting Trying Ht) as (k' & E3 & E4).
  rewrite E4. rewrite E1, E3 in Hw. cbn in *. specialize (Hw Hs). etrans; [apply Hw|]; lia.
Qed.

(** After a release: the client is gone, the connection idle, and a waiter, if
    there is one, is still to be woken. *)
Lemma release_step n c t ping r b p p' cs :
  small n → mpool_ok n (mkPoolSys p cs) → cs !! t = Some (Holding c) →
  release (Some c) ping r p = (b, p') →
  pool_inv n p' (collect holds (delete t cs)) ∧
  (p'.(my_stopping) = false → (0 < length (collect waits (delete t cs)))%nat →
   (length p'.(idle) <= length (collect tries (delete t cs)) + (if b then 1 else 0))%nat).
Proof.
  intros Hn [Hp Hw] Ht Hr. cbn in *.
  pose proof (collect_delete holds cs t _ Ht) as Eh. pose proof (collect_delete waits cs t _ Ht) as Ew.
  pose proof (collect_delete tries cs t _ Ht) as Et. cbn in Eh, Ew, Et.
  apply (pool_inv_perm _ _ _ _ Eh) in Hp.
  destruct (release_inv n c ping r p _ b p' Hn Hp Hr) as (Hp' & Hs & Hl).
  split; [done|]. rewrite Hs, Hl. intros Hst Hne. rewrite Ew, Et in Hw. specialize (Hw Hst Hne). lia.
Qed.

Lemma waiting_wake n p cs w :
  pool_inv n p (collect holds cs) → cs !! w = Some Waiting →
  (p.(my_stopping) = false → (0 < length (collect waits cs))%nat →
   (length p.(idle) <= length (collect tries cs) + 1)%nat) →
  mpool_ok n (mkPoolSys p (<[w := Trying]> cs)).
Proof.
  intros Hp Hwt Hw. split; cbn.
  - destruct (collect_update holds cs w Waiting Trying Hwt) as (k & E1 & E2).
    eapply pool_inv_perm; [|exact Hp]. by rewrite E1, E2.
  - intros Hs _. destruct (collect_update waits cs w Waiting Trying Hwt) as (k & E1 & _).
    destruct (collect_update tries cs w Waiting Trying Hwt) as (k' & E3 & E4).
    rewrite E4. rewrite E1, E3 in Hw. cbn in *. specialize (Hw Hs). etrans; [apply Hw|]; lia.
Qed.

Lemma mpool_step_ok n o y y' :
  small n → mpool_ok n y → mpool_step o y = Some y' → mpool_ok n y'.
Proof.
  intros Hn Hy Ho. destruct y as [p cs]. destruct o as [t|t|t|t ping r w|]; cbn [mpool_step] in Ho.
  - destruct (cs !! t) eqn:Ht; [done|]. injection Ho as <-. destruct Hy as [Hp Hw]. split; cbn in *.
    + eapply pool_inv_perm; [|exact Hp]. by rewrite collect_insert.
    + rewrite !collect_insert by done. cbn. intros Hs Hne. specialize (Hw Hs Hne). lia.
  - destruct (cs !! t) as [[| |]|] eqn:Ht; try done. destruct (acquire p) as [| |c p'] eqn:Ha.
    + injection Ho as <-. apply (mpool_ok_client n p cs t Trying Waiting Hy Ht eq_refl).
      intros Hs _. unfold acquire in Ha. rewrite Hs in Ha. destruct (idle p); [cbn; lia|done].
    + injection Ho as <-. destruct Hy as [Hp _]. unfold acquire in Ha.
      destruct (my_stopping p) eqn:Hs; [|by destruct (idle p)].
      split; cbn; [|congruence]. eapply pool_inv_perm; [|exact Hp]. by rewrite (collect_delete _ _ _ _ Ht).
    + injection Ho as <-. destruct Hy as [Hp Hw]. cbn in *.
      destruct (acquire_inv n p _ c p' Hn Hp Ha) as (Hs & Hi & Hp').
      destruct (collect_update holds cs t Trying (Holding c) Ht) as (k1 & E1 & E2).
      destruct (collect_update waits cs t Trying (Holding c) Ht) as (k2 & E3 & E4).
      destruct (collect_update tries cs t Trying (Holding c) Ht) as (k3 & E5 & E6).
      split; cbn; [eapply pool_inv_perm; [|exact Hp']; by rewrite E1, E2|].
      rewrite E4, E6. rewrite E3, E5, Hi in Hw. cbn in *. intros _ Hne.
      assert (my_stopping p = false) as Hs' by (unfold acquire in Ha; by destruct (my_stopping p)).
      specialize (Hw Hs' Hne). lia.
  - destruct (cs !! t) as [[| |]|] eqn:Ht; try done. injection Ho as <-. by apply mpool_ok_wake.
  - destruct (cs !! t) as [[| |c]|] eqn:Ht; try done. unfold lease_release in Ho. cbn [conn] in Ho.
    destruct (release (Some c) ping r p) as [b p'] eqn:Hr.
    destruct (release_step n c t ping r b p p' cs Hn Hy Ht Hr) as [Hp' Hw'].
    destruct (b && some_waiting (delete t cs)) eqn:Eb.
    + destruct (delete t cs !! w) as [[| |]|] eqn:Hwt; try done. injection Ho as <-.
      apply andb_prop in Eb as [-> _]. by apply waiting_wake.
    + injection Ho as <-. split; [done|]. cbn. intros Hs Hne. specialize (Hw' Hs Hne).
      rewrite (proj2 (some_waiting_collect _) Hne), andb_true_r in Eb. rewrite Eb in Hw'. lia.
  - injection Ho as <-. destruct Hy as [Hp Hw]. cbn in *.
    destruct (destroy_inv n p _ Hp) as [Hp' Hs]. split; cbn [ps_pool ps_clients]; [done|].
    intros Hf. by rewrite Hs in Hf.
Qed.

Lemma mpool_reach_ok cfg y :
  is_u32 (pool_size cfg) → mpool_reach cfg y → mpool_ok (Z.to_nat (pool_size cfg)) y.
Proof.
  intros Hn. unfold is_u32 in Hn. induction 1 as [script p Hi|o y y' _ IH Ho].
  - apply (init_ok cfg script p); [lia|done].
  - eapply mpool_step_ok; [|exact IH|exact Ho]. unfold small. lia.
Qed.

(** Without connections, nothing changes the pool. *)
Lemma starved_step o y y' :
  y.(ps_pool).(idle) = [] → y.(ps_pool).(my_stopping) = false →
  (∀ t c, y.(ps_clients) !! t ≠ Some (Holding c)) → MDestroy ≠ o →
  mpool_step o y = Some y' → y'.(ps_pool) = y.(ps_pool).
Proof.
  intros Hi Hs Hh Ho Hy. destruct y as [p cs], o; cbn in *; try done;
    repeat case_match; simplify_eq; try done; try by eapply Hh in H.
  all: unfold acquire in *; rewrite ?Hs, ?Hi in *; done.
Qed.

(** ** Properties *)

(** C23: the pool under any interleaving of clients, with any results of pings and
    reconnections: no connection is leased twice or leased while idle, every open
    connection is idle or leased, none is closed twice or used after it was
    closed, [outstanding_] counts the leases, and until the destructor runs the
    idle, the leased and the lost connections together are the configured number.
    No client sleeps while a connection is idle unless as many others are already
    about to take one. *)
Theorem mysql_pool_exclusive cfg y :
  is_u32 (pool_size cfg) → mpool_reach cfg y →
  let p := y.(ps_pool) in
  let leased := collect holds y.(ps_clients) in
  NoDup (p.(idle) ++ leased) ∧ (∀ c, c ∈ p.(handles) ↔ c ∈ p.(idle) ++ leased) ∧
  NoDup p.(close_log) ∧ (∀ c, c ∈ p.(close_log) → c ∉ p.(idle) ++ leased) ∧
  p.(outstanding) = Z.of_nat (length leased) ∧
  (p.(my_stopping) = false →
     Z.of_nat (length p.(idle) + length leased + p.(lost)) = pool_size cfg ∧
     ((0 < length (collect waits y.(ps_clients)))%nat →
        (length p.(idle) <= length (collect tries y.(ps_clients)))%nat)).
Proof.
  intros Hn Hr p leased. destruct (mpool_reach_ok cfg y Hn Hr) as [[[H1 H2 H3 [H4 H4']] H5 H6 H7 H8] Hw].
  fold p leased in H1, H2, H4, H4', H5, H6, Hw. split_and!; try done.
  - intros c Hc. rewrite <-H2. by apply H4'.
  - unfold is_u32 in Hn. intros Hs. split; [rewrite H6 by done; lia|by apply Hw].
Qed.

(** Lost connections are lost for good: once every connection of the pool has
    been lost to a failed replacement, nothing short of destroying the pool gives
    any client a connection again, and every client that asks waits for ever. *)
Theorem mysql_pool_starves cfg y :
  is_u32 (pool_size cfg) → mpool_reach cfg y → y.(ps_pool).(my_stopping) = false →
  Z.of_nat y.(ps_pool).(lost) = pool_size cfg →
  ∀ ops y', MDestroy ∉ ops → foldl (λ o op, o ≫= mpool_step op) (Some y) ops = Some y' →
    acquire y'.(ps_pool) = Blocks ∧ ∀ t c, y'.(ps_clients) !! t ≠ Some (Holding c).
Proof.
  intros Hn Hr Hs Hl ops. unfold is_u32 in Hn.
  assert (∀ y, mpool_ok (Z.to_nat (pool_size cfg)) y → y.(ps_pool).(my_stopping) = false →
    Z.of_nat y.(ps_pool).(lost) = pool_size cfg →
    y.(ps_pool).(idle) = [] ∧ ∀ t c, y.(ps_clients) !! t ≠ Some (Holding c)) as Hempty.
  { clear. intros y [Hp _] Hs Hl. pose proof (pi_count _ _ _ Hp Hs) as Hc.
    split; [apply nil_length_inv; lia|]. intros t c Ht.
    pose proof (collect_delete holds _ _ _ Ht) as E. apply Permutation_length in E. cbn in E. lia. }
  pose proof (mpool_reach_ok cfg y Hn Hr) as Hy. clear Hr. revert y Hy Hs Hl.
  induction ops as [|o ops IH]; intros y Hy Hs Hl y' Hd Ho.
  - injection Ho as <-. destruct (Hempty y Hy Hs Hl) as [Hi Hh]. split; [|done].
    unfold acquire. by rewrite Hs, Hi.
  - rewrite not_elem_of_cons in Hd. destruct Hd as [Hd Hds]. cbn [foldl mbind option_bind] in Ho.
    destruct (mpool_step o y) as [y1|] eqn:E.
    2:{ exfalso. clear -Ho. induction ops as [|o' ops IH]; [done|]. by apply IH. }
    destruct (Hempty y Hy Hs Hl) as [Hi Hh]. apply (IH y1); try done.
    + eapply mpool_step_ok; [|exact Hy|exact E]. unfold small. lia.
    + by rewrite (starved_step o y y1).
    + by rewrite (starved_step o y y1).
Qed.

(** *** An example run: one connection, lost when the server goes away *)

Definition one_connection : MysqlConfig := mkMysqlConfig "127.0.0.1" 3306 "root" "" "chat_system" 1.
Definition run_pool (ops : list mpool_op) : option pool_sys :=
  foldl (λ o op, o ≫= mpool_step op)
    (Some (mkPoolSys (init true [Connected] (mysql_pool one_connection)).2 ∅)) ops.
Definition losing_ops : list mpool_op :=
  [MStart 1; MAcquire 1; MStart 2; MAcquire 2; MRelease 1 false ConnectFails 0].

Lemma run_pool_reach ops y : run_pool ops = Some y → mpool_reach one_connection y.
Proof.
  unfold run_pool. revert y. induction ops as [|o ops IH] using rev_ind; intros y Hy.
  - injection Hy as <-. by apply (mpreach_init _ [Connected]).
  - rewrite foldl_snoc in Hy. destruct (foldl _ _ ops) as [y0|] eqn:E; [|done].
    eapply mpreach_step; [by apply IH|exact Hy].
Qed.

Definition starved : pool_sys :=
  default (mkPoolSys (mysql_pool one_connection) ∅) (run_pool losing_ops).

Lemma starved_reach : mpool_reach one_connection starved.
Proof. apply (run_pool_reach losing_ops). by vm_compute. Qed.

Lemma mysql_pool_exclusive_witness :
  NoDup (starved.(ps_pool).(idle) ++ collect holds starved.(ps_clients)).
Proof. apply (mysql_pool_exclusive one_connection starved); [by vm_compute|exact starved_reach]. Defined.

Lemma mysql_pool_starves_witness : acquire starved.(ps_pool) = Blocks.
Proof.
  apply (mysql_pool_starves one_connection starved) with (ops := []) (y' := starved);
    [by vm_compute|exact starved_reach|by vm_compute|by vm_compute|apply not_elem_of_nil|reflexivity].
Defined.
