(* ===== verification/MysqlRepositories.v ===== *)
(** * The MySQL half of [src/db/repositories.cpp]

    Each operation leases a connection, builds the text of one statement, sends
    it and decodes the rows.  The server and the client library are the class
    [MysqlServer]; of the library's [mysql_real_escape_string] the law
    [EscapeLaw] states what its manual promises.  [dm_matches] and the other
    notions of the in-memory half are in [Repositories]; the operations here have
    the same names. *)
From S2P Require Import Prelude Util Crypto Repositories.

(** A row as [mysql_fetch_row] gives it: [NULL] or text per column. *)
Abbreviation row := (list (option string)).

(** What a statement leaves on its connection: [mysql_errno], or the result set
    that [mysql_store_result] gives ([None] for [NULL]) and [mysql_insert_id]. *)
Inductive query_result :=
| QueryError (errno : Z)
| QueryDone (rows : option (list row)) (insert_id : Z).

Class MysqlServer (D : Type) := {
  mysql_real_escape_string : string → string;
  mysql_real_query : string → D → query_result * D;
}.

(** The database, the result on the leased connection, and whether the pool is
    being destroyed ([acquire] then gives an empty lease). *)
Record Db (D : Type) := mkDb { db : D; last_result : query_result; pool_stopping : bool }.
Arguments mkDb {D}.
Arguments db {D}.
Arguments last_result {D}.
Arguments pool_stopping {D}.

(** ** Reading rows *)

Definition cell (r : row) (i : nat) : option string := cstr <$> mjoin (r !! i).

(** [row[i] ? row[i] : ""]. *)
Definition text_or_empty (r : row) (i : nat) : string := default "" (cell r i).
(** [row[i] ? stoull(row[i]) : 0], and with [stoll]. *)
Definition stoull_or_0 (r : row) (i : nat) : outcome Z :=
  match cell r i with Some s => stoul s | None => Ret 0 end.
Definition stoll_or_0 (r : row) (i : nat) : outcome Z :=
  match cell r i with Some s => stoll s | None => Ret 0 end.
(** [if (row[i]) x = stoull(row[i]);]. *)
Definition stoull_opt (r : row) (i : nat) : outcome (option Z) :=
  match cell r i with Some s => z ← stoul s; Ret (Some z) | None => Ret None end.

Definition decode_user (r : row) : outcome User :=
  id ← stoul (default "0" (cell r 0));
  created ← stoll_or_0 r 3;
  seen ← stoll_or_0 r 4;
  Ret (mkUser id (text_or_empty r 1) (text_or_empty r 2) created seen).

Definition decode_room (r : row) : outcome Room :=
  id ← stoull_or_0 r 0;
  created ← stoll_or_0 r 2;
  Ret (mkRoom id (text_or_empty r 1) created).

Definition decode_session (r : row) : outcome SessionRow :=
  uid ← stoull_or_0 r 1;
  active ← stoll_or_0 r 2;
  Ret (mkSessionRow (text_or_empty r 0) uid active).

Definition decode_message (r : row) : outcome Message :=
  id ← stoull_or_0 r 0;
  sender ← stoull_or_0 r 1;
  receiver ← stoull_opt r 2;
  room ← stoull_opt r 3;
  status ← match cell r 5 with Some s => z ← stoi s; Ret (u8 z) | None => Ret 0 end;
  created ← stoll_or_0 r 6;
  Ret (mkMessage id sender receiver room (text_or_empty r 4) status created).

(** [while (row = mysql_fetch_row(r)) out.push_back(...)]. *)
Fixpoint decode_rows {A : Type} (decode : row → outcome A) (rows : list row) : outcome (list A) :=
  match rows with
  | [] => Ret []
  | r :: rows => x ← decode r; l ← decode_rows decode rows; Ret (x :: l)
  end.

Definition read_messages (rows : option (list row)) : outcome (list Message) :=
  match rows with None => Ret [] | Some rows => decode_rows decode_message rows end.

(** ** Times *)

(** [(ts / 1000) << "." << (ts % 1000)], with C++ division. *)
Definition seconds_text (ts : Z) : string :=
  to_string (Z.quot ts 1000) +:+ "." +:+ to_string (Z.rem ts 1000).

(** ** Statements *)

Section statements.
Context {D : Type} `{MysqlServer D}.
Let escape := mysql_real_escape_string.

Definition user_columns : string :=
  "SELECT id,username,password_hash,UNIX_TIMESTAMP(created_at)*1000," +:+
  "COALESCE(UNIX_TIMESTAMP(last_seen_at)*1000,0) FROM users WHERE ".
Definition user_by_id_sql (id : Z) : string := user_columns +:+ "id=" +:+ to_string id +:+ " LIMIT 1".
Definition user_by_name_sql (name : string) : string :=
  user_columns +:+ "username='" +:+ escape name +:+ "' LIMIT 1".
Definition create_user_sql (username password_hash : string) : string :=
  "INSERT INTO users(username,password_hash) VALUES('" +:+ escape username +:+ "','" +:+
  escape password_hash +:+ "')".
Definition last_seen_sql (uid ts : Z) : string :=
  "UPDATE users SET last_seen_at=FROM_UNIXTIME(" +:+ to_string (Z.quot ts 1000) +:+ ") WHERE id=" +:+
  to_string uid.

Definition sessions_sql : string :=
  "SELECT token,user_id,UNIX_TIMESTAMP(last_active_at)*1000 FROM sessions".
Definition insert_session_sql (token : string) (uid ts : Z) : string :=
  "INSERT INTO sessions(token,user_id,last_active_at) VALUES('" +:+ escape token +:+ "'," +:+
  to_string uid +:+ ",FROM_UNIXTIME(" +:+ to_string (Z.quot ts 1000) +:+ "))" +:+
  " ON DUPLICATE KEY UPDATE last_active_at=VALUES(last_active_at)".
Definition delete_session_sql (token : string) : string :=
  "DELETE FROM sessions WHERE token='" +:+ escape token +:+ "'".

Definition room_by_name_sql (name : string) : string :=
  "SELECT id,name,UNIX_TIMESTAMP(created_at)*1000 FROM rooms WHERE name='" +:+ escape name +:+
  "' LIMIT 1".
Definition room_by_id_sql (id : Z) : string :=
  "SELECT id,name,UNIX_TIMESTAMP(created_at)*1000 FROM rooms WHERE id=" +:+ to_string id.
Definition create_room_sql (name : string) : string :=
  "INSERT INTO rooms(name) VALUES('" +:+ escape name +:+ "')".
Definition join_room_sql (rid uid : Z) : string :=
  "INSERT IGNORE INTO room_members(room_id,user_id) VALUES(" +:+ to_string rid +:+ "," +:+
  to_string uid +:+ ")".
Definition leave_room_sql (rid uid : Z) : string :=
  "DELETE FROM room_members WHERE room_id=" +:+ to_string rid +:+ " AND user_id=" +:+ to_string uid.
Definition is_member_sql (rid uid : Z) : string :=
  "SELECT 1 FROM room_members WHERE room_id=" +:+ to_string rid +:+ " AND user_id=" +:+
  to_string uid +:+ " LIMIT 1".
Definition rooms_of_user_sql (uid : Z) : string :=
  "SELECT r.id,r.name,UNIX_TIMESTAMP(r.created_at)*1000 " +:+
  "FROM rooms r INNER JOIN room_members m ON m.room_id=r.id " +:+
  "WHERE m.user_id=" +:+ to_string uid.
Definition room_members_sql (rid : Z) : string :=
  "SELECT user_id FROM room_members WHERE room_id=" +:+ to_string rid.

(** The two inserts differ in the column after [sender_id]. *)
Definition insert_message_sql (column : string) (sender target : Z) (content : string) (ts : Z) : string :=
  "INSERT INTO messages(sender_id," +:+ column +:+ ",content,created_at) VALUES(" +:+
  to_string sender +:+ "," +:+ to_string target +:+ ",'" +:+ escape content +:+
  "',FROM_UNIXTIME(" +:+ seconds_text ts +:+ "))".
Definition insert_dm_sql : Z → Z → string → Z → string := insert_message_sql "receiver_id".
Definition insert_room_msg_sql : Z → Z → string → Z → string := insert_message_sql "room_id".

Definition message_columns : string :=
  "SELECT id,sender_id,receiver_id,room_id,content,status," +:+
  "UNIX_TIMESTAMP(created_at)*1000 FROM messages WHERE ".
(** The cursor, the order and the page size, capped at 200. *)
Definition page_sql (before lim : Z) : string :=
  (if before =? 0 then "" else " AND id<" +:+ to_string before) +:+
  " ORDER BY id DESC LIMIT " +:+ to_string (Z.min lim 200).
Definition history_dm_sql (a b before lim : Z) : string :=
  message_columns +:+ "((sender_id=" +:+ to_string a +:+ " AND receiver_id=" +:+ to_string b +:+
  ") OR (sender_id=" +:+ to_string b +:+ " AND receiver_id=" +:+ to_string a +:+ "))" +:+
  page_sql before lim.
Definition history_room_sql (rid before lim : Z) : string :=
  message_columns +:+ "room_id=" +:+ to_string rid +:+ page_sql before lim.

Definition status_sql (mid status : Z) : string :=
  "UPDATE messages SET status=" +:+ to_string status +:+ " WHERE id=" +:+ to_string mid.
Definition enqueue_sql (mid uid : Z) : string :=
  "INSERT IGNORE INTO undelivered(message_id,user_id) VALUES(" +:+ to_string mid +:+ "," +:+
  to_string uid +:+ ")".
Definition undelivered_sql (uid : Z) : string :=
  "SELECT m.id,m.sender_id,m.receiver_id,m.room_id,m.content,m.status," +:+
  "UNIX_TIMESTAMP(m.created_at)*1000 " +:+
  "FROM messages m INNER JOIN undelivered u ON u.message_id=m.id " +:+
  "WHERE u.user_id=" +:+ to_string uid +:+ " ORDER BY m.id ASC".
Definition clear_undelivered_sql (uid : Z) : string :=
  "DELETE FROM undelivered WHERE user_id=" +:+ to_string uid.

(** ** Sending statements *)

(** [auto lease = pool_->acquire(); if (!lease) return def;]. *)
Definition with_lease {A : Type} (def : A) (body : M (Db D) A) : M (Db D) A := λ s,
  if s.(pool_stopping) then (Ret def, s) else body s.

(** [exec]: whether the statement succeeded. *)
Definition exec (q : string) : M (Db D) bool := λ s,
  let '(r, d) := mysql_real_query q s.(db) in
  (Ret (match r with QueryError _ => false | QueryDone _ _ => true end), mkDb d r s.(pool_stopping)).

Definition mysql_store_result : M (Db D) (option (list row)) := λ s,
  (Ret (match s.(last_result) with QueryDone rows _ => rows | QueryError _ => None end), s).
Definition mysql_insert_id : M (Db D) Z := λ s,
  (Ret (match s.(last_result) with QueryDone _ id => id | QueryError _ => 0 end), s).

Definition lift {A : Type} (o : outcome A) : M (Db D) A := λ s, (o, s).

(** The body of the lookups: the first row, if any. *)
Definition select_one {A : Type} (q : string) (decode : row → outcome A) : M (Db D) (option A) :=
  with_lease None
    (ok ← exec q;
     if negb ok then mret None
     else
       r ← mysql_store_result;
       match r with
       | Some (x :: _) => u ← lift (decode x); mret (Some u)
       | _ => mret None
       end).

(** The body of the listings: all rows. *)
Definition select_all {A : Type} (q : string) (decode : row → outcome A) : M (Db D) (list A) :=
  with_lease []
    (ok ← exec q;
     if negb ok then mret []
     else
       r ← mysql_store_result;
       match r with Some rows => lift (decode_rows decode rows) | None => mret [] end).

(** The body of the inserts: the new id, or nothing (a duplicate, error 1062, is
    not told apart from other errors). *)
Definition insert_one (q : string) : M (Db D) (option Z) :=
  with_lease None
    (ok ← exec q;
     if negb ok then mret None else id ← mysql_insert_id; mret (Some (u64 id))).

Definition execute (q : string) : M (Db D) unit := with_lease tt (exec q ;; mret tt).

(** ** The operations *)

Definition find_user_by_id (id : Z) : M (Db D) (option User) :=
  select_one (user_by_id_sql id) decode_user.
Definition find_user_by_username (name : string) : M (Db D) (option User) :=
  select_one (user_by_name_sql name) decode_user.
Definition create_user (username password_hash : string) : M (Db D) (option Z) :=
  insert_one (create_user_sql username password_hash).
Definition update_last_seen (uid ts : Z) : M (Db D) unit := execute (last_seen_sql uid ts).

Definition load_all_sessions : M (Db D) (list SessionRow) := select_all sessions_sql decode_session.
Definition insert_session (token : string) (uid ts : Z) : M (Db D) unit :=
  execute (insert_session_sql token uid ts).
Definition delete_session (token : string) : M (Db D) unit := execute (delete_session_sql token).

Definition find_room_by_name (name : string) : M (Db D) (option Room) :=
  select_one (room_by_name_sql name) decode_room.
Definition find_room_by_id (id : Z) : M (Db D) (option Room) :=
  select_one (room_by_id_sql id) decode_room.
Definition create_room (name : string) : M (Db D) (option Z) := insert_one (create_room_sql name).
Definition join_room (rid uid : Z) : M (Db D) bool := with_lease false (exec (join_room_sql rid uid)).
Definition leave_room (rid uid : Z) : M (Db D) bool := with_lease false (exec (leave_room_sql rid uid)).
Definition is_member (rid uid : Z) : M (Db D) bool :=
  with_lease false
    (ok ← exec (is_member_sql rid uid);
     if negb ok then mret false
     else
       r ← mysql_store_result;
       mret (match r with Some (_ :: _) => true | _ => false end)).
Definition list_rooms_for_user (uid : Z) : M (Db D) (list Room) :=
  select_all (rooms_of_user_sql uid) decode_room.
(** A [NULL] user id is skipped. *)
Definition list_room_members (rid : Z) : M (Db D) (list Z) :=
  l ← select_all (room_members_sql rid) (λ r, stoull_opt r 0);
  mret (omap id l).

Definition insert_dm (sender receiver : Z) (content : string) (ts : Z) : M (Db D) (option Z) :=
  insert_one (insert_dm_sql sender receiver content ts).
Definition insert_room_msg (sender room : Z) (content : string) (ts : Z) : M (Db D) (option Z) :=
  insert_one (insert_room_msg_sql sender room content ts).

(** [std::reverse] after reading the page, newest first in the statement. *)
Definition history (q : string) : M (Db D) (list Message) :=
  with_lease []
    (ok ← exec q;
     if negb ok then mret []
     else
       r ← mysql_store_result;
       l ← lift (read_messages r);
       mret (rev l)).
Definition history_dm (a b before lim : Z) : M (Db D) (list Message) :=
  history (history_dm_sql a b before lim).
Definition history_room (rid before lim : Z) : M (Db D) (list Message) :=
  history (history_room_sql rid before lim).

Definition update_message_status (mid status : Z) : M (Db D) unit := execute (status_sql mid status).
Definition enqueue_undelivered (mid uid : Z) : M (Db D) unit := execute (enqueue_sql mid uid).

(** Two statements, not one transaction. *)
Definition drain_undelivered (uid : Z) : M (Db D) (list Message) :=
  with_lease []
    (ok ← exec (undelivered_sql uid);
     if negb ok then mret []
     else
       r ← mysql_store_result;
       l ← lift (read_messages r);
       exec (clear_undelivered_sql uid) ;;
       mret l).
End statements.

(** ** How the server reads a statement

    The lexical structure of MySQL statements, as far as these statements use it:
    text outside quotes and single-quoted literals with backslash escapes (the
    default SQL mode).  A statement with another quote, a comment sign or a
    semicolon outside a literal is refused. *)

Inductive piece := Code (s : string) | Lit (s : string).

(** The character denoted by a backslash and [c]. *)
Definition unescape (c : ascii) : string :=
  let b := byte_of_ascii c in
  if b =? 48 then String "000" ""                    (* \0 *)
  else if b =? 110 then String "010" ""              (* \n *)
  else if b =? 114 then String "013" ""              (* \r *)
  else if b =? 98 then String "008" ""               (* \b *)
  else if b =? 116 then String "009" ""              (* \t *)
  else if b =? 90 then String "026" ""               (* \Z *)
  else if (b =? 37) || (b =? 95) then String "\" (String c "")
  else String c "".

(** What the text between two single quotes denotes; [None] when it does not end
    where the closing quote is meant to be. *)
Fixpoint unquote (t : string) : option string :=
  match t with
  | EmptyString => Some ""
  | String c t =>
      if Ascii.eqb c "\" then
        match t with
        | EmptyString => None
        | String e t => (λ s, unescape e +:+ s) <$> unquote t
        end
      else if Ascii.eqb c "'" then None
      else (λ s, String c s) <$> unquote t
  end.

Definition code_char (c : ascii) : bool :=
  let b := byte_of_ascii c in
  negb ((b =? 34) || (b =? 35) || (b =? 39) || (b =? 59) || (b =? 92) || (b =? 96)).

(** [sql_lex false s cur] in code, [sql_lex true s cur] in a literal. *)
Fixpoint sql_lex (lit : bool) (s cur : string) : option (list piece) :=
  match s with
  | EmptyString => if lit then None else Some [Code cur]
  | String c s =>
      if lit then
        if Ascii.eqb c "\" then
          match s with
          | EmptyString => None
          | String e s => sql_lex true s (cur +:+ unescape e)
          end
        else if Ascii.eqb c "'" then
          match s with
          | String c' s' =>
              if Ascii.eqb c' "'" then sql_lex true s' (cur +:+ "'")
              else cons (Lit cur) <$> sql_lex false s ""
          | EmptyString => Some [Lit cur; Code ""]
          end
        else sql_lex true s (cur +:+ String c "")
      else if Ascii.eqb c "'" then cons (Code cur) <$> sql_lex true s ""
      else if code_char c then sql_lex false s (cur +:+ String c "")
      else None
  end.

Definition sql_pieces (s : string) : option (list piece) := sql_lex false s "".

(** The manual of [mysql_real_escape_string]: the result, between single quotes,
    is a legal SQL string for the argument. *)
Class EscapeLaw (D : Type) `{MysqlServer D} :=
  escape_denotes : ∀ s, unquote (mysql_real_escape_string s) = Some s.

Lemma sql_lex_code a s cur :
  forallb code_char (chars a) = true → sql_lex false (a +:+ s) cur = sql_lex false s (cur +:+ a).
Proof.
  revert cur. induction a as [|c a IH]; intros cur Ha; [by rewrite str_app_nil_r|].
  cbn [chars forallb] in Ha. apply andb_prop in Ha as [Hc Ha].
  rewrite str_app_cons. cbn [sql_lex].
  assert (Ascii.eqb c "'" = false) as ->.
  { apply Ascii.eqb_neq. intros ->. done. }
  rewrite Hc, IH by done. by rewrite <-str_app_assoc.
Qed.

Lemma str_length_ind (P : string → Prop) :
  (∀ s, (∀ t, (String.length t < String.length s)%nat → P t) → P s) → ∀ s, P s.
Proof.
  intros Hs s. remember (String.length s) as n eqn:Hn. revert s Hn.
  induction (lt_wf n) as [n _ IH]. intros s ->. apply Hs. intros t Ht. by eapply IH.
Qed.

(** A literal ends at the quote after its text. *)
Lemma sql_lex_lit t s rest cur :
  unquote t = Some s → (∀ r, rest ≠ String "'" r) →
  sql_lex true (t +:+ String "'" rest) cur = cons (Lit (cur +:+ s)) <$> sql_lex false rest "".
Proof.
  intros Ht Hrest. revert s cur Ht.
  induction t as [t IH] using str_length_ind. intros s cur Ht. destruct t as [|c t].
  - injection Ht as <-. rewrite str_app_nil_r. destruct rest as [|c r]; [done|].
    change (sql_lex true ("" +:+ String "'" (String c r)) cur) with
      (if Ascii.eqb c "'" then sql_lex true r (cur +:+ "'") else cons (Lit cur) <$> sql_lex false (String c r) "").
    destruct (Ascii.eqb_spec c "'") as [->|]; [by destruct (Hrest r)|done].
  - rewrite str_app_cons. cbn [unquote] in Ht. cbn [sql_lex]. destruct (Ascii.eqb c "\").
    + destruct t as [|e t]; [done|]. rewrite str_app_cons.
      destruct (unquote t) as [s'|] eqn:E; [|done]. injection Ht as <-.
      rewrite (IH t ltac:(cbn; lia) s') by done. by rewrite str_app_assoc.
    + destruct (Ascii.eqb c "'"); [done|]. destruct (unquote t) as [s'|] eqn:E; [|done].
      injection Ht as <-. rewrite (IH t ltac:(cbn; lia) s') by done.
      by rewrite <-str_app_assoc.
Qed.

Section injection.
Context {D : Type} `{EscapeLaw D}.

(** The text of a statement with these pieces. *)
Fixpoint assemble (ps : list piece) : string :=
  match ps with
  | [] => ""
  | Code c :: ps => c +:+ assemble ps
  | Lit s :: ps => String "'" (mysql_real_escape_string s +:+ String "'" (assemble ps))
  end.

(** Code and literals in turn, code first and last. *)
Fixpoint alternating (ps : list piece) : bool :=
  match ps with
  | [Code c] => forallb code_char (chars c)
  | Code c :: Lit _ :: ps => forallb code_char (chars c) && alternating ps
  | _ => false
  end.

Lemma assemble_no_quote ps r : alternating ps = true → assemble ps = String "'" r →
  ∃ s ps', ps = Code "" :: Lit s :: ps'.
Proof.
  intros Ha E. destruct ps as [|[c|] ps]; [done| |done]. destruct ps as [|[|s] ps]; [|done|].
  - destruct c as [|x c]; [done|]. cbn in E. injection E as -> _. done.
  - destruct c as [|x c]; [by exists s, ps|]. cbn [assemble] in E. rewrite str_app_cons in E.
    injection E as -> _. done.
Qed.

(** Code before a literal is never empty in the statements of this file. *)
Fixpoint solid (ps : list piece) : bool :=
  match ps with
  | Code c :: Lit _ :: ps => negb (str_empty c) && solid ps
  | _ => true
  end.

Lemma sql_pieces_assemble ps :
  alternating ps = true → solid ps = true → sql_pieces (assemble ps) = Some ps.
Proof.
  remember (length ps) as n eqn:Hn. revert ps Hn. induction (lt_wf n) as [n _ IH].
  intros ps -> Ha Hs. unfold sql_pieces in *.
  destruct ps as [|[c|] [|[|s] ps]]; try done; cbn [alternating solid assemble] in *.
  - by rewrite sql_lex_code.
  - apply andb_prop in Ha as [Hc Ha], Hs as [_ Hs]. rewrite sql_lex_code by done. cbn [sql_lex Ascii.eqb].
    rewrite (sql_lex_lit _ s) by
      (done || apply escape_denotes || (intros r Hr; destruct (assemble_no_quote ps r Ha Hr) as (? & ? & ->); done)).
    rewrite (IH (length ps)) by (done || cbn; lia). done.
Qed.

Lemma code_to_string n : forallb code_char (chars (to_string n)) = true.
Proof.
  assert (∀ fuel n acc, forallb code_char (chars acc) = true →
    forallb code_char (chars (dec_digits fuel n acc)) = true) as Hd.
  { clear. induction fuel as [|fuel IH]; intros n acc Ha; [done|]. cbn [dec_digits].
    assert (forallb code_char (chars (String (ascii_of_byte (48 + n mod 10)) acc)) = true).
    { cbn [chars forallb]. rewrite Ha, andb_true_r.
      apply (forallb_range (λ k, code_char (ascii_of_byte (48 + k))) 10 eq_refl).
      by apply Z.mod_pos_bound. }
    destruct (n <? 10); [done|]. by apply IH. }
  unfold to_string. destruct (n <? 0); [|by apply Hd].
  by rewrite chars_app, forallb_app, Hd.
Qed.

Lemma code_app a b :
  forallb code_char (chars (a +:+ b)) = forallb code_char (chars a) && forallb code_char (chars b).
Proof. by rewrite chars_app, forallb_app. Qed.

(** The pieces of the text [q], which is [assemble ps] up to association. *)
Lemma pieces_of q ps :
  q = assemble ps → alternating ps = true → solid ps = true → sql_pieces q = Some ps.
Proof. intros ->. apply sql_pieces_assemble. Qed.
End injection.

#[export] Hint Unfold user_by_id_sql last_seen_sql room_by_id_sql join_room_sql leave_room_sql
  is_member_sql rooms_of_user_sql room_members_sql status_sql enqueue_sql undelivered_sql
  clear_undelivered_sql : chat.

(** Decide that code is plain: constants by evaluation, numbers by lemma. *)
Ltac plain_code :=
  cbn [alternating solid]; autounfold with chat;
  repeat (rewrite ?code_app, ?code_to_string; cbn [andb]);
  try reflexivity.

Ltac by_pieces :=
  apply pieces_of;
  [cbn [assemble]; rewrite <-?str_app_assoc, ?str_app_nil_r; reflexivity | plain_code | reflexivity].

Section safety.
Context {D : Type} `{EscapeLaw D}.

Lemma seconds_code ts : forallb code_char (chars (seconds_text ts)) = true.
Proof. unfold seconds_text. by rewrite !code_app, !code_to_string. Qed.

Lemma insert_message_pieces column s r content ts :
  forallb code_char (chars column) = true →
  sql_pieces (insert_message_sql column s r content ts) =
  Some [Code ("INSERT INTO messages(sender_id," +:+ column +:+ ",content,created_at) VALUES(" +:+
              to_string s +:+ "," +:+ to_string r +:+ ","); Lit content;
        Code (",FROM_UNIXTIME(" +:+ seconds_text ts +:+ "))")].
Proof.
  intros Hc. apply pieces_of; [|plain_code|reflexivity].
  - cbn [assemble]. rewrite <-!str_app_assoc, ?str_app_nil_r. reflexivity.
  - by rewrite Hc, seconds_code.
Qed.
End safety.

(** C14: no argument can change the structure of a statement.  In every statement
    with string arguments (names, password hashes, tokens, message contents) the
    server sees each argument as one literal that denotes exactly the argument,
    whatever its bytes, between fixed pieces of code; the other statements are
    code made of constants and decimal numbers alone. *)
Theorem statements_keep_data_apart {D} `{EscapeLaw D} :
  (∀ n, sql_pieces (user_by_name_sql n) =
     Some [Code (user_columns +:+ "username="); Lit n; Code " LIMIT 1"]) ∧
  (∀ n h, sql_pieces (create_user_sql n h) =
     Some [Code "INSERT INTO users(username,password_hash) VALUES("; Lit n; Code ","; Lit h; Code ")"]) ∧
  (∀ t u ts, sql_pieces (insert_session_sql t u ts) =
     Some [Code "INSERT INTO sessions(token,user_id,last_active_at) VALUES("; Lit t;
           Code ("," +:+ to_string u +:+ ",FROM_UNIXTIME(" +:+ to_string (Z.quot ts 1000) +:+
                 ")) ON DUPLICATE KEY UPDATE last_active_at=VALUES(last_active_at)")]) ∧
  (∀ t, sql_pieces (delete_session_sql t) =
     Some [Code "DELETE FROM sessions WHERE token="; Lit t; Code ""]) ∧
  (∀ n, sql_pieces (room_by_name_sql n) =
     Some [Code "SELECT id,name,UNIX_TIMESTAMP(created_at)*1000 FROM rooms WHERE name="; Lit n;
           Code " LIMIT 1"]) ∧
  (∀ n, sql_pieces (create_room_sql n) =
     Some [Code "INSERT INTO rooms(name) VALUES("; Lit n; Code ")"]) ∧
  (∀ s r content ts, ∃ before after,
     sql_pieces (insert_dm_sql s r content ts) = Some [Code before; Lit content; Code after]) ∧
  (∀ s r content ts, ∃ before after,
     sql_pieces (insert_room_msg_sql s r content ts) = Some [Code before; Lit content; Code after]) ∧
  (∀ a b c d, Forall (λ q, sql_pieces q = Some [Code q])
     [user_by_id_sql a; last_seen_sql a b; sessions_sql; room_by_id_sql a; join_room_sql a b;
      leave_room_sql a b; is_member_sql a b; rooms_of_user_sql a; room_members_sql a;
      history_dm_sql a b c d; history_room_sql a c d; status_sql a b; enqueue_sql a b;
      undelivered_sql a; clear_undelivered_sql a]).
Proof.
  split_and!; intros; try by_pieces.
  - do 2 eexists. by apply insert_message_pieces.
  - do 2 eexists. by apply insert_message_pieces.
  - repeat constructor; unfold history_dm_sql, history_room_sql, page_sql; try case_match; by_pieces.
Qed.

(** The escaping of the manual: backslash, quotes, NUL, newline, return, Ctrl-Z. *)
Fixpoint backslash_escape (s : string) : string :=
  match s with
  | EmptyString => EmptyString
  | String c s =>
      let b := byte_of_ascii c in
      let e := if b =? 0 then "0"%char else if b =? 10 then "n"%char else if b =? 13 then "r"%char
               else if b =? 26 then "Z"%char else c in
      if (b =? 0) || (b =? 10) || (b =? 13) || (b =? 26) || (b =? 34) || (b =? 39) || (b =? 92)
      then String "\" (String e (backslash_escape s))
      else String c (backslash_escape s)
  end.

(** A server that records statements and answers from a script. *)
Record scripted := mkScripted { answers : list query_result; statements : list string }.
#[export] Instance scripted_server : MysqlServer scripted := {|
  mysql_real_escape_string := backslash_escape;
  mysql_real_query := λ q d,
    match d.(answers) with
    | a :: l => (a, mkScripted l (d.(statements) ++ [q]))
    | [] => (QueryError 2013, mkScripted [] (d.(statements) ++ [q]))
    end;
|}.

#[export] Instance scripted_escape : EscapeLaw scripted.
Proof.
  intros s. cbn [mysql_real_escape_string scripted_server].
  induction s as [|c s IH]; [done|]. cbn [backslash_escape].
  destruct c as [[] [] [] [] [] [] [] []]; simpl; rewrite IH; reflexivity.
Qed.

(** [escape]: a buffer of two bytes per byte and one more, the library's text in it
    with a NUL after it, cut to the length it returns.  [None] when the library
    writes past the buffer. *)
Definition escape_buffer {D} `{MysqlServer D} (s : string) : option string :=
  let out := mysql_real_escape_string s in
  if (String.length out + 1 <=? String.length s * 2 + 1)%nat then Some out else None.

(** The escaping of the manual fits, also when every byte is escaped. *)
Lemma escape_buffer_fits s : escape_buffer (D := scripted) s = Some (backslash_escape s).
Proof.
  unfold escape_buffer. cbn [mysql_real_escape_string scripted_server].
  rewrite (proj2 (Nat.leb_le _ _)); [done|].
  assert (String.length (backslash_escape s) <= String.length s * 2)%nat as Hl; [|lia].
  induction s as [|c s IH]; [done|]. cbn [backslash_escape String.length].
  destruct (_ || _); cbn [String.length]; lia.
Qed.

Lemma statements_keep_data_apart_witness :
  sql_pieces (user_by_name_sql (D := scripted) "x' OR '1'='1") =
  Some [Code (user_columns +:+ "username="); Lit "x' OR '1'='1"; Code " LIMIT 1"].
Proof. apply (statements_keep_data_apart (D := scripted)). Defined.

(** ** The time of a message *)

(** The number a decimal text denotes, as mantissa and number of decimals. *)
Definition decimal (s : string) : option (Z * Z) :=
  '(l, r) ← find_char "." s;
  a ← scan_digits l None;
  b ← scan_digits r None;
  let k := Z.of_nat (String.length r) in
  Some (a * 10 ^ k + b, k).

Lemma scan_digits_to_string n : is_u64 n → scan_digits (to_string n) None = Some n.
Proof.
  intros [Hn Hmax]. unfold to_string. rewrite (proj2 (Z.ltb_ge _ _)) by lia.
  rewrite scan_digits_dec; [done|]. change (Z.of_nat 20) with 20. lia.
Qed.

Lemma milliseconds_digits r : 0 <= r < 1000 →
  Z.of_nat (String.length (to_string r)) = if r <? 10 then 1 else if r <? 100 then 2 else 3.
Proof.
  intros Hr. apply Z.eqb_eq.
  exact (forallb_range (λ r, Z.of_nat (String.length (to_string r)) =?
    (if r <? 10 then 1 else if r <? 100 then 2 else 3)) 1000 ltac:(by vm_compute) r Hr).
Qed.

(** [insert_dm] and [insert_room_msg] write the time of a message as seconds,
    a point and the milliseconds without leading zeros.  The text denotes the
    time exactly when the milliseconds are 0 or have three digits; otherwise the
    stored time is too late. *)
Theorem message_time_text ts :
  0 <= ts <= 9223372036854775807 →
  ∃ m k, decimal (seconds_text ts) = Some (m, k) ∧
    (m * 1000 = ts * 10 ^ k ↔ ts mod 1000 = 0 ∨ 100 <= ts mod 1000) ∧
    ts * 10 ^ k <= m * 1000.
Proof.
  intros Hts. unfold seconds_text. rewrite Z.quot_div_nonneg, Z.rem_mod_nonneg by lia.
  pose proof (Z.mod_pos_bound ts 1000 eq_refl) as Hr. pose proof (Z.div_mod ts 1000) as Hd.
  set (a := ts / 1000) in *. set (r := ts mod 1000) in *.
  unfold decimal. rewrite (proj2 (find_char_Some _ _ (to_string a) (to_string r))).
  2:{ split; [done|]. apply to_string_avoid; [unfold a; Z.div_mod_to_equations; lia|done]. }
  cbn [mbind option_bind]. rewrite !scan_digits_to_string by (unfold is_u64; lia). cbn [mbind option_bind].
  do 2 eexists. split; [done|]. rewrite milliseconds_digits by done.
  destruct (r <? 10) eqn:E1; [|destruct (r <? 100) eqn:E2]; to_prop;
    [change (10 ^ 1) with 10|change (10 ^ 2) with 100|change (10 ^ 3) with 1000]; lia.
Qed.

Lemma message_time_text_witness :
  ∃ m k, decimal (seconds_text 1700000000005) = Some (m, k) ∧ m * 1000 ≠ (1700000000005 * 10 ^ k).
Proof.
  destruct (message_time_text 1700000000005) as (m & k & Hd & Hiff & _); [lia|].
  exists m, k. split; [exact Hd|]. intros E. apply Hiff in E as [E|E]; vm_compute in E; [discriminate|by apply E].
Defined.

(** ** Rows *)

(** A message the store can return whole: numbers in range, no NUL in the text. *)
Definition row_safe (m : Message) : Prop :=
  is_u64 m.(m_id) ∧ is_u64 m.(m_sender_id) ∧ (∀ r, m.(m_receiver_id) = Some r → is_u64 r) ∧
  (∀ r, m.(m_room_id) = Some r → is_u64 r) ∧ ("000"%char ∉ chars m.(m_content)) ∧
  is_u8 m.(m_status) ∧ 0 <= m.(m_created_at_ms) <= 9223372036854775807.

(** The row of a message in the columns of [message_columns]. *)
Definition message_row (m : Message) : row :=
  [Some (to_string m.(m_id)); Some (to_string m.(m_sender_id)); to_string <$> m.(m_receiver_id);
   to_string <$> m.(m_room_id); Some m.(m_content); Some (to_string m.(m_status));
   Some (to_string m.(m_created_at_ms))].

Lemma stoll_to_string n : 0 <= n <= 9223372036854775807 → stoll (to_string n) = Ret n.
Proof.
  intros Hn. unfold stoll, sto_signed. rewrite scan_int_to_string by (unfold is_u64; lia).
  by rewrite (proj2 (Z.leb_le _ _)), (proj2 (Z.leb_le _ _)) by lia.
Qed.

Lemma decode_message_row m : row_safe m → decode_message (message_row m) = Ret m.
Proof.
  destruct m as [id s rc rm ct st ts]. intros (Hid & Hs & Hrc & Hrm & Hct & Hst & Hts). cbn in *.
  unfold decode_message, stoull_or_0, stoull_opt, stoll_or_0, text_or_empty, cell, message_row. cbn.
  unfold is_u64, is_u8 in *.
  rewrite !cstr_to_string by lia. rewrite !stoul_to_string by done. cbn.
  assert (∀ o, (∀ r, o = Some r → 0 <= r < 18446744073709551616) →
    match cstr <$> (to_string <$> o) with Some s => (z ← stoul s; Ret (Some z)) | None => Ret None end = Ret o) as Ho.
  { intros [r|] Hr; [|done]. specialize (Hr r eq_refl). cbn [fmap option_fmap option_map].
    rewrite cstr_to_string by lia. by rewrite stoul_to_string. }
  cbn in Ho. rewrite (Ho rc Hrc). cbn. rewrite (Ho rm Hrm). cbn.
  rewrite stoi_to_string by lia. cbn. rewrite stoll_to_string by lia. cbn.
  rewrite cstr_id by done. unfold u8. by rewrite Z.mod_small by lia.
Qed.

Lemma read_message_rows l : Forall row_safe l → read_messages (Some (message_row <$> l)) = Ret l.
Proof.
  intros Hl. cbn [read_messages]. induction Hl as [|m l Hm Hl IH]; [done|].
  rewrite fmap_cons. cbn [decode_rows]. by rewrite decode_message_row, IH.
Qed.

(** ** Failures *)

Section failures.
Context {D : Type} `{MysqlServer D}.
Implicit Types (s : Db D).

(** No lease, or a statement the server refuses. *)
Definition fails (q : string) s : Prop :=
  s.(pool_stopping) = true ∨ ∃ e d, mysql_real_query q s.(db) = (QueryError e, d).

(** The state after at most this statement. *)
Definition after_failure (q : string) s : Db D :=
  if s.(pool_stopping) then s
  else let '(r, d) := mysql_real_query q s.(db) in mkDb d r false.

Lemma exec_fails q s e d :
  mysql_real_query q s.(db) = (QueryError e, d) →
  exec q s = (Ret false, mkDb d (QueryError e) s.(pool_stopping)).
Proof. intros Hq. unfold exec. by rewrite Hq. Qed.

Lemma lease_fails {A : Type} (def : A) (body : bool → M (Db D) A) q s :
  fails q s → (∀ s, body false s = (Ret def, s)) →
  with_lease def (exec q ≫= body) s = (Ret def, after_failure q s).
Proof.
  intros Hf Hb. unfold with_lease, after_failure. destruct (pool_stopping s) eqn:Hp; [done|].
  destruct Hf as [|(e & d & Hq)]; [congruence|].
  erewrite M_bind_ret by (by apply exec_fails). by rewrite Hb, Hq, Hp.
Qed.

Lemma lease_exec_fails q s :
  fails q s → with_lease false (exec q) s = (Ret false, after_failure q s).
Proof.
  intros Hf. unfold with_lease, after_failure. destruct (pool_stopping s) eqn:Hp; [done|].
  destruct Hf as [|(e & d & Hq)]; [congruence|]. by rewrite (exec_fails _ _ e d), Hq, Hp.
Qed.
End failures.

(** C27: a database failure is an absent result, never an exception: when the pool
    is shutting down or the server refuses the statement, every operation returns
    its empty value, and at most that one statement has been sent (in particular,
    [drain_undelivered] deletes nothing).  The failure is thereby not reported: a
    failed read looks like an empty answer, although docs/architecture.md says that
    reads fail loud. *)
Theorem mysql_failures_are_absent {D} `{MysqlServer D} (s : Db D) id n h uid ts tok rid c a b before lim st mid :
  (fails (user_by_id_sql id) s →
     find_user_by_id id s = (Ret None, after_failure (user_by_id_sql id) s)) ∧
  (fails (user_by_name_sql n) s →
     find_user_by_username n s = (Ret None, after_failure (user_by_name_sql n) s)) ∧
  (fails (create_user_sql n h) s →
     create_user n h s = (Ret None, after_failure (create_user_sql n h) s)) ∧
  (fails (last_seen_sql uid ts) s →
     update_last_seen uid ts s = (Ret tt, after_failure (last_seen_sql uid ts) s)) ∧
  (fails sessions_sql s → load_all_sessions s = (Ret [], after_failure sessions_sql s)) ∧
  (fails (insert_session_sql tok uid ts) s →
     insert_session tok uid ts s = (Ret tt, after_failure (insert_session_sql tok uid ts) s)) ∧
  (fails (delete_session_sql tok) s →
     delete_session tok s = (Ret tt, after_failure (delete_session_sql tok) s)) ∧
  (fails (room_by_name_sql n) s →
     find_room_by_name n s = (Ret None, after_failure (room_by_name_sql n) s)) ∧
  (fails (room_by_id_sql id) s →
     find_room_by_id id s = (Ret None, after_failure (room_by_id_sql id) s)) ∧
  (fails (create_room_sql n) s → create_room n s = (Ret None, after_failure (create_room_sql n) s)) ∧
  (fails (join_room_sql rid uid) s →
     join_room rid uid s = (Ret false, after_failure (join_room_sql rid uid) s)) ∧
  (fails (leave_room_sql rid uid) s →
     leave_room rid uid s = (Ret false, after_failure (leave_room_sql rid uid) s)) ∧
  (fails (is_member_sql rid uid) s →
     is_member rid uid s = (Ret false, after_failure (is_member_sql rid uid) s)) ∧
  (fails (rooms_of_user_sql uid) s →
     list_rooms_for_user uid s = (Ret [], after_failure (rooms_of_user_sql uid) s)) ∧
  (fails (room_members_sql rid) s →
     list_room_members rid s = (Ret [], after_failure (room_members_sql rid) s)) ∧
  (fails (insert_dm_sql a b c ts) s →
     insert_dm a b c ts s = (Ret None, after_failure (insert_dm_sql a b c ts) s)) ∧
  (fails (insert_room_msg_sql a b c ts) s →
     insert_room_msg a b c ts s = (Ret None, after_failure (insert_room_msg_sql a b c ts) s)) ∧
  (fails (history_dm_sql a b before lim) s →
     history_dm a b before lim s = (Ret [], after_failure (history_dm_sql a b before lim) s)) ∧
  (fails (history_room_sql rid before lim) s →
     history_room rid before lim s = (Ret [], after_failure (history_room_sql rid before lim) s)) ∧
  (fails (status_sql mid st) s →
     update_message_status mid st s = (Ret tt, after_failure (status_sql mid st) s)) ∧
  (fails (enqueue_sql mid uid) s →
     enqueue_undelivered mid uid s = (Ret tt, after_failure (enqueue_sql mid uid) s)) ∧
  (fails (undelivered_sql uid) s →
     drain_undelivered uid s = (Ret [], after_failure (undelivered_sql uid) s)).
Proof.
  split_and!; intros Hf; try (by apply lease_fails); try (by apply lease_exec_fails).
  unfold list_room_members. by erewrite M_bind_ret by by apply lease_fails.
Qed.

Lemma mysql_failures_are_absent_witness :
  drain_undelivered 7 (mkDb (mkScripted [QueryError 2006] []) (QueryError 0) false) =
  (Ret [], mkDb (mkScripted [] [undelivered_sql 7]) (QueryError 2006) false).
Proof.
  pose proof (mysql_failures_are_absent (mkDb (mkScripted [QueryError 2006] []) (QueryError 0) false)
    0 "" "" 7 0 "" 0 "" 0 0 0 0 0 0) as Hall.
  do 21 apply proj2 in Hall. apply Hall. right. do 2 eexists. reflexivity.
Defined.

(** A page of history comes back as the messages of its rows, oldest first. *)
Lemma history_reads_rows {D} `{MysqlServer D} q l i r0 d d' :
  mysql_real_query q d = (QueryDone (Some (message_row <$> l)) i, d') → Forall row_safe l →
  fst (history q (mkDb d r0 false)) = Ret (rev l).
Proof.
  intros Hq Hl. unfold history, with_lease. cbn [pool_stopping].
  erewrite M_bind_ret by (unfold exec; cbn [db]; rewrite Hq; reflexivity). cbn [negb].
  erewrite M_bind_ret by reflexivity. cbn [last_result].
  erewrite M_bind_ret by (unfold lift; rewrite read_message_rows by done; reflexivity). done.
Qed.

(** [drain_undelivered] deletes the queue also when the rows could not be fetched
    ([mysql_store_result] returns [NULL]): the messages are lost. *)
Lemma drain_deletes_unread {D} `{MysqlServer D} uid i d d1 d2 r0 r2 :
  mysql_real_query (undelivered_sql uid) d = (QueryDone None i, d1) →
  mysql_real_query (clear_undelivered_sql uid) d1 = (r2, d2) →
  drain_undelivered uid (mkDb d r0 false) = (Ret [], mkDb d2 r2 false).
Proof.
  intros H1 H2. unfold drain_undelivered, with_lease. cbn [pool_stopping].
  erewrite M_bind_ret by (unfold exec; cbn [db]; rewrite H1; reflexivity). cbn [negb].
  erewrite M_bind_ret by reflexivity. cbn [last_result].
  erewrite M_bind_ret by reflexivity.
  erewrite M_bind_ret by (unfold exec; cbn [db]; rewrite H2; reflexivity). done.
Qed.
