(* ===== verification/Messages.v ===== *)
(** * Messages: [include/protocol/messages.h], [src/protocol/messages.cpp]

    The JSON values of the protocol and the constructors and accessors of the
    source.  Values are those of the vendored nlohmann library: signed and
    unsigned integers are distinct kinds, an object is a [std::map] (a list
    sorted by key), a double is a [spec_float].  The text codec is in [Json]. *)
From Stdlib Require Import SpecFloat.
From S2P Require Import Prelude Util.

#[warnings="-register-all"]
Inductive json :=
| JNull
| JBool (b : bool)
| JInt (z : Z)
| JUint (z : Z)
| JFloat (f : spec_float)
| JStr (s : string)
| JArr (l : list json)
| JObj (o : list (string * json)).

(** ** What the code uses of the JSON library *)

(** [std::map] assignment [m[k] = v]: keys stay in byte-wise order. *)
Fixpoint obj_set (k : string) (v : json) (o : list (string * json)) : list (string * json) :=
  match o with
  | [] => [(k, v)]
  | (k', v') :: o' =>
      match String.compare k k' with
      | Lt => (k, v) :: o
      | Eq => (k, v) :: o'
      | Gt => (k', v') :: obj_set k v o'
      end
  end.

Fixpoint obj_find (k : string) (o : list (string * json)) : option json :=
  match o with
  | [] => None
  | (k', v) :: o => if String.eqb k' k then Some v else obj_find k o
  end.

(** [j.find(k)] compared with [j.end()]: only an object has members. *)
Definition json_find (k : string) (j : json) : option json :=
  match j with JObj o => obj_find k o | _ => None end.

(** [j[k] = v]: null becomes an object, any other kind throws type_error. *)
Definition json_set (k : string) (v : json) (j : json) : outcome json :=
  match j with
  | JNull => Ret (JObj (obj_set k v []))
  | JObj o => Ret (JObj (obj_set k v o))
  | _ => Throw JsonTypeError
  end.

(** [json d; d["k1"] = v1; d["k2"] = v2; ...] *)
Definition json_of (kvs : list (string * json)) : json :=
  match kvs with
  | [] => JNull
  | _ => JObj (foldl (λ o kv, obj_set kv.1 kv.2 o) [] kvs)
  end.

(** [is_number_integer()] is true of both integer kinds; [get<int64_t>()] casts. *)
Definition get_integer (j : json) : option Z :=
  match j with
  | JInt z => Some z
  | JUint z => Some (i64 z)
  | _ => None
  end.

(** The integral part of a finite double. *)
Definition float_trunc (f : spec_float) : option Z :=
  match f with
  | S754_zero _ => Some 0
  | S754_finite s m e =>
      let a := if 0 <=? e then Z.pos m * 2 ^ e else Z.pos m / 2 ^ (- e) in
      Some (if s then - a else a)
  | _ => None
  end.

(** [static_cast<int64_t>(double)] is undefined outside the range of [int64_t];
    what the platform then produces is a parameter. *)
Class FloatCast := { cast_out_of_range : spec_float → Z }.

Definition float_to_i64 `{FloatCast} (f : spec_float) : Z :=
  match float_trunc f with
  | Some z =>
      if (-9223372036854775808 <=? z) && (z <=? 9223372036854775807) then z
      else cast_out_of_range f
  | None => cast_out_of_range f
  end.

(** ** [types] and [errcode] *)

Definition kRegister := "register".
Definition kLogin := "login".
Definition kLogout := "logout".
Definition kSendDM := "send_dm".
Definition kSendRoom := "send_room".
Definition kCreateRoom := "create_room".
Definition kJoinRoom := "join_room".
Definition kLeaveRoom := "leave_room".
Definition kListRooms := "list_rooms".
Definition kHistoryDM := "history_dm".
Definition kHistoryRoom := "history_room".
Definition kPresence := "presence".
Definition kPing := "ping".
Definition kEventMessage := "event_message".
Definition kEventPresence := "event_presence".
Definition kAck := "ack".
Definition kError := "error".
Definition kPong := "pong".

Definition kBadRequest := "bad_request".
Definition kUnauthorized := "unauthorized".
Definition kNotFound := "not_found".
Definition kConflict := "conflict".
Definition kInternal := "internal_error".

(** ** Constructors *)

Definition make_ack (id : option Z) (data : json) : outcome json :=
  match json_set "type" (JStr kAck) data with
  | Throw e => Throw e
  | Ret j => match id with Some i => json_set "id" (JInt i) j | None => Ret j end
  end.

Definition opt_field (k : string) (v : option Z) : list (string * json) :=
  match v with Some z => [(k, JInt z)] | None => [] end.

Definition make_error (id : option Z) (code message : string) : json :=
  json_of ([("type", JStr kError); ("code", JStr code); ("message", JStr message)]
           ++ opt_field "id" id).

(** The ids are [int64_t] parameters: the callers' [uint64_t] convert. *)
Definition make_event_message (msg_id sender_id : Z) (receiver_id room_id : option Z)
    (content : string) (created_at_ms : Z) : json :=
  json_of ([("type", JStr kEventMessage); ("msg_id", JInt msg_id); ("sender_id", JInt sender_id)]
           ++ opt_field "receiver_id" receiver_id ++ opt_field "room_id" room_id
           ++ [("content", JStr content); ("timestamp", JInt created_at_ms)]).

Definition make_event_presence (user_id : Z) (username : string) (online : bool)
    (last_seen_ms : Z) : json :=
  json_of [("type", JStr kEventPresence); ("user_id", JInt user_id); ("username", JStr username);
           ("online", JBool online); ("last_seen", JInt last_seen_ms)].

(** ** Accessors *)

Definition get_str (j : json) (k : string) : string :=
  match json_find k j with Some (JStr s) => s | _ => "" end.

Definition get_i64 `{FloatCast} (j : json) (k : string) (def : Z) : Z :=
  match json_find k j with
  | None => def
  | Some v =>
      match get_integer v with
      | Some z => z
      | None =>
          match v with
          | JFloat f => float_to_i64 f
          | JStr s => match stoll s with Ret z => z | Throw _ => def end
          | _ => def
          end
      end
  end.

(** ** Lemmas on objects *)

Lemma compare_refl s : String.compare s s = Eq.
Proof.
  induction s as [|c s IH]; [done|]. cbn [String.compare].
  unfold Ascii.compare. by rewrite N.compare_refl.
Qed.

Lemma obj_find_set_eq k v o : obj_find k (obj_set k v o) = Some v.
Proof.
  induction o as [|[k' v'] o IH]; cbn [obj_set obj_find]; [by rewrite String.eqb_refl|].
  destruct (String.compare k k') eqn:E; cbn [obj_find]; rewrite ?String.eqb_refl; try done.
  destruct (String.eqb_spec k' k) as [->|]; [by rewrite compare_refl in E|done].
Qed.

Lemma obj_find_set_ne k k' v o : k ≠ k' → obj_find k' (obj_set k v o) = obj_find k' o.
Proof.
  intros Hne. induction o as [|[k1 v1] o IH]; cbn [obj_set obj_find].
  - by destruct (String.eqb_spec k k').
  - destruct (String.compare k k1) eqn:E; cbn [obj_find].
    + apply String.compare_eq_iff in E as <-. by destruct (String.eqb_spec k k').
    + by destruct (String.eqb_spec k k').
    + by rewrite IH.
Qed.

(** The last assignment to a key wins. *)
Fixpoint last_value (k : string) (kvs : list (string * json)) (acc : option json) : option json :=
  match kvs with
  | [] => acc
  | (k', v) :: kvs => last_value k kvs (if String.eqb k' k then Some v else acc)
  end.

Lemma json_find_of k kvs : json_find k (json_of kvs) = last_value k kvs None.
Proof.
  assert (∀ o, obj_find k (foldl (λ o kv, obj_set kv.1 kv.2 o) o kvs) =
               last_value k kvs (obj_find k o)) as H.
  { induction kvs as [|[k' v] kvs IH]; intros o; [done|]. cbn [foldl last_value fst snd].
    rewrite IH. destruct (String.eqb_spec k' k) as [->|]; [by rewrite obj_find_set_eq|].
    by rewrite obj_find_set_ne. }
  destruct kvs; [done|]. apply (H []).
Qed.

Lemma json_of_object kvs : kvs ≠ [] → ∃ o, json_of kvs = JObj o.
Proof. destruct kvs; [done|]. by eexists. Qed.

(** ** Properties *)

(** [make_ack] never throws on an object: the reply has type ack, echoes
    the request id when there is one, and keeps every other field of the data. *)
Lemma make_ack_correct id o :
  ∃ j, make_ack id (JObj o) = Ret j ∧ get_str j "type" = kAck ∧
    (∀ i, id = Some i → json_find "id" j = Some (JInt i)) ∧
    (∀ k, k ≠ "type" → (id ≠ None → k ≠ "id") → json_find k j = obj_find k o).
Proof.
  unfold make_ack. cbn [json_set]. destruct id as [i|]; cbn [json_set]; eexists; (split; [done|]);
    unfold get_str; cbn [json_find].
  - rewrite obj_find_set_ne, obj_find_set_eq by done. split; [done|]. split.
    + intros i' [= <-]. by rewrite obj_find_set_eq.
    + intros k Hk Hid. rewrite !obj_find_set_ne; [done|by intros <-|by intros <-; apply Hid].
  - rewrite obj_find_set_eq. split; [done|]. split; [done|].
    intros k Hk _. rewrite obj_find_set_ne; [done|by intros <-].
Qed.

(** A recipient that reads an event with the same accessors gets exactly the
    message: type, ids, text and time stamp, receiver or room when present and 0
    when absent. *)
Lemma event_message_fields `{FloatCast} mid snd_id rcv room content ts :
  let j := make_event_message mid snd_id rcv room content ts in
  get_str j "type" = kEventMessage ∧ get_i64 j "msg_id" 0 = mid ∧
  get_i64 j "sender_id" 0 = snd_id ∧ get_i64 j "receiver_id" 0 = default 0 rcv ∧
  get_i64 j "room_id" 0 = default 0 room ∧ get_str j "content" = content ∧
  get_i64 j "timestamp" 0 = ts ∧ json_find "id" j = None.
Proof.
  intros j. subst j. unfold get_str, get_i64, make_event_message. rewrite !json_find_of.
  by destruct rcv, room.
Qed.

(** An error reply carries its code and message, and the request id exactly
    when the request had one. *)
Lemma make_error_fields id code message :
  let j := make_error id code message in
  get_str j "type" = kError ∧ get_str j "code" = code ∧ get_str j "message" = message ∧
  json_find "id" j = JInt <$> id.
Proof.
  intros j. subst j. unfold get_str, make_error. rewrite !json_find_of. by destruct id.
Qed.
