(* ===== verification/Json.v ===== *)
(** * JSON text: the serializer and the parser of [third_party/nlohmann/json.hpp]

    [j.dump()] as the server calls it: compact, not ASCII-only, strict about
    UTF-8 (an invalid byte throws type_error 316).  The 512-byte [string_buffer]
    is an output buffer flushed to the same stream, so the definitions return the
    text written.  [json::parse(s)] as the server calls it: no callback, no
    comments, strict end of input, in the C locale; every parse error is an
    exception, which [protocol::parse] turns into [nullopt].  The conversions
    between doubles and text (the shortest-digits [to_chars] and [strtod]) are
    parameters: the server never serializes a double and reads one only to
    truncate it. *)
From Stdlib Require Import SpecFloat.
From S2P Require Import Prelude Util Messages.

Class FloatText := {
  float_to_chars : spec_float → string;
  strtod : string → spec_float;
}.

Definition quote : ascii := ascii_of_byte 34.
Definition backslash : ascii := ascii_of_byte 92.

(** ** UTF-8 decoding *)

(** The table [utf8d]: byte classes, then the transitions. *)
Definition utf8d : list Z :=
  [0; 0; 0; 0; 0; 0; 0; 0; 0; 0; 0; 0; 0; 0; 0; 0; 0; 0; 0; 0; 0; 0; 0; 0; 0; 0; 0; 0; 0; 0; 0; 0;
   0; 0; 0; 0; 0; 0; 0; 0; 0; 0; 0; 0; 0; 0; 0; 0; 0; 0; 0; 0; 0; 0; 0; 0; 0; 0; 0; 0; 0; 0; 0; 0;
   0; 0; 0; 0; 0; 0; 0; 0; 0; 0; 0; 0; 0; 0; 0; 0; 0; 0; 0; 0; 0; 0; 0; 0; 0; 0; 0; 0; 0; 0; 0; 0;
   0; 0; 0; 0; 0; 0; 0; 0; 0; 0; 0; 0; 0; 0; 0; 0; 0; 0; 0; 0; 0; 0; 0; 0; 0; 0; 0; 0; 0; 0; 0; 0;
   1; 1; 1; 1; 1; 1; 1; 1; 1; 1; 1; 1; 1; 1; 1; 1; 9; 9; 9; 9; 9; 9; 9; 9; 9; 9; 9; 9; 9; 9; 9; 9;
   7; 7; 7; 7; 7; 7; 7; 7; 7; 7; 7; 7; 7; 7; 7; 7; 7; 7; 7; 7; 7; 7; 7; 7; 7; 7; 7; 7; 7; 7; 7; 7;
   8; 8; 2; 2; 2; 2; 2; 2; 2; 2; 2; 2; 2; 2; 2; 2; 2; 2; 2; 2; 2; 2; 2; 2; 2; 2; 2; 2; 2; 2; 2; 2;
   10; 3; 3; 3; 3; 3; 3; 3; 3; 3; 3; 3; 3; 4; 3; 3;
   11; 6; 6; 6; 5; 8; 8; 8; 8; 8; 8; 8; 8; 8; 8; 8;
   0; 1; 2; 3; 5; 8; 7; 1; 1; 1; 4; 6; 1; 1; 1; 1;
   1; 1; 1; 1; 1; 1; 1; 1; 1; 1; 1; 1; 1; 1; 1; 1; 1; 0; 1; 1; 1; 1; 1; 0; 1; 0; 1; 1; 1; 1; 1; 1;
   1; 2; 1; 1; 1; 1; 1; 2; 1; 2; 1; 1; 1; 1; 1; 1; 1; 1; 1; 1; 1; 1; 1; 2; 1; 1; 1; 1; 1; 1; 1; 1;
   1; 2; 1; 1; 1; 1; 1; 1; 1; 2; 1; 1; 1; 1; 1; 1; 1; 1; 1; 1; 1; 1; 1; 3; 1; 3; 1; 1; 1; 1; 1; 1;
   1; 3; 1; 1; 1; 1; 1; 3; 1; 3; 1; 1; 1; 1; 1; 1; 1; 3; 1; 1; 1; 1; 1; 1; 1; 1; 1; 1; 1; 1; 1; 1].

Definition utf8d_at (i : Z) : Z := nth (Z.to_nat i) utf8d 0.

(** [decode(state, codep, byte)]: the new state and code point. *)
Definition decode (state codep byte : Z) : Z * Z :=
  let type := utf8d_at byte in
  let codep :=
    if negb (state =? 0) then Z.lor (Z.land byte 63) (u32 (Z.shiftl codep 6))
    else Z.land (Z.shiftr 255 type) byte in
  (utf8d_at (256 + state * 16 + type), codep).

(** ** Strings *)

(** [snprintf("\u%04x")] of a 16-bit code. *)
Definition u_escape (code : Z) : string :=
  String backslash (String "u"
    (String (char_at kHex (Z.land (Z.shiftr code 12) 15))
      (String (char_at kHex (Z.land (Z.shiftr code 8) 15))
        (String (char_at kHex (Z.land (Z.shiftr code 4) 15))
          (String (char_at kHex (Z.land code 15)) ""))))).

(** What is written for an accepted code point whose last byte is [byte]. *)
Definition escape (codepoint byte : Z) : string :=
  let two c := String backslash (String c "") in
  if codepoint =? 8 then two "b"%char
  else if codepoint =? 9 then two "t"%char
  else if codepoint =? 10 then two "n"%char
  else if codepoint =? 12 then two "f"%char
  else if codepoint =? 13 then two "r"%char
  else if codepoint =? 34 then two quote
  else if codepoint =? 92 then two backslash
  else if codepoint <=? 31 then u_escape codepoint
  else String (ascii_of_byte byte) "".

Fixpoint dump_escaped_loop (bytes : list Z) (state codep : Z) (out : string) : outcome string :=
  match bytes with
  | [] => if state =? 0 then Ret out else Throw JsonTypeError
  | b :: bytes =>
      let '(state, codep) := decode state codep b in
      if state =? 0 then dump_escaped_loop bytes state codep (out +:+ escape codep b)
      else if state =? 1 then Throw JsonTypeError
      else dump_escaped_loop bytes state codep (out +:+ String (ascii_of_byte b) "")
  end.

Definition dump_escaped (s : string) : outcome string := dump_escaped_loop (to_bytes s) 0 0 "".

(** ** Integers *)

(** The two digits [digits_to_99[i]]. *)
Definition digits_to_99 (i : Z) : string :=
  String (ascii_of_byte (48 + i / 10)) (String (ascii_of_byte (48 + i mod 10)) "").

(** [while (abs_value >= 100)], written backwards from the end of the buffer; a
    64-bit value has at most ten digit pairs. *)
Fixpoint dump_pairs (fuel : nat) (abs_value : Z) (out : string) : string :=
  match fuel with
  | O => out
  | S fuel =>
      if 100 <=? abs_value
      then dump_pairs fuel (abs_value / 100) (digits_to_99 (abs_value mod 100) +:+ out)
      else if 10 <=? abs_value then digits_to_99 abs_value +:+ out
      else String (ascii_of_byte (48 + abs_value)) out
  end.

Definition dump_integer (x : Z) : string :=
  if x =? 0 then "0"
  else if x <? 0 then String "-" (dump_pairs 11 (u64 (u64 (- (x + 1)) + 1)) "")
  else dump_pairs 11 x "".

(** ** Values *)

Section dump.
Context `{FloatText}.

Definition dump_float (f : spec_float) : string :=
  match f with
  | S754_nan | S754_infinity _ => "null"
  | _ => float_to_chars f
  end.

Definition quoted (s : string) : outcome string :=
  t ← dump_escaped s; mret (String quote (t +:+ String quote "")).

Fixpoint dump (j : json) : outcome string :=
  match j with
  | JNull => Ret "null"
  | JBool b => Ret (if b then "true" else "false")
  | JInt z => Ret (dump_integer z)
  | JUint z => Ret (dump_integer z)
  | JFloat f => Ret (dump_float f)
  | JStr s => quoted s
  | JArr [] => Ret "[]"
  | JArr l =>
      t ← (fix dump_elems l :=
             match l with
             | [] => Ret ""
             | [x] => dump x
             | x :: l => s ← dump x; t ← dump_elems l; Ret (s +:+ "," +:+ t)
             end) l;
      Ret ("[" +:+ t +:+ "]")
  | JObj [] => Ret "{}"
  | JObj o =>
      t ← (fix dump_members o :=
             match o with
             | [] => Ret ""
             | [(k, v)] => q ← quoted k; s ← dump v; Ret (q +:+ ":" +:+ s)
             | (k, v) :: o =>
                 q ← quoted k; s ← dump v; t ← dump_members o;
                 Ret (q +:+ ":" +:+ s +:+ "," +:+ t)
             end) o;
      Ret ("{" +:+ t +:+ "}")
  end.
End dump.

(** ** The lexer *)

Inductive token :=
| TBeginArray | TEndArray | TBeginObject | TEndObject | TNameSep | TValueSep
| TTrue | TFalse | TNull
| TString (s : string)
| TInteger (z : Z)
| TUnsigned (z : Z)
| TFloat (f : spec_float)
| TEndOfInput
| TParseError.

(** The four hex digits after [\u]: the code point and what follows. *)
Definition hex_digit (c : Z) : option Z :=
  if (48 <=? c) && (c <=? 57) then Some (c - 0x30)
  else if (65 <=? c) && (c <=? 70) then Some (c - 0x37)
  else if (97 <=? c) && (c <=? 102) then Some (c - 0x57)
  else None.

Definition get_codepoint (bytes : list Z) : option (Z * list Z) :=
  match bytes with
  | c1 :: c2 :: c3 :: c4 :: rest =>
      d1 ← hex_digit c1; d2 ← hex_digit c2; d3 ← hex_digit c3; d4 ← hex_digit c4;
      Some (Z.shiftl d1 12 + Z.shiftl d2 8 + Z.shiftl d3 4 + d4, rest)
  | _ => None
  end.

(** [next_byte_in_range]: each next byte must be in its range. *)
Fixpoint next_byte_in_range (ranges : list (Z * Z)) (bytes buf : list Z) : option (list Z * list Z) :=
  match ranges with
  | [] => Some (buf, bytes)
  | (lo, hi) :: ranges =>
      match bytes with
      | c :: bytes =>
          if (lo <=? c) && (c <=? hi) then next_byte_in_range ranges bytes (buf ++ [c]) else None
      | [] => None
      end
  end.

(** The continuation ranges after the lead byte [c] of a multi-byte sequence. *)
Definition lead_ranges (c : Z) : option (list (Z * Z)) :=
  let t := (0x80, 0xBF) in
  if (0xC2 <=? c) && (c <=? 0xDF) then Some [t]
  else if c =? 0xE0 then Some [(0xA0, 0xBF); t]
  else if (c =? 0xED) then Some [(0x80, 0x9F); t]
  else if (0xE1 <=? c) && (c <=? 0xEF) then Some [t; t]
  else if c =? 0xF0 then Some [(0x90, 0xBF); t; t]
  else if (0xF1 <=? c) && (c <=? 0xF3) then Some [t; t; t]
  else if c =? 0xF4 then Some [(0x80, 0x8F); t; t]
  else None.

(** The code point of a [\u] escape, surrogate pairs included. *)
Definition scan_u_escape (bytes : list Z) : option (Z * list Z) :=
  match get_codepoint bytes with
  | None => None
  | Some (cp1, rest) =>
      if (0xD800 <=? cp1) && (cp1 <=? 0xDBFF) then
        match rest with
        | 92 :: 117 :: rest =>
            match get_codepoint rest with
            | None => None
            | Some (cp2, rest) =>
                if (0xDC00 <=? cp2) && (cp2 <=? 0xDFFF)
                then Some (Z.shiftl cp1 10 + cp2 - 0x35FDC00, rest) else None
            end
        | _ => None
        end
      else if (0xDC00 <=? cp1) && (cp1 <=? 0xDFFF) then None
      else Some (cp1, rest)
  end.

(** The UTF-8 bytes of a code point. *)
Definition utf8_encode (cp : Z) : list Z :=
  if cp <? 0x80 then [cp]
  else if cp <=? 0x7FF then [Z.lor 0xC0 (Z.shiftr cp 6); Z.lor 0x80 (Z.land cp 0x3F)]
  else if cp <=? 0xFFFF then
    [Z.lor 0xE0 (Z.shiftr cp 12); Z.lor 0x80 (Z.land (Z.shiftr cp 6) 0x3F);
     Z.lor 0x80 (Z.land cp 0x3F)]
  else
    [Z.lor 0xF0 (Z.shiftr cp 18); Z.lor 0x80 (Z.land (Z.shiftr cp 12) 0x3F);
     Z.lor 0x80 (Z.land (Z.shiftr cp 6) 0x3F); Z.lor 0x80 (Z.land cp 0x3F)].

(** The simple escapes after a backslash. *)
Definition simple_escape (c : Z) : option Z :=
  if c =? 34 then Some 34 else if c =? 92 then Some 92 else if c =? 47 then Some 47
  else if c =? 98 then Some 8 else if c =? 102 then Some 12 else if c =? 110 then Some 10
  else if c =? 114 then Some 13 else if c =? 116 then Some 9 else None.

(** [scan_string] after the opening quote; every iteration reads a byte. *)
Fixpoint scan_string (fuel : nat) (bytes buf : list Z) : token * list Z :=
  match fuel, bytes with
  | S fuel, c :: bytes =>
      if c =? 34 then (TString (of_bytes buf), bytes)
      else if c =? 92 then
        match bytes with
        | e :: bytes =>
            match simple_escape e with
            | Some x => scan_string fuel bytes (buf ++ [x])
            | None =>
                if e =? 117 then
                  match scan_u_escape bytes with
                  | Some (cp, rest) => scan_string fuel rest (buf ++ utf8_encode cp)
                  | None => (TParseError, bytes)
                  end
                else (TParseError, bytes)
            end
        | [] => (TParseError, [])
        end
      else if c <=? 0x1F then (TParseError, bytes)
      else if c <=? 0x7F then scan_string fuel bytes (buf ++ [c])
      else
        match lead_ranges c with
        | Some rs =>
            match next_byte_in_range rs bytes (buf ++ [c]) with
            | Some (buf, rest) => scan_string fuel rest buf
            | None => (TParseError, bytes)
            end
        | None => (TParseError, bytes)
        end
  | _, _ => (TParseError, bytes)
  end.

(** The labels of [scan_number]'s state machine. *)
Inductive num_state :=
| NMinus | NZero | NAny1 | NDecimal1 | NDecimal2 | NExponent | NSign | NAny2.

(** [number_type]. *)
Inductive num_type := NumUnsigned | NumInteger | NumFloat.

Definition is_dec_digit (c : Z) : bool := (48 <=? c) && (c <=? 57).

(** The transition on the next character: [None] is an error, [Some None] is
    [scan_number_done]. *)
Definition num_next (st : num_state) (c : option Z) : option (option num_state) :=
  let c := default 0 c in
  let digit := is_dec_digit c in
  match st with
  | NMinus => if c =? 48 then Some (Some NZero) else if digit then Some (Some NAny1) else None
  | NZero =>
      if c =? 46 then Some (Some NDecimal1)
      else if (c =? 101) || (c =? 69) then Some (Some NExponent) else Some None
  | NAny1 =>
      if digit then Some (Some NAny1) else if c =? 46 then Some (Some NDecimal1)
      else if (c =? 101) || (c =? 69) then Some (Some NExponent) else Some None
  | NDecimal1 => if digit then Some (Some NDecimal2) else None
  | NDecimal2 =>
      if digit then Some (Some NDecimal2)
      else if (c =? 101) || (c =? 69) then Some (Some NExponent) else Some None
  | NExponent =>
      if (c =? 43) || (c =? 45) then Some (Some NSign) else if digit then Some (Some NAny2) else None
  | NSign => if digit then Some (Some NAny2) else None
  | NAny2 => if digit then Some (Some NAny2) else Some None
  end.

(** Entering a state sets [number_type]. *)
Definition num_enter (st : num_state) (ty : num_type) : num_type :=
  match st with NMinus => NumInteger | NDecimal1 | NExponent => NumFloat | _ => ty end.

Fixpoint scan_num_loop (st : num_state) (bytes buf : list Z) (ty : num_type)
    : option (list Z * num_type * list Z) :=
  match bytes with
  | [] =>
      match num_next st None with
      | Some None => Some (buf, ty, [])
      | _ => None
      end
  | c :: bytes' =>
      match num_next st (Some c) with
      | None => None
      | Some None => Some (buf, ty, bytes)
      | Some (Some st') => scan_num_loop st' bytes' (buf ++ [c]) (num_enter st' ty)
      end
  end.

Section lexer.
Context `{FloatText}.

(** [scan_number_done]: integers that fit, else a double. *)
Definition number_token (buf : list Z) (ty : num_type) : token :=
  let text := of_bytes buf in
  match ty with
  | NumUnsigned =>
      match scan_int text with
      | Some (_, m) => if m <=? u64_max then TUnsigned m else TFloat (strtod text)
      | None => TFloat (strtod text)
      end
  | NumInteger =>
      match stoll text with
      | Ret z => TInteger z
      | Throw _ => TFloat (strtod text)
      end
  | NumFloat => TFloat (strtod text)
  end.

(** [scan_number] with [c] the first character. *)
Definition scan_number (c : Z) (bytes : list Z) : token * list Z :=
  let st := if c =? 45 then NMinus else if c =? 48 then NZero else NAny1 in
  match scan_num_loop st bytes [c] (num_enter st NumUnsigned) with
  | Some (buf, ty, rest) => (number_token buf ty, rest)
  | None => (TParseError, [])
  end.

Fixpoint scan_literal (text : list Z) (t : token) (bytes : list Z) : token * list Z :=
  match text with
  | [] => (t, bytes)
  | x :: text =>
      match bytes with
      | c :: bytes => if c =? x then scan_literal text t bytes else (TParseError, bytes)
      | [] => (TParseError, [])
      end
  end.

Fixpoint skip_whitespace (bytes : list Z) : list Z :=
  match bytes with
  | c :: rest =>
      if (c =? 32) || (c =? 9) || (c =? 10) || (c =? 13) then skip_whitespace rest else bytes
  | [] => []
  end.

(** [scan]: the next token; a NUL byte counts as the end of the input. *)
Definition scan (bytes : list Z) : token * list Z :=
  match skip_whitespace bytes with
  | [] => (TEndOfInput, [])
  | c :: rest =>
      if c =? 91 then (TBeginArray, rest)
      else if c =? 93 then (TEndArray, rest)
      else if c =? 123 then (TBeginObject, rest)
      else if c =? 125 then (TEndObject, rest)
      else if c =? 58 then (TNameSep, rest)
      else if c =? 44 then (TValueSep, rest)
      else if c =? 116 then scan_literal (to_bytes "rue") TTrue rest
      else if c =? 102 then scan_literal (to_bytes "alse") TFalse rest
      else if c =? 110 then scan_literal (to_bytes "ull") TNull rest
      else if c =? 34 then scan_string (S (length rest)) rest []
      else if (c =? 45) || is_dec_digit c then scan_number c rest
      else if c =? 0 then (TEndOfInput, rest)
      else (TParseError, rest)
  end.

(** ** The parser *)

(** A level of [states] with what the DOM builder holds for it: the elements of
    an array so far, or the members of an object and the key being read. *)
Inductive level :=
| LArray (l : list json)
| LObject (o : list (string * json)) (k : string).

(** What an iteration of [sax_parse_internal] works on: the last token, or a
    value just completed ("skip_to_state_evaluation"). *)
Inductive pmode :=
| MToken (t : token)
| MValue (v : json).

(** The key and colon of a member, then the first token of its value. *)
Definition scan_key (t : token) (rest : list Z) : option (string * token * list Z) :=
  match t with
  | TString k =>
      match scan rest with
      | (TNameSep, rest) => let '(t, rest) := scan rest in Some (k, t, rest)
      | _ => None
      end
  | _ => None
  end.

Definition is_finite (f : spec_float) : bool :=
  match f with S754_zero _ | S754_finite _ _ _ => true | _ => false end.

(** One iteration: the next configuration, the finished value, or an error. *)
Inductive presult :=
| PNext (m : pmode) (rest : list Z) (st : list level)
| PDone (v : json) (rest : list Z)
| PError.

Definition parse_step (m : pmode) (rest : list Z) (st : list level) : presult :=
  match m with
  | MToken TBeginObject =>
      match scan rest with
      | (TEndObject, rest) => PNext (MValue (JObj [])) rest st
      | (t, rest) =>
          match scan_key t rest with
          | Some (k, t, rest) => PNext (MToken t) rest (LObject [] k :: st)
          | None => PError
          end
      end
  | MToken TBeginArray =>
      match scan rest with
      | (TEndArray, rest) => PNext (MValue (JArr [])) rest st
      | (t, rest) => PNext (MToken t) rest (LArray [] :: st)
      end
  | MToken TTrue => PNext (MValue (JBool true)) rest st
  | MToken TFalse => PNext (MValue (JBool false)) rest st
  | MToken TNull => PNext (MValue JNull) rest st
  | MToken (TString s) => PNext (MValue (JStr s)) rest st
  | MToken (TInteger z) => PNext (MValue (JInt z)) rest st
  | MToken (TUnsigned z) => PNext (MValue (JUint z)) rest st
  | MToken (TFloat f) => if is_finite f then PNext (MValue (JFloat f)) rest st else PError
  | MToken _ => PError
  | MValue v =>
      match st with
      | [] => PDone v rest
      | LArray l :: st =>
          match scan rest with
          | (TValueSep, rest) =>
              let '(t, rest) := scan rest in PNext (MToken t) rest (LArray (l ++ [v]) :: st)
          | (TEndArray, rest) => PNext (MValue (JArr (l ++ [v]))) rest st
          | _ => PError
          end
      | LObject o k :: st =>
          match scan rest with
          | (TValueSep, rest) =>
              let '(t, rest) := scan rest in
              match scan_key t rest with
              | Some (k', t, rest) => PNext (MToken t) rest (LObject (obj_set k v o) k' :: st)
              | None => PError
              end
          | (TEndObject, rest) => PNext (MValue (JObj (obj_set k v o))) rest st
          | _ => PError
          end
      end
  end.

Fixpoint parse_loop (fuel : nat) (m : pmode) (rest : list Z) (st : list level)
    : option (json * list Z) :=
  match fuel with
  | O => None
  | S fuel =>
      match parse_step m rest st with
      | PNext m rest st => parse_loop fuel m rest st
      | PDone v rest => Some (v, rest)
      | PError => None
      end
  end.

(** The byte order mark is skipped, half a mark is an error. *)
Definition skip_bom (bytes : list Z) : option (list Z) :=
  match bytes with
  | 0xEF :: rest => match rest with 0xBB :: 0xBF :: rest => Some rest | _ => None end
  | _ => Some bytes
  end.

(** [protocol::parse]: [json::parse] with every exception mapped to [None].
    Each iteration either reads a token or finishes a value, so twice the number
    of bytes is enough fuel. *)
Definition parse (s : string) : option json :=
  match skip_bom (to_bytes s) with
  | None => None
  | Some bytes =>
      let '(t, rest) := scan bytes in
      match parse_loop (2 * length bytes + 2) (MToken t) rest [] with
      | Some (v, rest) => match scan rest with (TEndOfInput, _) => Some v | _ => None end
      | None => None
      end
  end.
End lexer.

(** ** Induction on values *)

Section json_ind.
Context (P : json → Prop).
Context (Hnull : P JNull) (Hbool : ∀ b, P (JBool b)) (Hint : ∀ z, P (JInt z))
  (Huint : ∀ z, P (JUint z)) (Hfloat : ∀ f, P (JFloat f)) (Hstr : ∀ s, P (JStr s))
  (Harr : ∀ l, Forall P l → P (JArr l))
  (Hobj : ∀ o, Forall (λ kv, P kv.2) o → P (JObj o)).

Fixpoint json_nested_ind (j : json) : P j :=
  match j with
  | JNull => Hnull
  | JBool b => Hbool b
  | JInt z => Hint z
  | JUint z => Huint z
  | JFloat f => Hfloat f
  | JStr s => Hstr s
  | JArr l =>
      Harr l ((fix go l : Forall P l :=
        match l with
        | [] => Forall_nil_2 _
        | x :: l => Forall_cons_2 _ _ _ (json_nested_ind x) (go l)
        end) l)
  | JObj o =>
      Hobj o ((fix go o : Forall (λ kv, P kv.2) o :=
        match o with
        | [] => Forall_nil_2 _
        | kv :: o => Forall_cons_2 _ _ _ (json_nested_ind kv.2) (go o)
        end) o)
  end.
End json_ind.

(** ** When [dump] succeeds *)

(** A string whose bytes are well-formed UTF-8. *)
Definition utf8_valid (s : string) : bool :=
  match dump_escaped s with Ret _ => true | Throw _ => false end.

Fixpoint json_utf8 (j : json) : bool :=
  match j with
  | JStr s => utf8_valid s
  | JArr l => forallb json_utf8 l
  | JObj o => forallb (λ kv, utf8_valid kv.1 && json_utf8 kv.2) o
  | _ => true
  end.

Lemma quoted_ok s : utf8_valid s = true → ∃ t, quoted s = Ret t.
Proof. unfold utf8_valid, quoted. destruct (dump_escaped s); [|done]. by eexists. Qed.

Lemma quoted_throws s : utf8_valid s = false → quoted s = Throw JsonTypeError.
Proof.
  unfold utf8_valid, quoted, dump_escaped.
  assert (∀ l st cp out e, dump_escaped_loop l st cp out = Throw e → e = JsonTypeError) as H.
  { induction l as [|b l IH]; intros st cp out e; cbn [dump_escaped_loop].
    - destruct (st =? 0); [done|]. by intros [= <-].
    - destruct (decode st cp b) as [st' cp']. destruct (st' =? 0); [apply IH|].
      destruct (st' =? 1); [by intros [= <-]|apply IH]. }
  destruct (dump_escaped_loop _ _ _ _) as [|e] eqn:E; [done|]. intros _.
  by rewrite (H _ _ _ _ _ E).
Qed.

Lemma dump_total `{FloatText} j : json_utf8 j = true → ∃ s, dump j = Ret s.
Proof.
  induction j as [|b|z|z|f|s|l IH|o IH] using json_nested_ind; cbn [dump json_utf8];
    try by eexists.
  - apply quoted_ok.
  - intros Hl. destruct l as [|x l]; [by eexists|].
    assert (∀ l, Forall (λ j, json_utf8 j = true → ∃ s, dump j = Ret s) l → forallb json_utf8 l = true →
      ∃ t, (fix dump_elems l := match l with
             | [] => Ret "" | [x] => dump x
             | x :: l => s ← dump x; t ← dump_elems l; Ret (s +:+ "," +:+ t) end) l = Ret t) as Hgo.
    { clear. induction 1 as [|x l Hx Hl IH]; intros Hf; [by eexists|]. simpl in Hf. to_prop.
      destruct (Hx ltac:(done)) as [s Hs]. destruct (IH ltac:(done)) as [t Ht].
      destruct l; [by eexists|]. rewrite Hs, Ht. by eexists. }
    destruct (Hgo _ IH Hl) as [t ->]. by eexists.
  - intros Hl. destruct o as [|kv o]; [by eexists|].
    assert (∀ o, Forall (λ kv, json_utf8 kv.2 = true → ∃ s, dump kv.2 = Ret s) o →
      forallb (λ kv, utf8_valid kv.1 && json_utf8 kv.2) o = true →
      ∃ t, (fix dump_members o := match o with
             | [] => Ret ""
             | [(k, v)] => q ← quoted k; s ← dump v; Ret (q +:+ ":" +:+ s)
             | (k, v) :: o => q ← quoted k; s ← dump v; t ← dump_members o;
                 Ret (q +:+ ":" +:+ s +:+ "," +:+ t) end) o = Ret t) as Hgo.
    { clear. induction 1 as [|[k v] o Hx Hl IH]; intros Hf; [by eexists|]. simpl in Hf. to_prop.
      destruct (Hx ltac:(done)) as [s Hs]. destruct (IH ltac:(done)) as [t Ht].
      destruct (quoted_ok k) as [q Hq]; [done|]. simpl in Hs.
      destruct o; rewrite Hq; simpl; rewrite Hs; [by eexists|]. simpl. rewrite Ht. by eexists. }
    destruct (Hgo _ IH Hl) as [t ->]. by eexists.
Qed.

Definition member_utf8 (kv : string * json) : bool := utf8_valid kv.1 && json_utf8 kv.2.

Lemma obj_set_utf8 k v o :
  utf8_valid k = true → json_utf8 v = true → forallb member_utf8 o = true →
  forallb member_utf8 (obj_set k v o) = true.
Proof.
  intros Hk Hv. assert (member_utf8 (k, v) = true) as Hkv
    by (unfold member_utf8; cbn [fst snd]; by rewrite Hk, Hv).
  induction o as [|[k' v'] o IH]; cbn [obj_set forallb]; intros Ho; [by rewrite Hkv|].
  apply andb_prop in Ho as [H1 H2].
  destruct (String.compare k k'); cbn [forallb]; rewrite ?Hkv, ?H1, ?H2; [done|done|].
  by rewrite IH.
Qed.

Lemma json_of_utf8 kvs : forallb member_utf8 kvs = true → json_utf8 (json_of kvs) = true.
Proof.
  intros Hk. destruct kvs as [|kv kvs]; [done|]. cbn [json_of json_utf8].
  change (forallb member_utf8 (foldl (λ o kv, obj_set kv.1 kv.2 o) [] (kv :: kvs)) = true).
  assert (forallb member_utf8 [] = true) as Hnil by done. revert Hnil Hk.
  generalize (@nil (string * json)) as acc. generalize (kv :: kvs) as l.
  induction l as [|[k v] l IH]; intros acc Hacc Hl; [done|]. cbn [foldl forallb fst snd] in *.
  apply andb_prop in Hl as [Hkv Hl]. unfold member_utf8 in Hkv. apply andb_prop in Hkv as [H1 H2].
  apply IH; [|done]. by apply obj_set_utf8.
Qed.

(** [serialize] never throws on an event whose text is valid UTF-8. *)
Lemma dump_event_total `{FloatText} mid snd_id rcv room content ts :
  utf8_valid content = true →
  ∃ s, dump (make_event_message mid snd_id rcv room content ts) = Ret s.
Proof.
  intros Hc. apply dump_total, json_of_utf8. destruct rcv, room; cbn; unfold member_utf8; cbn;
    by rewrite Hc.
Qed.

(** Conversions for the examples, which hold no double. *)
Definition test_float : FloatText := {|
  float_to_chars := λ _, "0.0";
  strtod := λ _, S754_zero false;
|}.
