(* ===== verification/MysqlTables.v ===== *)
(** * The tables of [scripts/init_db.sql] and the statements the program sends

    The MySQL server is a parameter of the model ([MysqlServer]).  This file states
    what its manual says about the twenty-three statements of
    [src/db/repositories.cpp]: [sql_effect] relates the tables before a statement to
    its result and the tables after it, and the class [SqlServer] says that a server
    does so for every text it reads as that statement.  At the end a server that
    keeps the promise is given, to show that it can be kept. *)
From S2P Require Import Prelude Util Crypto Repositories Json MysqlRepositories.

(** ** Statements *)

Inductive stmt :=
| SelectUserById (id : Z)
| SelectUserByName (n : string)
| InsertUser (n h : string)
| SetLastSeen (secs uid : Z)
| SelectSessions
| InsertSession (t : string) (uid secs : Z)
| DeleteSession (t : string)
| SelectRoomByName (n : string)
| SelectRoomById (id : Z)
| InsertRoom (n : string)
| InsertMember (rid uid : Z)
| DeleteMember (rid uid : Z)
| SelectMember (rid uid : Z)
| SelectRoomsOf (uid : Z)
| SelectMembers (rid : Z)
| InsertDm (s r : Z) (content : string) (secs frac : Z)
| InsertRoomMsg (s rid : Z) (content : string) (secs frac : Z)
| SelectDm (a b before lim : Z)
| SelectRoomMsgs (rid before lim : Z)
| SetStatus (st mid : Z)
| InsertQueue (mid uid : Z)
| SelectQueue (uid : Z)
| DeleteQueue (uid : Z).

(** The text of a statement: fixed text, a number, a string literal, or the optional
    condition of a page. *)
Inductive hole := HText (s : string) | HNum (z : Z) | HLit (s : string) | HBefore (z : Z).

Definition stmt_holes (st : stmt) : list hole :=
  match st with
  | SelectUserById id => [HText (user_columns +:+ "id="); HNum id; HText " LIMIT 1"]
  | SelectUserByName n => [HText (user_columns +:+ "username="); HLit n; HText " LIMIT 1"]
  | InsertUser n h => [HText "INSERT INTO users(username,password_hash) VALUES("; HLit n; HText ","; HLit h; HText ")"]
  | SetLastSeen secs uid =>
      [HText "UPDATE users SET last_seen_at=FROM_UNIXTIME("; HNum secs; HText ") WHERE id="; HNum uid]
  | SelectSessions => [HText "SELECT token,user_id,UNIX_TIMESTAMP(last_active_at)*1000 FROM sessions"]
  | InsertSession t uid secs =>
      [HText "INSERT INTO sessions(token,user_id,last_active_at) VALUES("; HLit t; HText ","; HNum uid;
       HText ",FROM_UNIXTIME("; HNum secs;
       HText ")) ON DUPLICATE KEY UPDATE last_active_at=VALUES(last_active_at)"]
  | DeleteSession t => [HText "DELETE FROM sessions WHERE token="; HLit t; HText ""]
  | SelectRoomByName n =>
      [HText "SELECT id,name,UNIX_TIMESTAMP(created_at)*1000 FROM rooms WHERE name="; HLit n; HText " LIMIT 1"]
  | SelectRoomById id =>
      [HText "SELECT id,name,UNIX_TIMESTAMP(created_at)*1000 FROM rooms WHERE id="; HNum id]
  | InsertRoom n => [HText "INSERT INTO rooms(name) VALUES("; HLit n; HText ")"]
  | InsertMember rid uid =>
      [HText "INSERT IGNORE INTO room_members(room_id,user_id) VALUES("; HNum rid; HText ","; HNum uid; HText ")"]
  | DeleteMember rid uid =>
      [HText "DELETE FROM room_members WHERE room_id="; HNum rid; HText " AND user_id="; HNum uid]
  | SelectMember rid uid =>
      [HText "SELECT 1 FROM room_members WHERE room_id="; HNum rid; HText " AND user_id="; HNum uid; HText " LIMIT 1"]
  | SelectRoomsOf uid =>
      [HText ("SELECT r.id,r.name,UNIX_TIMESTAMP(r.created_at)*1000 " +:+
          "FROM rooms r INNER JOIN room_members m ON m.room_id=r.id " +:+ "WHERE m.user_id="); HNum uid]
  | SelectMembers rid => [HText "SELECT user_id FROM room_members WHERE room_id="; HNum rid]
  | InsertDm s r content secs frac =>
      [HText "INSERT INTO messages(sender_id,receiver_id,content,created_at) VALUES("; HNum s; HText ","; HNum r; HText ",";
       HLit content; HText ",FROM_UNIXTIME("; HNum secs; HText "."; HNum frac; HText "))"]
  | InsertRoomMsg s rid content secs frac =>
      [HText "INSERT INTO messages(sender_id,room_id,content,created_at) VALUES("; HNum s; HText ","; HNum rid; HText ",";
       HLit content; HText ",FROM_UNIXTIME("; HNum secs; HText "."; HNum frac; HText "))"]
  | SelectDm a b before lim =>
      [HText (message_columns +:+ "((sender_id="); HNum a; HText " AND receiver_id="; HNum b; HText ") OR (sender_id="; HNum b;
       HText " AND receiver_id="; HNum a; HText "))"; HBefore before; HText " ORDER BY id DESC LIMIT "; HNum lim]
  | SelectRoomMsgs rid before lim =>
      [HText (message_columns +:+ "room_id="); HNum rid; HBefore before; HText " ORDER BY id DESC LIMIT "; HNum lim]
  | SetStatus st mid => [HText "UPDATE messages SET status="; HNum st; HText " WHERE id="; HNum mid]
  | InsertQueue mid uid =>
      [HText "INSERT IGNORE INTO undelivered(message_id,user_id) VALUES("; HNum mid; HText ","; HNum uid; HText ")"]
  | SelectQueue uid =>
      [HText ("SELECT m.id,m.sender_id,m.receiver_id,m.room_id,m.content,m.status," +:+
          "UNIX_TIMESTAMP(m.created_at)*1000 " +:+
          "FROM messages m INNER JOIN undelivered u ON u.message_id=m.id " +:+ "WHERE u.user_id="); HNum uid;
       HText " ORDER BY m.id ASC"]
  | DeleteQueue uid => [HText "DELETE FROM undelivered WHERE user_id="; HNum uid]
  end.

Definition before_text (z : Z) : string := if z =? 0 then "" else " AND id<" +:+ to_string z.

(** How the server reads such a text. *)
Fixpoint render (cur : string) (hs : list hole) : list piece :=
  match hs with
  | [] => [Code cur]
  | HText s :: hs => render (cur +:+ s) hs
  | HNum z :: hs => render (cur +:+ to_string z) hs
  | HBefore z :: hs => render (cur +:+ before_text z) hs
  | HLit s :: hs => Code cur :: Lit s :: render "" hs
  end.
Definition stmt_pieces (st : stmt) : list piece := render "" (stmt_holes st).

(** ** The statements of the program *)

Section texts.
Context {D : Type} `{MysqlServer D} `{!EscapeLaw D}.

Definition sends (q : string) (st : stmt) : Prop := sql_pieces q = Some (stmt_pieces st).

Ltac by_sends := unfold sends, stmt_pieces; cbn [stmt_holes render]; by_pieces.

Lemma user_by_id_sends id : sends (user_by_id_sql id) (SelectUserById id).
Proof. unfold user_by_id_sql. by_sends. Qed.
Lemma user_by_name_sends n : sends (user_by_name_sql n) (SelectUserByName n).
Proof. unfold user_by_name_sql. by_sends. Qed.
Lemma create_user_sends n h : sends (create_user_sql n h) (InsertUser n h).
Proof. unfold create_user_sql. by_sends. Qed.
Lemma last_seen_sends uid ts : sends (last_seen_sql uid ts) (SetLastSeen (Z.quot ts 1000) uid).
Proof. unfold last_seen_sql. by_sends. Qed.
Lemma sessions_sends : sends sessions_sql SelectSessions.
Proof. unfold sessions_sql. by_sends. Qed.
Lemma insert_session_sends tok uid ts :
  sends (insert_session_sql tok uid ts) (InsertSession tok uid (Z.quot ts 1000)).
Proof. unfold insert_session_sql. by_sends. Qed.
Lemma delete_session_sends tok : sends (delete_session_sql tok) (DeleteSession tok).
Proof. unfold delete_session_sql. by_sends. Qed.
Lemma room_by_name_sends n : sends (room_by_name_sql n) (SelectRoomByName n).
Proof. unfold room_by_name_sql. by_sends. Qed.
Lemma room_by_id_sends id : sends (room_by_id_sql id) (SelectRoomById id).
Proof. unfold room_by_id_sql. by_sends. Qed.
Lemma create_room_sends n : sends (create_room_sql n) (InsertRoom n).
Proof. unfold create_room_sql. by_sends. Qed.
Lemma join_room_sends rid uid : sends (join_room_sql rid uid) (InsertMember rid uid).
Proof. unfold join_room_sql. by_sends. Qed.
Lemma leave_room_sends rid uid : sends (leave_room_sql rid uid) (DeleteMember rid uid).
Proof. unfold leave_room_sql. by_sends. Qed.
Lemma is_member_sends rid uid : sends (is_member_sql rid uid) (SelectMember rid uid).
Proof. unfold is_member_sql. by_sends. Qed.
Lemma rooms_of_user_sends uid : sends (rooms_of_user_sql uid) (SelectRoomsOf uid).
Proof. unfold rooms_of_user_sql. by_sends. Qed.
Lemma room_members_sends rid : sends (room_members_sql rid) (SelectMembers rid).
Proof. unfold room_members_sql. by_sends. Qed.
Lemma insert_dm_sends s r c ts :
  sends (insert_dm_sql s r c ts) (InsertDm s r c (Z.quot ts 1000) (Z.rem ts 1000)).
Proof. unfold insert_dm_sql, insert_message_sql, seconds_text. by_sends. Qed.
Lemma insert_room_msg_sends s rid c ts :
  sends (insert_room_msg_sql s rid c ts) (InsertRoomMsg s rid c (Z.quot ts 1000) (Z.rem ts 1000)).
Proof. unfold insert_room_msg_sql, insert_message_sql, seconds_text. by_sends. Qed.
Lemma history_dm_sends a b before lim :
  sends (history_dm_sql a b before lim) (SelectDm a b before (Z.min lim 200)).
Proof.
  unfold history_dm_sql, page_sql, sends, stmt_pieces. cbn [stmt_holes render]. unfold before_text.
  case_match; by_pieces.
Qed.
Lemma history_room_sends rid before lim :
  sends (history_room_sql rid before lim) (SelectRoomMsgs rid before (Z.min lim 200)).
Proof.
  unfold history_room_sql, page_sql, sends, stmt_pieces. cbn [stmt_holes render]. unfold before_text.
  case_match; by_pieces.
Qed.
Lemma status_sends mid st : sends (status_sql mid st) (SetStatus st mid).
Proof. unfold status_sql. by_sends. Qed.
Lemma enqueue_sends mid uid : sends (enqueue_sql mid uid) (InsertQueue mid uid).
Proof. unfold enqueue_sql. by_sends. Qed.
Lemma undelivered_sends uid : sends (undelivered_sql uid) (SelectQueue uid).
Proof. unfold undelivered_sql. by_sends. Qed.
Lemma clear_undelivered_sends uid : sends (clear_undelivered_sql uid) (DeleteQueue uid).
Proof. unfold clear_undelivered_sql. by_sends. Qed.
End texts.

(** ** Tables *)

Record tables := mkTables {
  t_users : gmap Z User;
  t_rooms : gmap Z Room;
  t_sessions : gmap string (Z * Z);   (** token to user and seconds *)
  t_members : gset (Z * Z);           (** room and user *)
  t_messages : list Message;          (** by id *)
  t_queue : gset (Z * Z);             (** user and message *)
}.

Definition set_t_users f t := mkTables (f t.(t_users)) t.(t_rooms) t.(t_sessions) t.(t_members) t.(t_messages) t.(t_queue).
Definition set_t_rooms f t := mkTables t.(t_users) (f t.(t_rooms)) t.(t_sessions) t.(t_members) t.(t_messages) t.(t_queue).
Definition set_t_sessions f t := mkTables t.(t_users) t.(t_rooms) (f t.(t_sessions)) t.(t_members) t.(t_messages) t.(t_queue).
Definition set_t_members f t := mkTables t.(t_users) t.(t_rooms) t.(t_sessions) (f t.(t_members)) t.(t_messages) t.(t_queue).
Definition set_t_messages f t := mkTables t.(t_users) t.(t_rooms) t.(t_sessions) t.(t_members) (f t.(t_messages)) t.(t_queue).
Definition set_t_queue f t := mkTables t.(t_users) t.(t_rooms) t.(t_sessions) t.(t_members) t.(t_messages) (f t.(t_queue)).

(** *** Column types *)

(** Tokens are 64 hexadecimal digits, the width of the column; among them the
    column's collation is equality. *)
Definition hex_char (c : ascii) : bool :=
  let b := byte_of_ascii c in ((48 <=? b) && (b <=? 57)) || ((97 <=? b) && (b <=? 102)).
Definition session_key (tok : string) : Prop :=
  String.length tok = 64%nat ∧ forallb hex_char (chars tok) = true.

(** What a [TIMESTAMP] column holds, in seconds. *)
Definition stamp_secs (s : Z) : Prop := 0 < s < 2147483648.

(** Text of at most [n] bytes that the character set accepts. *)
Definition fits (n : Z) (s : string) : Prop :=
  Z.of_nat (String.length s) <= n ∧ utf8_valid s = true.

(** The arguments are values of the columns' types. *)
Definition stmt_typed (st : stmt) : Prop :=
  match st with
  | SelectUserById x | SelectRoomById x | SelectRoomsOf x | SelectMembers x | SelectQueue x
  | DeleteQueue x => is_u64 x
  | SelectUserByName n | SelectRoomByName n => utf8_valid n = true
  | InsertUser n h => fits 64 n ∧ fits 256 h
  | SetLastSeen secs uid => stamp_secs secs ∧ is_u64 uid
  | SelectSessions => True
  | InsertSession t uid secs => session_key t ∧ is_u64 uid ∧ stamp_secs secs
  | DeleteSession t => session_key t
  | InsertRoom n => fits 128 n
  | InsertMember x y | DeleteMember x y | SelectMember x y | InsertQueue x y => is_u64 x ∧ is_u64 y
  | InsertDm s r c secs frac | InsertRoomMsg s r c secs frac =>
      is_u64 s ∧ is_u64 r ∧ fits 65535 c ∧ stamp_secs secs ∧ 0 <= frac < 1000
  | SelectDm a b before lim => is_u64 a ∧ is_u64 b ∧ is_u64 before ∧ is_u64 lim
  | SelectRoomMsgs r before lim => is_u64 r ∧ is_u64 before ∧ is_u64 lim
  | SetStatus st mid => is_u8 st ∧ is_u64 mid
  end.

(** *** Rows of results *)

Definition user_row (u : User) : row :=
  [Some (to_string u.(u_id)); Some u.(u_username); Some u.(u_password_hash);
   Some (to_string u.(u_created_at_ms)); Some (to_string u.(u_last_seen_ms))].
Definition room_row (r : Room) : row :=
  [Some (to_string r.(room_id)); Some r.(room_name); Some (to_string r.(room_created_at_ms))].
Definition session_row (tok : string) (uid secs : Z) : row :=
  [Some tok; Some (to_string uid); Some (to_string (secs * 1000))].
Definition member_row (uid : Z) : row := [Some (to_string uid)].
(** The time of a message is a [TIMESTAMP(3)]: its milliseconds have decimals. *)
Definition stored_row (m : Message) : row :=
  [Some (to_string m.(m_id)); Some (to_string m.(m_sender_id)); to_string <$> m.(m_receiver_id);
   to_string <$> m.(m_room_id); Some m.(m_content); Some (to_string m.(m_status));
   Some (to_string m.(m_created_at_ms) +:+ ".000")].

(** What [FROM_UNIXTIME(secs.frac)] denotes, in milliseconds: the digits after the
    point are a decimal fraction. *)
Definition stored_ms (secs frac : Z) : Z :=
  secs * 1000 + (if frac <? 10 then frac * 100 else if frac <? 100 then frac * 10 else frac).

(** ** What a statement does *)

Definition last_seen (secs : Z) (u : User) : User :=
  mkUser u.(u_id) u.(u_username) u.(u_password_hash) u.(u_created_at_ms) (secs * 1000).

(** The messages of a page, newest first. *)
Definition page (matches : Message → bool) (before lim : Z) (t : tables) : list Message :=
  take (Z.to_nat lim) (rev (List.filter (in_page matches before) t.(t_messages))).

Definition queued (uid : Z) (t : tables) : list Message :=
  List.filter (λ m, bool_decide ((uid, m.(m_id)) ∈ t.(t_queue))) t.(t_messages).

Definition has_message (mid : Z) (t : tables) : Prop := mid ∈ m_id <$> t.(t_messages).
#[export] Instance has_message_dec mid t : Decision (has_message mid t).
Proof. unfold has_message. apply _. Defined.

Section effect.
Context (same_text : string → string → Prop).

(** Rows read, tables unchanged. *)
Definition reads (t : tables) (r : query_result) (t' : tables) (P : list row → Prop) : Prop :=
  t' = t ∧ ∃ rows i, r = QueryDone (Some rows) i ∧ P rows.
(** A row of [tbl], if any, with a name that the collation identifies with [n]. *)
Definition by_name {V : Type} (tbl : gmap Z V) (name : V → string) (n : string) (o : option V) : Prop :=
  match o with
  | Some v => ∃ id, tbl !! id = Some v ∧ same_text (name v) n
  | None => ∀ id v, tbl !! id = Some v → ¬ same_text (name v) n
  end.
Definition writes (r : query_result) : Prop := ∃ i, r = QueryDone None i.
Definition refused (t : tables) (r : query_result) (t' : tables) : Prop :=
  t' = t ∧ ∃ e, r = QueryError e.
Definition fresh_id {V : Type} (tbl : gmap Z V) (id : Z) : Prop := is_u64 id ∧ id ≠ 0 ∧ tbl !! id = None.
(** [AUTO_INCREMENT] has no number left. *)
Definition exhausted (ids : list Z) : Prop := ∃ id, id ∈ ids ∧ u64_max <= id.
Definition keys {V : Type} (tbl : gmap Z V) : list Z := (map_to_list tbl).*1.
Definition clock (ms : Z) : Prop := ∃ secs, stamp_secs secs ∧ ms = secs * 1000.

(** A new message, when the sender and the target exist. *)
Definition inserts_message (ok : Prop) (mk : Z → Message) (t : tables) (r : query_result) (t' : tables) : Prop :=
  (ok ∧ ∃ id, is_u64 id ∧ id ≠ 0 ∧ (∀ m, m ∈ t.(t_messages) → m.(m_id) < id) ∧
     r = QueryDone None id ∧ t' = set_t_messages (λ l, l ++ [mk id]) t) ∨
  ((¬ ok ∨ exhausted (m_id <$> t.(t_messages))) ∧ refused t r t').

Definition sql_effect (st : stmt) (t : tables) (r : query_result) (t' : tables) : Prop :=
  match st with
  | SelectUserById id => reads t r t' (λ rows, rows = user_row <$> option_list (t.(t_users) !! id))
  | SelectUserByName n => reads t r t' (λ rows, ∃ o, rows = user_row <$> option_list o ∧
      by_name t.(t_users) u_username n o)
  | InsertUser n h =>
      (by_name t.(t_users) u_username n None ∧ ∃ id ms, fresh_id t.(t_users) id ∧ clock ms ∧
         r = QueryDone None id ∧ t' = set_t_users (<[id := mkUser id n h ms 0]>) t) ∨
      ((¬ by_name t.(t_users) u_username n None ∨ exhausted (keys t.(t_users))) ∧ refused t r t')
  | SetLastSeen secs uid => writes r ∧ t' = set_t_users (alter (last_seen secs) uid) t
  | SelectSessions => reads t r t' (λ rows, ∃ l, l ≡ₚ map_to_list t.(t_sessions) ∧
      rows = (λ '(tok, (u, s)), session_row tok u s) <$> l)
  | InsertSession tok uid secs =>
      (is_Some (t.(t_users) !! uid) ∧ writes r ∧
         t' = set_t_sessions (<[tok := (from_option fst uid (t.(t_sessions) !! tok), secs)]>) t) ∨
      (t.(t_users) !! uid = None ∧ refused t r t')
  | DeleteSession tok => writes r ∧ t' = set_t_sessions (delete tok) t
  | SelectRoomByName n => reads t r t' (λ rows, ∃ o, rows = room_row <$> option_list o ∧
      by_name t.(t_rooms) room_name n o)
  | SelectRoomById id => reads t r t' (λ rows, rows = room_row <$> option_list (t.(t_rooms) !! id))
  | InsertRoom n =>
      (by_name t.(t_rooms) room_name n None ∧ ∃ id ms, fresh_id t.(t_rooms) id ∧ clock ms ∧
         r = QueryDone None id ∧ t' = set_t_rooms (<[id := mkRoom id n ms]>) t) ∨
      ((¬ by_name t.(t_rooms) room_name n None ∨ exhausted (keys t.(t_rooms))) ∧ refused t r t')
  | InsertMember rid uid => writes r ∧
      t' = if bool_decide (is_Some (t.(t_rooms) !! rid) ∧ is_Some (t.(t_users) !! uid))
           then set_t_members (λ s, {[(rid, uid)]} ∪ s) t else t
  | DeleteMember rid uid => writes r ∧ t' = set_t_members (λ s, s ∖ {[(rid, uid)]}) t
  | SelectMember rid uid => reads t r t' (λ rows, rows = [] ↔ (rid, uid) ∉ t.(t_members))
  | SelectRoomsOf uid => reads t r t' (λ rows, ∃ l : list (Z * Room), rows = room_row ∘ snd <$> l ∧ NoDup l ∧
      ∀ rid rm, (rid, rm) ∈ l ↔ (rid, uid) ∈ t.(t_members) ∧ t.(t_rooms) !! rid = Some rm)
  | SelectMembers rid => reads t r t' (λ rows, ∃ l, rows = member_row <$> l ∧ NoDup l ∧
      ∀ u, u ∈ l ↔ (rid, u) ∈ t.(t_members))
  | InsertDm s rcv c secs frac =>
      inserts_message (is_Some (t.(t_users) !! s) ∧ is_Some (t.(t_users) !! rcv))
        (λ id, mkMessage id s (Some rcv) None c 0 (stored_ms secs frac)) t r t'
  | InsertRoomMsg s rid c secs frac =>
      inserts_message (is_Some (t.(t_users) !! s) ∧ is_Some (t.(t_rooms) !! rid))
        (λ id, mkMessage id s None (Some rid) c 0 (stored_ms secs frac)) t r t'
  | SelectDm a b before lim => reads t r t' (λ rows, rows = stored_row <$> page (dm_matches a b) before lim t)
  | SelectRoomMsgs rid before lim =>
      reads t r t' (λ rows, rows = stored_row <$> page (room_matches rid) before lim t)
  | SetStatus st mid => writes r ∧ t' = set_t_messages (set_status mid st) t
  | InsertQueue mid uid => writes r ∧
      t' = if bool_decide (has_message mid t ∧ is_Some (t.(t_users) !! uid))
           then set_t_queue (λ s, {[(uid, mid)]} ∪ s) t else t
  | SelectQueue uid => reads t r t' (λ rows, rows = stored_row <$> queued uid t)
  | DeleteQueue uid => writes r ∧ t' = set_t_queue (filter (λ p : Z * Z, p.1 ≠ uid)) t
  end.
End effect.

Definition is_select (st : stmt) : bool :=
  match st with
  | SelectUserById _ | SelectUserByName _ | SelectSessions | SelectRoomByName _ | SelectRoomById _
  | SelectMember _ _ | SelectRoomsOf _ | SelectMembers _ | SelectDm _ _ _ _ | SelectRoomMsgs _ _ _
  | SelectQueue _ => true
  | _ => false
  end.

(** A server with these tables: the primary and foreign keys, [AUTO_INCREMENT], [ON
    DUPLICATE KEY UPDATE], [INSERT IGNORE] (which turns a violated foreign key into
    a warning), [ORDER BY], [LIMIT], and the conversions of times in a session
    whose time zone has no daylight saving time.  [same_text] is the collation of
    the name columns. *)
Class SqlServer (D : Type) `{MysqlServer D} := {
  view : D → tables;
  same_text : string → string → Prop;
  same_text_refl : ∀ s, same_text s s;
  sql_runs : ∀ q st d, sends q st → stmt_typed st → ∃ r d',
    mysql_real_query q d = (r, d') ∧ sql_effect same_text st (view d) r (view d') ∧
    (is_select st = true → d' = d);
}.

(** ** Reading a statement back *)

Fixpoint strip (p s : string) : option string :=
  match p, s with
  | EmptyString, _ => Some s
  | String a p, String b s => if Ascii.eqb a b then strip p s else None
  | _, _ => None
  end.

Lemma strip_app p s : strip p (p +:+ s) = Some s.
Proof.
  induction p as [|c p IH]; [done|]. rewrite str_app_cons. cbn [strip]. by rewrite Ascii.eqb_refl.
Qed.

(** The two texts differ before either ends. *)
Fixpoint diverge (p q : string) : bool :=
  match p, q with
  | String a p, String b q => negb (Ascii.eqb a b) || diverge p q
  | _, _ => false
  end.

Lemma strip_diverge p q s : diverge p q = true → strip p (q +:+ s) = None.
Proof.
  revert q. induction p as [|a p IH]; intros [|b q]; try done. rewrite str_app_cons. cbn [diverge strip].
  destruct (Ascii.eqb a b); [apply IH|done].
Qed.

Lemma diverge_irrefl p : diverge p p = false.
Proof. induction p as [|a p IH]; [done|]. cbn [diverge]. by rewrite Ascii.eqb_refl. Qed.

Fixpoint drop_digits (s : string) : string :=
  match s with
  | String c s' => if isdigit c then drop_digits s' else s
  | EmptyString => EmptyString
  end.

(** The text does not go on with a digit. *)
Definition no_digit (s : string) : bool :=
  match s with String c _ => negb (isdigit c) | EmptyString => true end.

Lemma dec_digits_app fuel n a s : dec_digits fuel n a +:+ s = dec_digits fuel n (a +:+ s).
Proof.
  revert n a. induction fuel as [|fuel IH]; intros n a; [done|]. cbn [dec_digits].
  destruct (n <? 10); [by rewrite str_app_cons|]. by rewrite IH, str_app_cons.
Qed.

Lemma to_string_app n s : 0 <= n → to_string n +:+ s = dec_digits 20 n s.
Proof.
  intros Hn. unfold to_string. rewrite (proj2 (Z.ltb_ge _ _)) by lia. by rewrite dec_digits_app.
Qed.

Lemma scan_number n s :
  is_u64 n → no_digit s = true → scan_digits (to_string n +:+ s) None = Some n.
Proof.
  intros [Hn Hm] Hs. rewrite to_string_app by done.
  rewrite scan_digits_dec by (change (10 ^ Z.of_nat 20) with 100000000000000000000; lia).
  destruct s as [|c s]; [done|]. cbn [scan_digits no_digit] in *. by destruct (isdigit c).
Qed.

Lemma drop_number n s : 0 <= n → no_digit s = true → drop_digits (to_string n +:+ s) = s.
Proof.
  intros Hn Hs. rewrite to_string_app by done.
  assert (∀ fuel n s, drop_digits (dec_digits fuel n s) = drop_digits s) as Hd.
  { clear. induction fuel as [|fuel IH]; intros n s; [done|]. cbn [dec_digits].
    assert (∀ s, drop_digits (String (ascii_of_byte (48 + n mod 10)) s) = drop_digits s) as Hc.
    { intros t. cbn [drop_digits]. by rewrite (proj2 (digit_char _ (Z.mod_pos_bound n 10 eq_refl))). }
    destruct (n <? 10); [apply Hc|]. by rewrite IH. }
  rewrite Hd. destruct s as [|c s]; [done|]. cbn [drop_digits no_digit] in *. by destruct (isdigit c).
Qed.

(** [stoll] stops at the point. *)
Lemma stoll_decimals n s :
  0 <= n <= 9223372036854775807 → no_digit s = true → stoll (to_string n +:+ s) = Ret n.
Proof.
  intros Hn Hs. pose proof (scan_number n s ltac:(unfold is_u64; lia) Hs) as Hscan.
  rewrite to_string_app in * by lia. destruct (dec_digits_head 19 n s) as (c & t & Heq & Hd); [lia|].
  destruct (digit_not_space_sign c Hd) as (Hsp & Hm & Hp). unfold stoll, sto_signed, scan_int.
  rewrite Heq in *. cbn [skip_spaces]. rewrite Hsp, Hm, Hp, Hscan. cbn.
  by rewrite (proj2 (Z.leb_le _ _)), (proj2 (Z.leb_le _ _)) by lia.
Qed.

(** The numbers and literals of a text with the shape of [hs]. *)
Fixpoint match_holes (hs : list hole) (s : string) (ps : list piece) : option (list Z * list string) :=
  match hs with
  | [] => if str_empty s then match ps with [] => Some ([], []) | _ => None end else None
  | HText p :: hs => s ← strip p s; match_holes hs s ps
  | HNum _ :: hs =>
      n ← scan_digits s None; '(ns, ls) ← match_holes hs (drop_digits s) ps; Some (n :: ns, ls)
  | HBefore _ :: hs =>
      match strip " AND id<" s with
      | Some s => n ← scan_digits s None; '(ns, ls) ← match_holes hs (drop_digits s) ps; Some (n :: ns, ls)
      | None => '(ns, ls) ← match_holes hs s ps; Some (0 :: ns, ls)
      end
  | HLit _ :: hs =>
      match ps with
      | Lit l :: Code s' :: ps =>
          if str_empty s then '(ns, ls) ← match_holes hs s' ps; Some (ns, l :: ls) else None
      | _ => None
      end
  end.

Definition numbers (hs : list hole) : list Z :=
  omap (λ h, match h with HNum z | HBefore z => Some z | _ => None end) hs.
Definition literals (hs : list hole) : list string :=
  omap (λ h, match h with HLit s => Some s | _ => None end) hs.

(** The first piece of code and what follows it. *)
Fixpoint first_code (hs : list hole) : string * list piece :=
  match hs with
  | [] => ("", [])
  | HText s :: hs => let '(c, ps) := first_code hs in (s +:+ c, ps)
  | HNum z :: hs => let '(c, ps) := first_code hs in (to_string z +:+ c, ps)
  | HBefore z :: hs => let '(c, ps) := first_code hs in (before_text z +:+ c, ps)
  | HLit s :: hs => let '(c, ps) := first_code hs in ("", Lit s :: Code c :: ps)
  end.

Lemma render_first cur hs : render cur hs = Code (cur +:+ (first_code hs).1) :: (first_code hs).2.
Proof.
  revert cur. induction hs as [|[s|z|s|z] hs IH]; intros cur; cbn [render first_code];
    try (rewrite IH; destruct (first_code hs); cbn [fst snd]; by rewrite ?str_app_assoc, ?str_app_nil_r).
  cbn [fst snd]. by rewrite str_app_nil_r.
Qed.

(** Numbers of 64 bits, each followed by text that is not a digit; a page condition by
    the order. *)
Fixpoint readable (hs : list hole) : Prop :=
  match hs with
  | [] => True
  | HText _ :: hs | HLit _ :: hs => readable hs
  | HNum z :: hs => is_u64 z ∧ no_digit (first_code hs).1 = true ∧ readable hs
  | HBefore z :: hs =>
      is_u64 z ∧ (∃ hs', hs = HText " ORDER BY id DESC LIMIT " :: hs') ∧ readable hs
  end.

Definition same_shape (h h' : hole) : Prop :=
  match h, h' with
  | HText s, HText s' => s = s'
  | HNum _, HNum _ | HLit _, HLit _ | HBefore _, HBefore _ => True
  | _, _ => False
  end.

Lemma match_first_code pat hs :
  Forall2 same_shape pat hs → readable hs →
  match_holes pat (first_code hs).1 (first_code hs).2 = Some (numbers hs, literals hs).
Proof.
  induction 1 as [|h h' pat hs Hh Hpat IH]; intros Hr; [done|].
  destruct h as [s|z|s|z], h' as [s'|z'|s'|z']; try done; cbn [readable] in Hr;
    cbn [match_holes first_code]; destruct (first_code hs) as [c ps] eqn:Hc; cbn [fst snd] in *.
  - cbn in Hh. subst s'. rewrite strip_app. cbn [mbind option_bind]. by rewrite IH.
  - destruct Hr as (Hz & Hd & Hr). rewrite scan_number, drop_number by (done || apply Hz).
    cbn [mbind option_bind]. by rewrite IH.
  - cbn [str_empty]. by rewrite IH.
  - destruct Hr as (Hz & [hs' ->] & Hr). cbn [first_code] in Hc.
    destruct (first_code hs') as [c' ps']. injection Hc as <- <-. unfold before_text.
    destruct (Z.eqb_spec z' 0) as [->|Hne].
    + change ("" +:+ ?x) with x. rewrite (strip_diverge _ " ORDER BY id DESC LIMIT ") by done.
      by rewrite IH.
    + rewrite <-str_app_assoc, strip_app, scan_number, drop_number by (done || apply Hz).
      cbn [mbind option_bind]. by rewrite IH.
Qed.

(** One statement of each form. *)
Definition all_stmts : list stmt :=
  [SelectUserById 0; SelectUserByName ""; InsertUser "" ""; SetLastSeen 0 0; SelectSessions;
   InsertSession "" 0 0; DeleteSession ""; SelectRoomByName ""; SelectRoomById 0; InsertRoom "";
   InsertMember 0 0; DeleteMember 0 0; SelectMember 0 0; SelectRoomsOf 0; SelectMembers 0;
   InsertDm 0 0 "" 0 0; InsertRoomMsg 0 0 "" 0 0; SelectDm 0 0 0 0; SelectRoomMsgs 0 0 0; SetStatus 0 0;
   InsertQueue 0 0; SelectQueue 0; DeleteQueue 0].

Definition tag (st : stmt) : nat :=
  match st with
  | SelectUserById _ => 0 | SelectUserByName _ => 1 | InsertUser _ _ => 2 | SetLastSeen _ _ => 3
  | SelectSessions => 4 | InsertSession _ _ _ => 5 | DeleteSession _ => 6 | SelectRoomByName _ => 7
  | SelectRoomById _ => 8 | InsertRoom _ => 9 | InsertMember _ _ => 10 | DeleteMember _ _ => 11
  | SelectMember _ _ => 12 | SelectRoomsOf _ => 13 | SelectMembers _ => 14 | InsertDm _ _ _ _ _ => 15
  | InsertRoomMsg _ _ _ _ _ => 16 | SelectDm _ _ _ _ => 17 | SelectRoomMsgs _ _ _ => 18
  | SetStatus _ _ => 19 | InsertQueue _ _ => 20 | SelectQueue _ => 21 | DeleteQueue _ => 22
  end.

Definition with_args (st : stmt) (ns : list Z) (ls : list string) : option stmt :=
  match st, ns, ls with
  | SelectUserById _, [x], [] => Some (SelectUserById x)
  | SelectUserByName _, [], [n] => Some (SelectUserByName n)
  | InsertUser _ _, [], [n; h] => Some (InsertUser n h)
  | SetLastSeen _ _, [s; u], [] => Some (SetLastSeen s u)
  | SelectSessions, [], [] => Some SelectSessions
  | InsertSession _ _ _, [u; s], [t] => Some (InsertSession t u s)
  | DeleteSession _, [], [t] => Some (DeleteSession t)
  | SelectRoomByName _, [], [n] => Some (SelectRoomByName n)
  | SelectRoomById _, [x], [] => Some (SelectRoomById x)
  | InsertRoom _, [], [n] => Some (InsertRoom n)
  | InsertMember _ _, [r; u], [] => Some (InsertMember r u)
  | DeleteMember _ _, [r; u], [] => Some (DeleteMember r u)
  | SelectMember _ _, [r; u], [] => Some (SelectMember r u)
  | SelectRoomsOf _, [u], [] => Some (SelectRoomsOf u)
  | SelectMembers _, [r], [] => Some (SelectMembers r)
  | InsertDm _ _ _ _ _, [s; r; a; b], [c] => Some (InsertDm s r c a b)
  | InsertRoomMsg _ _ _ _ _, [s; r; a; b], [c] => Some (InsertRoomMsg s r c a b)
  | SelectDm _ _ _ _, [a; b; b'; a'; bf; l], [] =>
      if (a =? a') && (b =? b') then Some (SelectDm a b bf l) else None
  | SelectRoomMsgs _ _ _, [r; bf; l], [] => Some (SelectRoomMsgs r bf l)
  | SetStatus _ _, [s; m], [] => Some (SetStatus s m)
  | InsertQueue _ _, [m; u], [] => Some (InsertQueue m u)
  | SelectQueue _, [u], [] => Some (SelectQueue u)
  | DeleteQueue _, [u], [] => Some (DeleteQueue u)
  | _, _, _ => None
  end.

Fixpoint read_among (l : list stmt) (c : string) (ps : list piece) : option stmt :=
  match l with
  | [] => None
  | k :: l =>
      match match_holes (stmt_holes k) c ps with
      | Some (ns, ls) => with_args k ns ls
      | None => read_among l c ps
      end
  end.
Definition read_stmt (ps : list piece) : option stmt :=
  match ps with Code c :: ps => read_among all_stmts c ps | _ => None end.

Definition head_text (st : stmt) : string :=
  match stmt_holes st with HText s :: _ => s | _ => "" end.

Lemma first_code_text s hs : (first_code (HText s :: hs)).1 = s +:+ (first_code hs).1.
Proof. cbn [first_code]. by destruct (first_code hs). Qed.

Lemma head_first st : ∃ c, (first_code (stmt_holes st)).1 = head_text st +:+ c.
Proof. unfold head_text. destruct st; cbn [stmt_holes]; eexists; apply first_code_text. Qed.

(** No form can be taken for another. *)
Lemma heads_differ st k : k ∈ all_stmts → tag k = tag st ∨ diverge (head_text k) (head_text st) = true.
Proof.
  intros Hk%list_elem_of_In.
  assert (forallb (λ k, Nat.eqb (tag k) (tag st) || diverge (head_text k) (head_text st)) all_stmts = true) as Hf
    by (destruct st; vm_compute; reflexivity).
  rewrite forallb_forall in Hf. specialize (Hf k Hk). apply orb_prop in Hf as [H|H]; [left|by right].
  by apply Nat.eqb_eq.
Qed.

Lemma same_form st k : k ∈ all_stmts → tag k = tag st →
  Forall2 same_shape (stmt_holes k) (stmt_holes st) ∧
  with_args k (numbers (stmt_holes st)) (literals (stmt_holes st)) = Some st.
Proof.
  intros Hk Ht. unfold all_stmts in Hk. rewrite !elem_of_cons, elem_of_nil in Hk.
  destruct_or! Hk; try done; subst k; destruct st; try discriminate Ht;
    (split; [repeat constructor|]); cbn; rewrite ?Z.eqb_refl; done.
Qed.

Lemma stmt_readable st : stmt_typed st → readable (stmt_holes st).
Proof.
  intros Ht. destruct st; cbn in *; unfold stamp_secs, is_u8, is_u64 in *;
    split_and?; try done; try lia; try (by eexists); try (by unfold before_text; case_match).
Qed.

Lemma read_stmt_pieces st : stmt_typed st → read_stmt (stmt_pieces st) = Some st.
Proof.
  intros Ht. unfold stmt_pieces. rewrite render_first. cbn [read_stmt].
  change ("" +:+ (first_code (stmt_holes st)).1) with (first_code (stmt_holes st)).1.
  assert (∀ l, (∀ k, k ∈ l → k ∈ all_stmts) → (∃ k, k ∈ l ∧ tag k = tag st) →
    read_among l (first_code (stmt_holes st)).1 (first_code (stmt_holes st)).2 = Some st) as Hgo.
  { induction l as [|k l IH]; intros Hl (k0 & Hk0 & Htag); [by apply elem_of_nil in Hk0|].
    cbn [read_among]. destruct (heads_differ st k (Hl k ltac:(by left))) as [Heq|Hd].
    - destruct (same_form st k (Hl k ltac:(by left)) Heq) as [Hs Ha].
      by rewrite (match_first_code _ _ Hs (stmt_readable st Ht)).
    - assert (match_holes (stmt_holes k) (first_code (stmt_holes st)).1 (first_code (stmt_holes st)).2 = None) as ->.
      { destruct (head_first st) as [c ->]. unfold head_text in Hd at 1.
        destruct (stmt_holes k) as [|[s| | |] hs]; try done. cbn [match_holes]. by rewrite strip_diverge. }
      apply IH; [intros k' Hk'; apply Hl; by right|]. exists k0. split; [|done].
      apply elem_of_cons in Hk0 as [->|]; [|done]. exfalso.
      assert (head_text k = head_text st) as Hh by (destruct k, st; try discriminate Htag; done).
      rewrite Hh, diverge_irrefl in Hd. done. }
  apply Hgo; [done|]. exists (nth (tag st) all_stmts SelectSessions).
  split; [|by destruct st]. apply list_elem_of_In, nth_In. destruct st; cbn; lia.
Qed.

(** ** A server that does so *)

(** [AUTO_INCREMENT]: one more than the largest key. *)
Definition next_id (l : list Z) : Z := 1 + foldr Z.max 0 l.

Lemma next_id_pos l : 0 < next_id l.
Proof. unfold next_id. induction l; cbn; lia. Qed.

Lemma next_id_above l x : x ∈ l → x < next_id l.
Proof. unfold next_id. induction 1; cbn; lia. Qed.

Lemma next_id_exhausted l : ¬ is_u64 (next_id l) → exhausted l.
Proof.
  pose proof (next_id_pos l) as Hp. intros Hn.
  assert (u64_max <= foldr Z.max 0 l) as Hm by (unfold is_u64, u64_max, next_id in *; lia).
  clear Hp Hn. induction l as [|x l IH]; cbn [foldr] in Hm; [by apply Zle_not_lt in Hm|].
  destruct (Z.le_gt_cases u64_max x) as [Hx|Hx]; [exists x; split; [by left|done]|].
  destruct IH as (y & Hy & Hle); [lia|]. exists y. split; [by right|done].
Qed.

Definition named {V : Type} (tbl : gmap Z V) (name : V → string) (n : string) : option V :=
  snd <$> List.find (λ p : Z * V, String.eqb (name p.2) n) (map_to_list tbl).

Lemma named_by_name {V : Type} (tbl : gmap Z V) name n : by_name eq tbl name n (named tbl name n).
Proof.
  unfold named. destruct (List.find _ _) as [[id v]|] eqn:Hf; cbn.
  - apply List.find_some in Hf as [Hin Heq]. exists id.
    rewrite <-elem_of_map_to_list, list_elem_of_In. split; [done|]. by apply String.eqb_eq.
  - intros id v Hv Heq. apply elem_of_map_to_list, list_elem_of_In in Hv.
    apply (List.find_none _ _ Hf) in Hv. cbn in Hv. by rewrite Heq, String.eqb_refl in Hv.
Qed.

Lemma named_taken {V : Type} (tbl : gmap Z V) name n v :
  named tbl name n = Some v → ¬ by_name eq tbl name n None.
Proof.
  intros Hn Hno. pose proof (named_by_name tbl name n) as Hb. rewrite Hn in Hb.
  destruct Hb as (id & Hv & Heq). by apply (Hno id v).
Qed.

(** One clock reading, in milliseconds. *)
Definition server_now : Z := 1700000000000.

Definition selected (rows : list row) (t : tables) : query_result * tables := (QueryDone (Some rows) 0, t).

Definition exec_insert (ok : bool) (id : Z) (f : Z → tables → tables) (t : tables) : query_result * tables :=
  if ok && bool_decide (is_u64 id) then (QueryDone None id, f id t) else (QueryError 1062, t).

Definition exec_stmt (st : stmt) (t : tables) : query_result * tables :=
  match st with
  | SelectUserById id => selected (user_row <$> option_list (t.(t_users) !! id)) t
  | SelectUserByName n => selected (user_row <$> option_list (named t.(t_users) u_username n)) t
  | InsertUser n h =>
      exec_insert (bool_decide (named t.(t_users) u_username n = None)) (next_id (keys t.(t_users)))
        (λ id, set_t_users (<[id := mkUser id n h server_now 0]>)) t
  | SetLastSeen secs uid => (QueryDone None 0, set_t_users (alter (last_seen secs) uid) t)
  | SelectSessions =>
      selected ((λ '(tok, (u, s)), session_row tok u s) <$> map_to_list t.(t_sessions)) t
  | InsertSession tok uid secs =>
      if bool_decide (is_Some (t.(t_users) !! uid)) then
        (QueryDone None 0, set_t_sessions (<[tok := (from_option fst uid (t.(t_sessions) !! tok), secs)]>) t)
      else (QueryError 1452, t)
  | DeleteSession tok => (QueryDone None 0, set_t_sessions (delete tok) t)
  | SelectRoomByName n => selected (room_row <$> option_list (named t.(t_rooms) room_name n)) t
  | SelectRoomById id => selected (room_row <$> option_list (t.(t_rooms) !! id)) t
  | InsertRoom n =>
      exec_insert (bool_decide (named t.(t_rooms) room_name n = None)) (next_id (keys t.(t_rooms)))
        (λ id, set_t_rooms (<[id := mkRoom id n server_now]>)) t
  | InsertMember rid uid =>
      (QueryDone None 0,
       if bool_decide (is_Some (t.(t_rooms) !! rid) ∧ is_Some (t.(t_users) !! uid))
       then set_t_members (λ s, {[(rid, uid)]} ∪ s) t else t)
  | DeleteMember rid uid => (QueryDone None 0, set_t_members (λ s, s ∖ {[(rid, uid)]}) t)
  | SelectMember rid uid =>
      selected (if bool_decide ((rid, uid) ∈ t.(t_members)) then [[Some "1"]] else []) t
  | SelectRoomsOf uid =>
      selected (room_row ∘ snd <$>
        List.filter (λ p : Z * Room, bool_decide ((p.1, uid) ∈ t.(t_members))) (map_to_list t.(t_rooms))) t
  | SelectMembers rid =>
      selected (member_row ∘ snd <$> elements (filter (λ p : Z * Z, p.1 = rid) t.(t_members))) t
  | InsertDm s rcv c secs frac =>
      exec_insert (bool_decide (is_Some (t.(t_users) !! s) ∧ is_Some (t.(t_users) !! rcv)))
        (next_id (m_id <$> t.(t_messages)))
        (λ id, set_t_messages (λ l, l ++ [mkMessage id s (Some rcv) None c 0 (stored_ms secs frac)])) t
  | InsertRoomMsg s rid c secs frac =>
      exec_insert (bool_decide (is_Some (t.(t_users) !! s) ∧ is_Some (t.(t_rooms) !! rid)))
        (next_id (m_id <$> t.(t_messages)))
        (λ id, set_t_messages (λ l, l ++ [mkMessage id s None (Some rid) c 0 (stored_ms secs frac)])) t
  | SelectDm a b before lim => selected (stored_row <$> page (dm_matches a b) before lim t) t
  | SelectRoomMsgs rid before lim => selected (stored_row <$> page (room_matches rid) before lim t) t
  | SetStatus st mid => (QueryDone None 0, set_t_messages (set_status mid st) t)
  | InsertQueue mid uid =>
      (QueryDone None 0,
       if bool_decide (has_message mid t ∧ is_Some (t.(t_users) !! uid))
       then set_t_queue (λ s, {[(uid, mid)]} ∪ s) t else t)
  | SelectQueue uid => selected (stored_row <$> queued uid t) t
  | DeleteQueue uid => (QueryDone None 0, set_t_queue (filter (λ p : Z * Z, p.1 ≠ uid)) t)
  end.

Lemma exec_insert_cases ok ids f t :
  let id := next_id ids in let '(r, t') := exec_insert ok id f t in
  (ok = true ∧ is_u64 id ∧ r = QueryDone None id ∧ t' = f id t) ∨
  ((ok = false ∨ exhausted ids) ∧ refused t r t').
Proof.
  intros id. unfold exec_insert. destruct ok; cbn [andb].
  - case_bool_decide as Hid; [by left|]. right. split; [right; by apply next_id_exhausted|].
    split; [done|by eexists].
  - right. split; [by left|]. split; [done|by eexists].
Qed.

(** A unique name and a new key. *)
Lemma exec_insert_named {V : Type} (tbl : gmap Z V) name n f mk t :
  (∀ id, f id t = mk id server_now t) →
  let '(r, t') := exec_insert (bool_decide (named tbl name n = None)) (next_id (keys tbl)) f t in
  (by_name eq tbl name n None ∧ ∃ id ms, fresh_id tbl id ∧ clock ms ∧ r = QueryDone None id ∧ t' = mk id ms t) ∨
  ((¬ by_name eq tbl name n None ∨ exhausted (keys tbl)) ∧ refused t r t').
Proof.
  intros Hf. pose proof (exec_insert_cases (bool_decide (named tbl name n = None)) (keys tbl) f t) as Hc.
  cbn zeta in Hc. destruct (exec_insert _ _ _ _) as [r t'].
  destruct Hc as [(Hok & Hid & -> & ->)|[Hno Hr]].
  - left. apply bool_decide_eq_true in Hok. split; [rewrite <-Hok; apply named_by_name|].
    exists (next_id (keys tbl)), server_now. rewrite Hf. split_and!; try done.
    + pose proof (next_id_pos (keys tbl)). split; [done|]. split; [lia|].
      apply eq_None_not_Some. intros [v Hv%elem_of_map_to_list].
      assert (next_id (keys tbl) ∈ keys tbl) as Hin by (apply list_elem_of_fmap; by eexists (_, v)).
      apply next_id_above in Hin. lia.
    + exists 1700000000. by split.
  - right. split; [|done]. destruct Hno as [Hno|He]; [left|by right].
    apply bool_decide_eq_false, not_eq_None_Some in Hno as [v Hv]. by eapply named_taken.
Qed.

Lemma exec_insert_message (ok : Prop) `{!Decision ok} mk t :
  let '(r, t') := exec_insert (bool_decide ok) (next_id (m_id <$> t.(t_messages)))
    (λ id, set_t_messages (λ l, l ++ [mk id])) t in
  inserts_message ok mk t r t'.
Proof.
  pose proof (exec_insert_cases (bool_decide ok) (m_id <$> t.(t_messages))
    (λ id, set_t_messages (λ l, l ++ [mk id])) t) as Hc.
  cbn zeta in Hc. destruct (exec_insert _ _ _ _) as [r t']. unfold inserts_message.
  destruct Hc as [(Hok & Hid & -> & ->)|[Hno Hr]].
  - left. split; [by eapply bool_decide_eq_true|]. eexists. split_and!; try done.
    + pose proof (next_id_pos (m_id <$> t.(t_messages))). lia.
    + intros m Hm. apply next_id_above, list_elem_of_fmap. by exists m.
  - right. split; [|done]. destruct Hno as [Hno|He]; [left|by right]. by apply bool_decide_eq_false in Hno.
Qed.

Lemma exec_stmt_effect st t : let '(r, t') := exec_stmt st t in sql_effect eq st t r t'.
Proof.
  destruct st; cbn [exec_stmt sql_effect selected];
    lazymatch goal with
    | |- context [exec_insert (bool_decide (named _ _ _ = _))] =>
        by apply (exec_insert_named _ _ _ _ (λ id ms, _))
    | |- context [exec_insert] => apply exec_insert_message
    | |- writes _ ∧ _ => split; [by eexists|done]
    | |- reads _ _ _ _ => split; [done|do 2 eexists; split; [reflexivity|]]
    | _ => idtac
    end; try done.
  - eexists. split; [done|]. apply named_by_name.
  - eexists. by split.
  - case_bool_decide as Hu; [left|right].
    + split; [done|]. split; [by eexists|done].
    + split; [by apply eq_None_not_Some|]. split; [done|by eexists].
  - eexists. split; [done|]. apply named_by_name.
  - case_bool_decide; by split.
  - eexists. split; [done|]. split; [apply NoDup_ListNoDup, List.NoDup_filter, NoDup_ListNoDup, NoDup_map_to_list|]. intros rid rm.
    rewrite list_elem_of_In, filter_In, <-list_elem_of_In, elem_of_map_to_list, bool_decide_eq_true. cbn. tauto.
  - exists (snd <$> elements (filter (λ p : Z * Z, p.1 = rid) (t_members t))).
    rewrite <-list_fmap_compose. split; [done|].
    assert (∀ p, p ∈ elements (filter (λ p : Z * Z, p.1 = rid) (t_members t)) ↔ p.1 = rid ∧ p ∈ t_members t) as Hin
      by (intros p; by rewrite elem_of_elements, elem_of_filter). split.
    + apply NoDup_fmap_2_strong; [|apply NoDup_elements].
      intros [r1 u1] [r2 u2] [H1 _]%Hin [H2 _]%Hin Heq. cbn in *. by subst.
    + intros u. rewrite list_elem_of_fmap. split.
      * intros ([r v] & -> & [<- Hm]%Hin). done.
      * intros Hm. exists (rid, u). split; [done|]. by apply Hin.
Qed.

Lemma exec_select st t : is_select st = true → (exec_stmt st t).2 = t.
Proof. by destruct st. Qed.

#[export] Instance tables_server : MysqlServer tables := {|
  mysql_real_escape_string := backslash_escape;
  mysql_real_query := λ q d,
    match sql_pieces q ≫= read_stmt with
    | Some st => exec_stmt st d
    | None => (QueryError 1064, d)
    end;
|}.

#[export] Instance tables_escape : EscapeLaw tables.
Proof. exact (escape_denotes (D := scripted)). Qed.

#[export, refine] Instance tables_laws : SqlServer tables := {|
  view := λ t, t;
  same_text := eq;
|}.
Proof.
  - done.
  - intros q st d Hq Ht. pose proof (exec_stmt_effect st d) as He. pose proof (exec_select st d) as Hs.
    destruct (exec_stmt st d) as [r d'] eqn:Hx. exists r, d'. split; [|by split].
    cbn [mysql_real_query tables_server]. rewrite Hq. cbn [mbind option_bind].
    by rewrite read_stmt_pieces.
Defined.
