(* ===== verification/MysqlStores.v ===== *)
(** * The MySQL half as the store of sessions and rooms

    [SessionManager] and [RoomManager] are proved against the interfaces
    [SessionStore] and [RoomStore].  Here the MySQL half of
    [src/db/repositories.cpp] is shown to implement both, from what the tables of
    [scripts/init_db.sql] do with the statements it sends ([SqlServer]).  The one
    place where it does not is joining a room that does not exist:
    [INSERT IGNORE] reports success. *)
From S2P Require Import Prelude Util Crypto Repositories Session RoomManager MysqlRepositories MysqlTables.

(** ** The tables *)

Section tables.
Context {D : Type} `{MysqlServer D} `{!EscapeLaw D} `{!SqlServer D}.
Implicit Types (d : D).

Definition tb_users d : gset Z := dom (view d).(t_users).
Definition tb_rooms d : gset Z := dom (view d).(t_rooms).
Definition tb_sessions d : gmap string (Z * Z) := (view d).(t_sessions).
Definition tb_members d : gset (Z * Z) := (view d).(t_members).

Lemma tb_select_sessions d : ∃ l i,
  mysql_real_query sessions_sql d = (QueryDone (Some ((λ '(t, (u, s)), session_row t u s) <$> l)) i, d) ∧
  l ≡ₚ map_to_list (tb_sessions d).
Proof.
  destruct (sql_runs _ _ d sessions_sends) as (r & d' & Hq & (_ & rows & i & -> & l & Hl & ->) & Hd); [done|].
  rewrite Hd in Hq by done. by exists l, i.
Qed.

Lemma tb_insert_session tok uid ts d :
  session_key tok → is_u64 uid → uid ∈ tb_users d → stamp_secs (Z.quot ts 1000) → ∃ i d',
    mysql_real_query (insert_session_sql tok uid ts) d = (QueryDone None i, d') ∧
    tb_sessions d' = <[tok := (from_option fst uid (tb_sessions d !! tok), Z.quot ts 1000)]> (tb_sessions d) ∧
    tb_users d' = tb_users d ∧ tb_rooms d' = tb_rooms d ∧ tb_members d' = tb_members d.
Proof.
  intros Hk Hu Hin Hs. unfold tb_users in Hin. apply elem_of_dom in Hin.
  destruct (sql_runs _ _ d (insert_session_sends tok uid ts)) as (r & d' & Hq & He & _); [done|].
  destruct He as [(_ & [i ->] & Hv)|[Hno _]]; [|rewrite Hno in Hin; by destruct Hin].
  exists i, d'. split; [done|]. unfold tb_sessions, tb_users, tb_rooms, tb_members. by rewrite Hv.
Qed.

Lemma tb_delete_session tok d :
  session_key tok → ∃ i d',
    mysql_real_query (delete_session_sql tok) d = (QueryDone None i, d') ∧
    tb_sessions d' = delete tok (tb_sessions d) ∧
    tb_users d' = tb_users d ∧ tb_rooms d' = tb_rooms d ∧ tb_members d' = tb_members d.
Proof.
  intros Hk. destruct (sql_runs _ _ d (delete_session_sends tok)) as (r & d' & Hq & ([i ->] & Hv) & _); [done|].
  exists i, d'. split; [done|]. unfold tb_sessions, tb_users, tb_rooms, tb_members. by rewrite Hv.
Qed.

Lemma tb_select_members rid d :
  is_u64 rid → ∃ l i,
    mysql_real_query (room_members_sql rid) d = (QueryDone (Some (member_row <$> l)) i, d) ∧
    NoDup l ∧ ∀ u, u ∈ l ↔ (rid, u) ∈ tb_members d.
Proof.
  intros Hr. destruct (sql_runs _ _ d (room_members_sends rid))
    as (r & d' & Hq & (_ & rows & i & -> & l & -> & Hl) & Hd); [done|].
  rewrite Hd in Hq by done. by exists l, i.
Qed.

Lemma tb_insert_member rid uid d :
  is_u64 rid → is_u64 uid → ∃ i d',
    mysql_real_query (join_room_sql rid uid) d = (QueryDone None i, d') ∧
    tb_members d' = (if bool_decide (rid ∈ tb_rooms d ∧ uid ∈ tb_users d)
                     then {[(rid, uid)]} ∪ tb_members d else tb_members d) ∧
    tb_sessions d' = tb_sessions d ∧ tb_users d' = tb_users d ∧ tb_rooms d' = tb_rooms d.
Proof.
  intros Hr Hu. destruct (sql_runs _ _ d (join_room_sends rid uid)) as (r & d' & Hq & ([i ->] & Hv) & _); [done|].
  exists i, d'. split; [done|]. unfold tb_sessions, tb_users, tb_rooms, tb_members. rewrite Hv.
  case_bool_decide as H1; case_bool_decide as H2; try done; rewrite !elem_of_dom in H2; tauto.
Qed.

Lemma tb_delete_member rid uid d :
  is_u64 rid → is_u64 uid → ∃ i d',
    mysql_real_query (leave_room_sql rid uid) d = (QueryDone None i, d') ∧
    tb_members d' = tb_members d ∖ {[(rid, uid)]} ∧
    tb_sessions d' = tb_sessions d ∧ tb_users d' = tb_users d ∧ tb_rooms d' = tb_rooms d.
Proof.
  intros Hr Hu. destruct (sql_runs _ _ d (leave_room_sends rid uid)) as (r & d' & Hq & ([i ->] & Hv) & _); [done|].
  exists i, d'. split; [done|]. unfold tb_sessions, tb_users, tb_rooms, tb_members. by rewrite Hv.
Qed.
End tables.

(** ** The stores *)

(** An operation while the pool is open.  What a statement leaves on its
    connection goes back with the lease and is not seen by the next operation. *)
Definition on_tables {D A : Type} (m : M (Db D) A) : M D A := λ d,
  let '(o, s) := m (mkDb d (QueryError 0) false) in (o, s.(db)).

#[export] Instance mysql_session_store {D} `{MysqlServer D} : SessionStore D := {
  ss_load := on_tables load_all_sessions;
  ss_insert := λ tok uid ts, on_tables (insert_session tok uid ts);
  ss_delete := λ tok, on_tables (delete_session tok);
}.

#[export] Instance mysql_room_store {D} `{MysqlServer D} : RoomStore D := {
  rs_list_members := λ rid, on_tables (list_room_members rid);
  rs_join := λ rid uid, on_tables (join_room rid uid);
  rs_leave := λ rid uid, on_tables (leave_room rid uid);
}.

(** The rows the program wrote: what the column types and foreign keys allow, and
    tokens it drew. *)
Record tables_ok {D} `{SqlServer D} (d : D) : Prop := {
  to_sessions : ∀ tok uid s, tb_sessions d !! tok = Some (uid, s) →
    session_key tok ∧ is_u64 uid ∧ stamp_secs s;
  to_members : ∀ rid uid, (rid, uid) ∈ tb_members d →
    is_u64 rid ∧ is_u64 uid ∧ rid ∈ tb_rooms d ∧ uid ∈ tb_users d;
}.

(** The sessions, times in milliseconds. *)
Definition mysql_sessions {D} `{SqlServer D} (d : D) : gmap string (Z * Z) :=
  (λ '(u, s), (u, s * 1000)) <$> tb_sessions d.

Definition mysql_members {D} `{SqlServer D} (d : D) (rid : Z) : gset Z :=
  set_map snd (filter (λ p : Z * Z, p.1 = rid) (tb_members d)).

(** ** Operations as statements *)

Section operations.
Context {D : Type} `{MysqlServer D}.

Lemma tables_execute q d r i d' :
  mysql_real_query q d = (QueryDone r i, d') → on_tables (execute q) d = (Ret tt, d').
Proof.
  intros Hq. unfold on_tables, execute, with_lease. cbn [pool_stopping].
  erewrite M_bind_ret by (unfold exec; cbn [db]; rewrite Hq; reflexivity). done.
Qed.

Lemma tables_exec q d r i d' :
  mysql_real_query q d = (QueryDone r i, d') →
  on_tables (with_lease false (exec q)) d = (Ret true, d').
Proof. intros Hq. unfold on_tables, with_lease, exec. cbn [pool_stopping db]. by rewrite Hq. Qed.

(** [decode] undoes [encode] on the rows of the table. *)
Lemma tables_select {A B : Type} (encode : B → row) (decode : row → outcome A) (f : B → A) q d l i :
  mysql_real_query q d = (QueryDone (Some (encode <$> l)) i, d) →
  Forall (λ x, decode (encode x) = Ret (f x)) l →
  on_tables (select_all q decode) d = (Ret (f <$> l), d).
Proof.
  intros Hq Hl. unfold on_tables, select_all, with_lease. cbn [pool_stopping].
  erewrite M_bind_ret by (unfold exec; cbn [db]; rewrite Hq; reflexivity). cbn [negb].
  erewrite M_bind_ret by reflexivity. cbn [last_result lift].
  assert (decode_rows decode (encode <$> l) = Ret (f <$> l)) as ->; [|done].
  clear Hq. induction Hl as [|x l Hx Hl IH]; [done|]. cbn [fmap list_fmap decode_rows].
  rewrite Hx. cbn [mbind outcome_bind]. by rewrite IH.
Qed.
End operations.

(** *** Rows *)

Lemma session_key_no_nul tok : session_key tok → "000"%char ∉ chars tok.
Proof.
  intros [_ Hh] Hin. apply list_elem_of_In in Hin.
  rewrite forallb_forall in Hh. by specialize (Hh _ Hin).
Qed.

Lemma decode_session_row tok uid s :
  session_key tok → is_u64 uid → stamp_secs s →
  decode_session (session_row tok uid s) = Ret (mkSessionRow tok uid (s * 1000)).
Proof.
  intros Hk Hu Hs. unfold stamp_secs, is_u64 in *.
  unfold decode_session, stoull_or_0, stoll_or_0, text_or_empty, cell, session_row. cbn.
  rewrite !cstr_to_string, stoul_to_string by (unfold is_u64; lia). cbn.
  rewrite stoll_to_string by lia. cbn. by rewrite cstr_id by by apply session_key_no_nul.
Qed.

Lemma decode_member_row uid : is_u64 uid → stoull_opt (member_row uid) 0 = Ret (Some uid).
Proof.
  intros Hu. unfold stoull_opt, cell, member_row. cbn.
  rewrite cstr_to_string by (unfold is_u64 in *; lia). by rewrite stoul_to_string.
Qed.

Lemma tables_list_members {D} `{MysqlServer D} rid (d : D) l i :
  mysql_real_query (room_members_sql rid) d = (QueryDone (Some (member_row <$> l)) i, d) →
  Forall is_u64 l → on_tables (list_room_members rid) d = (Ret l, d).
Proof.
  intros Hq Hl.
  assert (on_tables (select_all (room_members_sql rid) (λ r, stoull_opt r 0)) d = (Ret (Some <$> l), d)) as Hs.
  { eapply tables_select; [exact Hq|]. eapply Forall_impl; [exact Hl|]. apply decode_member_row. }
  unfold on_tables, list_room_members in *. unfold mbind, M_bind at 1.
  destruct (select_all _ _ _) as [o s]. injection Hs as -> Hd. cbn. rewrite Hd. do 2 f_equal.
  clear. induction l as [|x l IH]; [done|]. cbn. by f_equal.
Qed.

(** 32 bytes give a key. *)
Lemma token_key rand : length rand = 32%nat → session_key (make_session_token rand).
Proof.
  intros Hl. unfold make_session_token. split; [by rewrite hex_encode_length, Hl|]. clear Hl.
  assert (∀ z, hex_char (char_at kHex (Z.land z 15)) = true) as Hd.
  { intros z. change 15 with (Z.ones 4). rewrite Z.land_ones by done.
    apply (forallb_range (λ i, hex_char (char_at kHex i)) 16 eq_refl). by apply Z.mod_pos_bound. }
  induction rand as [|b rand IH]; [done|]. cbn [hex_encode chars forallb]. by rewrite !Hd.
Qed.

(** ** The specifications *)

Section stores.
Context {D : Type} `{MysqlServer D} `{!EscapeLaw D} `{!SqlServer D}.
Implicit Types (d : D).

Lemma mysql_load d : tables_ok d → ∃ rows,
  on_tables load_all_sessions d = (Ret rows, d) ∧ NoDup (sr_token <$> rows) ∧
  ∀ tok uid ts, mkSessionRow tok uid ts ∈ rows ↔ mysql_sessions d !! tok = Some (uid, ts).
Proof.
  intros Hok. destruct (tb_select_sessions d) as (l & i & Hq & Hl).
  assert (Hin : ∀ t u s, (t, (u, s)) ∈ l ↔ tb_sessions d !! t = Some (u, s)).
  { intros t u s. by rewrite Hl, elem_of_map_to_list. }
  exists ((λ '(t, (u, s)), mkSessionRow t u (s * 1000)) <$> l). split_and!.
  - eapply tables_select; [exact Hq|]. apply Forall_forall. intros [t [u s]] Ht.
    apply Hin, (to_sessions _ Hok) in Ht as (Hk & Hu & Hs). by apply decode_session_row.
  - rewrite <-list_fmap_compose.
    rewrite (list_fmap_ext _ fst) by (by intros _ [t [u s]] _). rewrite Hl.
    apply NoDup_fst_map_to_list.
  - intros tok uid ts. unfold mysql_sessions. rewrite list_elem_of_fmap, lookup_fmap_Some. split.
    + intros ([t [u s]] & [= -> -> ->] & Ht%Hin). by exists (u, s).
    + intros ([u s] & [= <- <-] & Ht%Hin). by exists (tok, (u, s)).
Qed.

Lemma mysql_insert tok uid ts d :
  tables_ok d → session_key tok → is_u64 uid → uid ∈ tb_users d → stamp_secs (ts / 1000) →
  tb_sessions d !! tok = None → ∃ d',
    on_tables (insert_session tok uid ts) d = (Ret tt, d') ∧ tables_ok d' ∧
    mysql_sessions d' = <[tok := (uid, ts / 1000 * 1000)]> (mysql_sessions d).
Proof.
  intros Hok Hk Hu Hin Hts Hnone.
  assert (0 <= ts) as Hpos by (unfold stamp_secs in Hts; Z.div_mod_to_equations; lia).
  pose proof (Z.quot_div_nonneg ts 1000 Hpos eq_refl) as Hquot. rewrite <-Hquot in *.
  destruct (tb_insert_session tok uid ts d) as (i & d' & Hq & Hs & Hus & Hro & Hme); [done..|].
  rewrite Hnone in Hs. cbn [from_option] in Hs. exists d'.
  split; [by eapply tables_execute|]. split.
  - split; [|rewrite Hme, Hro, Hus; apply Hok]. intros t u s. rewrite Hs, lookup_insert_Some.
    intros [[<- [= <- <-]]|[_ Ht]]; [done|]. by apply (to_sessions _ Hok).
  - unfold mysql_sessions. by rewrite Hs, fmap_insert.
Qed.

Lemma mysql_delete tok d :
  tables_ok d → session_key tok → ∃ d',
    on_tables (delete_session tok) d = (Ret tt, d') ∧ tables_ok d' ∧
    mysql_sessions d' = delete tok (mysql_sessions d).
Proof.
  intros Hok Hk. destruct (tb_delete_session tok d Hk) as (i & d' & Hq & Hs & Hus & Hro & Hme).
  exists d'. split; [by eapply tables_execute|]. split.
  - split; [|rewrite Hme, Hro, Hus; apply Hok]. intros t u s. rewrite Hs, lookup_delete_Some.
    intros [_ Ht]. by apply (to_sessions _ Hok).
  - unfold mysql_sessions. by rewrite Hs, fmap_delete.
Qed.

Lemma elem_of_mysql_members d rid u : u ∈ mysql_members d rid ↔ (rid, u) ∈ tb_members d.
Proof.
  unfold mysql_members. rewrite elem_of_map. split.
  - intros ([r v] & -> & [Hr Hin]%elem_of_filter). cbn in *. by subst.
  - intros Hin. exists (rid, u). split; [done|]. by apply elem_of_filter.
Qed.

Lemma mysql_list rid d : tables_ok d → is_u64 rid → ∃ l,
  on_tables (list_room_members rid) d = (Ret l, d) ∧ list_to_set l = mysql_members d rid.
Proof.
  intros Hok Hr. destruct (tb_select_members rid d Hr) as (l & i & Hq & _ & Hl).
  exists l. split.
  - apply tables_list_members with i; [done|]. apply Forall_forall. intros u Hu.
    by apply Hl, (to_members _ Hok) in Hu as (_ & Hu & _).
  - apply leibniz_equiv. intros u. by rewrite elem_of_list_to_set, Hl, elem_of_mysql_members.
Qed.

(** [join_room] succeeds whatever it is given; the row is there only when the room
    and the user are. *)
Lemma mysql_join rid uid d :
  tables_ok d → is_u64 rid → is_u64 uid → ∃ d',
    on_tables (join_room rid uid) d = (Ret true, d') ∧ tables_ok d' ∧
    ∀ rid', mysql_members d' rid' =
      if bool_decide (rid ∈ tb_rooms d ∧ uid ∈ tb_users d) && (rid' =? rid)
      then {[uid]} ∪ mysql_members d rid' else mysql_members d rid'.
Proof.
  intros Hok Hr Hu. destruct (tb_insert_member rid uid d Hr Hu) as (i & d' & Hq & Hm & Hs & Hus & Hro).
  exists d'. split; [by eapply tables_exec|]. split.
  - split; [rewrite Hs; apply Hok|]. intros r u. rewrite Hm, Hro, Hus.
    case_bool_decide as Hin; [|apply Hok]. rewrite elem_of_union, elem_of_singleton.
    intros [[= -> ->]|Hmem]; [by destruct Hin|by apply (to_members _ Hok)].
  - intros rid'. apply leibniz_equiv. intros u. rewrite elem_of_mysql_members, Hm.
    case_bool_decide; cbn [andb]; [|by rewrite elem_of_mysql_members].
    destruct (Z.eqb_spec rid' rid) as [->|Hne];
      rewrite ?elem_of_union, ?elem_of_singleton, elem_of_mysql_members; naive_solver.
Qed.

Lemma mysql_leave rid uid d :
  tables_ok d → is_u64 rid → is_u64 uid → ∃ d',
    on_tables (leave_room rid uid) d = (Ret true, d') ∧ tables_ok d' ∧
    ∀ rid', mysql_members d' rid' =
      if rid' =? rid then mysql_members d rid' ∖ {[uid]} else mysql_members d rid'.
Proof.
  intros Hok Hr Hu. destruct (tb_delete_member rid uid d Hr Hu) as (i & d' & Hq & Hm & Hs & Hus & Hro).
  exists d'. split; [by eapply tables_exec|]. split.
  - split; [rewrite Hs; apply Hok|]. intros r u. rewrite Hm, Hro, Hus, elem_of_difference. intros [Hin _].
    by apply (to_members _ Hok).
  - intros rid'. apply leibniz_equiv. intros u. rewrite elem_of_mysql_members, Hm.
    destruct (Z.eqb_spec rid' rid) as [->|Hne];
      rewrite ?elem_of_difference, ?elem_of_singleton, ?elem_of_mysql_members; naive_solver.
Qed.
End stores.

(** ** The MySQL half implements the interfaces *)

#[export, refine] Instance mysql_session_laws {D} `{MysqlServer D} `{!EscapeLaw D} `{!SqlServer D} :
    SessionStoreLaws D := {|
  ss_ok := tables_ok;
  ss_key := session_key;
  ss_accepts := λ d uid ts, is_u64 uid ∧ uid ∈ tb_users d ∧ stamp_secs (ts / 1000);
  ss_view := mysql_sessions;
  ss_stamp := λ ts, ts / 1000 * 1000;
|}.
Proof.
  - intros ts. Z.div_mod_to_equations. lia.
  - apply mysql_load.
  - intros tok uid ts d Hok Hk (Hu & Hin & Hts) Hnone. apply mysql_insert; try done.
    unfold mysql_sessions in Hnone. rewrite lookup_fmap in Hnone. by destruct (tb_sessions d !! tok).
  - apply mysql_delete.
Defined.

#[export, refine] Instance mysql_room_laws {D} `{MysqlServer D} `{!EscapeLaw D} `{!SqlServer D} :
    RoomStoreLaws D := {|
  rs_ok := tables_ok;
  rs_id := is_u64;
  rs_accepts := λ d rid uid, is_u64 rid ∧ is_u64 uid ∧ rid ∈ tb_rooms d ∧ uid ∈ tb_users d;
  rs_members := mysql_members;
|}.
Proof.
  - intros rid d. apply mysql_list.
  - intros rid uid d Hok (Hr & Hu & Hin). destruct (mysql_join rid uid d Hok Hr Hu) as (d' & He & Hok' & Hm).
    exists true, d'. split; [done|]. split; [done|]. intros rid'. by rewrite Hm, bool_decide_eq_true_2.
  - intros rid uid d Hok Hr Hu. destruct (mysql_leave rid uid d Hok Hr Hu) as (d' & He & Hok' & Hm).
    by exists true, d'.
Defined.

(** A user who joins a room that does not exist is told so neither by the store nor
    by the cache. *)
Lemma join_unknown_room {D} `{MysqlServer D} `{!EscapeLaw D} `{!SqlServer D} rid uid (d : D) :
  tables_ok d → is_u64 rid → is_u64 uid → rid ∉ tb_rooms d → ∃ rm d',
    (on_store (rs_join rid uid) ;; on_join rid uid ;; RoomManager.is_member rid uid) (rooms_init, d) =
      (Ret true, (rm, d')) ∧ (rid, uid) ∉ tb_members d'.
Proof.
  intros Hok Hr Hu Hno. destruct (mysql_join rid uid d Hok Hr Hu) as (d' & He & Hok' & Hm).
  assert (rooms_inv (mkSys rooms_init d' ∅)) as Hi0 by (apply rooms_inv_init; exact Hok').
  destruct (ensure_loaded_spec rid rooms_init d' ∅ Hi0 Hr)
    as (rm1 & s & Hl & Hi & Hs).
  do 2 eexists. split.
  - erewrite M_bind_ret by (unfold on_store; cbn [rs_join mysql_room_store]; rewrite He; reflexivity).
    erewrite M_bind_ret by (unfold on_join; erewrite M_bind_ret by exact Hl; reflexivity).
    unfold RoomManager.is_member, ensure_loaded at 1. cbn [room_loaded].
    erewrite M_bind_ret by (rewrite bool_decide_eq_true_2 by (apply (inv_loaded _ Hi); by eexists);
      reflexivity).
    erewrite M_bind_ret by reflexivity. unfold mret, M_ret. cbn [fst room_cache].
    rewrite lookup_insert_eq, bool_decide_eq_true_2 by set_solver. reflexivity.
  - rewrite <-elem_of_mysql_members, Hm, bool_decide_eq_false_2 by naive_solver. cbn [andb].
    rewrite elem_of_mysql_members. intros (_ & _ & Hin & _)%(to_members _ Hok). done.
Qed.

(** ** Properties *)

(** C17: with the MySQL half as their store the session and room caches keep their
    promises.  In every reachable state a cached session has its row in the table
    for the same user; a session survives a restart, until its expiry less a
    second; [is_member] answers what the table [room_members] holds, as long as
    the rooms joined exist.  Joining a room that does not exist is reported as
    success, and from then on the cache has a member the table has not. *)
Theorem mysql_serves_caches {D} `{MysqlServer D} `{!EscapeLaw D} `{!SqlServer D} (d : D) :
  tables_ok d →
  (∀ ttl st, session_reachable ttl d st → tables_ok st.2 ∧
     ∀ tok info, st.1.(session_cache) !! tok = Some info → ∃ secs,
       tb_sessions st.2 !! tok = Some (info.(si_user_id), secs)) ∧
  (∀ uid now rand now' s, 0 < s.(ttl_seconds) → length rand = 32%nat → is_u64 uid →
     uid ∈ tb_users d → stamp_secs (now / 1000) → tb_sessions d !! make_session_token rand = None →
     now' <= now + s.(ttl_seconds) * 1000 - 1000 →
     ∃ st1 st2 exp', create uid now rand (s, d) = (Ret (make_session_token rand), st1) ∧
       warm now' (sessions_init s.(ttl_seconds), st1.2) = (Ret tt, st2) ∧
       fst (validate (make_session_token rand) now' st2) = Ret (Some (mkSessionInfo uid exp'))) ∧
  (∀ y rid uid, room_reach (mkSys rooms_init d ∅) y → is_u64 rid →
     y.(sys_pending) !! (rid, uid) = None →
     fst (RoomManager.is_member rid uid (y.(sys_rooms), y.(sys_store))) =
     Ret (bool_decide ((rid, uid) ∈ tb_members y.(sys_store)))) ∧
  (∀ rid uid, is_u64 rid → is_u64 uid → rid ∉ tb_rooms d → ∃ rm d',
     (on_store (rs_join rid uid) ;; on_join rid uid ;; RoomManager.is_member rid uid) (rooms_init, d) =
       (Ret true, (rm, d')) ∧ (rid, uid) ∉ tb_members d').
Proof.
  intros Hok. split_and!.
  - intros ttl st Hst.
    assert (coherent st) as (Hok' & _ & Hc) by (eapply session_reach_coherent; [|exact Hst]; exact Hok).
    split; [exact Hok'|]. intros tok info Hi. destruct (Hc tok info Hi) as [ts Hv].
    cbn in Hv. unfold mysql_sessions in Hv. apply lookup_fmap_Some in Hv as ([u secs] & [= -> _] & Hv).
    by exists secs.
  - intros uid now rand now' s Httl Hl Hu Hin Hts Hnone Hnow.
    destruct (session_survives_restart uid now rand now' s d) as (st1 & st2 & e & Hc & Hw & _ & Hv);
      [exact Hok|done| |done|by exists st1, st2, e].
    split; [by apply token_key|]. split; [done|]. cbn. unfold mysql_sessions.
    by rewrite lookup_fmap, Hnone.
  - intros [rm d' pend] rid uid Hy Hr Hp. apply room_reach_inv in Hy; [|by apply rooms_inv_init].
    destruct (is_member_spec rid uid _ _ _ Hy Hr Hp) as (rm' & He & _).
    cbn [sys_rooms sys_store]. rewrite He. cbn [fst]. f_equal.
    apply bool_decide_ext, elem_of_mysql_members.
  - intros rid uid. by apply join_unknown_room.
Qed.

(** User 7 and room 1. *)
Definition small_tables : tables :=
  mkTables {[7 := mkUser 7 "ana" "h" 1000 0]} {[1 := mkRoom 1 "lobby" 1000]} ∅ ∅ [] ∅.
Definition test_rand : list Z := seqZ 0 32.

Lemma small_tables_ok : tables_ok small_tables.
Proof. split; cbn; [by intros ???; rewrite lookup_empty|set_solver]. Qed.

(** A session of user 7 is valid after a restart; joining room 9, which does not
    exist, gives a member the table has not. *)
Lemma mysql_serves_caches_witness :
  (∃ st1 st2 exp', create 7 5000 test_rand (sessions_init 60, small_tables) =
       (Ret (make_session_token test_rand), st1) ∧
     warm 20000 (sessions_init 60, st1.2) = (Ret tt, st2) ∧
     fst (validate (make_session_token test_rand) 20000 st2) = Ret (Some (mkSessionInfo 7 exp'))) ∧
  ∃ rm d', (on_store (rs_join 9 7) ;; on_join 9 7 ;; RoomManager.is_member 9 7) (rooms_init, small_tables) =
     (Ret true, (rm, d')) ∧ (9, 7) ∉ tb_members d'.
Proof.
  destruct (mysql_serves_caches small_tables small_tables_ok) as (_ & Hrestart & _ & Hjoin). split.
  - apply (Hrestart 7 5000 test_rand 20000 (sessions_init 60)); cbn; unfold is_u64, stamp_secs;
      [lia|reflexivity|lia|set_solver|by vm_compute|reflexivity|lia].
  - apply Hjoin; cbn; unfold is_u64; [lia|lia|set_solver].
Defined.
