(* ===== verification/MysqlRefinement.v ===== *)
(** * The MySQL half and the in-memory half of [src/db/repositories.cpp] agree

    The two halves are compiled alternatives of one interface
    ([include/db/repositories.h]).  [mirror] relates the tables of the database to
    a state of the in-memory store: the same users, rooms, members, messages and
    queues, times apart.  [agrees] says of an operation that from related states
    both halves return the same and end in related states; it is proved for every
    operation on users, rooms, messages and queues, each with the conditions under
    which the halves do agree.  (Sessions are in [MysqlStores].) *)
From Stdlib Require Import Sorted.
From S2P Require Import Prelude Util Crypto Repositories Json Session RoomManager MysqlRepositories MysqlTables MysqlStores.

(** ** Rows without their times *)

Definition no_user_time (u : User) : User := mkUser u.(u_id) u.(u_username) u.(u_password_hash) 0 0.
Definition no_room_time (rm : Room) : Room := mkRoom rm.(room_id) rm.(room_name) 0.
Definition no_time (m : Message) : Message :=
  mkMessage m.(m_id) m.(m_sender_id) m.(m_receiver_id) m.(m_room_id) m.(m_content) m.(m_status) 0.

(** ** What the program keeps in the tables *)

Definition nul_free (s : string) : Prop := "000"%char ∉ chars s.
Lemma nul_free_check s : forallb (λ c, negb (Ascii.eqb c "000")) (chars s) = true → nul_free s.
Proof. intros Hs Hin%list_elem_of_In. rewrite forallb_forall in Hs. by specialize (Hs _ Hin). Qed.

Definition millis (z : Z) : Prop := 0 <= z <= 9223372036854775807.

Definition user_safe (u : User) : Prop :=
  is_u64 u.(u_id) ∧ nul_free u.(u_username) ∧ nul_free u.(u_password_hash) ∧
  millis u.(u_created_at_ms) ∧ millis u.(u_last_seen_ms).
Definition room_safe (rm : Room) : Prop :=
  is_u64 rm.(room_id) ∧ nul_free rm.(room_name) ∧ millis rm.(room_created_at_ms).

Record tables_sound (t : tables) : Prop := {
  so_users : ∀ id u, t.(t_users) !! id = Some u → u.(u_id) = id ∧ user_safe u;
  so_rooms : ∀ id rm, t.(t_rooms) !! id = Some rm → rm.(room_id) = id ∧ room_safe rm;
  so_members : ∀ rid uid, (rid, uid) ∈ t.(t_members) →
    is_Some (t.(t_rooms) !! rid) ∧ is_Some (t.(t_users) !! uid);
  so_messages : Forall row_safe t.(t_messages);
  so_ids : StronglySorted Z.lt (m_id <$> t.(t_messages));
  so_queue : ∀ uid mid, (uid, mid) ∈ t.(t_queue) → has_message mid t;
}.

(** The name indexes of the in-memory store. *)
Definition indexed {V : Type} (name : V → string) (tbl : gmap Z V) (idx : gmap string Z) : Prop :=
  ∀ n id, idx !! n = Some id ↔ ∃ v, tbl !! id = Some v ∧ name v = n.

(** ** Related states *)

Record mirror (t : tables) (r : Repositories) : Prop := {
  mi_sound : tables_sound t;
  mi_users : no_user_time <$> t.(t_users) = no_user_time <$> r.(users);
  mi_rooms : no_room_time <$> t.(t_rooms) = no_room_time <$> r.(rooms);
  mi_members : ∀ rid uid, (rid, uid) ∈ t.(t_members) ↔ uid ∈ members_slot r rid;
  mi_slots : ∀ rid s, r.(room_members) !! rid = Some s → is_Some (r.(rooms) !! rid);
  mi_messages : no_time <$> t.(t_messages) = no_time <$> r.(messages);
  mi_queue : ∀ uid mid, (uid, mid) ∈ t.(t_queue) ↔ mid ∈ queue_of r uid;
  mi_queue_once : ∀ uid, NoDup (queue_of r uid);
  mi_user_names : indexed u_username r.(users) r.(username_idx);
  mi_room_names : indexed room_name r.(rooms) r.(room_name_idx);
}.

(** The in-memory store with other counters: its next numbers are the server's. *)
Definition renumber (i j k : Z) (r : Repositories) : Repositories :=
  mkRepos i j k r.(users) r.(username_idx) r.(sessions) r.(rooms) r.(room_name_idx)
    r.(room_members) r.(messages) r.(undelivered).

Lemma renumber_self r : renumber r.(next_user_id) r.(next_room_id) r.(next_msg_id) r = r.
Proof. by destruct r. Qed.

(** ** Tables up to times *)

Section erased.
Context {V : Type} (erase : V → V) (name : V → string) (Hname : ∀ v, name (erase v) = name v).
Implicit Types (tbl : gmap Z V) (idx : gmap string Z).

Lemma erased_lookup tbl tbl' id :
  erase <$> tbl = erase <$> tbl' → erase <$> tbl !! id = erase <$> tbl' !! id.
Proof. intros He. by rewrite <-!lookup_fmap, He. Qed.

Lemma erased_some tbl tbl' id v :
  erase <$> tbl = erase <$> tbl' → tbl !! id = Some v → ∃ v', tbl' !! id = Some v' ∧ erase v = erase v'.
Proof.
  intros He Hv. pose proof (erased_lookup _ _ id He) as Hl. rewrite Hv in Hl.
  destruct (tbl' !! id) as [v'|]; [|done]. injection Hl as Hl. by exists v'.
Qed.

Lemma erased_is_Some tbl tbl' id :
  erase <$> tbl = erase <$> tbl' → is_Some (tbl !! id) ↔ is_Some (tbl' !! id).
Proof. intros He. by rewrite <-(fmap_is_Some erase), (erased_lookup _ _ id He), fmap_is_Some. Qed.

Lemma indexed_insert tbl idx id v :
  indexed name tbl idx → idx !! name v = None → tbl !! id = None →
  indexed name (<[id := v]> tbl) (<[name v := id]> idx).
Proof.
  intros Hi Hn Hid n id'. rewrite lookup_insert_Some, (Hi n id'). split.
  - intros [[<- <-]|[Hne (w & Hw & <-)]]; [exists v; by rewrite lookup_insert_eq|].
    exists w. split; [|done]. rewrite lookup_insert_ne; [done|]. intros ->. congruence.
  - intros (w & [[<- <-]|[Hne Hw]]%lookup_insert_Some & <-); [by left|]. right. split; [|by exists w].
    intros Heq. assert (idx !! name w = Some id') as Hc by (apply Hi; by exists w). congruence.
Qed.

Lemma erased_alter f tbl id : (∀ v, erase (f v) = erase v) → erase <$> alter f id tbl = erase <$> tbl.
Proof.
  intros Hf. apply map_eq. intros k. rewrite !lookup_fmap. destruct (decide (k = id)) as [->|Hne].
  - rewrite lookup_alter_eq. destruct (tbl !! id); cbn; by rewrite ?Hf.
  - by rewrite lookup_alter_ne.
Qed.

Lemma erased_update tbl id v v' :
  tbl !! id = Some v → erase v' = erase v → erase <$> <[id := v']> tbl = erase <$> tbl.
Proof. intros Hv He. rewrite fmap_insert, insert_id; [done|]. by rewrite lookup_fmap, Hv, He. Qed.

Lemma indexed_update tbl idx id v v' :
  tbl !! id = Some v → name v' = name v → indexed name tbl idx → indexed name (<[id := v']> tbl) idx.
Proof.
  intros Hv Hn Hi n k. rewrite (Hi n k). split; intros (w & Hw & <-).
  - destruct (decide (k = id)) as [->|Hne]; [exists v'|exists w; by rewrite lookup_insert_ne].
    rewrite lookup_insert_eq. split; [done|]. congruence.
  - apply lookup_insert_Some in Hw as [[<- <-]|[_ Hw]]; [by exists v|by exists w].
Qed.

(** What the server finds under a name is what the index has, when the collation
    identifies the name only with itself. *)
Lemma by_name_index (same : string → string → Prop) tbl tbl' idx n o :
  erase <$> tbl = erase <$> tbl' → indexed name tbl' idx → same n n →
  (∀ id v, tbl !! id = Some v → same (name v) n → name v = n) →
  by_name same tbl name n o →
  match o with
  | Some v => ∃ id v', idx !! n = Some id ∧ tbl' !! id = Some v' ∧ erase v = erase v'
  | None => idx !! n = None
  end.
Proof.
  intros He Hi Hrefl Hplain. destruct o as [v|]; cbn.
  - intros (id & Hv & Hs). destruct (erased_some _ _ _ _ He Hv) as (v' & Hv' & Heq).
    exists id, v'. split; [|done]. apply Hi. exists v'. split; [done|].
    rewrite <-Hname, <-Heq, Hname. by eapply Hplain.
  - intros Hno. destruct (idx !! n) as [id|] eqn:Hid; [|done]. apply Hi in Hid as (v' & Hv' & <-).
    destruct (erased_some _ _ _ _ (eq_sym He) Hv') as (v & Hv & Heq). exfalso. apply (Hno id v Hv).
    by rewrite <-(Hname v), <-Heq, Hname.
Qed.

(** An unused name is unused in both. *)
Lemma no_name_index (same : string → string → Prop) tbl tbl' idx n :
  erase <$> tbl = erase <$> tbl' → indexed name tbl' idx → same n n →
  (∀ id v, tbl !! id = Some v → same (name v) n → name v = n) →
  by_name same tbl name n None ↔ idx !! n = None.
Proof.
  intros He Hi Hrefl Hplain. split; [by apply (by_name_index same tbl tbl' idx n None)|].
  intros Hn id v Hv Hs. pose proof (Hplain id v Hv Hs) as Heq.
  destruct (erased_some _ _ _ _ He Hv) as (v' & Hv' & Hev).
  assert (idx !! n = Some id) as Hc; [|congruence].
  apply Hi. exists v'. split; [done|]. by rewrite <-Hname, <-Hev, Hname.
Qed.
End erased.

(** ** Messages up to times *)

Lemma no_time_filter (f : Message → bool) l :
  (∀ m, f (no_time m) = f m) → no_time <$> List.filter f l = List.filter f (no_time <$> l).
Proof.
  intros Hf. induction l as [|m l IH]; [done|]. cbn [List.filter fmap list_fmap]. rewrite Hf.
  destruct (f m); cbn [fmap list_fmap]; by rewrite <-IH.
Qed.

Lemma no_time_last_n n l : no_time <$> last_n n l = last_n n (no_time <$> l).
Proof. unfold last_n. by rewrite fmap_drop, length_fmap. Qed.

Lemma no_time_set_status id st l : no_time <$> set_status id st l = set_status id st (no_time <$> l).
Proof.
  induction l as [|m l IH]; [done|]. cbn [set_status fmap list_fmap m_id no_time].
  destruct (m_id m =? id); cbn [fmap list_fmap]; [done|]. by rewrite <-IH.
Qed.

Lemma no_time_find mid l : no_time <$> find_message mid l = find_message mid (no_time <$> l).
Proof.
  induction l as [|m l IH]; [done|]. cbn [find_message fmap list_fmap m_id no_time].
  by destruct (m_id m =? mid).
Qed.

Lemma no_time_ids (l l' : list Message) : no_time <$> l = no_time <$> l' → m_id <$> l = m_id <$> l'.
Proof. intros He. apply (f_equal (fmap m_id)) in He. by rewrite <-!list_fmap_compose in He. Qed.

Lemma sorted_NoDup l : StronglySorted Z.lt l → NoDup l.
Proof.
  induction 1 as [|x l _ IH Hx]; constructor; [|done]. intros Hin.
  rewrite Forall_forall in Hx. apply Hx in Hin. lia.
Qed.

Lemma sorted_snoc l x : StronglySorted Z.lt l → (∀ y, y ∈ l → y < x) → StronglySorted Z.lt (l ++ [x]).
Proof.
  induction 1 as [|y l _ IH Hy]; intros Hx; [repeat constructor|]. cbn. constructor.
  - apply IH. intros z Hz. apply Hx. by right.
  - apply Forall_app. split; [done|]. repeat constructor. apply Hx. by left.
Qed.

Lemma find_message_Some mid l m :
  NoDup (m_id <$> l) → find_message mid l = Some m ↔ m ∈ l ∧ m.(m_id) = mid.
Proof.
  induction l as [|x l IH]; cbn [fmap list_fmap find_message]; [set_solver|].
  rewrite NoDup_cons, elem_of_cons. intros [Hx Hl]. destruct (Z.eqb_spec (m_id x) mid) as [Heq|Hne].
  - split; [intros [= <-]; auto|]. intros [[->|Hin] Hm]; [done|]. destruct Hx. rewrite Heq, <-Hm.
    apply list_elem_of_fmap. by exists m.
  - rewrite IH by done. naive_solver.
Qed.

Lemma collect_messages_omap l q out :
  collect_messages l q out = out ++ omap (λ mid, find_message mid l) q.
Proof.
  revert out. induction q as [|mid q IH]; intros out; cbn [collect_messages]; [by rewrite app_nil_r|].
  cbn. destruct (find_message mid l); rewrite IH; [|done]. by rewrite <-app_assoc.
Qed.

Lemma set_status_safe id st l : is_u8 st → Forall row_safe l → Forall row_safe (set_status id st l).
Proof.
  intros Hst. induction 1 as [|m l Hm Hl IH]; [constructor|]. cbn [set_status].
  destruct (m_id m =? id); constructor; try done. unfold row_safe in *. cbn. naive_solver.
Qed.

(** ** Reading rows back *)

Lemma decode_user_row u : user_safe u → decode_user (user_row u) = Ret u.
Proof.
  destruct u as [id n h c l]. intros (Hid & Hn & Hh & Hc & Hl). cbn in *. unfold millis, is_u64 in *.
  unfold decode_user, stoll_or_0, text_or_empty, cell, user_row. cbn.
  rewrite !cstr_to_string, stoul_to_string by (unfold is_u64; lia). cbn.
  repeat (rewrite stoll_to_string by lia; cbn). by rewrite !cstr_id.
Qed.

Lemma decode_room_row rm : room_safe rm → decode_room (room_row rm) = Ret rm.
Proof.
  destruct rm as [id n c]. intros (Hid & Hn & Hc). cbn in *. unfold millis, is_u64 in *.
  unfold decode_room, stoull_or_0, stoll_or_0, text_or_empty, cell, room_row. cbn.
  rewrite !cstr_to_string, stoul_to_string by (unfold is_u64; lia). cbn.
  rewrite !stoll_to_string by lia. cbn. by rewrite !cstr_id.
Qed.

Lemma decode_stored_row m : row_safe m → decode_message (stored_row m) = Ret m.
Proof.
  intros Hm. rewrite <-(decode_message_row m Hm). destruct Hm as (_ & _ & _ & _ & _ & _ & Ht).
  assert (stoll_or_0 (stored_row m) 6 = stoll_or_0 (message_row m) 6) as Hs;
    [|unfold decode_message; by rewrite Hs].
  unfold stoll_or_0, cell, stored_row, message_row. cbn.
  rewrite cstr_to_string by lia. rewrite cstr_id.
  { rewrite stoll_decimals, stoll_to_string by (lia || done). done. }
  rewrite chars_app, elem_of_app. intros [Hin|Hin]; [|by vm_compute in Hin; set_solver].
  revert Hin. apply to_string_avoid; [lia|done].
Qed.

Lemma decode_stored_rows l : Forall row_safe l → decode_rows decode_message (stored_row <$> l) = Ret l.
Proof.
  induction 1 as [|m l Hm Hl IH]; [done|]. rewrite fmap_cons. cbn [decode_rows]. by rewrite decode_stored_row, IH.
Qed.

Section agree.
Context {D : Type} `{MysqlServer D} `{!EscapeLaw D} `{!SqlServer D}.
Implicit Types (d : D) (r : Repositories).

(** From related states, with [pre] of the tables, both halves return, results are
    related by [same] and the states are related again. *)
Definition agrees {A : Type} (pre : tables → Prop) (same : A → A → Prop)
    (m : M (Db D) A) (m' : M Repositories A) : Prop :=
  ∀ d r, mirror (view d) r → pre (view d) → ∃ a d' i j k a' r',
    on_tables m d = (Ret a, d') ∧ m' (renumber i j k r) = (Ret a', r') ∧
    same a a' ∧ mirror (view d') r'.

Lemma agrees_read {A : Type} pre same (m : M (Db D) A) m' :
  (∀ d r, mirror (view d) r → pre (view d) → ∃ a a',
     on_tables m d = (Ret a, d) ∧ m' r = (Ret a', r) ∧ same a a') → agrees pre same m m'.
Proof.
  intros Hr d r Hm Hp. destruct (Hr d r Hm Hp) as (a & a' & H1 & H2 & H3).
  exists a, d, r.(next_user_id), r.(next_room_id), r.(next_msg_id), a', r. by rewrite renumber_self.
Qed.

Lemma agrees_write {A : Type} pre same (m : M (Db D) A) m' :
  (∀ d r, mirror (view d) r → pre (view d) → ∃ a d' a' r',
     on_tables m d = (Ret a, d') ∧ m' r = (Ret a', r') ∧ same a a' ∧ mirror (view d') r') →
  agrees pre same m m'.
Proof.
  intros Hr d r Hm Hp. destruct (Hr d r Hm Hp) as (a & d' & a' & r' & Hs).
  exists a, d', r.(next_user_id), r.(next_room_id), r.(next_msg_id), a', r'. by rewrite renumber_self.
Qed.

(** *** Operations on the tables *)

Lemma tables_select_one {A : Type} (encode : A → row) (decode : row → outcome A) q d o i :
  mysql_real_query q d = (QueryDone (Some (encode <$> option_list o)) i, d) →
  (∀ x, o = Some x → decode (encode x) = Ret x) →
  on_tables (select_one q decode) d = (Ret o, d).
Proof.
  intros Hq Hd. unfold on_tables, select_one, with_lease. cbn [pool_stopping].
  erewrite M_bind_ret by (unfold exec; cbn [db]; rewrite Hq; reflexivity). cbn [negb].
  erewrite M_bind_ret by reflexivity. cbn [last_result]. destruct o as [x|]; [|done].
  change (encode <$> option_list (Some x)) with [encode x]. cbv beta iota.
  erewrite M_bind_ret by (unfold lift; rewrite Hd by done; reflexivity). done.
Qed.

Lemma tables_insert_one q d rows id d' :
  mysql_real_query q d = (QueryDone rows id, d') → is_u64 id →
  on_tables (insert_one q) d = (Ret (Some id), d').
Proof.
  intros Hq Hid. unfold on_tables, insert_one, with_lease. cbn [pool_stopping].
  erewrite M_bind_ret by (unfold exec; cbn [db]; rewrite Hq; reflexivity). cbn [negb].
  erewrite M_bind_ret by reflexivity. cbn. unfold u64. rewrite Z.mod_small by (unfold is_u64 in Hid; lia). done.
Qed.

Lemma tables_insert_refused q d e d' :
  mysql_real_query q d = (QueryError e, d') → on_tables (insert_one q) d = (Ret None, d').
Proof.
  intros Hq. unfold on_tables, insert_one, with_lease. cbn [pool_stopping].
  erewrite M_bind_ret by (unfold exec; cbn [db]; rewrite Hq; reflexivity). done.
Qed.

(** *** Users *)

(** A name the column holds and the collation identifies only with itself. *)
Definition plain_name {V : Type} (tbl : gmap Z V) (name : V → string) (n : string) : Prop :=
  utf8_valid n = true ∧ nul_free n ∧ ∀ id v, tbl !! id = Some v → same_text (name v) n → name v = n.
Definition room_left {V : Type} (tbl : gmap Z V) : Prop := ¬ exhausted (keys tbl).

Definition same_user (o o' : option User) : Prop := no_user_time <$> o = no_user_time <$> o'.

Lemma find_user_by_id_agrees id :
  agrees (λ _, is_u64 id) same_user (find_user_by_id id) (Repositories.find_user_by_id id).
Proof.
  apply agrees_read. intros d r Hm Hid.
  destruct (sql_runs _ _ d (user_by_id_sends id)) as (res & d' & Hq & (_ & rows & i & -> & ->) & Hd); [done|].
  rewrite Hd in Hq by done. do 2 eexists. split; [|split; [reflexivity|]].
  - eapply tables_select_one; [exact Hq|]. intros u Hu. by apply decode_user_row, (so_users _ (mi_sound _ _ Hm) _ _ Hu).
  - by apply erased_lookup, mi_users.
Qed.

Lemma find_user_by_username_agrees n :
  agrees (λ t, plain_name t.(t_users) u_username n) same_user
    (find_user_by_username n) (Repositories.find_user_by_username n).
Proof.
  apply agrees_read. intros d r Hm (Hutf & _ & Hp).
  destruct (sql_runs _ _ d (user_by_name_sends n)) as (res & d' & Hq & (_ & rows & i & -> & o & -> & Ho) & Hd); [done|].
  rewrite Hd in Hq by done.
  pose proof (by_name_index no_user_time u_username (λ _, eq_refl) _ _ _ _ _ o (mi_users _ _ Hm)
    (mi_user_names _ _ Hm) (same_text_refl n) Hp Ho) as Hi.
  assert (on_tables (find_user_by_username n) d = (Ret o, d)) as Hrun.
  { eapply tables_select_one; [exact Hq|]. intros u ->. destruct Ho as (id & Hu & _).
    by apply decode_user_row, (so_users _ (mi_sound _ _ Hm) _ _ Hu). }
  unfold Repositories.find_user_by_username. destruct o as [u|].
  - destruct Hi as (id & u' & -> & Hu' & He). exists (Some u), (Some u'). unfold map_at.
    rewrite Hu'. split_and!; [done..|]. unfold same_user. cbn. by rewrite He.
  - exists None, None. by rewrite Hi.
Qed.

Lemma so_users_insert t id n h ms :
  tables_sound t → fresh_id t.(t_users) id → clock ms → nul_free n → nul_free h →
  tables_sound (set_t_users (<[id := mkUser id n h ms 0]>) t).
Proof.
  intros [] (Hid & _ & Hnew) (secs & Hs & ->) Hn Hh. unfold stamp_secs in Hs. split; cbn; try done.
  - intros id' u [[<- <-]|[_ Hu]]%lookup_insert_Some; [|by apply so_users0].
    split; [done|]. unfold user_safe, millis. cbn. split_and!; try done; lia.
  - intros rid uid Hin. destruct (so_members0 _ _ Hin) as [Hr Hu]. split; [done|].
    rewrite lookup_insert_is_Some'. by right.
Qed.

Lemma create_user_agrees n h now :
  agrees (λ t, plain_name t.(t_users) u_username n ∧ fits 64 n ∧ fits 256 h ∧ nul_free h ∧ room_left t.(t_users))
    eq (create_user n h) (Repositories.create_user n h now).
Proof.
  intros d r Hm ((Hutf & Hnul & Hp) & Hn & Hh & Hnh & Hleft).
  destruct (sql_runs _ _ d (create_user_sends n h)) as (res & d' & Hq & He & _); [done|].
  pose proof (no_name_index no_user_time u_username (λ _, eq_refl) _ _ _ _ _ (mi_users _ _ Hm)
    (mi_user_names _ _ Hm) (same_text_refl n) Hp) as Hi.
  unfold Repositories.create_user. cbn [username_idx renumber].
  destruct He as [(Hno & id & ms & Hid & Hms & -> & Hv)|([Hyes|Hex] & Hv & e & ->)]; [| |done].
  - apply Hi in Hno. exists (Some id), d', id, r.(next_room_id), r.(next_msg_id). rewrite Hno.
    do 2 eexists. split; [by eapply tables_insert_one; [exact Hq|apply Hid]|]. split; [reflexivity|].
    split; [done|]. rewrite Hv. pose proof (mi_users _ _ Hm) as Hus. destruct Hid as (Hu64 & Hne & Hfree).
    assert (r.(users) !! id = None) as Hfree'.
    { apply eq_None_not_Some. rewrite <-(erased_is_Some no_user_time _ _ id Hus), Hfree. by intros []. }
    assert (tables_sound (set_t_users (<[id := mkUser id n h ms 0]>) (view d))) as Hs
      by (apply so_users_insert; try done; apply (mi_sound _ _ Hm)).
    destruct Hm. split; cbn; try done.
    + by rewrite !fmap_insert, Hus.
    + by apply (indexed_insert u_username _ _ id (mkUser id n h now 0)).
  - exists None, d', r.(next_user_id), r.(next_room_id), r.(next_msg_id), None, r.
    split; [by eapply tables_insert_refused|]. rewrite Hv.
    destruct (r.(username_idx) !! n) as [id|] eqn:Hidx; [by rewrite renumber_self|]. by destruct Hyes; apply Hi.
Qed.

Lemma so_users_seen t secs uid :
  tables_sound t → stamp_secs secs → tables_sound (set_t_users (alter (last_seen secs) uid) t).
Proof.
  intros [] Hs. unfold stamp_secs in Hs. split; cbn; try done.
  - intros id u. rewrite lookup_alter_Some. intros [(<- & v & Hv & ->)|[_ Hu]]; [|by apply so_users0].
    destruct (so_users0 _ _ Hv) as (Hid & Hu & Hn & Hh & Hc & _). split; [done|].
    unfold user_safe, last_seen, millis in *. cbn. split_and!; try done; lia.
  - intros rid u Hin. destruct (so_members0 _ _ Hin) as [Hr Hu]. split; [done|].
    by rewrite lookup_alter_is_Some.
Qed.

Lemma update_last_seen_agrees uid ts :
  agrees (λ _, is_u64 uid ∧ stamp_secs (Z.quot ts 1000)) eq
    (update_last_seen uid ts) (Repositories.update_last_seen uid ts).
Proof.
  apply agrees_write. intros d r Hm [Hu Hs].
  destruct (sql_runs _ _ d (last_seen_sends uid ts)) as (res & d' & Hq & ([i ->] & Hv) & _); [done|].
  exists tt, d', tt, (snd (Repositories.update_last_seen uid ts r)).
  split; [by eapply tables_execute|]. split; [unfold Repositories.update_last_seen; by case_match|].
  split; [done|]. rewrite Hv. set (t' := set_t_users _ _).
  assert (tables_sound t') as Hsound by (apply so_users_seen; [apply (mi_sound _ _ Hm)|done]).
  pose proof (erased_alter no_user_time (last_seen (Z.quot ts 1000)) (view d).(t_users) uid (λ _, eq_refl)) as He.
  unfold Repositories.update_last_seen. destruct (r.(users) !! uid) as [u|] eqn:Hr; destruct Hm; split; cbn; try done.
  - rewrite He, mi_users0. symmetry. by eapply erased_update.
  - by eapply indexed_update.
  - by rewrite He.
Qed.

(** *** Rooms *)

Definition same_room (o o' : option Room) : Prop := no_room_time <$> o = no_room_time <$> o'.

Lemma find_room_by_id_agrees id :
  agrees (λ _, is_u64 id) same_room (find_room_by_id id) (Repositories.find_room_by_id id).
Proof.
  apply agrees_read. intros d r Hm Hid.
  destruct (sql_runs _ _ d (room_by_id_sends id)) as (res & d' & Hq & (_ & rows & i & -> & ->) & Hd); [done|].
  rewrite Hd in Hq by done. do 2 eexists. split; [|split; [reflexivity|]].
  - eapply tables_select_one; [exact Hq|]. intros u Hu. by apply decode_room_row, (so_rooms _ (mi_sound _ _ Hm) _ _ Hu).
  - by apply erased_lookup, mi_rooms.
Qed.

Lemma find_room_by_name_agrees n :
  agrees (λ t, plain_name t.(t_rooms) room_name n) same_room
    (find_room_by_name n) (Repositories.find_room_by_name n).
Proof.
  apply agrees_read. intros d r Hm (Hutf & _ & Hp).
  destruct (sql_runs _ _ d (room_by_name_sends n)) as (res & d' & Hq & (_ & rows & i & -> & o & -> & Ho) & Hd); [done|].
  rewrite Hd in Hq by done.
  pose proof (by_name_index no_room_time room_name (λ _, eq_refl) _ _ _ _ _ o (mi_rooms _ _ Hm)
    (mi_room_names _ _ Hm) (same_text_refl n) Hp Ho) as Hi.
  assert (on_tables (find_room_by_name n) d = (Ret o, d)) as Hrun.
  { eapply tables_select_one; [exact Hq|]. intros rm ->. destruct Ho as (id & Hrm & _).
    by apply decode_room_row, (so_rooms _ (mi_sound _ _ Hm) _ _ Hrm). }
  unfold Repositories.find_room_by_name. destruct o as [rm|].
  - destruct Hi as (id & rm' & -> & Hrm' & He). exists (Some rm), (Some rm'). unfold map_at.
    rewrite Hrm'. split_and!; [done..|]. unfold same_room. cbn. by rewrite He.
  - exists None, None. by rewrite Hi.
Qed.

Lemma so_rooms_insert t id n ms :
  tables_sound t → fresh_id t.(t_rooms) id → clock ms → nul_free n →
  tables_sound (set_t_rooms (<[id := mkRoom id n ms]>) t).
Proof.
  intros [] (Hid & _ & Hnew) (secs & Hs & ->) Hn. unfold stamp_secs in Hs. split; cbn; try done.
  - intros id' rm [[<- <-]|[_ Hu]]%lookup_insert_Some; [|by apply so_rooms0].
    split; [done|]. unfold room_safe, millis. cbn. split_and!; try done; lia.
  - intros rid uid Hin. destruct (so_members0 _ _ Hin) as [Hr Hu]. split; [|done].
    rewrite lookup_insert_is_Some'. by right.
Qed.

Lemma create_room_agrees n now :
  agrees (λ t, plain_name t.(t_rooms) room_name n ∧ fits 128 n ∧ room_left t.(t_rooms))
    eq (create_room n) (Repositories.create_room n now).
Proof.
  intros d r Hm ((Hutf & Hnul & Hp) & Hn & Hleft).
  destruct (sql_runs _ _ d (create_room_sends n)) as (res & d' & Hq & He & _); [done|].
  pose proof (no_name_index no_room_time room_name (λ _, eq_refl) _ _ _ _ _ (mi_rooms _ _ Hm)
    (mi_room_names _ _ Hm) (same_text_refl n) Hp) as Hi.
  unfold Repositories.create_room. cbn [room_name_idx renumber].
  destruct He as [(Hno & id & ms & Hid & Hms & -> & Hv)|([Hyes|Hex] & Hv & e & ->)]; [| |done].
  - apply Hi in Hno. exists (Some id), d', r.(next_user_id), id, r.(next_msg_id). rewrite Hno.
    do 2 eexists. split; [by eapply tables_insert_one; [exact Hq|apply Hid]|]. split; [reflexivity|].
    split; [done|]. rewrite Hv. pose proof (mi_rooms _ _ Hm) as Hus. destruct Hid as (Hu64 & Hne & Hfree).
    assert (r.(rooms) !! id = None) as Hfree'.
    { apply eq_None_not_Some. rewrite <-(erased_is_Some no_room_time _ _ id Hus), Hfree. by intros []. }
    assert (tables_sound (set_t_rooms (<[id := mkRoom id n ms]>) (view d))) as Hs
      by (apply so_rooms_insert; try done; apply (mi_sound _ _ Hm)).
    destruct Hm. split; cbn; try done.
    + by rewrite !fmap_insert, Hus.
    + intros rid s Hr. rewrite lookup_insert_is_Some'. right. by eapply mi_slots0.
    + by apply (indexed_insert room_name _ _ id (mkRoom id n now)).
  - exists None, d', r.(next_user_id), r.(next_room_id), r.(next_msg_id), None, r.
    split; [by eapply tables_insert_refused|]. rewrite Hv.
    destruct (r.(room_name_idx) !! n) as [id|] eqn:Hidx; [by rewrite renumber_self|]. by destruct Hyes; apply Hi.
Qed.

Lemma join_room_agrees rid uid :
  agrees (λ t, is_u64 rid ∧ is_u64 uid ∧ is_Some (t.(t_rooms) !! rid) ∧ is_Some (t.(t_users) !! uid)) eq
    (join_room rid uid) (Repositories.join_room rid uid).
Proof.
  apply agrees_write. intros d r Hm (Hr & Hu & Hroom & Huser).
  destruct (sql_runs _ _ d (join_room_sends rid uid)) as (res & d' & Hq & ([i ->] & Hv) & _); [done|].
  rewrite bool_decide_eq_true_2 in Hv by done.
  pose proof (proj1 (erased_is_Some no_room_time _ _ rid (mi_rooms _ _ Hm)) Hroom) as [rm Hrm].
  unfold Repositories.join_room. rewrite Hrm. do 4 eexists. split; [by eapply tables_exec|].
  split; [reflexivity|]. split; [done|]. rewrite Hv. destruct Hm. split; try done.
  - destruct mi_sound0. split; try done. cbn. intros r' u. rewrite elem_of_union, elem_of_singleton.
    intros [[= -> ->]|Hin]; [done|]. by apply so_members0.
  - intros r' u. cbn [t_members set_t_members]. rewrite members_slot_insert, elem_of_union, elem_of_singleton, mi_members0.
    destruct (Z.eqb_spec r' rid) as [->|Hne]; rewrite ?elem_of_union, ?elem_of_singleton; naive_solver.
  - cbn. intros r' s [[<- <-]|[_ Hs]]%lookup_insert_Some; [by eexists|]. by eapply mi_slots0.
Qed.

(** The in-memory store tells a room nobody ever joined apart; MySQL does not. *)
Lemma leave_room_agrees rid uid d r :
  mirror (view d) r → is_u64 rid → is_u64 uid → ∃ d' r',
    on_tables (leave_room rid uid) d = (Ret true, d') ∧
    Repositories.leave_room rid uid r = (Ret (bool_decide (is_Some (r.(room_members) !! rid))), r') ∧
    mirror (view d') r'.
Proof.
  intros Hm Hr Hu.
  destruct (sql_runs _ _ d (leave_room_sends rid uid)) as (res & d' & Hq & ([i ->] & Hv) & _); [done|].
  assert (tables_sound (set_t_members (λ s, s ∖ {[(rid, uid)]}) (view d))) as Hs.
  { destruct (mi_sound _ _ Hm). split; try done. cbn. intros r' u [Hin _]%elem_of_difference. by apply so_members0. }
  exists d', (Repositories.leave_room rid uid r).2. split; [by eapply tables_exec|].
  unfold Repositories.leave_room. destruct (r.(room_members) !! rid) as [s|] eqn:Hslot;
    (split; [first [by rewrite bool_decide_eq_true_2|by rewrite bool_decide_eq_false_2 by (by intros [])]|]);
    rewrite Hv; destruct Hm; split; try done.
  - intros r' u. cbn [t_members set_t_members snd].
    rewrite members_slot_insert, elem_of_difference, elem_of_singleton, mi_members0.
    unfold members_slot. destruct (Z.eqb_spec r' rid) as [->|Hne]; [rewrite Hslot; cbn|]; rewrite ?elem_of_difference, ?elem_of_singleton;
      naive_solver.
  - cbn. intros r' s' [[<- <-]|[_ Hs']]%lookup_insert_Some; by eapply mi_slots0.
  - intros r' u. cbn [t_members set_t_members snd]. rewrite elem_of_difference, elem_of_singleton, mi_members0.
    unfold members_slot. split; [by intros []|]. intros Hin. split; [done|]. intros [= -> ->].
    rewrite Hslot in Hin. cbn in Hin. set_solver.
Qed.

Lemma is_member_agrees rid uid :
  agrees (λ _, is_u64 rid ∧ is_u64 uid) eq (is_member rid uid) (Repositories.is_member rid uid).
Proof.
  apply agrees_read. intros d r Hm (Hr & Hu).
  destruct (sql_runs _ _ d (is_member_sends rid uid)) as (res & d' & Hq & (_ & rows & i & -> & Hrows) & Hd); [done|].
  rewrite Hd in Hq by done. exists (bool_decide ((rid, uid) ∈ (view d).(t_members))),
    (bool_decide (uid ∈ members_slot r rid)). split; [|split].
  - unfold on_tables, is_member, with_lease. cbn [pool_stopping].
    erewrite M_bind_ret by (unfold exec; cbn [db]; rewrite Hq; reflexivity). cbn [negb].
    erewrite M_bind_ret by reflexivity. cbn. do 2 f_equal. destruct rows as [|x rows].
    + symmetry. by apply bool_decide_eq_false, Hrows.
    + symmetry. apply bool_decide_eq_true. destruct (decide ((rid, uid) ∈ t_members (view d))) as [|Hno]; [done|].
      by apply Hrows in Hno.
  - unfold Repositories.is_member, members_slot. destruct (room_members r !! rid); [done|].
    by rewrite bool_decide_eq_false_2 by set_solver.
  - apply bool_decide_ext, (mi_members _ _ Hm).
Qed.

Lemma list_room_members_agrees rid :
  agrees (λ _, is_u64 rid) (≡ₚ) (list_room_members rid) (Repositories.list_room_members rid).
Proof.
  apply agrees_read. intros d r Hm Hr.
  destruct (tb_select_members rid d Hr) as (l & i & Hq & Hdup & Hl).
  exists l, (elements (members_slot r rid)). split; [|split].
  - apply tables_list_members with i; [done|]. apply Forall_forall. intros u Hin%Hl.
    destruct (so_members _ (mi_sound _ _ Hm) _ _ Hin) as [_ [v Hv]].
    destruct (so_users _ (mi_sound _ _ Hm) _ _ Hv) as [<- Hs]. apply Hs.
  - unfold Repositories.list_room_members, members_slot. destruct (room_members r !! rid); [done|].
    cbn [default]. by rewrite elements_empty.
  - apply NoDup_Permutation; [done|apply NoDup_elements|]. intros u.
    rewrite Hl, elem_of_elements. apply (mi_members _ _ Hm).
Qed.

Lemma list_rooms_for_user_agrees uid :
  agrees (λ _, is_u64 uid) (λ a a', ∀ x, x ∈ no_room_time <$> a ↔ x ∈ no_room_time <$> a')
    (list_rooms_for_user uid) (Repositories.list_rooms_for_user uid).
Proof.
  apply agrees_read. intros d r Hm Hu.
  destruct (sql_runs _ _ d (rooms_of_user_sends uid))
    as (res & d' & Hq & (_ & rows & i & -> & l & -> & Hdup & Hl) & Hd); [done|].
  rewrite Hd in Hq by done.
  destruct (rooms_with_member_spec r.(rooms) uid (map_to_list r.(room_members)) []) as (rms & Hrms & Hin).
  { intros rid s Hs%elem_of_map_to_list. by eapply (mi_slots _ _ Hm). }
  exists (snd <$> l), rms. split; [|split].
  - unfold list_rooms_for_user. eapply tables_select; [exact Hq|]. apply Forall_forall. intros [rid rm] [_ Hrm]%Hl.
    by apply decode_room_row, (so_rooms _ (mi_sound _ _ Hm) _ _ Hrm).
  - unfold Repositories.list_rooms_for_user. by rewrite Hrms.
  - intros x. rewrite !list_elem_of_fmap. split.
    + intros (rm & -> & ([rid rm'] & -> & [Hmem Hrm]%Hl)%list_elem_of_fmap). cbn [snd].
      apply (mi_members _ _ Hm) in Hmem. unfold members_slot in Hmem.
      destruct (room_members r !! rid) as [s|] eqn:Hs; [|cbn in Hmem; set_solver].
      destruct (erased_some no_room_time _ _ _ _ (mi_rooms _ _ Hm) Hrm) as (rm2 & Hrm2 & He).
      exists rm2. split; [done|]. apply Hin. exists rid, s. by rewrite elem_of_map_to_list.
    + intros (rm & -> & (rid & s & Hs%elem_of_map_to_list & Hus & Hrm)%Hin).
      destruct (erased_some no_room_time _ _ _ _ (eq_sym (mi_rooms _ _ Hm)) Hrm) as (rm2 & Hrm2 & He).
      exists rm2. split; [done|]. apply list_elem_of_fmap. exists (rid, rm2). split; [done|]. apply Hl.
      split; [|done]. apply (mi_members _ _ Hm). unfold members_slot. by rewrite Hs.
Qed.

(** *** Messages *)

Lemma tables_history q d l i :
  mysql_real_query q d = (QueryDone (Some (stored_row <$> l)) i, d) → Forall row_safe l →
  on_tables (history q) d = (Ret (rev l), d).
Proof.
  intros Hq Hl. unfold on_tables, history, with_lease. cbn [pool_stopping].
  erewrite M_bind_ret by (unfold exec; cbn [db]; rewrite Hq; reflexivity). cbn [negb].
  erewrite M_bind_ret by reflexivity. cbn [last_result read_messages].
  erewrite M_bind_ret by (unfold lift; rewrite decode_stored_rows by done; reflexivity). done.
Qed.

Definition same_messages (l l' : list Message) : Prop := no_time <$> l = no_time <$> l'.

(** A page of the table is a page of the list. *)
Lemma page_agrees (matches : Message → bool) before lim t r :
  (∀ m, matches (no_time m) = matches m) → 0 <= lim → mirror t r →
  Forall row_safe (page matches before lim t) ∧
  same_messages (rev (page matches before lim t)) (rev (history_loop matches before lim (rev r.(messages)) [])).
Proof.
  intros Hm Hlim Hmi. unfold page. split.
  - apply Forall_forall. intros m Hin. pose proof (so_messages _ (mi_sound _ _ Hmi)) as Hs.
    rewrite Forall_forall in Hs. apply Hs. apply (subseteq_take _ _), list_elem_of_In, in_rev, filter_In in Hin.
    by apply list_elem_of_In, Hin.
  - unfold same_messages. rewrite rev_take_rev, history_eq by done. rewrite !no_time_last_n.
    rewrite !no_time_filter by (intros m; unfold in_page; by rewrite Hm).
    by rewrite (mi_messages _ _ Hmi).
Qed.

Lemma history_dm_agrees a b before lim :
  agrees (λ _, is_u64 a ∧ is_u64 b ∧ is_u64 before ∧ 0 <= lim) same_messages
    (history_dm a b before lim) (Repositories.history_dm a b before (Z.min lim 200)).
Proof.
  apply agrees_read. intros d r Hm (Ha & Hb & Hbf & Hlim).
  destruct (sql_runs _ _ d (history_dm_sends a b before lim))
    as (res & d' & Hq & (_ & rows & i & -> & ->) & Hd); [split_and!; try done; unfold is_u64; lia|].
  rewrite Hd in Hq by done.
  destruct (page_agrees (dm_matches a b) before (Z.min lim 200) _ _ (λ _, eq_refl) ltac:(lia) Hm) as [Hs Hsame].
  do 2 eexists. split; [by eapply tables_history|]. by split.
Qed.

Lemma history_room_agrees rid before lim :
  agrees (λ _, is_u64 rid ∧ is_u64 before ∧ 0 <= lim) same_messages
    (history_room rid before lim) (Repositories.history_room rid before (Z.min lim 200)).
Proof.
  apply agrees_read. intros d r Hm (Ha & Hbf & Hlim).
  destruct (sql_runs _ _ d (history_room_sends rid before lim))
    as (res & d' & Hq & (_ & rows & i & -> & ->) & Hd); [split_and!; try done; unfold is_u64; lia|].
  rewrite Hd in Hq by done.
  destruct (page_agrees (room_matches rid) before (Z.min lim 200) _ _ (λ _, eq_refl) ltac:(lia) Hm) as [Hs Hsame].
  do 2 eexists. split; [by eapply tables_history|]. by split.
Qed.

(** Another message at the end of both. *)
Lemma mirror_push t r id m m' i j k :
  mirror t r → row_safe m → m.(m_id) = id → (∀ x, x ∈ t.(t_messages) → x.(m_id) < id) → no_time m = no_time m' →
  mirror (set_t_messages (λ l, l ++ [m]) t)
    (mkRepos i j k r.(users) r.(username_idx) r.(sessions) r.(rooms) r.(room_name_idx) r.(room_members)
       (r.(messages) ++ [m']) r.(undelivered)).
Proof.
  intros Hm Hs Hid Hlt He. destruct Hm. split; try done.
  - destruct mi_sound0. split; try done; cbn.
    + apply Forall_app. split; [done|]. by apply Forall_singleton.
    + rewrite fmap_app. cbn. apply sorted_snoc; [done|]. intros y (x & -> & Hx)%list_elem_of_fmap.
      rewrite Hid. by apply Hlt.
    + intros u mid Hin%so_queue0. unfold has_message in *. cbn. rewrite fmap_app, elem_of_app. by left.
  - cbn. rewrite !fmap_app, mi_messages0. cbn. by rewrite He.
Qed.

Definition message_fits (t : tables) (sender : Z) (c : string) (ts : Z) : Prop :=
  is_u64 sender ∧ is_Some (t.(t_users) !! sender) ∧ fits 65535 c ∧ nul_free c ∧ 0 <= ts ∧
  stamp_secs (Z.quot ts 1000) ∧ ¬ exhausted (m_id <$> t.(t_messages)).

(** An insert into [messages], given its effect. *)
Lemma insert_message_agrees q st (ok : Prop) (mk mk' : Z → Message) d r :
  sends q st → stmt_typed st →
  (∀ res t', sql_effect same_text st (view d) res t' → inserts_message ok mk (view d) res t') →
  (∀ id, is_u64 id → row_safe (mk id)) → (∀ id, (mk id).(m_id) = id) → (∀ id, no_time (mk id) = no_time (mk' id)) →
  mirror (view d) r → ok → ¬ exhausted (m_id <$> (view d).(t_messages)) → ∃ a d' i j k a' r',
    on_tables (insert_one q) d = (Ret a, d') ∧ push_message mk' (renumber i j k r) = (Ret a', r') ∧
    a = a' ∧ mirror (view d') r'.
Proof.
  intros Hq Ht Heff Hsafe Hid He Hm Hok Hleft.
  destruct (sql_runs _ _ d Hq Ht) as (res & d' & Hrun & [(_ & id & Hu & _ & Hlt & -> & Hv)|[[Hno|Hex] _]]%Heff & _);
    [|done..].
  exists (Some id), d', r.(next_user_id), r.(next_room_id), id. do 2 eexists.
  split; [by eapply tables_insert_one|]. split; [reflexivity|]. split; [done|]. rewrite Hv.
  eapply (mirror_push (view d) r id); [done|by apply Hsafe|by apply Hid|done|apply He].
Qed.

Lemma stored_ms_bounds ts : 0 <= ts → stamp_secs (Z.quot ts 1000) →
  0 <= Z.rem ts 1000 < 1000 ∧ millis (stored_ms (Z.quot ts 1000) (Z.rem ts 1000)).
Proof.
  intros Hp Hs. pose proof (Z.rem_bound_pos ts 1000 Hp eq_refl) as Hr. split; [done|].
  unfold stored_ms, millis, stamp_secs in *. repeat case_match; lia.
Qed.

Lemma insert_dm_agrees s rcv c ts :
  agrees (λ t, message_fits t s c ts ∧ is_u64 rcv ∧ is_Some (t.(t_users) !! rcv)) eq
    (insert_dm s rcv c ts) (Repositories.insert_dm s rcv c ts).
Proof.
  intros d r Hm ((Hs & Hus & Hc & Hnul & Hts & Hst & Hleft) & Hr & Hur).
  destruct (stored_ms_bounds ts Hts Hst) as [Hrem Hms].
  eapply insert_message_agrees; [apply insert_dm_sends|done|by intros ?? He; exact He|..]; try done.
  intros id Hid. unfold row_safe, millis in *. cbn. split_and!; try done; try (by intros ? [= <-]); lia.
Qed.

Lemma insert_room_msg_agrees s rid c ts :
  agrees (λ t, message_fits t s c ts ∧ is_u64 rid ∧ is_Some (t.(t_rooms) !! rid)) eq
    (insert_room_msg s rid c ts) (Repositories.insert_room_msg s rid c ts).
Proof.
  intros d r Hm ((Hs & Hus & Hc & Hnul & Hts & Hst & Hleft) & Hr & Hur).
  destruct (stored_ms_bounds ts Hts Hst) as [Hrem Hms].
  eapply insert_message_agrees; [apply insert_room_msg_sends|done|by intros ?? He; exact He|..]; try done.
  intros id Hid. unfold row_safe, millis in *. cbn. split_and!; try done; try (by intros ? [= <-]); lia.
Qed.

Lemma update_message_status_agrees mid st :
  agrees (λ _, is_u64 mid ∧ is_u8 st) eq (update_message_status mid st) (Repositories.update_message_status mid st).
Proof.
  apply agrees_write. intros d r Hm [Hmid Hst].
  destruct (sql_runs _ _ d (status_sends mid st)) as (res & d' & Hq & ([i ->] & Hv) & _); [done|].
  exists tt, d'. do 2 eexists. split; [by eapply tables_execute|]. split; [reflexivity|]. split; [done|].
  rewrite Hv. destruct Hm. split; try done.
  - destruct mi_sound0. split; try done; cbn.
    + by apply set_status_safe.
    + by rewrite set_status_ids.
    + intros u x Hin%so_queue0. unfold has_message in *. cbn. by rewrite set_status_ids.
  - cbn. by rewrite !no_time_set_status, mi_messages0.
Qed.

(** *** The offline queue *)

Lemma queue_of_insert r uid q u :
  queue_of (set_undelivered (<[uid := q]>) r) u = if decide (u = uid) then q else queue_of r u.
Proof.
  unfold queue_of, set_undelivered. cbn. case_decide as Heq; [subst; by rewrite lookup_insert_eq|].
  by rewrite lookup_insert_ne.
Qed.

Lemma enqueue_undelivered_agrees mid uid :
  agrees (λ t, is_u64 mid ∧ is_u64 uid ∧ has_message mid t ∧ is_Some (t.(t_users) !! uid) ∧ (uid, mid) ∉ t.(t_queue))
    eq (enqueue_undelivered mid uid) (Repositories.enqueue_undelivered mid uid).
Proof.
  apply agrees_write. intros d r Hm (Hmid & Hu & Hmsg & Huser & Hnew).
  destruct (sql_runs _ _ d (enqueue_sends mid uid)) as (res & d' & Hq & ([i ->] & Hv) & _); [done|].
  rewrite bool_decide_eq_true_2 in Hv by done.
  exists tt, d'. do 2 eexists. split; [by eapply tables_execute|]. split; [reflexivity|]. split; [done|].
  rewrite Hv. rewrite (mi_queue _ _ Hm) in Hnew. destruct Hm. split; try done.
  - destruct mi_sound0. split; try done. cbn. intros u x. rewrite elem_of_union, elem_of_singleton.
    intros [[= -> ->]|Hin]; [done|]. by apply so_queue0 in Hin.
  - intros u x. cbn [t_queue set_t_queue]. rewrite queue_of_insert, elem_of_union, elem_of_singleton, mi_queue0.
    case_decide as Heq; [subst; rewrite elem_of_app, list_elem_of_singleton|]; naive_solver.
  - intros u. rewrite queue_of_insert. case_decide as Heq; [subst|done].
    apply NoDup_app. split; [done|]. split; [|apply NoDup_singleton]. intros x Hx ->%list_elem_of_singleton. done.
Qed.

Lemma queued_sorted uid t : tables_sound t → StronglySorted Z.lt (m_id <$> queued uid t).
Proof. intros Hs. apply fmap_filter_sorted, Hs. Qed.

Lemma collected_ids (l : list Message) (q : list Z) :
  (∀ mid, mid ∈ q → mid ∈ m_id <$> l) → m_id <$> omap (λ mid, find_message mid l) q = q.
Proof.
  intros Hq. induction q as [|mid q IH]; [done|].
  assert (∃ m, find_message mid l = Some m ∧ m.(m_id) = mid) as (m & Hf & Hid).
  { specialize (Hq mid ltac:(by left)). clear -Hq. induction l as [|x l IH]; cbn in Hq; [set_solver|].
    cbn [find_message]. destruct (Z.eqb_spec (m_id x) mid) as [Heq|Hne]; [by exists x|].
    apply elem_of_cons in Hq as [|Hq]; [congruence|]. by apply IH. }
  cbn. rewrite Hf. cbn. rewrite Hid. f_equal. apply IH. intros y Hy. apply Hq. by right.
Qed.

(** What MySQL selects is what the loops of the other half collect. *)
Lemma queued_agrees uid t r : mirror t r →
  (no_time <$> queued uid t) ≡ₚ (no_time <$> collect_messages r.(messages) (queue_of r uid) []).
Proof.
  intros Hm. rewrite collect_messages_omap. cbn [app].
  pose proof (sorted_NoDup _ (so_ids _ (mi_sound _ _ Hm))) as Hnd.
  assert (∀ mid, no_time <$> find_message mid r.(messages) = no_time <$> find_message mid t.(t_messages)) as Hfind
    by (intros mid; by rewrite !no_time_find, (mi_messages _ _ Hm)).
  apply NoDup_Permutation.
  - apply (NoDup_fmap_1 m_id), sorted_NoDup. rewrite <-list_fmap_compose. apply queued_sorted, (mi_sound _ _ Hm).
  - apply (NoDup_fmap_1 m_id). rewrite <-list_fmap_compose.
    rewrite (collected_ids _ (queue_of r uid)); [apply (mi_queue_once _ _ Hm)|].
    intros mid Hq%(mi_queue _ _ Hm)%(so_queue _ (mi_sound _ _ Hm)). unfold has_message in Hq.
    by rewrite <-(no_time_ids _ _ (mi_messages _ _ Hm)).
  - intros x. unfold queued. rewrite !list_elem_of_fmap. setoid_rewrite list_elem_of_In at 1.
    setoid_rewrite filter_In. setoid_rewrite bool_decide_eq_true. setoid_rewrite <-list_elem_of_In.
    setoid_rewrite list_elem_of_omap. split.
    + intros (m & -> & Hin & Hq%(mi_queue _ _ Hm)). specialize (Hfind (m_id m)).
      rewrite (proj2 (find_message_Some (m_id m) _ m Hnd)) in Hfind by done.
      destruct (find_message (m_id m) (messages r)) as [m'|] eqn:Hf; [|done]. apply (inj Some) in Hfind.
      exists m'. split; [done|]. by exists (m_id m).
    + intros (m' & -> & mid & Hq%(mi_queue _ _ Hm) & Hf). specialize (Hfind mid). rewrite Hf in Hfind.
      destruct (find_message mid (t_messages t)) as [m|] eqn:Hf'; [|done]. apply (inj Some) in Hfind.
      apply (find_message_Some _ _ _ Hnd) in Hf' as [Hin <-]. by exists m.
Qed.

Lemma tables_drain uid d (l : list Message) i d' (res : query_result) :
  mysql_real_query (undelivered_sql uid) d = (QueryDone (Some (stored_row <$> l)) i, d) → Forall row_safe l →
  mysql_real_query (clear_undelivered_sql uid) d = (res, d') →
  on_tables (drain_undelivered uid) d = (Ret l, d').
Proof.
  intros Hq Hl Hq2. unfold on_tables, drain_undelivered, with_lease. cbn [pool_stopping].
  erewrite M_bind_ret by (unfold exec; cbn [db]; rewrite Hq; reflexivity). cbn [negb].
  erewrite M_bind_ret by reflexivity. cbn [last_result read_messages].
  erewrite M_bind_ret by (unfold lift; rewrite decode_stored_rows by done; reflexivity).
  erewrite M_bind_ret by (unfold exec; cbn [db]; rewrite Hq2; reflexivity). done.
Qed.

(** MySQL returns the queue by id, the other half in the order of the calls. *)
Lemma drain_undelivered_agrees uid :
  agrees (λ _, is_u64 uid)
    (λ a a', (no_time <$> a) ≡ₚ (no_time <$> a') ∧ StronglySorted Z.lt (m_id <$> a))
    (drain_undelivered uid) (Repositories.drain_undelivered uid).
Proof.
  apply agrees_write. intros d r Hm Hu.
  destruct (sql_runs _ _ d (undelivered_sends uid)) as (res & d1 & Hq & (_ & rows & i & -> & ->) & Hd); [done|].
  rewrite Hd in Hq by done.
  destruct (sql_runs _ _ d (clear_undelivered_sends uid)) as (res & d' & Hq2 & (_ & Hv) & _); [done|].
  exists (queued uid (view d)), d', (collect_messages r.(messages) (queue_of r uid) []), (set_undelivered (delete uid) r).
  split; [|split; [|split]].
  - eapply tables_drain; [exact Hq| |exact Hq2]. apply Forall_forall. intros m Hin.
    pose proof (so_messages _ (mi_sound _ _ Hm)) as Hs. rewrite Forall_forall in Hs. apply Hs.
    by apply list_elem_of_In, filter_In, proj1, list_elem_of_In in Hin.
  - unfold Repositories.drain_undelivered, queue_of. destruct (undelivered r !! uid) eqn:Hun; [done|].
    cbn [default collect_messages]. destruct r. unfold set_undelivered. cbn in *. by rewrite delete_id.
  - split; [by apply queued_agrees|]. apply queued_sorted, (mi_sound _ _ Hm).
  - assert (∀ u, queue_of (set_undelivered (delete uid) r) u = if decide (u = uid) then [] else queue_of r u) as Hqo.
    { intros u. unfold queue_of. cbn. case_decide as Heq; [subst; by rewrite lookup_delete_eq|].
      by rewrite lookup_delete_ne. }
    rewrite Hv. destruct Hm. split; try done.
    + destruct mi_sound0. split; try done. cbn. intros u mid [_ Hin]%elem_of_filter. by apply so_queue0 in Hin.
    + intros u mid. cbn [t_queue set_t_queue]. rewrite Hqo, elem_of_filter, mi_queue0. cbn.
      case_decide as Heq; [subst; set_solver|]. naive_solver.
    + intros u. rewrite Hqo. case_decide; [apply NoDup_nil_2|done].
Qed.

(** The two statements of [drain_undelivered] are not one transaction: a message
    another client queues between them is neither returned nor kept. *)
Lemma drain_race_loses uid mid d :
  is_u64 uid → is_u64 mid → has_message mid (view d) → is_Some ((view d).(t_users) !! uid) →
  (uid, mid) ∉ (view d).(t_queue) → ∃ l i d1 res d2,
    mysql_real_query (undelivered_sql uid) d = (QueryDone (Some (stored_row <$> l)) i, d) ∧
    on_tables (enqueue_undelivered mid uid) d = (Ret tt, d1) ∧ (uid, mid) ∈ (view d1).(t_queue) ∧
    mysql_real_query (clear_undelivered_sql uid) d1 = (res, d2) ∧
    (mid ∉ m_id <$> l) ∧ (uid, mid) ∉ (view d2).(t_queue).
Proof.
  intros Hu Hmid Hmsg Huser Hno.
  destruct (sql_runs _ _ d (undelivered_sends uid)) as (r0 & d0 & Hq & (_ & rows & i & -> & ->) & Hd); [done|].
  rewrite Hd in Hq by done.
  destruct (sql_runs _ _ d (enqueue_sends mid uid)) as (r1 & d1 & Hq1 & ([i1 ->] & Hv1) & _); [done|].
  rewrite bool_decide_eq_true_2 in Hv1 by done.
  destruct (sql_runs _ _ d1 (clear_undelivered_sends uid)) as (r2 & d2 & Hq2 & (_ & Hv2) & _); [done|].
  exists (queued uid (view d)), i, d1, r2, d2. split; [done|]. split; [by eapply tables_execute|].
  split; [rewrite Hv1; cbn; set_solver|]. split; [done|]. split.
  - intros (m & -> & Hin)%list_elem_of_fmap. apply list_elem_of_In, filter_In, proj2, bool_decide_eq_true in Hin. done.
  - rewrite Hv2. cbn. rewrite elem_of_filter. cbn. by intros [].
Qed.
End agree.

(** The tables [init_db.sql] creates. *)
Definition no_tables : tables := mkTables ∅ ∅ ∅ ∅ [] ∅.

Lemma mirror_init : mirror no_tables repos_init.
Proof.
  assert (∀ V (name : V → string), indexed name ∅ ∅) as Hi.
  { intros V name n id. rewrite lookup_empty. split; [done|]. intros (v & Hv & _). by rewrite lookup_empty in Hv. }
  split; try done.
  - split; cbn; try done; constructor.
  - intros uid mid. change (queue_of repos_init uid) with (@nil Z). set_solver.
  - intros uid. exact NoDup_nil_2.
Qed.

(** ** Properties *)

(** C15: on users and rooms the MySQL half refines the in-memory half, but for what
    [leave_room] returns.  From a fresh database on, every lookup, insertion, join
    and listing returns what the in-memory store returns and leaves the two
    related, times apart, lists up to order and with the in-memory counters at the
    numbers the server draws, when the arguments are values of the columns: a name
    must be one that the collation of the column identifies with no other name in
    use (the in-memory store compares bytes), a user who joins must exist, and so
    must the room.  [leave_room] leaves the two related, but its results differ: it
    is always true in the MySQL half, and in the in-memory half true exactly when
    somebody has joined the room before. *)
Theorem mysql_accounts_agree {D} `{MysqlServer D} `{!EscapeLaw D} `{!SqlServer D} :
  (∀ d : D, view d = no_tables → mirror (view d) repos_init) ∧
  (∀ id, agrees (λ _, is_u64 id) same_user (find_user_by_id id) (Repositories.find_user_by_id id)) ∧
  (∀ n, agrees (λ t, plain_name t.(t_users) u_username n) same_user
     (find_user_by_username n) (Repositories.find_user_by_username n)) ∧
  (∀ n h now, agrees (λ t, plain_name t.(t_users) u_username n ∧ fits 64 n ∧ fits 256 h ∧ nul_free h ∧
       room_left t.(t_users))
     eq (create_user n h) (Repositories.create_user n h now)) ∧
  (∀ uid ts, agrees (λ _, is_u64 uid ∧ stamp_secs (Z.quot ts 1000)) eq
     (update_last_seen uid ts) (Repositories.update_last_seen uid ts)) ∧
  (∀ id, agrees (λ _, is_u64 id) same_room (find_room_by_id id) (Repositories.find_room_by_id id)) ∧
  (∀ n, agrees (λ t, plain_name t.(t_rooms) room_name n) same_room
     (find_room_by_name n) (Repositories.find_room_by_name n)) ∧
  (∀ n now, agrees (λ t, plain_name t.(t_rooms) room_name n ∧ fits 128 n ∧ room_left t.(t_rooms))
     eq (create_room n) (Repositories.create_room n now)) ∧
  (∀ rid uid, agrees
     (λ t, is_u64 rid ∧ is_u64 uid ∧ is_Some (t.(t_rooms) !! rid) ∧ is_Some (t.(t_users) !! uid)) eq
     (join_room rid uid) (Repositories.join_room rid uid)) ∧
  (∀ rid uid (d : D) r, mirror (view d) r → is_u64 rid → is_u64 uid → ∃ d' r',
     on_tables (leave_room rid uid) d = (Ret true, d') ∧
     Repositories.leave_room rid uid r = (Ret (bool_decide (is_Some (r.(room_members) !! rid))), r') ∧
     mirror (view d') r') ∧
  (∀ rid uid, agrees (λ _, is_u64 rid ∧ is_u64 uid) eq (is_member rid uid) (Repositories.is_member rid uid)) ∧
  (∀ uid, agrees (λ _, is_u64 uid) (λ a a', ∀ x, x ∈ no_room_time <$> a ↔ x ∈ no_room_time <$> a')
     (list_rooms_for_user uid) (Repositories.list_rooms_for_user uid)) ∧
  (∀ rid, agrees (λ _, is_u64 rid) (≡ₚ) (list_room_members rid) (Repositories.list_room_members rid)).
Proof.
  split_and!; intros *;
    [intros ->; exact mirror_init|apply find_user_by_id_agrees|apply find_user_by_username_agrees
    |apply create_user_agrees|apply update_last_seen_agrees|apply find_room_by_id_agrees
    |apply find_room_by_name_agrees|apply create_room_agrees|apply join_room_agrees|by apply leave_room_agrees
    |apply is_member_agrees|apply list_rooms_for_user_agrees|apply list_room_members_agrees].
Qed.

(** On an empty database the first user gets the same number from both halves. *)
Lemma mysql_accounts_agree_witness :
  ∃ a d' i j k a' r', on_tables (create_user "ana" "h") no_tables = (Ret a, d') ∧
    Repositories.create_user "ana" "h" 5 (renumber i j k repos_init) = (Ret a', r') ∧ a = a' ∧ mirror (view d') r'.
Proof.
  pose proof (mysql_accounts_agree (D := tables)) as (Hinit & _ & _ & Hcreate & _).
  apply (Hcreate "ana" "h" 5 no_tables repos_init (Hinit no_tables eq_refl)).
  split; [|split; [split; [by vm_compute|reflexivity]|split; [split; [by vm_compute|reflexivity]|split]]].
  - split; [reflexivity|]. split; [by apply nul_free_check|]. intros id v Hv. done.
  - by apply nul_free_check.
  - intros (id & Hin & _). unfold keys in Hin. cbn in Hin. rewrite map_to_list_empty in Hin. by apply elem_of_nil in Hin.
Defined.

(** C16: on messages and offline queues the MySQL half refines the in-memory half.
    Inserts, status updates, pages of history and the queue return what the
    in-memory store returns, numbered as the server numbers, and leave the two
    related: a page holds the same
    messages in the same order (the in-memory store asked for at most 200), a
    drained queue the same messages, by increasing id.  Sender, receiver and room
    of an insert must exist, the text must fit its column and hold no NUL, and a
    message is queued for a user once; times are not compared. *)
Theorem mysql_messages_agree {D} `{MysqlServer D} `{!EscapeLaw D} `{!SqlServer D} :
  (∀ s rcv c ts, agrees (λ t, message_fits t s c ts ∧ is_u64 rcv ∧ is_Some (t.(t_users) !! rcv)) eq
     (insert_dm s rcv c ts) (Repositories.insert_dm s rcv c ts)) ∧
  (∀ s rid c ts, agrees (λ t, message_fits t s c ts ∧ is_u64 rid ∧ is_Some (t.(t_rooms) !! rid)) eq
     (insert_room_msg s rid c ts) (Repositories.insert_room_msg s rid c ts)) ∧
  (∀ a b before lim, agrees (λ _, is_u64 a ∧ is_u64 b ∧ is_u64 before ∧ 0 <= lim) same_messages
     (history_dm a b before lim) (Repositories.history_dm a b before (Z.min lim 200))) ∧
  (∀ rid before lim, agrees (λ _, is_u64 rid ∧ is_u64 before ∧ 0 <= lim) same_messages
     (history_room rid before lim) (Repositories.history_room rid before (Z.min lim 200))) ∧
  (∀ mid st, agrees (λ _, is_u64 mid ∧ is_u8 st) eq
     (update_message_status mid st) (Repositories.update_message_status mid st)) ∧
  (∀ mid uid, agrees (λ t, is_u64 mid ∧ is_u64 uid ∧ has_message mid t ∧ is_Some (t.(t_users) !! uid) ∧
       (uid, mid) ∉ t.(t_queue)) eq
     (enqueue_undelivered mid uid) (Repositories.enqueue_undelivered mid uid)) ∧
  (∀ uid, agrees (λ _, is_u64 uid)
     (λ a a', (no_time <$> a) ≡ₚ (no_time <$> a') ∧ StronglySorted Z.lt (m_id <$> a))
     (drain_undelivered uid) (Repositories.drain_undelivered uid)).
Proof.
  split_and!; intros *;
    [apply insert_dm_agrees|apply insert_room_msg_agrees|apply history_dm_agrees|apply history_room_agrees
    |apply update_message_status_agrees|apply enqueue_undelivered_agrees|apply drain_undelivered_agrees].
Qed.

(** The state after ana (7) has written to herself, in both halves. *)
Definition ana : User := mkUser 7 "ana" "h" 1000 0.
Definition note : Message := mkMessage 1 7 (Some 7) None "hi" 0 5250.
Definition note_tables : tables := mkTables {[7 := ana]} ∅ ∅ ∅ [note] {[(7, 1)]}.
Definition note_repos : Repositories :=
  mkRepos 8 1 2 {[7 := ana]} {["ana" := 7]} [] ∅ ∅ ∅ [note] {[7 := [1]]}.

Lemma note_mirror : mirror note_tables note_repos.
Proof.
  split; try done.
  - split; cbn; try done.
    + intros id u [<- <-]%lookup_singleton_Some. split; [done|]. unfold user_safe, millis, is_u64. cbn.
      split_and!; try lia; by apply nul_free_check.
    + apply Forall_singleton. unfold row_safe, is_u64, is_u8. cbn. split_and!; try lia; try (by intros ? [= <-]).
      by apply (nul_free_check "hi").
    + repeat constructor.
    + intros u mid [= -> ->]%elem_of_singleton. unfold has_message. cbn. by left.
  - intros uid mid. unfold queue_of. cbn. destruct (decide (uid = 7)) as [->|Hne].
    + rewrite lookup_singleton_eq. cbn. rewrite elem_of_singleton, list_elem_of_singleton. naive_solver.
    + rewrite lookup_singleton_ne by done. cbn. set_solver.
  - intros uid. unfold queue_of. cbn. destruct (decide (uid = 7)) as [->|Hne].
    + rewrite lookup_singleton_eq. apply NoDup_singleton.
    + rewrite lookup_singleton_ne by done. apply NoDup_nil_2.
  - intros n id. cbn [username_idx note_repos users]. rewrite lookup_singleton_Some. split.
    + intros [<- <-]. exists ana. by rewrite lookup_singleton_eq.
    + intros (v & [<- <-]%lookup_singleton_Some & <-). done.
  - intros n id. split; [done|]. by intros (v & Hv & _).
Qed.

(** The queue of user 7 and her page of history. *)
Lemma mysql_messages_agree_witness :
  (∃ a d' i j k a' r', on_tables (drain_undelivered 7) note_tables = (Ret a, d') ∧
     Repositories.drain_undelivered 7 (renumber i j k note_repos) = (Ret a', r') ∧
     ((no_time <$> a) ≡ₚ (no_time <$> a') ∧ StronglySorted Z.lt (m_id <$> a)) ∧ mirror (view d') r') ∧
  ∃ a d' i j k a' r', on_tables (history_dm 7 7 0 50) note_tables = (Ret a, d') ∧
     Repositories.history_dm 7 7 0 (Z.min 50 200) (renumber i j k note_repos) = (Ret a', r') ∧
     same_messages a a' ∧ mirror (view d') r'.
Proof.
  pose proof (mysql_messages_agree (D := tables)) as (_ & _ & Hdm & _ & _ & _ & Hdrain). split.
  - apply (Hdrain 7 note_tables note_repos note_mirror). unfold is_u64. lia.
  - apply (Hdm 7 7 0 50 note_tables note_repos note_mirror). unfold is_u64. lia.
Defined.
