(* ===== verification/JsonProofs.v ===== *)
(** * Facts about the JSON text codec

    The serializer's UTF-8 automaton and the lexer's byte ranges accept the same
    sequences; every string the parser produces is valid UTF-8, so whatever the
    server builds from a request can be serialized again. *)
From Stdlib Require Import SpecFloat.
From S2P Require Import Prelude Util Messages Json.

(** ** The automaton *)

Definition utf8_step (st b : Z) : Z := utf8d_at (256 + st * 16 + utf8d_at b).

Definition utf8_run (st : Z) (l : list Z) : Z := foldl utf8_step st l.

(** Finite facts about the table, by evaluation over all bytes. *)
Lemma utf8_reject_absorbs b : is_u8 b → utf8_step 1 b = 1.
Proof.
  intros Hb. apply Z.eqb_eq. by apply (forallb_range (λ b, utf8_step 1 b =? 1) 256).
Qed.

Lemma utf8_run_reject l : bytes_ok l → utf8_run 1 l = 1.
Proof.
  unfold utf8_run. induction 1 as [|b l Hb Hl IH]; [done|]. cbn [foldl].
  by rewrite utf8_reject_absorbs.
Qed.

Lemma utf8_run_app st a b : utf8_run st (a ++ b) = utf8_run (utf8_run st a) b.
Proof. apply foldl_app. Qed.

Lemma dump_escaped_loop_run l st cp out :
  bytes_ok l → (∃ t, dump_escaped_loop l st cp out = Ret t) ↔ utf8_run st l = 0.
Proof.
  intros Hl. revert st cp out. induction Hl as [|b l Hb Hl IH]; intros st cp out;
    cbn [dump_escaped_loop].
  - unfold utf8_run. cbn [foldl]. destruct (st =? 0) eqn:E; to_prop.
    + split; [done|by eexists].
    + split; [by intros []|done].
  - unfold decode. change (utf8_run st (b :: l)) with (utf8_run (utf8_step st b) l).
    fold (utf8_step st b). destruct (utf8_step st b =? 0); [apply IH|].
    destruct (utf8_step st b =? 1) eqn:E; to_prop; [|apply IH].
    rewrite E, utf8_run_reject by done. split; [by intros []|done].
Qed.

Lemma utf8_valid_run s : utf8_valid s = true ↔ utf8_run 0 (to_bytes s) = 0.
Proof.
  rewrite <-(dump_escaped_loop_run (to_bytes s) 0 0 "") by apply to_bytes_ok.
  unfold utf8_valid, dump_escaped. destruct (dump_escaped_loop _ _ _ _); split;
    try done; [by eexists|by intros []].
Qed.

(** A list of bytes that is valid on its own. *)
Definition utf8_bytes (l : list Z) : Prop := bytes_ok l ∧ utf8_run 0 l = 0.

Lemma utf8_bytes_app a b : utf8_bytes a → utf8_bytes b → utf8_bytes (a ++ b).
Proof.
  intros [Ha Ra] [Hb Rb]. split; [by apply bytes_ok_app|]. by rewrite utf8_run_app, Ra.
Qed.

Lemma utf8_of_bytes l : utf8_bytes l → utf8_valid (of_bytes l) = true.
Proof. intros [Hl Hr]. apply utf8_valid_run. by rewrite to_bytes_of_bytes. Qed.

Lemma utf8_ascii b : 0 <= b < 128 → utf8_bytes [b].
Proof.
  intros Hb. split; [repeat constructor; lia|]. apply Z.eqb_eq.
  by apply (forallb_range (λ b, utf8_run 0 [b] =? 0) 128).
Qed.

(** ** The lexer's ranges *)

(** The automaton's state after a lead byte (and its restricted second byte):
    how many more continuation bytes it needs. *)
Definition tail_state (n : nat) : Z := match n with O => 0 | S O => 2 | _ => 3 end.

Definition in_range (r : Z * Z) (b : Z) : bool := (r.1 <=? b) && (b <=? r.2).

(** Checked over all lead bytes and all second bytes. *)
Definition lead_check (c : Z) : bool :=
  match lead_ranges c with
  | None => true
  | Some rs =>
      match rs with
      | [] => false
      | r :: rs' =>
          bool_decide (rs' = replicate (length rs') (0x80, 0xBF)) && (length rs' <=? 2)%nat &&
          forallb (λ b, negb (in_range r b) ||
                        (utf8_run 0 [c; b] =? tail_state (length rs'))) (seqZ 0 256)
      end
  end.

Lemma lead_check_all : forallb lead_check (seqZ 0 256) = true.
Proof. by vm_compute. Qed.

Lemma tail_check b : 0x80 <= b <= 0xBF → utf8_step 3 b = 2 ∧ utf8_step 2 b = 0.
Proof.
  intros Hb.
  pose proof (forallb_range (λ b, negb (in_range (0x80, 0xBF) b) ||
    ((utf8_step 3 b =? 2) && (utf8_step 2 b =? 0))) 256 ltac:(by vm_compute) b ltac:(lia)) as H.
  cbn beta in H. unfold in_range in H. cbn [fst snd] in H.
  rewrite (proj2 (Z.leb_le _ _)), (proj2 (Z.leb_le _ _)) in H by lia. cbn [andb negb orb] in H. by to_prop.
Qed.

Lemma next_byte_spec rs bytes buf buf' rest :
  next_byte_in_range rs bytes buf = Some (buf', rest) →
  ∃ conts, bytes = conts ++ rest ∧ buf' = buf ++ conts ∧ Forall2 (λ r b, in_range r b = true) rs conts.
Proof.
  revert bytes buf. induction rs as [|[lo hi] rs IH]; intros bytes buf; cbn [next_byte_in_range].
  - intros [= <- <-]. exists []. by rewrite app_nil_r.
  - destruct bytes as [|c bytes]; [done|]. destruct ((lo <=? c) && (c <=? hi)) eqn:E; [|done].
    intros (conts & -> & -> & Hf)%IH. exists (c :: conts). rewrite <-app_assoc.
    split; [done|]. split; [done|]. by constructor.
Qed.

Lemma tail_run n conts :
  (n <= 2)%nat → Forall2 (λ r b, in_range r b = true) (replicate n (0x80, 0xBF)) conts →
  bytes_ok conts ∧ utf8_run (tail_state n) conts = 0.
Proof.
  intros Hn Hf. assert (∀ b, in_range (0x80, 0xBF) b = true → 0x80 <= b <= 0xBF) as Hr.
  { intros b Hb. unfold in_range in Hb. cbn in Hb. to_prop. lia. }
  destruct n as [|[|[|n]]]; [| | |lia]; simpl in Hf.
  - apply Forall2_nil_inv_l in Hf as ->. split; [constructor|done].
  - apply Forall2_cons_inv_l in Hf as (b & ? & Hb%Hr & ->%Forall2_nil_inv_l & ->).
    split; [repeat constructor; lia|]. by apply tail_check.
  - apply Forall2_cons_inv_l in Hf as (b & ? & Hb%Hr & Hf & ->).
    apply Forall2_cons_inv_l in Hf as (b' & ? & Hb'%Hr & ->%Forall2_nil_inv_l & ->).
    split; [repeat constructor; lia|]. unfold utf8_run. cbn [foldl tail_state].
    destruct (tail_check b Hb) as [-> _]. by destruct (tail_check b' Hb') as [_ ->].
Qed.

(** A lead byte with continuation bytes in its ranges is valid. *)
Lemma utf8_lead c rs conts :
  is_u8 c → lead_ranges c = Some rs → Forall2 (λ r b, in_range r b = true) rs conts →
  bytes_ok conts → utf8_bytes (c :: conts).
Proof.
  intros Hc Hl Hf Hcb. pose proof (forallb_range lead_check 256 lead_check_all c Hc) as Hchk.
  unfold lead_check in Hchk. rewrite Hl in Hchk. destruct rs as [|r rs']; [done|]. to_prop.
  apply Forall2_cons_inv_l in Hf as (b & conts' & Hb & Hf & ->).
  apply Nat.leb_le in H1. rewrite H in Hf. apply tail_run in Hf as [_ Hrun]; [|done].
  split; [by constructor|]. change (c :: b :: conts') with ([c; b] ++ conts').
  assert (is_u8 b) as Hub by by apply Forall_cons in Hcb as [? _].
  pose proof (forallb_range _ 256 H0 b Hub) as H2. cbn beta in H2. rewrite Hb in H2. cbn [negb orb] in H2.
  to_prop. by rewrite utf8_run_app, H2.
Qed.

(** ** Code points of escapes *)

Lemma hex_digit_range c d : hex_digit c = Some d → 0 <= d < 16.
Proof.
  unfold hex_digit. repeat case_match; intros [= <-]; to_prop; lia.
Qed.

Lemma get_codepoint_range bytes cp rest :
  get_codepoint bytes = Some (cp, rest) → bytes_ok bytes → 0 <= cp < 0x10000 ∧ bytes_ok rest.
Proof.
  unfold get_codepoint. destruct bytes as [|c1 [|c2 [|c3 [|c4 l]]]]; try done.
  destruct (hex_digit c1) as [d1|] eqn:E1; [|done]. destruct (hex_digit c2) as [d2|] eqn:E2; [|done].
  destruct (hex_digit c3) as [d3|] eqn:E3; [|done]. destruct (hex_digit c4) as [d4|] eqn:E4; [|done].
  apply hex_digit_range in E1, E2, E3, E4. intros [= <- <-] Hb.
  rewrite !Z.shiftl_mul_pow2 by done. split; [lia|].
  by repeat (apply Forall_cons in Hb as [_ Hb]).
Qed.

(** A scalar value: in range and not a surrogate. *)
Definition scalar_value (cp : Z) : Prop :=
  0 <= cp <= 0x10FFFF ∧ ¬ 0xD800 <= cp <= 0xDFFF.

Lemma scan_u_escape_scalar bytes cp rest :
  scan_u_escape bytes = Some (cp, rest) → bytes_ok bytes → scalar_value cp ∧ bytes_ok rest.
Proof.
  unfold scan_u_escape. destruct (get_codepoint bytes) as [[cp1 r1]|] eqn:E1; [|done].
  intros H Hb. destruct (get_codepoint_range _ _ _ E1 Hb) as [Hc1 Hr1]. unfold scalar_value.
  destruct ((0xD800 <=? cp1) && (cp1 <=? 0xDBFF)) eqn:Eh; to_prop.
  - destruct r1 as [|x r1]; [done|]. destruct (decide (x = 92)) as [->|]; [|by repeat case_match].
    destruct r1 as [|y r1]; [done|]. destruct (decide (y = 117)) as [->|]; [|by repeat case_match].
    destruct (get_codepoint r1) as [[cp2 r2]|] eqn:E2; [|done].
    apply Forall_cons in Hr1 as [_ [_ Hr1]%Forall_cons].
    destruct (get_codepoint_range _ _ _ E2 Hr1) as [Hc2 Hr2].
    destruct ((0xDC00 <=? cp2) && (cp2 <=? 0xDFFF)) eqn:El; [|done]. to_prop.
    injection H as <- <-. rewrite Z.shiftl_mul_pow2 by done. split; [lia|done].
  - destruct ((0xDC00 <=? cp1) && (cp1 <=? 0xDFFF)) eqn:El; [done|]. injection H as <- <-.
    split; [|done]. apply andb_false_iff in Eh, El. rewrite !Z.leb_gt in Eh, El. lia.
Qed.

Lemma lor_small a x n :
  forallb (λ x, Z.lor a x =? a + x) (seqZ 0 n) = true → 0 <= x < n → Z.lor a x = a + x.
Proof. intros H Hx. apply Z.eqb_eq. by apply (forallb_range (λ x, Z.lor a x =? a + x) n). Qed.

(** Two functions on a small range agree, by evaluation. *)
Lemma range_eq {A} `{EqDecision A} (f g : Z → A) n :
  forallb (λ i, bool_decide (f i = g i)) (seqZ 0 n) = true → ∀ i, 0 <= i < n → f i = g i.
Proof. intros H i Hi. by apply (forallb_range _ n H i) in Hi as ?%bool_decide_eq_true. Qed.

Ltac divmod_lia := Z.div_mod_to_equations; lia.

Lemma utf8_encode_valid cp : scalar_value cp → utf8_bytes (utf8_encode cp).
Proof.
  intros [Hr Hs]. unfold utf8_encode.
  assert (∀ z, Z.lor 0x80 (Z.land z 0x3F) = 0x80 + z mod 64) as Htail.
  { intros z. change 0x3F with (Z.ones 6). rewrite Z.land_ones by done.
    apply (lor_small 0x80 _ 64); [by vm_compute|]. by apply Z.mod_pos_bound. }
  assert (∀ lo hi b, lo <= b <= hi → in_range (lo, hi) b = true) as Hin.
  { intros lo hi b Hb. unfold in_range. cbn [fst snd]. apply andb_true_intro.
    split; apply Z.leb_le; lia. }
  destruct (cp <? 0x80) eqn:E1; to_prop; [apply utf8_ascii; lia|].
  destruct (cp <=? 0x7FF) eqn:E2; to_prop; [|destruct (cp <=? 0xFFFF) eqn:E3; to_prop];
    rewrite !Htail, !Z.shiftr_div_pow2 by done.
  - change (2 ^ 6) with 64. rewrite (lor_small 0xC0 _ 32) by first [by vm_compute|divmod_lia].
    apply (utf8_lead _ [(0x80, 0xBF)]).
    + unfold is_u8. divmod_lia.
    + unfold lead_ranges. rewrite (proj2 (Z.leb_le _ _)), (proj2 (Z.leb_le _ _));
        [done|divmod_lia..].
    + repeat constructor. apply Hin. divmod_lia.
    + repeat constructor; divmod_lia.
  - change (2 ^ 12) with 4096. change (2 ^ 6) with 64.
    assert (0 <= cp / 4096 < 16) as Hlead
      by (split; [apply Z.div_pos; lia|apply Z.div_lt_upper_bound; lia]).
    rewrite (lor_small 0xE0 _ 16 eq_refl Hlead).
    apply (utf8_lead _ [if cp / 4096 =? 0 then (0xA0, 0xBF)
                        else if cp / 4096 =? 13 then (0x80, 0x9F) else (0x80, 0xBF); (0x80, 0xBF)]).
    + unfold is_u8. lia.
    + exact (range_eq (λ q, lead_ranges (0xE0 + q)) (λ q, Some [if q =? 0 then (0xA0, 0xBF)
        else if q =? 13 then (0x80, 0x9F) else (0x80, 0xBF); (0x80, 0xBF)]) 16 eq_refl _ Hlead).
    + repeat constructor; [|apply Hin; divmod_lia].
      destruct (cp / 4096 =? 0) eqn:E0; [|destruct (cp / 4096 =? 13) eqn:Ed];
        to_prop; apply Hin; divmod_lia.
    + repeat constructor; divmod_lia.
  - change (2 ^ 18) with 262144. change (2 ^ 12) with 4096. change (2 ^ 6) with 64.
    assert (0 <= cp / 262144 < 5) as Hlead
      by (split; [apply Z.div_pos; lia|apply Z.div_lt_upper_bound; lia]).
    rewrite (lor_small 0xF0 _ 5 eq_refl Hlead).
    apply (utf8_lead _ [if cp / 262144 =? 0 then (0x90, 0xBF)
                        else if cp / 262144 =? 4 then (0x80, 0x8F) else (0x80, 0xBF);
                        (0x80, 0xBF); (0x80, 0xBF)]).
    + unfold is_u8. lia.
    + exact (range_eq (λ q, lead_ranges (0xF0 + q)) (λ q, Some [if q =? 0 then (0x90, 0xBF)
        else if q =? 4 then (0x80, 0x8F) else (0x80, 0xBF); (0x80, 0xBF); (0x80, 0xBF)]) 5
        eq_refl _ Hlead).
    + repeat constructor; [|apply Hin; divmod_lia..].
      destruct (cp / 262144 =? 0) eqn:E0; [|destruct (cp / 262144 =? 4) eqn:Ed];
        to_prop; apply Hin; divmod_lia.
    + repeat constructor; divmod_lia.
Qed.

(** ** Tokens *)

(** The ranges of the two kinds of integer. *)
Definition json_int (z : Z) : bool := (-9223372036854775808 <=? z) && (z <=? 9223372036854775807).
Definition json_uint (z : Z) : bool := (0 <=? z) && (z <=? u64_max).

Definition token_typed (t : token) : Prop :=
  match t with
  | TString s => utf8_valid s = true
  | TInteger z => json_int z = true
  | TUnsigned z => json_uint z = true
  | _ => True
  end.

Lemma simple_escape_ascii e x : simple_escape e = Some x → 0 <= x < 128.
Proof. unfold simple_escape. repeat case_match; intros [= <-]; lia. Qed.

Lemma scan_string_utf8 fuel bytes buf :
  bytes_ok bytes → utf8_bytes buf →
  token_typed (fst (scan_string fuel bytes buf)) ∧ bytes_ok (snd (scan_string fuel bytes buf)).
Proof.
  revert bytes buf. induction fuel as [|fuel IH]; intros bytes buf Hb Hbuf; [done|].
  destruct bytes as [|c bytes]; [done|]. apply Forall_cons in Hb as [Hc Hb]. cbn [scan_string].
  destruct (c =? 34); [split; [by apply utf8_of_bytes|done]|].
  destruct (c =? 92).
  { destruct bytes as [|e bytes]; [done|]. apply Forall_cons in Hb as [He Hb].
    destruct (simple_escape e) as [x|] eqn:Ex.
    - apply IH; [done|]. apply utf8_bytes_app; [done|]. by apply utf8_ascii, (simple_escape_ascii e).
    - destruct (e =? 117); [|done]. destruct (scan_u_escape bytes) as [[cp rest]|] eqn:Eu; [|done].
      destruct (scan_u_escape_scalar _ _ _ Eu Hb) as [Hcp Hrest].
      apply IH; [done|]. by apply utf8_bytes_app, utf8_encode_valid. }
  destruct (c <=? 0x1F) eqn:E1; [done|]. destruct (c <=? 0x7F) eqn:E2; to_prop.
  { apply IH; [done|]. apply utf8_bytes_app; [done|]. apply utf8_ascii. lia. }
  destruct (lead_ranges c) as [rs|] eqn:El; [|done].
  destruct (next_byte_in_range rs bytes (buf ++ [c])) as [[buf' rest]|] eqn:En; [|done].
  apply next_byte_spec in En as (conts & -> & -> & Hf). apply bytes_ok_app in Hb as [Hconts Hrest].
  apply IH; [done|]. rewrite <-app_assoc. apply utf8_bytes_app; [done|].
  by apply (utf8_lead c rs).
Qed.

Lemma scan_num_loop_rest st bytes buf ty buf' ty' rest :
  scan_num_loop st bytes buf ty = Some (buf', ty', rest) → ∃ l, bytes = l ++ rest.
Proof.
  revert st buf ty. induction bytes as [|c bytes IH]; intros st buf ty; cbn [scan_num_loop].
  - destruct (num_next st None) as [[|]|]; try done. intros [= _ _ <-]. by exists [].
  - destruct (num_next st (Some c)) as [[st'|]|]; [| |done].
    + intros (l & ->)%IH. by exists (c :: l).
    + intros [= _ _ <-]. by exists [].
Qed.

Lemma scan_literal_ok text t bytes :
  bytes_ok bytes → token_typed t →
  token_typed (fst (scan_literal text t bytes)) ∧ bytes_ok (snd (scan_literal text t bytes)).
Proof.
  revert bytes. induction text as [|x text IH]; intros bytes Hb Ht; [done|]. cbn [scan_literal].
  destruct bytes as [|c bytes]; [done|]. apply Forall_cons in Hb as [_ Hb].
  destruct (c =? x); [by apply IH|done].
Qed.

Lemma skip_whitespace_ok bytes : bytes_ok bytes → bytes_ok (skip_whitespace bytes).
Proof.
  induction 1 as [|c l Hc Hl IH]; cbn [skip_whitespace]; [constructor|].
  destruct (_ || _); [done|]. by constructor.
Qed.

Lemma scan_digits_nonneg s acc m :
  scan_digits s acc = Some m → (∀ a, acc = Some a → 0 <= a) → 0 <= m.
Proof.
  revert acc. induction s as [|c s IH]; intros acc; cbn [scan_digits]; [intros -> Ha; by apply Ha|].
  destruct (isdigit c) eqn:Ed; [|intros -> Ha; by apply Ha]. intros Hs Ha. apply (IH _ Hs).
  intros a [= <-]. unfold isdigit in Ed. to_prop.
  assert (0 <= default 0 acc) by (destruct acc; [by apply Ha|done]). lia.
Qed.

Lemma scan_int_nonneg s neg m : scan_int s = Some (neg, m) → 0 <= m.
Proof.
  unfold scan_int. destruct (skip_spaces s) as [|c s']; [done|].
  assert (∀ t b, (λ m, (b, m)) <$> scan_digits t None = Some (neg, m) → 0 <= m) as Hd.
  { intros t b Ht. apply fmap_Some in Ht as (m' & Hm' & [= _ ->]).
    by apply (scan_digits_nonneg _ _ _ Hm'). }
  repeat case_match; apply Hd.
Qed.

Lemma number_token_typed `{FloatText} buf ty : token_typed (number_token buf ty).
Proof.
  unfold number_token. destruct ty; [| |done].
  - destruct (scan_int _) as [[neg m]|] eqn:E; [|done]. destruct (m <=? u64_max) eqn:Em; [|done].
    cbn. unfold json_uint. rewrite Em, andb_true_r. apply Z.leb_le. by eapply scan_int_nonneg.
  - destruct (stoll _) as [z|] eqn:E; [|done]. cbn. unfold stoll, sto_signed in E.
    destruct (scan_int _) as [[neg m]|]; [|done]. unfold json_int. by case_match; simplify_eq.
Qed.

Lemma scan_typed `{FloatText} bytes :
  bytes_ok bytes → token_typed (fst (scan bytes)) ∧ bytes_ok (snd (scan bytes)).
Proof.
  intros Hb. unfold scan. apply skip_whitespace_ok in Hb.
  destruct (skip_whitespace bytes) as [|c rest]; [done|]. apply Forall_cons in Hb as [Hc Hb].
  do 6 (case_match; [by split|]). do 3 (case_match; [by apply scan_literal_ok|]).
  case_match; [by apply scan_string_utf8; [|split; [constructor|]]|].
  case_match; [|by case_match].
  unfold scan_number. destruct (scan_num_loop _ rest _ _) as [[[buf ty] rest']|] eqn:E;
    [|split; [done|constructor]].
  apply scan_num_loop_rest in E as [l ->]. apply bytes_ok_app in Hb as [_ Hb].
  split; [apply number_token_typed|done].
Qed.

Lemma scan_typed_eq `{FloatText} bytes t rest :
  scan bytes = (t, rest) → bytes_ok bytes → token_typed t ∧ bytes_ok rest.
Proof. intros Hs Hb. pose proof (scan_typed bytes Hb) as H1. by rewrite Hs in H1. Qed.

(** ** The parser *)

Definition key_lt (a b : string) : bool :=
  match String.compare a b with Lt => true | _ => false end.

(** The keys in the order of a [std::map]. *)
Fixpoint keys_sorted (ks : list string) : bool :=
  match ks with [] => true | k :: ks => forallb (key_lt k) ks && keys_sorted ks end.

(** Objects built by assignments are in key order. *)
Lemma key_lt_trans a b c : key_lt a b = true → key_lt b c = true → key_lt a c = true.
Proof.
  unfold key_lt. revert b c. induction a as [|x a IH]; intros [|y b] [|z c]; cbn [String.compare]; try done.
  unfold Ascii.compare. specialize (IH b c).
  destruct (N.compare_spec (Ascii.N_of_ascii x) (Ascii.N_of_ascii y)) as [E1|E1|E1]; try done;
    destruct (N.compare_spec (Ascii.N_of_ascii y) (Ascii.N_of_ascii z)) as [E2|E2|E2]; try done;
    destruct (N.compare_spec (Ascii.N_of_ascii x) (Ascii.N_of_ascii z)) as [E3|E3|E3]; try done; try lia.
Qed.

Lemma key_lt_set k k0 v o :
  key_lt k0 k = true → forallb (key_lt k0) (map fst o) = true →
  forallb (key_lt k0) (map fst (obj_set k v o)) = true.
Proof.
  intros Hk. induction o as [|[k' v'] o IH]; cbn [obj_set map fst forallb]; [by rewrite Hk|].
  intros [H1 H2]%andb_prop. destruct (String.compare k k'); cbn [map fst forallb];
    rewrite ?Hk, ?H1, ?H2, ?IH by done; done.
Qed.

Lemma obj_set_sorted k v o :
  keys_sorted (map fst o) = true → keys_sorted (map fst (obj_set k v o)) = true.
Proof.
  induction o as [|[k' v'] o IH]; cbn [obj_set map fst keys_sorted]; [done|].
  intros [H1 H2]%andb_prop. destruct (String.compare k k') eqn:E; cbn [map fst keys_sorted].
  - apply String.compare_eq_iff in E as ->. by rewrite H1, H2.
  - assert (key_lt k k' = true) as Hk by (unfold key_lt; by rewrite E). cbn [forallb].
    rewrite Hk, H1, H2. cbn [andb]. rewrite !andb_true_r. apply forallb_forall. rewrite forallb_forall in H1. intros x Hx.
    eapply key_lt_trans; [exact Hk|]. by apply H1.
  - rewrite IH, andb_true_r by done. apply key_lt_set; [|done].
    unfold key_lt. rewrite String.compare_antisym, E. done.
Qed.

(** What the members of a C++ [json] can hold: integers of 64 bits, finite doubles,
    strings of UTF-8, objects with each key once and in order. *)
Fixpoint json_typed (j : json) : bool :=
  match j with
  | JInt z => json_int z
  | JUint z => json_uint z
  | JFloat f => is_finite f
  | JStr s => utf8_valid s
  | JArr l => forallb json_typed l
  | JObj o => keys_sorted (map fst o) && forallb (λ kv, utf8_valid kv.1 && json_typed kv.2) o
  | _ => true
  end.

Definition member_typed (kv : string * json) : bool := utf8_valid kv.1 && json_typed kv.2.

Definition object_typed (o : list (string * json)) : Prop :=
  keys_sorted (map fst o) = true ∧ forallb member_typed o = true.

Lemma obj_set_typed k v o :
  utf8_valid k = true → json_typed v = true → object_typed o → object_typed (obj_set k v o).
Proof.
  intros Hk Hv [Hs Ho]. split; [by apply obj_set_sorted|].
  assert (member_typed (k, v) = true) as Hkv by (unfold member_typed; cbn [fst snd]; by rewrite Hk, Hv).
  clear Hs. induction o as [|[k' v'] o IH]; cbn [obj_set forallb]; [by rewrite Hkv|].
  cbn [forallb] in Ho. apply andb_prop in Ho as [H1 H2].
  destruct (String.compare k k'); cbn [forallb]; rewrite ?Hkv, ?H1, ?H2; [done|done|]. by rewrite IH.
Qed.

Lemma object_typed_json o : object_typed o → json_typed (JObj o) = true.
Proof.
  intros [Hs Ho]. cbn [json_typed]. rewrite Hs. cbn [andb]. exact Ho.
Qed.

Definition level_typed (l : level) : Prop :=
  match l with
  | LArray l => forallb json_typed l = true
  | LObject o k => object_typed o ∧ utf8_valid k = true
  end.

Definition mode_typed (m : pmode) : Prop :=
  match m with MToken t => token_typed t | MValue v => json_typed v = true end.

Lemma scan_key_typed `{FloatText} t rest k t' rest' :
  scan_key t rest = Some (k, t', rest') → token_typed t → bytes_ok rest →
  utf8_valid k = true ∧ token_typed t' ∧ bytes_ok rest'.
Proof.
  unfold scan_key. destruct t; try done. destruct (scan rest) as [t1 r1] eqn:E1.
  intros Hk Ht Hb. apply scan_typed_eq in E1 as [_ Hr1]; [|done]. destruct t1; try done.
  destruct (scan r1) as [t2 r2] eqn:E2. injection Hk as <- <- <-.
  by apply scan_typed_eq in E2.
Qed.

Lemma parse_step_typed `{FloatText} m rest st m' rest' st' :
  parse_step m rest st = PNext m' rest' st' →
  mode_typed m → bytes_ok rest → Forall level_typed st →
  mode_typed m' ∧ bytes_ok rest' ∧ Forall level_typed st'.
Proof.
  intros Hp Hm Hb Hst. destruct m as [t|v]; cbn [parse_step] in Hp.
  - destruct t as [| | | | | | | | |s|z|z|f| |]; try done; try by injection Hp as <- <- <-.
    + destruct (scan rest) as [t1 r1] eqn:E1. apply scan_typed_eq in E1 as [Ht1 Hr1]; [|done].
      destruct t1; injection Hp as <- <- <-; split_and!; try done; by constructor.
    + destruct (scan rest) as [t1 r1] eqn:E1. apply scan_typed_eq in E1 as [Ht1 Hr1]; [|done].
      destruct t1 as [| | | | | | | | |s| | | | |]; try done; [by injection Hp as <- <- <-|].
      destruct (scan_key (TString s) r1) as [[[k t2] r2]|] eqn:Ek; [|done].
      injection Hp as <- <- <-. apply scan_key_typed in Ek as (Hk & Ht2 & Hr2); [|done..].
      split_and!; [done|done|]. by constructor.
    + destruct (is_finite f) eqn:Ef; [|done]. by injection Hp as <- <- <-.
  - cbn [mode_typed] in Hm. destruct st as [|[l|o k] st]; [done| |];
      apply Forall_cons in Hst as [Hl Hst]; destruct (scan rest) as [t1 r1] eqn:E1;
      apply scan_typed_eq in E1 as [Ht1 Hr1]; try done.
    + assert (forallb json_typed (l ++ [v]) = true) as Hlv
        by (rewrite forallb_app; cbn [forallb]; by rewrite Hl, Hm).
      destruct t1; try done; [by injection Hp as <- <- <-|].
      destruct (scan r1) as [t2 r2] eqn:E2. apply scan_typed_eq in E2 as [Ht2 Hr2]; [|done].
      injection Hp as <- <- <-. split_and!; [done|done|]. by constructor.
    + destruct Hl as [Ho Hk]. pose proof (obj_set_typed k v o Hk Hm Ho) as Hset.
      destruct t1; try done; [injection Hp as <- <- <-; split_and!; try done; by apply object_typed_json|].
      destruct (scan r1) as [t2 r2] eqn:E2. apply scan_typed_eq in E2 as [Ht2 Hr2]; [|done].
      destruct (scan_key t2 r2) as [[[k' t3] r3]|] eqn:Ek; [|done]. injection Hp as <- <- <-.
      apply scan_key_typed in Ek as (Hk' & Ht3 & Hr3); [|done..].
      split_and!; [done|done|]. by constructor.
Qed.

Lemma parse_loop_typed `{FloatText} fuel m rest st v rest' :
  parse_loop fuel m rest st = Some (v, rest') →
  mode_typed m → bytes_ok rest → Forall level_typed st → json_typed v = true.
Proof.
  revert m rest st. induction fuel as [|fuel IH]; intros m rest st; cbn [parse_loop]; [done|].
  destruct (parse_step m rest st) as [m1 r1 st1|v1 r1|] eqn:E; [| |done].
  - intros Hl Hm Hb Hst. destruct (parse_step_typed _ _ _ _ _ _ E Hm Hb Hst) as (? & ? & ?).
    by eapply IH.
  - intros [= <- <-] Hm _ _. destruct m as [t|v]; cbn [parse_step] in E.
    + by repeat case_match.
    + destruct st as [|[|] st]; [by simplify_eq|by repeat case_match..].
Qed.

Lemma skip_bom_ok bytes rest : skip_bom bytes = Some rest → bytes_ok bytes → bytes_ok rest.
Proof.
  unfold skip_bom. intros Hs Hb. destruct bytes as [|b l]; [by injection Hs as <-|].
  destruct (decide (b = 0xEF)) as [->|Hne].
  - destruct l as [|b1 [|b2 l]]; [done|by repeat case_match|].
    assert (rest = l) as ->.
    { destruct (decide (b1 = 0xBB)) as [->|]; [|by repeat case_match].
      destruct (decide (b2 = 0xBF)) as [->|]; [by injection Hs|by repeat case_match]. }
    by do 3 apply Forall_cons in Hb as [_ Hb].
  - assert (rest = b :: l) as ->; [|done]. by repeat case_match; simplify_eq.
Qed.

Lemma parse_typed `{FloatText} s j : parse s = Some j → json_typed j = true.
Proof.
  unfold parse. destruct (skip_bom (to_bytes s)) as [bytes|] eqn:Eb; [|done].
  apply skip_bom_ok in Eb; [|apply to_bytes_ok].
  destruct (scan bytes) as [t rest] eqn:Es. apply scan_typed_eq in Es as [Ht Hr]; [|done].
  destruct (parse_loop _ _ _ _) as [[v r]|] eqn:El; [|done].
  intros Hj. assert (v = j) as <- by by repeat case_match; simplify_eq.
  by eapply parse_loop_typed.
Qed.

Lemma typed_utf8 j : json_typed j = true → json_utf8 j = true.
Proof.
  induction j as [|b|z|z|f|s|l IH|o IH] using json_nested_ind; cbn [json_typed json_utf8]; try done.
  - intros Hl. induction IH as [|x l Hx Hl' IH]; [done|]. cbn [forallb] in *.
    apply andb_prop in Hl as [H1 H2]. by rewrite Hx, IH.
  - intros [_ Ho]%andb_prop. induction IH as [|[k v] o Hx Hl' IH]; [done|]. cbn [forallb fst snd] in *.
    apply andb_prop in Ho as [[H1 H2]%andb_prop H3]. by rewrite H1, Hx, IH.
Qed.

(** Every string of a parsed value is valid UTF-8. *)
Lemma parse_utf8 `{FloatText} s j : parse s = Some j → json_utf8 j = true.
Proof. by intros Hj%parse_typed%typed_utf8. Qed.

(** C26: a parsed request is a value the C++ type can hold, whatever the bytes: every
    integer fits its 64-bit member, doubles are finite, every string and key is
    UTF-8, and an object has each key once, in the order of [std::map].  Such a value
    is always written back by [dump] without an exception. *)
Theorem parse_well_typed `{FloatText} s j :
  parse s = Some j → json_typed j = true ∧ ∃ t, dump j = Ret t.
Proof.
  intros Hj%parse_typed. split; [done|]. by apply dump_total, typed_utf8.
Qed.

(** A duplicate key, an escape and the largest unsigned integer. *)
Definition typed_bytes : string :=
  of_bytes ([123; 34; 97; 34; 58; 49; 44; 34; 97; 34; 58] ++ to_bytes "18446744073709551615" ++ [125]).

Lemma parse_well_typed_witness :
  ∃ j, parse (H := test_float) typed_bytes = Some j ∧ json_typed j = true.
Proof.
  exists (JObj [("a", JUint 18446744073709551615)]).
  assert (parse (H := test_float) typed_bytes = Some (JObj [("a", JUint 18446744073709551615)])) as Hp
    by (vm_compute; reflexivity).
  split; [exact Hp|]. exact (proj1 (parse_well_typed (H := test_float) _ _ Hp)).
Defined.
