(* ===== verification/JsonRoundTrip.v ===== *)
(** * Parsing what was serialized

    [parse (dump j)] is [j] again, up to the kind of non-negative integers, for
    every value without doubles whose strings are valid UTF-8.  Strings: each
    character is written raw or escaped and read back whole.  Integers: the digits
    the serializer writes two at a time are the ones the lexer reads.  Values: by
    induction, with a bound on the parser's iterations. *)
From Stdlib Require Import SpecFloat.
From S2P Require Import Prelude Util Messages Json JsonProofs.

(** ** Valid UTF-8 as a sequence of characters *)

Inductive utf8_seq : list Z → Prop :=
| seq_nil : utf8_seq []
| seq_ascii b l : 0 <= b < 128 → utf8_seq l → utf8_seq (b :: l)
| seq_multi c rs conts l :
    is_u8 c → lead_ranges c = Some rs → Forall2 (λ r b, in_range r b = true) rs conts →
    bytes_ok conts → utf8_seq l → utf8_seq (c :: conts ++ l).

(** Checked over all first bytes: what the automaton does from its start state. *)
Definition first_check (c : Z) : bool :=
  let st := utf8_step 0 c in
  (st =? 1) || ((st =? 0) && (c <? 128)) ||
  match lead_ranges c with Some (_ :: _) => true | _ => false end.

(** Checked over all first and second bytes: the second is in the range of the
    lexer, the state and the partial code point are as expected. *)
Definition second_check (c b : Z) : bool :=
  match lead_ranges c with
  | Some (r :: rs) =>
      let '(st1, cp1) := decode 0 0 c in
      let '(st2, cp2) := decode st1 cp1 b in
      negb (st1 =? 0) && negb (st1 =? 1) &&
      ((st2 =? 1) ||
       (in_range r b && (st2 =? tail_state (length rs)) && (length rs <=? 2)%nat &&
        bool_decide (rs = replicate (length rs) (0x80, 0xBF)) &&
        (if (length rs =? 0)%nat then 128 <=? cp2 else (8 <=? cp2) && (cp2 <? 16384))))
  | _ => true
  end.

Definition tail_check_at (b : Z) : bool :=
  ((utf8_step 3 b =? 1) || (in_range (0x80, 0xBF) b && (utf8_step 3 b =? 2))) &&
  ((utf8_step 2 b =? 1) || (in_range (0x80, 0xBF) b && (utf8_step 2 b =? 0))).

Lemma first_check_all : forallb first_check (seqZ 0 256) = true.
Proof. by vm_compute. Qed.
Lemma second_check_all : forallb (λ c, forallb (second_check c) (seqZ 0 256)) (seqZ 0 256) = true.
Proof. by vm_compute. Qed.
Lemma tail_check_all : forallb tail_check_at (seqZ 0 256) = true.
Proof. by vm_compute. Qed.

(** The first code point argument does not matter in the start state. *)
Lemma decode_start cp c : decode 0 cp c = decode 0 0 c.
Proof. reflexivity. Qed.

Lemma decode_step st cp b : fst (decode st cp b) = utf8_step st b.
Proof. reflexivity. Qed.

Lemma utf8_run_cons st b l : utf8_run st (b :: l) = utf8_run (utf8_step st b) l.
Proof. reflexivity. Qed.

(** Continuation bytes: the automaton needs exactly [n] of them. *)
Lemma tail_inv n l :
  (n <= 2)%nat → bytes_ok l → utf8_run (tail_state n) l = 0 →
  ∃ conts l', l = conts ++ l' ∧ Forall2 (λ r b, in_range r b = true) (replicate n (0x80, 0xBF)) conts ∧
    bytes_ok conts ∧ bytes_ok l' ∧ utf8_run 0 l' = 0.
Proof.
  revert l. induction n as [|n IH]; intros l Hn Hl Hr.
  { exists [], l. split_and!; [done|constructor|constructor|done|done]. }
  destruct l as [|b l]; [by destruct n as [|[|]]|]. apply Forall_cons in Hl as [Hb Hl].
  rewrite utf8_run_cons in Hr.
  pose proof (forallb_range _ 256 tail_check_all b Hb) as Hc. unfold tail_check_at in Hc.
  apply andb_prop in Hc as [H3 H2].
  assert (in_range (0x80, 0xBF) b = true ∧ utf8_step (tail_state (S n)) b = tail_state n) as [Hin Hst].
  { destruct n as [|[|]]; [| |lia]; cbn [tail_state] in *.
    - apply orb_prop in H2 as [H2|H2]; to_prop; [|done].
      rewrite H2, utf8_run_reject in Hr by done. done.
    - apply orb_prop in H3 as [H3|H3]; to_prop; [|done].
      rewrite H3, utf8_run_reject in Hr by done. done. }
  rewrite Hst in Hr. destruct (IH l ltac:(lia) Hl Hr) as (conts & l' & -> & Hf & Hcb & Hl' & Hr').
  exists (b :: conts), l'. split_and!; [done|by constructor|by constructor|done|done].
Qed.

Lemma second_check_spec c b r rs :
  is_u8 c → is_u8 b → lead_ranges c = Some (r :: rs) → utf8_step (utf8_step 0 c) b ≠ 1 →
  utf8_step 0 c ≠ 0 ∧ utf8_step 0 c ≠ 1 ∧ in_range r b = true ∧ (length rs <= 2)%nat ∧
  rs = replicate (length rs) (0x80, 0xBF) ∧
  utf8_step (utf8_step 0 c) b = tail_state (length rs) ∧
  ∀ cp, let cp2 := snd (decode (utf8_step 0 c) (snd (decode 0 cp c)) b) in
    if (length rs =? 0)%nat then 128 <= cp2 else 8 <= cp2 < 16384.
Proof.
  intros Hc Hb Hl Hne. pose proof (forallb_range _ 256 second_check_all c Hc) as Hall.
  apply (forallb_range _ 256) with (i := b) in Hall; [|done]. unfold second_check in Hall.
  rewrite Hl in Hall. rewrite (surjective_pairing (decode 0 0 c)), decode_step in Hall.
  rewrite (surjective_pairing (decode (utf8_step 0 c) _ b)), decode_step in Hall.
  apply andb_prop in Hall as [H01 H2]. apply andb_prop in H01 as [H0 H1].
  apply orb_prop in H2 as [H2|H2]; [by apply Z.eqb_eq in H2|].
  apply andb_prop in H2 as [H2 Hcp]. apply andb_prop in H2 as [H2 Hrep].
  apply andb_prop in H2 as [H2 Hlen]. apply andb_prop in H2 as [Hin Hst].
  to_prop. apply Nat.leb_le in Hlen. split_and!; try done. intros cp cp2.
  assert (cp2 = snd (decode (utf8_step 0 c) (snd (decode 0 0 c)) b)) as -> by reflexivity.
  destruct (length rs =? 0)%nat; to_prop; lia.
Qed.

Lemma lead_second c : is_u8 c → lead_ranges c ≠ Some [].
Proof.
  intros Hc Hl. pose proof (forallb_range lead_check 256 lead_check_all c Hc) as Hchk.
  unfold lead_check in Hchk. by rewrite Hl in Hchk.
Qed.

Lemma utf8_seq_run l : bytes_ok l → utf8_run 0 l = 0 → utf8_seq l.
Proof.
  remember (length l) as k eqn:Hk. revert l Hk. induction (lt_wf k) as [k _ IH]. intros l -> Hl Hr.
  destruct l as [|c l]; [constructor|]. apply Forall_cons in Hl as [Hc Hl]. rewrite utf8_run_cons in Hr.
  pose proof (forallb_range first_check 256 first_check_all c Hc) as Hf. unfold first_check in Hf.
  apply orb_prop in Hf as [Hf|Hf]; [apply orb_prop in Hf as [Hf|Hf]|].
  - to_prop. rewrite Hf, utf8_run_reject in Hr by done. done.
  - to_prop. rewrite H in Hr. constructor; [unfold is_u8 in Hc; lia|]. by apply (IH (length l)); simpl; [lia| | |].
  - destruct (lead_ranges c) as [[|r rs]|] eqn:Hlr; [done| |done].
    destruct l as [|b l].
    { cbn in Hr. destruct (second_check_spec c 0x90 r rs) as (H0 & _); try done.
      intros H1. pose proof (forallb_range _ 256 second_check_all c Hc) as Hall.
      apply (forallb_range _ 256) with (i := 0x90) in Hall; [|done]. unfold second_check in Hall.
      rewrite Hlr, (surjective_pairing (decode 0 0 c)), decode_step in Hall.
      change (utf8_run (utf8_step 0 c) [] = 0) in Hr. cbn [utf8_run foldl] in Hr.
      rewrite (surjective_pairing (decode (utf8_step 0 c) _ _)) in Hall. rewrite Hr in Hall. done. }
    apply Forall_cons in Hl as [Hb Hl]. rewrite utf8_run_cons in Hr.
    destruct (decide (utf8_step (utf8_step 0 c) b = 1)) as [H1|H1].
    { rewrite H1, utf8_run_reject in Hr by done. done. }
    destruct (second_check_spec c b r rs Hc Hb Hlr H1) as (_ & _ & Hin & Hlen & Hrep & Hst & _).
    rewrite Hst in Hr. destruct (tail_inv (length rs) l Hlen Hl Hr) as (conts & l' & -> & Hf2 & Hcb & Hl' & Hr').
    rewrite <-Hrep in Hf2. change (c :: b :: conts ++ l') with (c :: (b :: conts) ++ l').
    econstructor; [done|exact Hlr|by constructor|by constructor|].
    apply (IH (length l')); [rewrite !length_cons, length_app; lia|done|done|done].
Qed.

(** ** Strings *)

Lemma escape_raw cp b : 128 <= cp → escape cp b = String (ascii_of_byte b) "".
Proof.
  intros Hcp. unfold escape.
  repeat (rewrite (proj2 (Z.eqb_neq _ _)) by lia). by rewrite (proj2 (Z.leb_gt _ _)) by lia.
Qed.

(** The next code point from continuation byte [b]. *)
Lemma decode_cp st cp b :
  st ≠ 0 → 0 <= cp < 67108864 → 64 * cp <= snd (decode st cp b) < 64 * cp + 64.
Proof.
  intros Hst Hcp. unfold decode. cbn [snd]. rewrite (proj2 (Z.eqb_neq _ _)) by done. cbn [negb].
  assert (0 <= Z.land b 63 < 64) as Hl
    by (change 63 with (Z.ones 6); rewrite Z.land_ones by done; by apply Z.mod_pos_bound).
  rewrite u32_small by (unfold is_u32; rewrite Z.shiftl_mul_pow2 by done; lia).
  rewrite Z.lor_comm, lor_shiftl_add by lia. change (2 ^ 6) with 64. lia.
Qed.

(** The serializer copies continuation bytes. *)
Lemma tail_dump n conts cp l out :
  (1 <= n <= 2)%nat → Forall2 (λ r b, in_range r b = true) (replicate n (0x80, 0xBF)) conts →
  8 <= cp < 16384 * (if (n =? 1)%nat then 64 else 1) →
  ∃ cp', dump_escaped_loop (conts ++ l) (tail_state n) cp out
         = dump_escaped_loop l 0 cp' (out +:+ of_bytes conts).
Proof.
  assert (∀ b, in_range (0x80, 0xBF) b = true → 0x80 <= b <= 0xBF) as Hr.
  { intros b Hb. unfold in_range in Hb. cbn in Hb. to_prop. lia. }
  assert (∀ b cp l out, in_range (0x80, 0xBF) b = true → 8 <= cp < 1048576 →
    ∃ cp', dump_escaped_loop (b :: l) 2 cp out = dump_escaped_loop l 0 cp' (out +:+ of_bytes [b])) as Hone.
  { intros b cp0 l0 out0 Hb%Hr Hcp. cbn [dump_escaped_loop].
    pose proof (decode_cp 2 cp0 b ltac:(done) ltac:(lia)) as Hd. destruct (tail_check b Hb) as [_ H2].
    rewrite (surjective_pairing (decode 2 cp0 b)), decode_step, H2. cbn [Z.eqb].
    rewrite escape_raw by lia. by eexists. }
  intros Hn Hf Hcp. destruct n as [|[|[|n]]]; [lia| | |lia]; cbn [replicate tail_state Nat.eqb] in *.
  - apply Forall2_cons_inv_l in Hf as (b & ? & Hb & ->%Forall2_nil_inv_l & ->). by apply Hone.
  - apply Forall2_cons_inv_l in Hf as (b & ? & Hb & Hf & ->).
    apply Forall2_cons_inv_l in Hf as (b' & ? & Hb' & ->%Forall2_nil_inv_l & ->).
    change ([b; b'] ++ l) with (b :: b' :: l). cbn [dump_escaped_loop].
    pose proof (decode_cp 3 cp b ltac:(done) ltac:(lia)) as Hd. destruct (tail_check b (Hr b Hb)) as [H3 _].
    rewrite (surjective_pairing (decode 3 cp b)), decode_step, H3. cbn [Z.eqb Pos.eqb].
    change (∃ cp', dump_escaped_loop (b' :: l) 2 (snd (decode 3 cp b)) (out +:+ String (ascii_of_byte b) "") =
      dump_escaped_loop l 0 cp' (out +:+ of_bytes [b; b'])).
    destruct (Hone b' (snd (decode 3 cp b)) l (out +:+ String (ascii_of_byte b) "") Hb' ltac:(lia)) as [cp' ->].
    exists cp'. f_equal. by rewrite <-str_app_assoc.
Qed.

Lemma multi_dump c rs conts cp l out :
  is_u8 c → lead_ranges c = Some rs → Forall2 (λ r b, in_range r b = true) rs conts → bytes_ok conts →
  ∃ cp', dump_escaped_loop (c :: conts ++ l) 0 cp out
         = dump_escaped_loop l 0 cp' (out +:+ of_bytes (c :: conts)).
Proof.
  intros Hc Hl Hf Hcb. destruct (utf8_lead c rs conts Hc Hl Hf Hcb) as [_ Hrun].
  destruct rs as [|r rs]; [by apply lead_second in Hl|].
  apply Forall2_cons_inv_l in Hf as (b & conts' & Hb & Hf & ->). apply Forall_cons in Hcb as [Hub Hcb].
  rewrite !utf8_run_cons in Hrun.
  destruct (second_check_spec c b r rs Hc Hub Hl) as (H0 & H1 & _ & Hlen & Hrep & Hst & Hcp).
  { intros H1. by rewrite H1, utf8_run_reject in Hrun. }
  specialize (Hcp cp). cbv zeta in Hcp. change (c :: (b :: conts') ++ l) with (c :: b :: conts' ++ l).
  cbn [dump_escaped_loop]. rewrite (surjective_pairing (decode 0 cp c)), decode_step.
  rewrite (proj2 (Z.eqb_neq _ _) H0), (proj2 (Z.eqb_neq _ _) H1).
  rewrite (surjective_pairing (decode (utf8_step 0 c) _ b)), decode_step, Hst.
  set (cp2 := snd (decode (utf8_step 0 c) (snd (decode 0 cp c)) b)) in *.
  destruct (length rs) as [|k] eqn:Ek; cbn [Nat.eqb] in Hcp.
  - cbn [tail_state Z.eqb]. rewrite escape_raw by done. subst rs. apply Forall2_nil_inv_l in Hf as ->.
    exists cp2. f_equal. by rewrite <-str_app_assoc.
  - assert ((tail_state (S k) =? 0) = false) as -> by by destruct k.
    assert ((tail_state (S k) =? 1) = false) as -> by by destruct k.
    rewrite Hrep in Hf.
    destruct (tail_dump (S k) conts' cp2 l ((out +:+ String (ascii_of_byte c) "") +:+ String (ascii_of_byte b) ""))
      as [cp' ->]; [lia|done|destruct k; cbn [Nat.eqb]; lia|].
    exists cp'. f_equal. by rewrite <-!str_app_assoc.
Qed.

Lemma next_byte_complete rs conts rest buf :
  Forall2 (λ r b, in_range r b = true) rs conts →
  next_byte_in_range rs (conts ++ rest) buf = Some (buf ++ conts, rest).
Proof.
  intros Hf. revert buf. induction Hf as [|[lo hi] b rs conts Hb Hf IH]; intros buf;
    cbn [next_byte_in_range app]; [by rewrite app_nil_r|].
  unfold in_range in Hb. cbn [fst snd] in Hb. rewrite Hb, IH, <-app_assoc. done.
Qed.

(** The lexer reads back one written ASCII character. *)
Lemma scan_escape fuel b more buf :
  0 <= b < 128 →
  scan_string (S fuel) (to_bytes (escape b b) ++ more) buf = scan_string fuel more (buf ++ [b]).
Proof.
  intros Hb. rewrite <-(Z2Nat.id b) by lia. assert (Z.to_nat b < 128)%nat as Hm by lia.
  revert Hm. generalize (Z.to_nat b). clear b Hb. intros m Hm.
  do 128 (destruct m as [|m]; [reflexivity|]). lia.
Qed.

Lemma lead_high c rs : lead_ranges c = Some rs → 0x80 < c.
Proof. unfold lead_ranges. repeat case_match; intros [= <-]; to_prop; lia. Qed.

Lemma scan_multi fuel c rs conts more buf :
  lead_ranges c = Some rs → Forall2 (λ r b, in_range r b = true) rs conts →
  scan_string (S fuel) (c :: conts ++ more) buf = scan_string fuel more (buf ++ c :: conts).
Proof.
  intros Hl Hf. cbn [scan_string]. pose proof (lead_high c rs Hl).
  rewrite (proj2 (Z.eqb_neq c 34)), (proj2 (Z.eqb_neq c 92)) by lia.
  rewrite (proj2 (Z.leb_gt c 0x1F)), (proj2 (Z.leb_gt c 0x7F)), Hl by lia.
  rewrite next_byte_complete by done. by rewrite <-app_assoc.
Qed.

Lemma decode_ascii cp b : 0 <= b < 128 → decode 0 cp b = (0, b).
Proof.
  intros Hb. rewrite decode_start.
  exact (range_eq (decode 0 0) (λ b, (0, b)) 128 ltac:(by vm_compute) b Hb).
Qed.

Lemma escape_length b : 0 <= b < 128 → (1 <= length (to_bytes (escape b b)))%nat.
Proof.
  intros _. unfold escape. repeat case_match; cbn; lia.
Qed.

Lemma string_roundtrip l :
  utf8_seq l → ∀ cp out, ∃ t, dump_escaped_loop l 0 cp out = Ret (out +:+ t) ∧
    (length l <= length (to_bytes t))%nat ∧
    ∀ fuel rest buf, (length l < fuel)%nat →
      scan_string fuel (to_bytes t ++ 34 :: rest) buf = (TString (of_bytes (buf ++ l)), rest).
Proof.
  induction 1 as [|b l Hb Hl IH|c rs conts l Hc Hlr Hf Hcb Hl IH]; intros cp out.
  - exists "". cbn [dump_escaped_loop Z.eqb]. rewrite str_app_nil_r. split_and!; [done|done|].
    intros [|fuel] rest buf Hfu; [lia|]. cbn. by rewrite app_nil_r.
  - cbn [dump_escaped_loop]. rewrite decode_ascii by done. cbn [Z.eqb].
    destruct (IH b (out +:+ escape b b)) as (t & -> & Hlen & Hscan).
    exists (escape b b +:+ t). rewrite str_app_assoc. split; [done|].
    pose proof (escape_length b Hb). rewrite to_bytes_app, length_app, length_cons. split; [lia|].
    intros [|fuel] rest buf Hfu; [lia|]. rewrite <-app_assoc, scan_escape by done.
    rewrite Hscan by lia. by rewrite <-app_assoc.
  - destruct (multi_dump c rs conts cp l out Hc Hlr Hf Hcb) as [cp' ->].
    destruct (IH cp' (out +:+ of_bytes (c :: conts))) as (t & -> & Hlen & Hscan).
    exists (of_bytes (c :: conts) +:+ t). rewrite str_app_assoc. split; [done|].
    rewrite to_bytes_app, to_bytes_of_bytes by (by constructor).
    rewrite length_app, !length_cons, length_app. split; [lia|].
    intros [|fuel] rest buf Hfu; [lia|]. rewrite <-app_assoc.
    change ((c :: conts) ++ to_bytes t ++ 34 :: rest) with (c :: conts ++ (to_bytes t ++ 34 :: rest)).
    rewrite (scan_multi fuel c rs) by done. rewrite Hscan by lia. by rewrite <-app_assoc.
Qed.

Lemma quoted_scan `{FloatText} s q rest :
  quoted s = Ret q → scan (to_bytes q ++ rest) = (TString s, rest).
Proof.
  unfold quoted. destruct (dump_escaped s) as [t|] eqn:Hd; [|done]. intros [= <-].
  assert (utf8_seq (to_bytes s)) as Hs.
  { apply utf8_seq_run; [apply to_bytes_ok|]. apply utf8_valid_run. unfold utf8_valid. by rewrite Hd. }
  destruct (string_roundtrip _ Hs 0 "") as (t' & Ht & Hlen & Hscan).
  assert (t' = t) as ->.
  { unfold dump_escaped in Hd. rewrite Hd in Ht. by injection Ht. }
  cbn [to_bytes]. change (byte_of_ascii quote) with 34. unfold scan. cbn [app skip_whitespace Z.eqb orb Pos.eqb].
  rewrite to_bytes_app, <-app_assoc. cbn [to_bytes]. change (byte_of_ascii quote) with 34.
  cbn [app]. rewrite Hscan; [by rewrite app_nil_l, of_bytes_to_bytes|].
  rewrite length_app, length_cons. lia.
Qed.

(** ** Integers *)

(** The serializer's digit pairs are the decimal digits. *)
Lemma dump_pairs_dec fuel x out :
  1 <= x < 100 ^ Z.of_nat fuel → dump_pairs fuel x out = dec_digits (2 * fuel) x out.
Proof.
  revert x out. induction fuel as [|fuel IH]; intros x out Hx; [cbn in Hx; lia|].
  replace (2 * S fuel)%nat with (S (S (2 * fuel))) by lia. cbn [dump_pairs dec_digits].
  rewrite Nat2Z.inj_succ, Z.pow_succ_r in Hx by lia.
  destruct (100 <=? x) eqn:E1; to_prop.
  - rewrite (proj2 (Z.ltb_ge x 10)), (proj2 (Z.ltb_ge (x / 10) 10)) by divmod_lia.
    rewrite IH by divmod_lia. rewrite Z.div_div by done. change (10 * 10) with 100.
    unfold digits_to_99. replace (x mod 100 / 10) with (x / 10 mod 10) by divmod_lia.
    by replace (x mod 100 mod 10) with (x mod 10) by divmod_lia.
  - destruct (10 <=? x) eqn:E2; to_prop.
    + rewrite (proj2 (Z.ltb_ge x 10)), (proj2 (Z.ltb_lt (x / 10) 10)) by divmod_lia.
      unfold digits_to_99. by replace (x / 10 mod 10) with (x / 10) by divmod_lia.
    + rewrite (proj2 (Z.ltb_lt x 10)) by lia. rewrite Z.mod_small by lia. done.
Qed.

Definition digits (l : list Z) : Prop := Forall (λ c, is_dec_digit c = true) l.

Lemma dec_bytes fuel n s :
  1 <= n < 10 ^ Z.of_nat (S fuel) →
  ∃ d ds, to_bytes (dec_digits (S fuel) n s) = d :: ds ++ to_bytes s ∧ 49 <= d <= 57 ∧ digits ds.
Proof.
  revert n s. induction fuel as [|fuel IH]; intros n s Hn.
  - change (10 ^ Z.of_nat 1) with 10 in Hn. cbn [dec_digits].
    rewrite (proj2 (Z.ltb_lt n 10)) by lia. exists (48 + n), [].
    cbn [to_bytes]. rewrite byte_of_ascii_of_byte by (unfold is_u8; divmod_lia).
    rewrite Z.mod_small by lia. split_and!; [done|lia|lia|constructor].
  - change (dec_digits (S (S fuel)) n s) with
      (if n <? 10 then String (ascii_of_byte (48 + n mod 10)) s
       else dec_digits (S fuel) (n / 10) (String (ascii_of_byte (48 + n mod 10)) s)).
    assert (byte_of_ascii (ascii_of_byte (48 + n mod 10)) = 48 + n mod 10) as Hb
      by (apply byte_of_ascii_of_byte; unfold is_u8; divmod_lia).
    destruct (n <? 10) eqn:E; to_prop.
    + exists (48 + n), []. cbn [to_bytes]. rewrite Hb, Z.mod_small by lia.
      split_and!; [done|lia|lia|constructor].
    + rewrite Nat2Z.inj_succ, Z.pow_succ_r in Hn by lia.
      destruct (IH (n / 10) (String (ascii_of_byte (48 + n mod 10)) s)) as (d & ds & -> & Hd & Hds);
        [divmod_lia|].
      exists d, (ds ++ [48 + n mod 10]). cbn [to_bytes]. rewrite Hb, <-app_assoc.
      split_and!; [done|lia|lia|]. apply Forall_app. split; [done|]. apply Forall_singleton.
      unfold is_dec_digit. apply andb_true_intro. split; apply Z.leb_le; divmod_lia.
Qed.

(** What follows a value in a serialized text. *)
Definition delim (rest : list Z) : Prop :=
  match rest with [] => True | c :: _ => c = 44 ∨ c = 93 ∨ c = 125 end.

Lemma scan_num_digits ds rest buf ty :
  digits ds → delim rest → scan_num_loop NAny1 (ds ++ rest) buf ty = Some (buf ++ ds, ty, rest).
Proof.
  intros Hds Hrest. revert buf. induction Hds as [|d ds Hd Hds IH]; intros buf.
  - rewrite app_nil_r. destruct rest as [|c rest]; [done|]. cbn [app scan_num_loop].
    by destruct Hrest as [->|[->| ->]].
  - cbn [app scan_num_loop]. assert (num_next NAny1 (Some d) = Some (Some NAny1)) as ->.
    { unfold num_next. change (default 0 (Some d)) with d. cbv zeta. by rewrite Hd. }
    rewrite IH. by rewrite <-app_assoc.
Qed.

(** The token of a serialized integer. *)
Definition int_token (z : Z) : token := if z <? 0 then TInteger z else TUnsigned z.

Lemma scan_dec_int n : 1 <= n < 10 ^ 22 → scan_int (dec_digits 22 n "") = Some (false, n).
Proof.
  intros Hn. unfold scan_int. destruct (dec_digits_head 21 n "" ltac:(lia)) as (c & t & Heq & Hd).
  destruct (digit_not_space_sign c Hd) as (Hs & Hm & Hp).
  pose proof (scan_digits_dec 21 n "") as Hscan. rewrite Heq in *.
  simpl skip_spaces. rewrite Hs, Hm, Hp, Hscan; [done|]. change (Z.of_nat 22) with 22. lia.
Qed.

Lemma scan_neg_int n : 1 <= n < 10 ^ 22 → scan_int (String "-" (dec_digits 22 n "")) = Some (true, n).
Proof.
  intros Hn. unfold scan_int. change (skip_spaces (String "-" (dec_digits 22 n ""))) with
    (String "-" (dec_digits 22 n "")). cbn [Ascii.eqb Bool.eqb].
  rewrite scan_digits_dec; [done|]. change (Z.of_nat 22) with 22. lia.
Qed.

Lemma scan_skip c rest :
  32 < c → skip_whitespace (c :: rest) = c :: rest.
Proof.
  intros Hc. cbn [skip_whitespace]. by repeat (rewrite (proj2 (Z.eqb_neq _ _)) by lia).
Qed.

(** A digit or a minus sign starts a number. *)
Lemma scan_number_start `{FloatText} c rest :
  c = 45 ∨ 48 <= c <= 57 → scan (c :: rest) = scan_number c rest.
Proof.
  intros Hc. unfold scan. rewrite scan_skip by lia.
  do 10 (rewrite (proj2 (Z.eqb_neq c _)) by lia).
  assert ((c =? 45) || is_dec_digit c = true) as ->; [|done].
  unfold is_dec_digit. destruct Hc as [->|Hc]; [done|].
  rewrite (proj2 (Z.leb_le _ _)), (proj2 (Z.leb_le _ _)) by lia. apply orb_true_r.
Qed.

Lemma scan_integer `{FloatText} z rest :
  -9223372036854775808 <= z <= u64_max → delim rest →
  scan (to_bytes (dump_integer z) ++ rest) = (int_token z, rest).
Proof.
  intros Hz Hrest. unfold dump_integer, int_token. unfold u64_max in *.
  destruct (z =? 0) eqn:E0; to_prop.
  { subst. cbn [to_bytes Z.ltb Z.compare]. cbn [app]. rewrite scan_number_start by (right; vm_compute; split; discriminate).
    destruct rest as [|c rest]; [done|]. by destruct Hrest as [->|[->| ->]]. }
  destruct (z <? 0) eqn:Eneg; to_prop.
  - assert (u64 (u64 (- (z + 1)) + 1) = - z) as ->.
    { rewrite (u64_small (- (z + 1))) by (unfold is_u64; lia). rewrite u64_small by (unfold is_u64; lia). lia. }
    rewrite dump_pairs_dec by (change (100 ^ Z.of_nat 11) with (10 ^ 22); lia). change (2 * 11)%nat with 22%nat.
    pose proof (scan_neg_int (- z) ltac:(lia)) as Hscan.
    destruct (dec_bytes 21 (- z) "") as (d & ds & Hb & Hd & Hds);
      [change (Z.of_nat 22) with 22; lia|].
    rewrite app_nil_r in Hb. cbn [to_bytes]. rewrite Hb. change (byte_of_ascii "-") with 45. cbn [app].
    rewrite scan_number_start by (by left). unfold scan_number. cbn [Z.eqb Pos.eqb num_enter scan_num_loop].
    assert (num_next NMinus (Some d) = Some (Some NAny1)) as ->.
    { unfold num_next. change (default 0 (Some d)) with d. cbv zeta. rewrite (proj2 (Z.eqb_neq d 48)) by lia.
      unfold is_dec_digit. by rewrite (proj2 (Z.leb_le _ _)), (proj2 (Z.leb_le _ _)) by lia. }
    cbn [num_enter]. rewrite scan_num_digits by done. unfold number_token.
    assert (of_bytes (([45] ++ [d]) ++ ds) = String "-" (dec_digits 22 (- z) "")) as ->.
    { apply to_bytes_inj. cbn [to_bytes]. rewrite Hb, to_bytes_of_bytes; [done|].
      pose proof (to_bytes_ok (String "-" (dec_digits 22 (- z) ""))) as Hok. cbn [to_bytes] in Hok.
      by rewrite Hb in Hok. }
    unfold stoll, sto_signed. rewrite Hscan. cbv beta iota zeta. rewrite Z.opp_involutive.
    by rewrite (proj2 (Z.leb_le _ _)), (proj2 (Z.leb_le _ _)) by lia.
  - rewrite dump_pairs_dec by (change (100 ^ Z.of_nat 11) with (10 ^ 22); lia). change (2 * 11)%nat with 22%nat.
    pose proof (scan_dec_int z ltac:(lia)) as Hscan.
    destruct (dec_bytes 21 z "") as (d & ds & Hb & Hd & Hds); [change (Z.of_nat 22) with 22; lia|].
    rewrite app_nil_r in Hb. rewrite Hb. cbn [app]. rewrite scan_number_start by (right; lia).
    unfold scan_number. rewrite (proj2 (Z.eqb_neq d 45)), (proj2 (Z.eqb_neq d 48)) by lia. cbn [num_enter].
    rewrite scan_num_digits by done. unfold number_token.
    assert (of_bytes ([d] ++ ds) = dec_digits 22 z "") as ->.
    { apply to_bytes_inj. rewrite Hb, to_bytes_of_bytes; [done|].
      pose proof (to_bytes_ok (dec_digits 22 z "")) as Hok. by rewrite Hb in Hok. }
    rewrite Hscan. unfold u64_max. by rewrite (proj2 (Z.leb_le _ _)) by lia.
Qed.

Lemma str_length_app s t : String.length (s +:+ t) = (String.length s + String.length t)%nat.
Proof. by rewrite <-!length_to_bytes, to_bytes_app, length_app. Qed.

Lemma dump_pairs_length fuel x out :
  (1 <= String.length out ∨ 1 <= fuel)%nat → (1 <= String.length (dump_pairs fuel x out))%nat.
Proof.
  revert x out. induction fuel as [|fuel IH]; intros x out Hl; cbn [dump_pairs]; [lia|].
  destruct (100 <=? x); [apply IH; left|destruct (10 <=? x)]; rewrite ?str_length_app; unfold digits_to_99; cbn [String.length]; lia.
Qed.

Lemma dump_integer_length z : (1 <= String.length (dump_integer z))%nat.
Proof.
  unfold dump_integer. destruct (z =? 0); [cbn; lia|].
  destruct (z <? 0); [cbn [String.length]; lia|]. apply dump_pairs_length. right. lia.
Qed.

(** ** Values *)

(** What a value becomes: the parser reads a non-negative integer as unsigned. *)
Fixpoint norm (j : json) : json :=
  match j with
  | JInt z => if z <? 0 then JInt z else JUint z
  | JArr l => JArr (map norm l)
  | JObj o => JObj (map (λ kv, (kv.1, norm kv.2)) o)
  | _ => j
  end.

(** A value a C++ [json] can hold, without doubles. *)
Fixpoint canon (j : json) : bool :=
  match j with
  | JInt z => (-9223372036854775808 <=? z) && (z <=? 9223372036854775807)
  | JUint z => (0 <=? z) && (z <=? u64_max)
  | JFloat _ => false
  | JArr l => forallb canon l
  | JObj o => keys_sorted (map fst o) && forallb (λ kv, canon kv.2) o
  | _ => true
  end.

Lemma obj_set_last k v o :
  Forall (λ k', key_lt k' k = true) (map fst o) → obj_set k v o = o ++ [(k, v)].
Proof.
  induction o as [|[k' v'] o IH]; cbn [map fst obj_set app]; [done|]. intros [Hk Ho]%Forall_cons.
  unfold key_lt in Hk. rewrite String.compare_antisym.
  destruct (String.compare k' k); try done. cbn [CompOpp]. by rewrite IH.
Qed.

Lemma canon_json_of kvs :
  forallb (λ kv, canon kv.2) kvs = true → canon (json_of kvs) = true.
Proof.
  intros Hc. destruct kvs as [|kv kvs]; [done|]. unfold json_of. cbn [canon].
  assert (∀ l o, keys_sorted (map fst o) = true → forallb (λ kv, canon kv.2) o = true →
    forallb (λ kv, canon kv.2) l = true →
    let o' := foldl (λ o kv, obj_set kv.1 kv.2 o) o l in
    keys_sorted (map fst o') && forallb (λ kv, canon kv.2) o' = true) as Hgo.
  { clear. induction l as [|[k v] l IH]; intros o Hs Ho Hl; cbn [foldl]; [by rewrite Hs, Ho|].
    cbn [forallb snd] in Hl. apply andb_prop in Hl as [Hv Hl]. cbn [fst snd].
    apply IH; [by apply obj_set_sorted| |done]. clear -Ho Hv.
    induction o as [|[k' v'] o IH]; cbn [obj_set forallb snd]; [by rewrite Hv|].
    cbn [forallb snd] in Ho. apply andb_prop in Ho as [H1 H2].
    destruct (String.compare k k'); cbn [forallb snd]; rewrite ?Hv, ?H1, ?H2, ?IH by done; done. }
  by apply Hgo.
Qed.

(** Accessors do not see the difference between a value and what is read back. *)
Lemma json_find_norm k j : json_find k (norm j) = norm <$> json_find k j.
Proof.
  destruct j as [| |z| | | | |o]; try done; cbn [norm]; [by destruct (z <? 0)|]. cbn [json_find].
  induction o as [|[k' v] o IH]; [done|]. cbn [map obj_find fst snd].
  destruct (String.eqb k' k); [reflexivity|exact IH].
Qed.

Lemma get_str_norm j k : get_str (norm j) k = get_str j k.
Proof.
  unfold get_str. rewrite json_find_norm. destruct (json_find k j) as [v|]; [|done]. cbn.
  destruct v; try done. cbn. by destruct (z <? 0).
Qed.

Lemma canon_find j k v : canon j = true → json_find k j = Some v → canon v = true.
Proof.
  destruct j; try done. cbn [canon json_find]. intros [_ Hc]%andb_prop.
  induction o as [|[k' v'] o IH]; [done|]. cbn [forallb snd] in Hc. apply andb_prop in Hc as [Hv Hc].
  cbn [obj_find]. destruct (String.eqb k' k); [by intros [= <-]|]. by apply IH.
Qed.

Lemma get_integer_norm v : canon v = true → get_integer (norm v) = get_integer v.
Proof.
  destruct v; try done. cbn [canon norm]. intros Hz. to_prop. destruct (z <? 0) eqn:E; [done|]. to_prop.
  cbn. unfold i64. rewrite Z.mod_small by lia. f_equal. lia.
Qed.

Lemma get_i64_norm `{FloatCast} j k d : canon j = true → get_i64 (norm j) k d = get_i64 j k d.
Proof.
  intros Hc. unfold get_i64. rewrite json_find_norm. destruct (json_find k j) as [v|] eqn:E; [|done].
  cbn [fmap option_fmap option_map]. rewrite get_integer_norm by (by eapply canon_find).
  destruct (get_integer v) eqn:Ei; [done|]. destruct v; try done.
Qed.

Section values.
Context `{FloatText}.

Fixpoint dump_elems (l : list json) : outcome string :=
  match l with
  | [] => Ret ""
  | [x] => dump x
  | x :: l => s ← dump x; t ← dump_elems l; Ret (s +:+ "," +:+ t)
  end.

Fixpoint dump_members (o : list (string * json)) : outcome string :=
  match o with
  | [] => Ret ""
  | [(k, v)] => q ← quoted k; s ← dump v; Ret (q +:+ ":" +:+ s)
  | (k, v) :: o => q ← quoted k; s ← dump v; t ← dump_members o; Ret (q +:+ ":" +:+ s +:+ "," +:+ t)
  end.

Lemma dump_arr x l : dump (JArr (x :: l)) = (t ← dump_elems (x :: l); Ret ("[" +:+ t +:+ "]")).
Proof. reflexivity. Qed.
Lemma dump_obj kv o : dump (JObj (kv :: o)) = (t ← dump_members (kv :: o); Ret ("{" +:+ t +:+ "}")).
Proof. reflexivity. Qed.

(** [k] iterations of the parser lead from one configuration to the other. *)
Definition runs (k : nat) (m : pmode) (rest : list Z) (st : list level)
    (m' : pmode) (rest' : list Z) (st' : list level) : Prop :=
  ∀ fuel, parse_loop (k + fuel) m rest st = parse_loop fuel m' rest' st'.

Lemma runs_step m rest st m' rest' st' :
  parse_step m rest st = PNext m' rest' st' → runs 1 m rest st m' rest' st'.
Proof. intros Hs fuel. cbn [Nat.add parse_loop]. by rewrite Hs. Qed.

Lemma runs_trans k1 k2 m r st m1 r1 st1 m2 r2 st2 :
  runs k1 m r st m1 r1 st1 → runs k2 m1 r1 st1 m2 r2 st2 → runs (k1 + k2) m r st m2 r2 st2.
Proof. intros H1 H2 fuel. by rewrite <-Nat.add_assoc, H1, H2. Qed.

(** From the first token of [s] to the value. *)
Definition reads (s : string) (v : json) : Prop :=
  ∀ rest st, delim rest → ∃ k, (k <= String.length s)%nat ∧
    runs k (MToken (fst (scan (to_bytes s ++ rest)))) (snd (scan (to_bytes s ++ rest))) st
      (MValue v) rest st.

(** The first token of a value is not a closing bracket. *)
Lemma reads_not_end s v rest :
  reads s v → delim rest → fst (scan (to_bytes s ++ rest)) ≠ TEndArray.
Proof.
  intros Hr Hd Ht. destruct (Hr rest [] Hd) as (k & _ & Hrun). specialize (Hrun 1%nat).
  rewrite Ht in Hrun. rewrite Nat.add_comm in Hrun. done.
Qed.

Lemma reads_scalar s v t :
  (∀ rest, delim rest → scan (to_bytes s ++ rest) = (t, rest)) →
  (∀ rest st, parse_step (MToken t) rest st = PNext (MValue v) rest st) → (1 <= String.length s)%nat →
  reads s v.
Proof.
  intros Hs Hp Hl rest st Hd. exists 1%nat. split; [done|]. rewrite Hs by done. cbn [fst snd].
  apply runs_step, Hp.
Qed.

Lemma elems_run l :
  Forall (λ x, ∀ s, canon x = true → dump x = Ret s → reads s (norm x)) l →
  ∀ t acc rest st, l ≠ [] → forallb canon l = true → dump_elems l = Ret t →
    ∃ k, (k <= String.length t + 1)%nat ∧
      fst (scan (to_bytes t ++ 93 :: rest)) ≠ TEndArray ∧
      runs k (MToken (fst (scan (to_bytes t ++ 93 :: rest)))) (snd (scan (to_bytes t ++ 93 :: rest)))
        (LArray acc :: st) (MValue (JArr (acc ++ map norm l))) rest st.
Proof.
  induction 1 as [|x l Hx Hl IH]; intros t acc rest st Hne Hc Hd; [done|].
  cbn [forallb] in Hc. apply andb_prop in Hc as [Hcx Hcl]. destruct l as [|y l].
  - cbn [dump_elems] in Hd. pose proof (Hx t Hcx Hd) as Hr.
    assert (delim (93 :: rest)) as Hdel by (cbn; auto).
    destruct (Hr (93 :: rest) (LArray acc :: st) Hdel) as (k & Hk & Hrun).
    exists (k + 1)%nat. split; [lia|]. split; [by eapply reads_not_end|].
    eapply runs_trans; [exact Hrun|]. by apply runs_step.
  - change (dump_elems (x :: y :: l)) with (s ← dump x; t ← dump_elems (y :: l); Ret (s +:+ "," +:+ t)) in Hd.
    destruct (dump x) as [s|] eqn:Hdx; [|done]. cbn [mbind outcome_bind] in Hd.
    destruct (dump_elems (y :: l)) as [t'|] eqn:Hdl; [|done]. injection Hd as <-.
    pose proof (Hx s Hcx eq_refl) as Hr.
    rewrite !to_bytes_app. change (to_bytes ",") with [44]. rewrite <-!app_assoc. cbn [app].
    assert (delim (44 :: to_bytes t' ++ 93 :: rest)) as Hdel by (cbn; auto).
    destruct (Hr _ (LArray acc :: st) Hdel) as (k1 & Hk1 & Hrun1).
    destruct (IH t' (acc ++ [norm x]) rest st) as (k2 & Hk2 & _ & Hrun2); [done|done|done|].
    exists (k1 + (1 + k2))%nat. rewrite !str_length_app. split; [cbn [String.length]; lia|].
    split; [by eapply reads_not_end|]. eapply runs_trans; [exact Hrun1|].
    eapply runs_trans; [|rewrite <-app_assoc in Hrun2; exact Hrun2]. apply runs_step.
    cbn [parse_step]. change (scan (44 :: to_bytes t' ++ 93 :: rest)) with (TValueSep, to_bytes t' ++ 93 :: rest).
    cbv beta iota. by destruct (scan (to_bytes t' ++ 93 :: rest)) as [tk r].
Qed.

Lemma keys_sorted_app ks k ks' :
  keys_sorted (ks ++ k :: ks') = true →
  Forall (λ k', key_lt k' k = true) ks ∧ keys_sorted ((ks ++ [k]) ++ ks') = true.
Proof.
  intros Hs. rewrite <-app_assoc. split; [|done]. induction ks as [|a ks IH]; [constructor|].
  cbn [app keys_sorted] in Hs. apply andb_prop in Hs as [Ha Hs]. constructor; [|by apply IH].
  rewrite forallb_app in Ha. apply andb_prop in Ha as [_ Ha]. cbn [forallb] in Ha. by apply andb_prop in Ha as [? _].
Qed.

(** The text of the members: the first key with its colon, then the rest. *)
Lemma dump_members_cons k v o t :
  dump_members ((k, v) :: o) = Ret t → ∃ q s, quoted k = Ret q ∧ dump v = Ret s ∧
    ((o = [] ∧ t = q +:+ ":" +:+ s) ∨
     ∃ t', o ≠ [] ∧ dump_members o = Ret t' ∧ t = q +:+ ":" +:+ s +:+ "," +:+ t').
Proof.
  intros Hd. destruct o as [|kv o].
  - cbn [dump_members] in Hd. destruct (quoted k) as [q|]; [|done]. cbn [mbind outcome_bind] in Hd.
    destruct (dump v) as [s|]; [|done]. injection Hd as <-. exists q, s. by auto.
  - change (dump_members ((k, v) :: kv :: o)) with
      (q ← quoted k; s ← dump v; t ← dump_members (kv :: o); Ret (q +:+ ":" +:+ s +:+ "," +:+ t)) in Hd.
    destruct (quoted k) as [q|]; [|done]. cbn [mbind outcome_bind] in Hd.
    destruct (dump v) as [s|]; [|done]. cbn [mbind outcome_bind] in Hd.
    destruct (dump_members (kv :: o)) as [t'|] eqn:E; [|done]. injection Hd as <-.
    exists q, s. split_and!; [done|done|]. right. by exists t'.
Qed.

(** The key of a member and the first token of its value. *)
Lemma scan_member k q s more :
  quoted k = Ret q →
  let '(t, r) := scan (to_bytes s ++ more) in
  scan (to_bytes (q +:+ ":" +:+ s) ++ more) = (TString k, 58 :: to_bytes s ++ more) ∧
  scan_key (TString k) (58 :: to_bytes s ++ more) = Some (k, t, r).
Proof.
  intros Hq. destruct (scan (to_bytes s ++ more)) as [t r] eqn:E. split.
  - rewrite !to_bytes_app, <-!app_assoc. rewrite (quoted_scan k q _ Hq). done.
  - unfold scan_key. change (scan (58 :: to_bytes s ++ more)) with (TNameSep, to_bytes s ++ more).
    cbv beta iota. by rewrite E.
Qed.

Definition norm_member (kv : string * json) : string * json := (kv.1, norm kv.2).

Lemma members_run o :
  Forall (λ kv, ∀ s, canon kv.2 = true → dump kv.2 = Ret s → reads s (norm kv.2)) o →
  ∀ k v t acc rest st,
    (∀ s, canon v = true → dump v = Ret s → reads s (norm v)) →
    canon v = true → forallb (λ kv, canon kv.2) o = true →
    keys_sorted (map fst acc ++ k :: map fst o) = true → dump_members ((k, v) :: o) = Ret t →
    ∃ n r0 t1 r1, (n <= String.length t + 1)%nat ∧
      scan (to_bytes t ++ 125 :: rest) = (TString k, r0) ∧ scan_key (TString k) r0 = Some (k, t1, r1) ∧
      runs n (MToken t1) r1 (LObject acc k :: st)
        (MValue (JObj (acc ++ map norm_member ((k, v) :: o)))) rest st.
Proof.
  induction 1 as [|[k2 v2] o Hkv Ho IH]; intros k v t acc rest st Hv Hcv Hco Hs Hd;
    apply dump_members_cons in Hd as (q & s & Hq & Hds & Hcase);
    apply keys_sorted_app in Hs as [Hlt Hs]; pose proof (Hv s Hcv Hds) as Hr.
  - destruct Hcase as [[_ ->]|(t' & Hne & _)]; [|done].
    assert (delim (125 :: rest)) as Hdel by (cbn; auto).
    pose proof (scan_member k q s (125 :: rest) Hq) as Hm.
    destruct (Hr (125 :: rest) (LObject acc k :: st) Hdel) as (n & Hn & Hrun).
    destruct (scan (to_bytes s ++ 125 :: rest)) as [t1 r1]. destruct Hm as [Hm1 Hm2].
    eexists (n + 1)%nat, _, t1, r1. rewrite !str_length_app. split; [lia|]. split; [exact Hm1|].
    split; [exact Hm2|]. eapply runs_trans; [exact Hrun|]. apply runs_step. cbn [parse_step map].
    rewrite obj_set_last by done. done.
  - destruct Hcase as [[? _]|(t' & _ & Hdo & ->)]; [done|].
    cbn [forallb snd] in Hco. apply andb_prop in Hco as [Hc2 Hco].
    destruct (IH k2 v2 t' (acc ++ [(k, norm v)]) rest st Hkv Hc2 Hco) as (n2 & r0 & t2 & r2 & Hn2 & Hsc & Hkey & Hrun2);
      [by rewrite map_app|done|].
    assert (delim (44 :: to_bytes t' ++ 125 :: rest)) as Hdel by (cbn; auto).
    pose proof (scan_member k q s (44 :: to_bytes t' ++ 125 :: rest) Hq) as Hm.
    destruct (Hr _ (LObject acc k :: st) Hdel) as (n & Hn & Hrun).
    destruct (scan (to_bytes s ++ 44 :: to_bytes t' ++ 125 :: rest)) as [t1 r1]. destruct Hm as [Hm1 Hm2].
    eexists (n + (1 + n2))%nat, _, t1, r1. rewrite !str_length_app. split; [cbn [String.length]; lia|].
    split; [|split; [exact Hm2|]].
    + rewrite <-Hm1. f_equal. rewrite !to_bytes_app, <-!app_assoc. done.
    + eapply runs_trans; [exact Hrun|]. eapply runs_trans; [|rewrite <-app_assoc in Hrun2; exact Hrun2].
      apply runs_step. cbn [parse_step].
      change (scan (44 :: to_bytes t' ++ 125 :: rest)) with (TValueSep, to_bytes t' ++ 125 :: rest).
      cbv beta iota. rewrite Hsc. cbv beta iota. rewrite Hkey, obj_set_last by done. done.
Qed.

(** Every serialized value is read back, with at most one iteration per byte. *)
Lemma value_reads j : ∀ s, canon j = true → dump j = Ret s → reads s (norm j).
Proof.
  induction j as [|b|z|z|f|x|l IH|o IH] using json_nested_ind; intros s Hc Hd; cbn [canon] in Hc.
  - injection Hd as <-. eapply (reads_scalar _ _ TNull); [|done|cbn; lia].
    intros rest _. reflexivity.
  - injection Hd as <-. destruct b; [eapply (reads_scalar _ _ TTrue)|eapply (reads_scalar _ _ TFalse)];
      try done; cbn; lia.
  - injection Hd as <-. eapply (reads_scalar _ _ (int_token z)).
    + intros rest Hrest. apply scan_integer; [unfold u64_max; to_prop; lia|done].
    + intros rest st. unfold int_token. cbn [norm]. by destruct (z <? 0).
    + apply dump_integer_length.
  - injection Hd as <-. eapply (reads_scalar _ _ (int_token z)).
    + intros rest Hrest. apply scan_integer; [to_prop; lia|done].
    + intros rest st. unfold int_token. cbn [norm]. by rewrite (proj2 (Z.ltb_ge z 0)) by (to_prop; lia).
    + apply dump_integer_length.
  - done.
  - cbn [dump] in Hd. eapply (reads_scalar _ _ (TString x)); [|done|].
    + intros rest _. by apply quoted_scan.
    + unfold quoted in Hd. destruct (dump_escaped x); [|done]. injection Hd as <-. cbn; lia.
  - destruct l as [|x l].
    { injection Hd as <-. intros rest st _. exists 1%nat. split; [cbn; lia|]. by apply runs_step. }
    rewrite dump_arr in Hd. destruct (dump_elems (x :: l)) as [t|] eqn:E; [|done]. injection Hd as <-.
    intros rest st Hdel. destruct (elems_run _ IH t [] rest st ltac:(done) Hc E) as (k & Hk & Hne & Hrun).
    exists (1 + k)%nat. rewrite !str_length_app. split; [cbn [String.length]; lia|].
    rewrite !to_bytes_app, <-!app_assoc. change (to_bytes "[" ++ to_bytes t ++ to_bytes "]" ++ rest)
      with (91 :: to_bytes t ++ 93 :: rest).
    change (scan (91 :: to_bytes t ++ 93 :: rest)) with (TBeginArray, to_bytes t ++ 93 :: rest). cbn [fst snd].
    eapply runs_trans; [|exact Hrun]. apply runs_step. cbn [parse_step].
    by destruct (scan (to_bytes t ++ 93 :: rest)) as [[] r].
  - destruct o as [|[k v] o].
    { injection Hd as <-. intros rest st _. exists 1%nat. split; [cbn; lia|]. by apply runs_step. }
    rewrite dump_obj in Hd. destruct (dump_members ((k, v) :: o)) as [t|] eqn:E; [|done]. injection Hd as <-.
    intros rest st Hdel. apply Forall_cons in IH as [IHv IHo]. apply andb_prop in Hc as [Hs Hc].
    cbn [forallb snd] in Hc. apply andb_prop in Hc as [Hcv Hco].
    destruct (members_run o IHo k v t [] rest st IHv Hcv Hco Hs E)
      as (n & r0 & t1 & r1 & Hn & Hsc & Hkey & Hrun).
    exists (1 + n)%nat. rewrite !str_length_app. split; [cbn [String.length]; lia|].
    rewrite !to_bytes_app, <-!app_assoc. change (to_bytes "{" ++ to_bytes t ++ to_bytes "}" ++ rest)
      with (123 :: to_bytes t ++ 125 :: rest).
    change (scan (123 :: to_bytes t ++ 125 :: rest)) with (TBeginObject, to_bytes t ++ 125 :: rest). cbn [fst snd].
    eapply runs_trans; [|exact Hrun]. apply runs_step. cbn [parse_step]. rewrite Hsc. cbv beta iota.
    by rewrite Hkey.
Qed.

(** The fuel of [parse] is enough, and the text is consumed to its end. *)
Lemma reads_parse s v :
  reads s v → skip_bom (to_bytes s) = Some (to_bytes s) → parse s = Some v.
Proof.
  intros Hr Hbom. unfold parse. rewrite Hbom. destruct (Hr [] [] I) as (k & Hk & Hrun).
  rewrite app_nil_r in Hrun. destruct (scan (to_bytes s)) as [t r]. cbn [fst snd] in Hrun.
  assert (2 * length (to_bytes s) + 2 = k + S (2 * length (to_bytes s) + 1 - k))%nat as ->
    by (rewrite length_to_bytes; lia).
  by rewrite Hrun.
Qed.

(** A serialized value does not start with a byte order mark. *)
Lemma reads_no_bom s v : reads s v → skip_bom (to_bytes s) = Some (to_bytes s).
Proof.
  intros Hr. destruct (to_bytes s) as [|c l] eqn:E; [done|]. unfold skip_bom.
  destruct (decide (c = 0xEF)) as [->|Hc]; [|repeat case_match; done].
  destruct (Hr [] [] I) as (k & _ & Hrun). specialize (Hrun 1%nat).
  rewrite app_nil_r, E in Hrun. rewrite Nat.add_comm in Hrun. done.
Qed.

(** C32: Parsing what was serialized gives the value back: for every value without
    doubles whose strings [dump] accepts, [parse (dump j)] is [j], a non-negative
    integer being read as unsigned. *)
Theorem json_roundtrip j s :
  canon j = true → dump j = Ret s → parse s = Some (norm j).
Proof.
  intros Hc Hd. pose proof (value_reads j s Hc Hd) as Hr.
  apply reads_parse; [done|by eapply reads_no_bom].
Qed.
End values.

(** An object with escapes, a two-byte character, nested containers and integers
    at the ends of their ranges. *)
Definition sample_value : json :=
  JObj [("a", JArr [JInt (-9223372036854775808); JUint u64_max; JNull; JArr []]);
        (String "b" (String quote ""), JStr (String (ascii_of_byte 10) (String (ascii_of_byte 195) (String (ascii_of_byte 169) ""))));
        ("c", JObj [("x", JBool true); ("y", JInt 7)])].

Lemma json_roundtrip_witness :
  ∃ s, @dump test_float sample_value = Ret s ∧ @parse test_float s = Some (norm sample_value).
Proof.
  eexists. split; [vm_compute; reflexivity|].
  apply json_roundtrip; [vm_compute; reflexivity|vm_compute; reflexivity].
Defined.
