(* ===== verification/JsonTermination.v ===== *)
(** * The JSON parser stops on every input

    [lexer::scan] is proved to consume input, the main loop of
    [sax_parse_internal] is proved to shrink a measure at every iteration, and so
    [parse] is the unbounded loop of the source: the fuel of [Json.parse] is never
    what ends it, whatever the bytes. *)
From S2P Require Import Prelude Util Messages Json.

(** ** Tokens consume bytes *)

Lemma get_codepoint_shorter bytes cp rest :
  get_codepoint bytes = Some (cp, rest) → (length rest < length bytes)%nat.
Proof.
  destruct bytes as [|c1 [|c2 [|c3 [|c4 bytes]]]]; try done. cbn [get_codepoint].
  intros H. repeat (apply bind_Some in H as (? & _ & H)). injection H as _ <-. simpl. lia.
Qed.

Lemma scan_u_escape_shorter bytes cp rest :
  scan_u_escape bytes = Some (cp, rest) → (length rest < length bytes)%nat.
Proof.
  unfold scan_u_escape. destruct (get_codepoint bytes) as [[cp1 r1]|] eqn:E1; [|done].
  apply get_codepoint_shorter in E1.
  destruct ((0xD800 <=? cp1) && (cp1 <=? 0xDBFF)).
  - intros H. destruct r1 as [|x r1]; [done|].
    destruct (decide (x = 92)) as [->|]; [|by repeat case_match].
    destruct r1 as [|y r2]; [done|]. destruct (decide (y = 117)) as [->|]; [|by repeat case_match].
    destruct (get_codepoint r2) as [[cp2 r3]|] eqn:E2; [|done].
    apply get_codepoint_shorter in E2. simpl in E1.
    case_match; [|done]. injection H as _ <-. lia.
  - case_match; [done|]. by intros [= _ <-].
Qed.

Lemma next_byte_shorter rs bytes buf buf' rest :
  next_byte_in_range rs bytes buf = Some (buf', rest) → (length rest <= length bytes)%nat.
Proof.
  revert bytes buf. induction rs as [|[lo hi] rs IH]; intros [|c bytes] buf; cbn; try done.
  - by intros [= _ <-].
  - intros [= _ <-]. simpl. lia.
  - case_match; [|done]. intros Hr%IH. lia.
Qed.

Lemma scan_string_shorter fuel bytes buf :
  (length (scan_string fuel bytes buf).2 <= length bytes)%nat.
Proof.
  revert bytes buf. induction fuel as [|fuel IH]; intros [|c bytes] buf; cbn [scan_string]; try done.
  repeat case_match; cbn [snd length]; subst; try lia;
    repeat match goal with
    | H : scan_u_escape _ = Some _ |- _ => apply scan_u_escape_shorter in H
    | H : next_byte_in_range _ _ _ = Some _ |- _ => apply next_byte_shorter in H
    end; cbn [length] in *; (etrans; [apply IH|]); lia.
Qed.

(** The loop of [scan_string] reads a byte per iteration: more fuel than bytes
    changes nothing. *)
Lemma scan_string_fuel fuel fuel' bytes buf :
  (length bytes < fuel)%nat → (length bytes < fuel')%nat →
  scan_string fuel bytes buf = scan_string fuel' bytes buf.
Proof.
  revert fuel' bytes buf. induction fuel as [|fuel IH]; intros [|fuel'] [|c bytes] buf ??;
    try (simpl in *; lia); [done|]. cbn [scan_string]. cbn [length] in *.
  repeat case_match; subst; try done;
    repeat match goal with
    | H : scan_u_escape _ = Some _ |- _ => apply scan_u_escape_shorter in H
    | H : next_byte_in_range _ _ _ = Some _ |- _ => apply next_byte_shorter in H
    end; apply IH; cbn [length] in *; lia.
Qed.

Lemma scan_num_loop_shorter st bytes buf ty buf' ty' rest :
  scan_num_loop st bytes buf ty = Some (buf', ty', rest) → (length rest <= length bytes)%nat.
Proof.
  revert st buf ty. induction bytes as [|c bytes IH]; intros st buf ty; cbn [scan_num_loop].
  - repeat case_match; try done. by intros [= _ _ <-].
  - destruct (num_next st (Some c)) as [[st'|]|]; [|by intros [= _ _ <-]|done].
    intros H%IH. simpl. lia.
Qed.

Lemma scan_literal_shorter text t bytes :
  (length (scan_literal text t bytes).2 <= length bytes)%nat.
Proof.
  revert bytes. induction text as [|x text IH]; intros [|c bytes]; cbn; try done.
  case_match; cbn; [|lia]. etrans; [apply IH|]. lia.
Qed.

Lemma skip_whitespace_shorter bytes : (length (skip_whitespace bytes) <= length bytes)%nat.
Proof. induction bytes as [|c bytes IH]; [done|]. cbn. case_match; cbn; lia. Qed.

Section termination.
Context `{FloatText}.

Lemma scan_number_shorter c bytes : (length (scan_number c bytes).2 <= length bytes)%nat.
Proof.
  unfold scan_number. destruct (scan_num_loop _ _ _ _) as [[[buf ty] rest]|] eqn:E; cbn; [|lia].
  by apply scan_num_loop_shorter in E.
Qed.

(** Every token but the end of the input is paid for with at least one byte. *)
Lemma scan_consumes bytes :
  (length (scan bytes).2 <= length bytes)%nat ∧
  ((scan bytes).1 ≠ TEndOfInput → (length (scan bytes).2 < length bytes)%nat).
Proof.
  unfold scan. pose proof (skip_whitespace_shorter bytes) as Hws.
  destruct (skip_whitespace bytes) as [|c rest]; [cbn; split; [lia|done]|]. cbn [length] in Hws.
  pose proof (scan_string_shorter (S (length rest)) rest []) as Hs.
  pose proof (scan_number_shorter c rest) as Hn.
  pose proof (λ text t, scan_literal_shorter text t rest) as Hl.
  repeat case_match; cbn [fst snd]; try (split; [lia|]; intros _; lia);
    match goal with
    | |- context [scan_literal ?text ?t rest] => specialize (Hl text t); lia
    | _ => lia
    end.
Qed.

Lemma scan_eq_consumes bytes t rest :
  scan bytes = (t, rest) →
  (length rest <= length bytes)%nat ∧ (t ≠ TEndOfInput → (length rest < length bytes)%nat).
Proof. intros E. pose proof (scan_consumes bytes) as Hc. by rewrite E in Hc. Qed.

Lemma scan_key_consumes t rest k t' rest' :
  scan_key t rest = Some (k, t', rest') → (length rest' < length rest)%nat.
Proof.
  unfold scan_key. destruct t; try done. destruct (scan rest) as [t1 r1] eqn:E1.
  destruct t1; try done. destruct (scan r1) as [t2 r2] eqn:E2. intros [= _ _ <-].
  apply scan_eq_consumes in E1 as [_ E1], E2 as [E2 _]. specialize (E1 ltac:(done)). lia.
Qed.

(** ** The loop of the parser *)

(** What an iteration has left to do: two per byte, one for a token in hand that
    can still be turned into a value. *)
Definition pending (m : pmode) : nat :=
  match m with
  | MToken TEndOfInput => 0
  | MToken _ => 1
  | MValue _ => 0
  end.

Definition work (m : pmode) (rest : list Z) : nat := 2 * length rest + pending m.

Lemma pending_token t : (pending (MToken t) <= 1)%nat.
Proof. destruct t; cbn; lia. Qed.

(** A token read from [rest] leaves less work than any token in hand before it. *)
Lemma scan_work bytes t rest : scan bytes = (t, rest) → (work (MToken t) rest <= 2 * length bytes)%nat.
Proof.
  intros [Hle Hlt]%scan_eq_consumes. unfold work.
  destruct t; cbn [pending]; try (specialize (Hlt ltac:(done)); lia). lia.
Qed.

Ltac scan_facts :=
  repeat match goal with
  | E : scan_key _ _ = Some _ |- _ => apply scan_key_consumes in E
  | E : scan ?b = (?t, ?r) |- _ =>
      let H1 := fresh in let H2 := fresh in
      pose proof (scan_eq_consumes _ _ _ E) as [H1 H2]; pose proof (scan_work _ _ _ E);
      try specialize (H2 ltac:(done)); clear E
  end.

Lemma parse_step_work m rest st m' rest' st' :
  parse_step m rest st = PNext m' rest' st' → (work m' rest' < work m rest)%nat.
Proof.
  destruct m as [t|v].
  - destruct t; cbn [parse_step]; try done; try (intros [= <- <- <-]; unfold work; cbn; lia).
    + destruct (scan rest) as [t1 r1] eqn:E1. intros Hn.
      assert (work m' rest' <= 2 * length rest)%nat by
        (destruct t1; injection Hn as <- <- <-; scan_facts; unfold work in *; cbn [pending] in *; lia).
      unfold work at 2. cbn [pending]. lia.
    + destruct (scan rest) as [t1 r1] eqn:E1. intros Hn. unfold work at 2. cbn [pending].
      destruct t1; cbn [scan_key] in Hn; try done.
      * injection Hn as <- <- <-. scan_facts. unfold work. cbn [pending]. lia.
      * destruct (scan r1) as [t2 r2] eqn:E2. destruct t2; try done.
        destruct (scan r2) as [t3 r3] eqn:E3. injection Hn as <- <- <-. scan_facts. lia.
    + case_match; [|done]. intros [= <- <- <-]. unfold work. cbn. lia.
  - cbn [parse_step]. destruct st as [|[l|o k] st]; [done| |];
      destruct (scan rest) as [t1 r1] eqn:E1; destruct t1; try done.
    + intros [= <- <- <-]. scan_facts. unfold work. cbn [pending]. lia.
    + destruct (scan r1) as [t2 r2] eqn:E2. intros [= <- <- <-]. scan_facts. unfold work at 2. cbn [pending]. lia.
    + intros [= <- <- <-]. scan_facts. unfold work. cbn [pending]. lia.
    + destruct (scan r1) as [t2 r2] eqn:E2.
      destruct (scan_key t2 r2) as [[[k' t3] r3]|] eqn:E3; [|done]. intros [= <- <- <-].
      pose proof (pending_token t3). scan_facts. unfold work in *. cbn [pending] in *. lia.
Qed.

(** The loop of the source, without fuel: [iterates n m rest st r] when it leaves
    after [n] iterations with the result [r]. *)
Inductive iterates : nat → pmode → list Z → list level → option (json * list Z) → Prop :=
| iterates_done m rest st v rest' :
    parse_step m rest st = PDone v rest' → iterates 1 m rest st (Some (v, rest'))
| iterates_error m rest st :
    parse_step m rest st = PError → iterates 1 m rest st None
| iterates_next n m rest st m' rest' st' r :
    parse_step m rest st = PNext m' rest' st' → iterates n m' rest' st' r →
    iterates (S n) m rest st r.

Lemma iterates_det n m rest st r n' r' :
  iterates n m rest st r → iterates n' m rest st r' → n = n' ∧ r = r'.
Proof.
  intros Hi. revert n' r'.
  induction Hi as [m rest st v rest' E|m rest st E|n m rest st m1 rest1 st1 r E Hi IH];
    intros n' r' Hj; inversion Hj as [????? E'|??? E'|???? m2 rest2 st2 ? E' Hk]; subst;
    rewrite E in E'; try done; simplify_eq; try done.
  by destruct (IH _ _ Hk) as [-> ->].
Qed.

(** From every configuration the loop leaves, within the work that is left. *)
Lemma parse_loop_iterates fuel m rest st :
  (work m rest < fuel)%nat →
  ∃ n, (n <= S (work m rest))%nat ∧ iterates n m rest st (parse_loop fuel m rest st).
Proof.
  revert m rest st. induction fuel as [|fuel IH]; intros m rest st Hf; [lia|]. cbn [parse_loop].
  destruct (parse_step m rest st) as [m' rest' st'|v rest'|] eqn:E.
  - pose proof (parse_step_work _ _ _ _ _ _ E) as Hw.
    destruct (IH m' rest' st') as (n & Hn & Hi); [lia|].
    exists (S n). split; [lia|]. by eapply iterates_next.
  - exists 1%nat. split; [lia|]. by constructor.
  - exists 1%nat. split; [lia|]. by constructor.
Qed.

(** C25: parsing stops on every input and its result is the result of the source's
    loop without a bound: for the bytes of any string, well formed or not, the loop
    of [sax_parse_internal] leaves after at most two iterations per byte (and two
    more), it has only one result, and [parse] returns it; [scan_string] reads a byte
    at each iteration, so any larger bound scans the same token. *)
Theorem parse_terminates s bytes t rest :
  skip_bom (to_bytes s) = Some bytes → scan bytes = (t, rest) →
  (∃ n r, iterates n (MToken t) rest [] r ∧ (n <= 2 * length bytes + 2)%nat ∧
    (∀ n' r', iterates n' (MToken t) rest [] r' → n' = n ∧ r' = r) ∧
    parse s = match r with
              | Some (v, rest') => match scan rest' with (TEndOfInput, _) => Some v | _ => None end
              | None => None
              end) ∧
  (∀ fuel text buf, (length text < fuel)%nat →
    scan_string fuel text buf = scan_string (S (length text)) text buf).
Proof.
  intros Hb Hs. split; [|intros; apply scan_string_fuel; lia].
  pose proof (scan_work _ _ _ Hs) as Hw.
  destruct (parse_loop_iterates (2 * length bytes + 2) (MToken t) rest []) as (n & Hn & Hi); [lia|].
  exists n, (parse_loop (2 * length bytes + 2) (MToken t) rest []).
  split; [done|]. split; [lia|]. split.
  - intros n' r' Hi'. by destruct (iterates_det _ _ _ _ _ _ _ Hi' Hi).
  - unfold parse. by rewrite Hb, Hs.
Qed.
End termination.

(** An unterminated document: the loop leaves with an error. *)
Lemma parse_terminates_witness :
  ∃ n r, iterates (H := test_float) n (MToken TBeginArray) (to_bytes "[[1,") [] r ∧ (n <= 12)%nat.
Proof.
  destruct (parse_terminates (H := test_float) "[[[1," (to_bytes "[[[1,") TBeginArray (to_bytes "[[1,"))
    as [(n & r & Hi & Hn & _) _]; [vm_compute; reflexivity|vm_compute; reflexivity|].
  exists n, r. split; [exact Hi|]. exact Hn.
Defined.
