(* ===== verification/Connection.v ===== *)
(** * Connections: [include/net/connection.h], [src/net/connection.cpp]

    A TCP connection of the server: the inlined frame parser on the read side,
    the output buffer and its flushing on the write side, and the two-phase
    close.  The operations also use the reactor's post queue and interest masks
    ([Reactor]); a posted closure is one of the three the source posts.  What
    the kernel answers to [recv] and [send] is an argument: a list of results,
    one per call, whose end stands for [EAGAIN].  [send_frame] is one step here; the
    source releases [mu_] between appending to the buffer and posting the flush,
    and [Programs.v] and [Interleaving.v] take the two apart. *)
From S2P Require Import Prelude Framing.

(** ** The reactor as a connection sees it *)

Inductive post :=
| PFlush (cid : Z)
| PScheduleClose (cid : Z)
| PDeliverClose (cid : Z).

(** [pending_] and the registered interest mask of each connection's socket. *)
Record Reactor := mkReactor {
  posts : list post;
  interest : gmap Z Z;
}.

Definition EvRead : Z := 1.
Definition EvWrite : Z := 2.

Definition reactor_init : Reactor := mkReactor [] ∅.

Definition reactor_post (p : post) (r : Reactor) : Reactor :=
  mkReactor (r.(posts) ++ [p]) r.(interest).

(** [modify] acts on a registered descriptor only ([EPOLL_CTL_MOD]). *)
Definition reactor_modify (cid mask : Z) (r : Reactor) : Reactor :=
  mkReactor r.(posts) (alter (λ _, mask) cid r.(interest)).

Definition reactor_add (cid mask : Z) (r : Reactor) : Reactor :=
  mkReactor r.(posts) (<[cid := mask]> r.(interest)).

Definition reactor_remove (cid : Z) (r : Reactor) : Reactor :=
  mkReactor r.(posts) (delete cid r.(interest)).

(** ** The connection *)

Record Connection := mkConn {
  conn_id : Z;
  fd_open : bool;
  max_frame : Z;
  rbuf : list Z;
  reading_length : bool;
  conn_want : Z;
  wbuf : list Z;
  write_armed : bool;
  closing : bool;
  closed : bool;
  user_id : Z;
  token : string;
}.

Definition conn_init (id max : Z) : Connection :=
  mkConn id true max [] true 4 [] false false false 0 "".

Definition set_read (b : list Z) (rl : bool) (w : Z) (c : Connection) : Connection :=
  mkConn c.(conn_id) c.(fd_open) c.(max_frame) b rl w c.(wbuf) c.(write_armed) c.(closing)
    c.(closed) c.(user_id) c.(token).
Definition set_write (b : list Z) (armed : bool) (c : Connection) : Connection :=
  mkConn c.(conn_id) c.(fd_open) c.(max_frame) c.(rbuf) c.(reading_length) c.(conn_want) b armed
    c.(closing) c.(closed) c.(user_id) c.(token).
Definition set_closing (c : Connection) : Connection :=
  mkConn c.(conn_id) c.(fd_open) c.(max_frame) c.(rbuf) c.(reading_length) c.(conn_want) c.(wbuf)
    c.(write_armed) true c.(closed) c.(user_id) c.(token).
Definition set_closed (c : Connection) : Connection :=
  mkConn c.(conn_id) false c.(max_frame) c.(rbuf) c.(reading_length) c.(conn_want) c.(wbuf)
    c.(write_armed) c.(closing) true c.(user_id) c.(token).
Definition set_auth (uid : Z) (tok : string) (c : Connection) : Connection :=
  mkConn c.(conn_id) c.(fd_open) c.(max_frame) c.(rbuf) c.(reading_length) c.(conn_want) c.(wbuf)
    c.(write_armed) c.(closing) c.(closed) uid tok.

Definition set_user_id (uid : Z) (c : Connection) : Connection := set_auth uid c.(token) c.
Definition set_session_token (t : string) (c : Connection) : Connection := set_auth c.(user_id) t c.

(** ** Start and close *)

(** A connection together with its reactor. *)
Definition CR : Type := Connection * Reactor.

(** [start] registers the socket for reading. *)
Definition start : M CR unit := λ '(c, r), (Ret tt, (c, reactor_add c.(conn_id) EvRead r)).

(** [closing_.compare_exchange_strong(false, true)], then post the delivery. *)
Definition schedule_close : M CR unit := λ '(c, r),
  if c.(closing) then (Ret tt, (c, r))
  else (Ret tt, (set_closing c, reactor_post (PDeliverClose c.(conn_id)) r)).

Definition close : M CR unit := schedule_close.

(** Returns whether [on_close_] is called, which is the last thing it does. *)
Definition deliver_close : M CR bool := λ '(c, r),
  if c.(closed) then (Ret false, (c, r))
  else (Ret true, (set_closed c, reactor_remove c.(conn_id) r)).

(** ** Reading *)

Inductive read_result :=
| ReadBreak (c : Connection)
| ReadBad (c : Connection)
| ReadFrame (payload : string) (c : Connection).

Definition read_payload (c : Connection) : read_result :=
  if Z.of_nat (length c.(rbuf)) <? c.(conn_want) then ReadBreak c
  else
    let n := Z.to_nat c.(conn_want) in
    ReadFrame (of_bytes (take n c.(rbuf))) (set_read (drop n c.(rbuf)) true 4 c).

(** One iteration of the inner [for(;;)] of [on_readable]. *)
Definition read_step (c : Connection) : read_result :=
  if c.(reading_length) then
    match c.(rbuf) with
    | b0 :: b1 :: b2 :: b3 :: rest =>
        let len := load_be32 b0 b1 b2 b3 in
        if (len =? 0) || (c.(max_frame) <? len) then ReadBad c
        else read_payload (set_read rest false len c)
    | _ => ReadBreak c
    end
  else read_payload c.

(** The inner loop: the payloads handed to [on_frame_], the connection, and
    whether it ended on a bad length.  Every frame takes at least one byte or a
    header, so [parse_fuel] iterations are enough. *)
Fixpoint parse_frames (fuel : nat) (c : Connection) (out : list string)
    : list string * Connection * bool :=
  match fuel with
  | O => (out, c, false)
  | S fuel =>
      match read_step c with
      | ReadBreak c' => (out, c', false)
      | ReadBad c' => (out, c', true)
      | ReadFrame p c' => parse_frames fuel c' (out ++ [p])
      end
  end.

Definition parse_fuel (c : Connection) : nat :=
  (length c.(rbuf) + (if c.(reading_length) then 1 else 2))%nat.

(** What one [recv] returns. *)
Inductive recv_result :=
| RecvData (bytes : list Z)
| RecvEof
| RecvAgain
| RecvIntr
| RecvError.

(** [on_readable]; returns the payloads passed to [on_frame_], in order.  An
    exception of the handler is caught and logged, so it cannot stop the loop. *)
Fixpoint on_readable (script : list recv_result) (out : list string) : M CR (list string) :=
  λ '(c, r),
  match script with
  | [] | RecvAgain :: _ => (Ret out, (c, r))
  | RecvIntr :: script => on_readable script out (c, r)
  | RecvEof :: _ | RecvError :: _ =>
      let '(_, cr) := schedule_close (c, r) in (Ret out, cr)
  | RecvData bytes :: script =>
      let c := set_read (c.(rbuf) ++ bytes) c.(reading_length) c.(conn_want) c in
      match parse_frames (parse_fuel c) c out with
      | (out', c', true) => let '(_, cr) := schedule_close (c', r) in (Ret out', cr)
      | (out', c', false) => on_readable script out' (c', r)
      end
  end.

(** ** Writing *)

Definition send_frame (payload : string) : M CR unit := λ '(c, r),
  if c.(closing) || c.(closed) then (Ret tt, (c, r))
  else if c.(max_frame) <? Z.of_nat (String.length payload) then (Ret tt, (c, r))
  else
    let len := u32 (Z.of_nat (String.length payload)) in
    (Ret tt, (set_write (c.(wbuf) ++ be32 len ++ to_bytes payload) c.(write_armed) c,
              reactor_post (PFlush c.(conn_id)) r)).

(** What one [send] of a non-empty buffer returns: how many bytes were accepted
    (at least one, on a stream socket), or an error. *)
Inductive send_result :=
| SendOk (n : positive)
| SendAgain
| SendIntr
| SendError.

(** [try_flush_locked]; returns the bytes the kernel accepted.  The list of
    results is only consulted while there is something to send. *)
Fixpoint try_flush_locked (script : list send_result) (sent : list Z) : M CR (list Z) :=
  λ '(c, r),
  match c.(wbuf) with
  | [] =>
      if c.(write_armed)
      then (Ret sent, (set_write [] false c, reactor_modify c.(conn_id) EvRead r))
      else (Ret sent, (c, r))
  | _ :: _ =>
      match script with
      | SendOk n :: script =>
          try_flush_locked script (sent ++ take (Pos.to_nat n) c.(wbuf))
            (set_write (drop (Pos.to_nat n) c.(wbuf)) c.(write_armed) c, r)
      | SendIntr :: script => try_flush_locked script sent (c, r)
      | SendError :: _ => (Ret sent, (c, reactor_post (PScheduleClose c.(conn_id)) r))
      | SendAgain :: _ | [] =>
          if c.(write_armed) then (Ret sent, (c, r))
          else (Ret sent, (set_write c.(wbuf) true c,
                           reactor_modify c.(conn_id) (Z.lor EvRead EvWrite) r))
      end
  end.

Definition on_writable (script : list send_result) : M CR (list Z) := try_flush_locked script [].

(** [on_event]: the payloads handed to [on_frame_] and the bytes sent. *)
Definition on_event (events : Z) (rs : list recv_result) (ss : list send_result)
    : M CR (list string * list Z) := λ '(c, r),
  if c.(closed) then (Ret ([], []), (c, r))
  else
    let '(frames, (c, r)) :=
      if Z.testbit events 0
      then match on_readable rs [] (c, r) with (Ret f, cr) => (f, cr) | (Throw _, cr) => ([], cr) end
      else ([], (c, r)) in
    if c.(closed) then (Ret (frames, []), (c, r))
    else if Z.testbit events 1
         then match on_writable ss (c, r) with
              | (Ret sent, cr) => (Ret (frames, sent), cr)
              | (Throw e, cr) => (Throw e, cr)
              end
         else (Ret (frames, []), (c, r)).

(** A posted closure when the reactor runs it: the bytes sent and whether
    [on_close_] is called. *)
Definition run_post (p : post) (ss : list send_result) : M CR (list Z * bool) := λ '(c, r),
  match p with
  | PFlush _ =>
      if c.(closed) then (Ret ([], false), (c, r))
      else match try_flush_locked ss [] (c, r) with
           | (Ret sent, cr) => (Ret (sent, false), cr)
           | (Throw e, cr) => (Throw e, cr)
           end
  | PScheduleClose _ => let '(_, cr) := schedule_close (c, r) in (Ret ([], false), cr)
  | PDeliverClose _ =>
      match deliver_close (c, r) with
      | (Ret b, cr) => (Ret ([], b), cr)
      | (Throw e, cr) => (Throw e, cr)
      end
  end.

(** ** The read side against the decoder *)

Definition conn_decoder (c : Connection) : FrameDecoder :=
  mkDecoder c.(rbuf) c.(reading_length) c.(conn_want) c.(max_frame).

Definition with_decoder (c : Connection) (d : FrameDecoder) : Connection :=
  set_read d.(buf) d.(reading_len) d.(want) c.

(** The read step is the decoder's step; a bad length is a throw of the decoder. *)
Definition to_read (c : Connection) (f : feed_result) : read_result :=
  match f with
  | FeedBreak d => ReadBreak (with_decoder c d)
  | FeedThrow _ d => ReadBad (with_decoder c d)
  | FeedFrame p d => ReadFrame p (with_decoder c d)
  end.

Lemma with_conn_decoder c : with_decoder c (conn_decoder c) = c.
Proof. by destruct c. Qed.

Lemma read_step_feed c : read_step c = to_read c (feed_step (conn_decoder c)).
Proof.
  unfold read_step, feed_step. destruct c as [i o mx b [] w wb a cl cd u t]; cbn -[load_be32].
  - destruct b as [|b0 [|b1 [|b2 [|b3 rest]]]]; try done.
    destruct (load_be32 b0 b1 b2 b3 =? 0); [done|].
    destruct (mx <? load_be32 b0 b1 b2 b3); [done|].
    unfold read_payload, feed_payload. cbn -[load_be32].
    by destruct (Z.of_nat (length rest) <? _).
  - unfold read_payload, feed_payload. cbn. by destruct (Z.of_nat (length b) <? w).
Qed.

Lemma feed_step_max d :
  match feed_step d with
  | FeedBreak d' | FeedThrow _ d' | FeedFrame _ d' => d'.(max_frame_bytes) = d.(max_frame_bytes)
  end.
Proof.
  destruct d as [b [] w mx]; unfold feed_step, feed_payload; cbn -[load_be32].
  - destruct b as [|b0 [|b1 [|b2 [|b3 rest]]]]; try done.
    destruct (load_be32 b0 b1 b2 b3 =? 0); [done|].
    destruct (mx <? load_be32 b0 b1 b2 b3); [done|]. by destruct (Z.of_nat (length rest) <? _).
  - by destruct (Z.of_nat (length b) <? w).
Qed.

(** The same connection with more bytes received. *)
Definition conn_app (c : Connection) (l : list Z) : Connection :=
  set_read (c.(rbuf) ++ l) c.(reading_length) c.(conn_want) c.

(** The inner loop with enough fuel. *)
Definition conn_parse (c : Connection) (out : list string) : list string * Connection * bool :=
  parse_frames (parse_fuel c) c out.

Lemma to_read_base c c' f :
  set_read [] true 4 c = set_read [] true 4 c' → to_read c f = to_read c' f.
Proof.
  intros Heq. destruct c, c'. unfold set_read in Heq. cbn in Heq. injection Heq as -> -> -> -> -> -> -> -> ->.
  by destruct f.
Qed.

Lemma read_step_app c l :
  match read_step c with
  | ReadBreak c' => read_step (conn_app c l) = read_step (conn_app c' l)
  | ReadBad c' => read_step (conn_app c l) = ReadBad (conn_app c' l)
  | ReadFrame p c' => read_step (conn_app c l) = ReadFrame p (conn_app c' l)
  end.
Proof.
  rewrite read_step_feed. pose proof (feed_step_app (conn_decoder c) l) as Ha.
  pose proof (feed_step_max (conn_decoder c)) as Hm.
  destruct (feed_step (conn_decoder c)) as [d|e d|p d]; cbn [to_read];
    rewrite (read_step_feed (conn_app c l));
    change (conn_decoder (conn_app c l)) with (buf_app (conn_decoder c) l); rewrite Ha.
  - rewrite (read_step_feed (conn_app _ _)).
    replace (conn_decoder (conn_app (with_decoder c d) l)) with (buf_app d l)
      by (unfold buf_app; rewrite Hm; done).
    by apply to_read_base.
  - done.
  - done.
Qed.

Lemma read_step_fuel c p c' : read_step c = ReadFrame p c' → (parse_fuel c' < parse_fuel c)%nat.
Proof.
  rewrite read_step_feed. destruct (feed_step (conn_decoder c)) as [| |q d] eqn:E; try done.
  intros [= _ <-]. apply feed_step_measure in E. unfold feed_measure in E. unfold parse_fuel.
  simpl in *. destruct (reading_len d), (reading_length c); lia.
Qed.

Lemma parse_frames_enough fuel c out :
  (parse_fuel c <= fuel)%nat → parse_frames fuel c out = conn_parse c out.
Proof.
  revert c out. induction fuel as [fuel IH] using lt_wf_ind; intros c out Hf.
  assert (∃ n, parse_fuel c = S n) as [n Hn].
  { unfold parse_fuel. destruct (reading_length c); eexists; rewrite Nat.add_comm; reflexivity. }
  unfold conn_parse. rewrite Hn in *. destruct fuel as [|fuel]; [lia|]. cbn [parse_frames].
  destruct (read_step c) as [| |p c'] eqn:E; [done..|]. apply read_step_fuel in E.
  rewrite !IH; (done || lia).
Qed.

Lemma parse_eq c out :
  conn_parse c out =
  match read_step c with
  | ReadBreak c' => (out, c', false)
  | ReadBad c' => (out, c', true)
  | ReadFrame p c' => conn_parse c' (out ++ [p])
  end.
Proof.
  rewrite <-(parse_frames_enough (S (parse_fuel c))) by lia. cbn [parse_frames].
  destruct (read_step c) as [| |p c'] eqn:E; [done..|]. apply read_step_fuel in E.
  apply parse_frames_enough. lia.
Qed.

Lemma parse_ind (P : Connection → Prop) :
  (∀ c, (∀ p c', read_step c = ReadFrame p c' → P c') → P c) → ∀ c, P c.
Proof.
  intros Hstep. apply (well_founded_induction (well_founded_ltof _ parse_fuel)).
  intros c IH. apply Hstep. intros p c' H. by eapply IH, read_step_fuel.
Qed.

Lemma parse_app c l out :
  conn_parse (conn_app c l) out =
  let '(fs, c', bad) := conn_parse c out in
  if bad then (fs, conn_app c' l, true) else conn_parse (conn_app c' l) fs.
Proof.
  revert out. induction c as [c IH] using parse_ind; intros out.
  rewrite (parse_eq c). pose proof (read_step_app c l) as Ha.
  destruct (read_step c) as [c'|c'|p c'] eqn:E; rewrite (parse_eq (conn_app c l)), Ha.
  - by rewrite (parse_eq (conn_app c' l)).
  - done.
  - by apply (IH p).
Qed.

(** Running [conn_parse] leaves everything but the read state alone. *)
Lemma parse_rest c out fs c' b :
  conn_parse c out = (fs, c', b) → set_read [] true 4 c' = set_read [] true 4 c.
Proof.
  revert out. induction c as [c IH] using parse_ind; intros out. rewrite parse_eq.
  destruct (read_step c) as [c1|c1|p c1] eqn:E.
  - intros [= _ <- _]. rewrite read_step_feed in E. by destruct (feed_step _); simplify_eq/=.
  - intros [= _ <- _]. rewrite read_step_feed in E. by destruct (feed_step _); simplify_eq/=.
  - intros Hp. rewrite (IH _ _ eq_refl _ Hp). rewrite read_step_feed in E.
    by destruct (feed_step _); simplify_eq/=.
Qed.

(** A run of [recv] results without end of stream or error, and its bytes. *)
Definition only_data (script : list recv_result) : Prop :=
  Forall (λ x, match x with RecvData _ | RecvIntr => True | _ => False end) script.

Definition script_bytes (script : list recv_result) : list Z :=
  concat ((λ x, match x with RecvData b => b | _ => [] end) <$> script).

Definition conn_idle (c : Connection) : Prop := read_step c = ReadBreak c.

Lemma read_step_idle c c' : read_step c = ReadBreak c' → conn_idle c'.
Proof.
  unfold conn_idle. rewrite !read_step_feed. pose proof (feed_step_max (conn_decoder c)) as Hm.
  destruct (feed_step (conn_decoder c)) as [d| |] eqn:E; [|done..]. intros [= <-].
  pose proof (feed_step_idle _ _ E) as Hi. unfold idle in Hi.
  replace (conn_decoder (with_decoder c d)) with d by (destruct d; simpl in *; by rewrite Hm).
  rewrite Hi. done.
Qed.

Lemma parse_idle c out fs c' : conn_parse c out = (fs, c', false) → conn_idle c'.
Proof.
  revert out. induction c as [c IH] using parse_ind; intros out. rewrite parse_eq.
  destruct (read_step c) as [c1|c1|p c1] eqn:E; [|done|].
  - intros [= _ <-]. by eapply read_step_idle.
  - intros Hp. by apply (IH p c1 eq_refl _ Hp).
Qed.

Lemma conn_app_nil c : conn_app c [] = c.
Proof. unfold conn_app. rewrite app_nil_r. by destruct c. Qed.

Lemma conn_app_app c a b : conn_app (conn_app c a) b = conn_app c (a ++ b).
Proof. unfold conn_app. simpl. by rewrite <-app_assoc. Qed.

(** Reading a script equals parsing all its bytes at once. *)
Lemma on_readable_parse script c r out :
  only_data script → conn_idle c →
  let '(fs, c', bad) := conn_parse (conn_app c (script_bytes script)) out in
  if bad then ∃ c'', on_readable script out (c, r) = (Ret fs, snd (schedule_close (c'', r))) ∧
                     set_read [] true 4 c'' = set_read [] true 4 c
  else on_readable script out (c, r) = (Ret fs, (c', r)).
Proof.
  intros Hs. revert c out. induction Hs as [|x script Hx Hs IH]; intros c out Hi.
  - unfold script_bytes. simpl concat. rewrite conn_app_nil, parse_eq, Hi. done.
  - destruct x as [b| | | |]; try done.
    + change (script_bytes (RecvData b :: script)) with (b ++ script_bytes script).
      rewrite <-conn_app_app, parse_app. cbn [on_readable]. fold (conn_app c b).
      unfold conn_parse at 1. destruct (parse_frames (parse_fuel (conn_app c b)) (conn_app c b) out)
        as [[fs c1] bad] eqn:E.
      pose proof (parse_rest (conn_app c b) out _ _ _ E) as Hr. destruct bad.
      * exists c1. split; [|done]. by destruct (schedule_close (c1, r)).
      * pose proof (parse_idle (conn_app c b) out _ _ E) as Hi1. specialize (IH c1 fs Hi1).
        destruct (conn_parse (conn_app c1 (script_bytes script)) fs) as [[fs2 c2] bad2].
        destruct bad2; [|done]. destruct IH as (c3 & Heq & Hc3). exists c3. split; [done|].
        by rewrite Hc3, Hr.
    + by apply IH.
Qed.

(** Between frames, with nothing buffered. *)
Definition ready (c : Connection) : Prop :=
  c.(rbuf) = [] ∧ c.(reading_length) = true ∧ c.(conn_want) = 4.

Lemma ready_idle c : ready c → conn_idle c.
Proof.
  intros (Hb & Hr & Hw). unfold conn_idle, read_step. by rewrite Hr, Hb.
Qed.

Lemma parse_stream c ps tail out :
  ready c → is_u32 c.(max_frame) → Forall (payload_ok c.(max_frame)) ps →
  conn_parse (conn_app c (to_bytes (concat_str (frame <$> ps)) ++ tail)) out =
  conn_parse (conn_app c tail) (out ++ ps).
Proof.
  intros Hready Hmx Hps. pose proof Hready as (Hb & Hr & Hw).
  revert out. induction Hps as [|p ps Hp Hps IH]; intros out.
  - simpl. by rewrite app_nil_r.
  - rewrite fmap_cons.
    change (concat_str (frame p :: (frame <$> ps))) with (frame p +:+ concat_str (frame <$> ps)).
    rewrite to_bytes_app, <-app_assoc, parse_eq, read_step_feed.
    unfold conn_decoder, conn_app at 1 2 3 4. cbn [rbuf reading_length conn_want max_frame set_read].
    rewrite Hb, Hr, Hw. cbn [app]. rewrite feed_step_frame by done. cbn [to_read].
    replace (with_decoder _ _) with (conn_app c (to_bytes (concat_str (frame <$> ps)) ++ tail)).
    + rewrite IH. by rewrite <-app_assoc.
    + unfold conn_app, with_decoder, set_read. simpl. by rewrite Hb, Hr, Hw.
Qed.

Lemma read_step_bad c len rest :
  ready c → is_u32 len → len = 0 ∨ c.(max_frame) < len →
  read_step (conn_app c (be32 len ++ rest)) = ReadBad (conn_app c (be32 len ++ rest)).
Proof.
  intros (Hb & Hr & Hw) Hlen Hbad. unfold read_step, conn_app.
  cbn [rbuf reading_length conn_want max_frame set_read]. rewrite Hb, Hr. cbn [app be32].
  rewrite load_be32_be32 by done.
  destruct Hbad as [->|Hgt]; [done|]. rewrite (proj2 (Z.ltb_lt _ _)) by done.
  by rewrite orb_true_r.
Qed.

(** ** Properties of reading *)

(** C11: a peer's well-formed stream, cut into [recv] results at any points and
    with any number of interruptions, makes [on_readable] call [on_frame_] with
    exactly the frames sent, in order, and leaves the connection between frames
    with nothing scheduled. *)
Theorem conn_reads_stream c r ps script :
  ready c → is_u32 c.(max_frame) → Forall (payload_ok c.(max_frame)) ps →
  only_data script → script_bytes script = to_bytes (concat_str (frame <$> ps)) →
  on_readable script [] (c, r) = (Ret ps, (c, r)).
Proof.
  intros Hc Hmx Hps Hs Hb. pose proof (on_readable_parse script c r [] Hs (ready_idle c Hc)) as H.
  rewrite Hb, <-(app_nil_r (to_bytes _)), parse_stream, conn_app_nil, parse_eq in H by done.
  by rewrite (ready_idle c Hc) in H.
Qed.

Lemma conn_reads_stream_witness :
  on_readable [RecvData [0; 0]; RecvIntr; RecvData [0; 2; 104]; RecvData [105; 0; 0; 0; 1; 33]] []
    (conn_init 1 65536, reactor_init) = (Ret ["hi"; "!"], (conn_init 1 65536, reactor_init)).
Proof.
  apply (conn_reads_stream _ _ ["hi"; "!"]); [done|done| |repeat constructor|by vm_compute].
  repeat constructor; by vm_compute.
Defined.

(** A zero or oversized length closes the connection: the frames before it
    are delivered, none after, and exactly one close delivery is posted. *)
Theorem conn_rejects_bad_length c r ps len rest script :
  ready c → is_u32 c.(max_frame) → Forall (payload_ok c.(max_frame)) ps → c.(closing) = false →
  is_u32 len → len = 0 ∨ c.(max_frame) < len → only_data script →
  script_bytes script = to_bytes (concat_str (frame <$> ps)) ++ be32 len ++ rest →
  ∃ c', on_readable script [] (c, r) =
          (Ret ps, (c', reactor_post (PDeliverClose c.(conn_id)) r)) ∧ c'.(closing) = true.
Proof.
  intros Hc Hmx Hps Hcl Hlen Hbad Hs Hb.
  pose proof (on_readable_parse script c r [] Hs (ready_idle c Hc)) as H.
  rewrite Hb, parse_stream, parse_eq, read_step_bad in H by done.
  destruct H as (c'' & -> & Hc''). exists (set_closing c'').
  assert (c''.(closing) = c.(closing)) as Hcl'' by apply (f_equal closing Hc'').
  assert (c''.(conn_id) = c.(conn_id)) as Hid by apply (f_equal conn_id Hc'').
  cbn [schedule_close]. rewrite Hcl'', Hcl, Hid. done.
Qed.

Lemma conn_rejects_bad_length_witness :
  ∃ c', on_readable [RecvData [0; 0; 0; 1; 65; 0; 0]; RecvData [0; 9; 1]] []
          (conn_init 1 4, reactor_init)
        = (Ret ["A"], (c', mkReactor [PDeliverClose 1] ∅)) ∧ c'.(closing) = true.
Proof.
  apply (conn_rejects_bad_length (conn_init 1 4) reactor_init ["A"] 9 [1]);
    [done|done| |done|done|simpl; lia|repeat constructor|by vm_compute].
  repeat constructor; by vm_compute.
Defined.

(** ** A connection over its life *)

(** The connection, its reactor, and what the outside has seen: the bytes the
    kernel accepted, the payloads [send_frame] accepted, the calls of [on_frame_]
    and [on_close_]. *)
Record conn_sys := mkCS {
  cs_conn : Connection;
  cs_reactor : Reactor;
  cs_wire : list Z;
  cs_log : list string;
  cs_frames : list string;
  cs_closes : nat;
}.

Inductive conn_op :=
| CoSend (payload : string)
| CoClose
| CoEvent (events : Z) (rs : list recv_result) (ss : list send_result)
| CoRunPost (ss : list send_result).

(** [send_frame] takes the payload (it is neither closing nor too large). *)
Definition accepts (c : Connection) (p : string) : bool :=
  negb (c.(closing) || c.(closed)) && negb (c.(max_frame) <? Z.of_nat (String.length p)).

Definition cs_step (y : conn_sys) (o : conn_op) : conn_sys :=
  let '(mkCS c r wire log frames closes) := y in
  match o with
  | CoSend p =>
      let '(_, (c', r')) := send_frame p (c, r) in
      mkCS c' r' wire (if accepts c p then log ++ [p] else log) frames closes
  | CoClose => let '(_, (c', r')) := close (c, r) in mkCS c' r' wire log frames closes
  | CoEvent ev rs ss =>
      match on_event ev rs ss (c, r) with
      | (Ret (fs, sent), (c', r')) => mkCS c' r' (wire ++ sent) log (frames ++ fs) closes
      | (Throw _, (c', r')) => mkCS c' r' wire log frames closes
      end
  | CoRunPost ss =>
      match r.(posts) with
      | [] => y
      | p :: ps =>
          match run_post p ss (c, mkReactor ps r.(interest)) with
          | (Ret (sent, called), (c', r')) =>
              mkCS c' r' (wire ++ sent) log frames (if called then S closes else closes)
          | (Throw _, (c', r')) => mkCS c' r' wire log frames closes
          end
      end
  end.

(** A started connection. *)
Definition cs_init (id max : Z) : conn_sys :=
  let '(_, (c, r)) := start (conn_init id max, reactor_init) in mkCS c r [] [] [] 0.

Definition cs_run (y : conn_sys) (ops : list conn_op) : conn_sys := foldl cs_step y ops.

Definition mask_of (armed : bool) : Z := if armed then Z.lor EvRead EvWrite else EvRead.

Definition is_deliver (p : post) : bool :=
  match p with PDeliverClose _ => true | _ => false end.
Definition count_deliver (ps : list post) : nat := length (List.filter is_deliver ps).
Arguments count_deliver : simpl never.

Definition bool_nat (b : bool) : nat := if b then 1 else 0.

Record cs_core (y : conn_sys) : Prop := {
  cs_ok_wire : y.(cs_wire) ++ y.(cs_conn).(wbuf) = to_bytes (concat_str (frame <$> y.(cs_log)));
  cs_ok_sizes : Forall (λ p, Z.of_nat (String.length p) <= y.(cs_conn).(max_frame)) y.(cs_log);
  cs_ok_deliver : (count_deliver y.(cs_reactor).(posts) + bool_nat y.(cs_conn).(closed))%nat
                  = bool_nat y.(cs_conn).(closing);
  cs_ok_closes : y.(cs_closes) = bool_nat y.(cs_conn).(closed);
  cs_ok_interest : y.(cs_conn).(closed) = false →
    y.(cs_reactor).(interest) !! y.(cs_conn).(conn_id) = Some (mask_of y.(cs_conn).(write_armed));
}.

(** Buffered output of an open connection is on its way: a flush is posted, the
    socket is armed for writing, or the connection is being closed. *)
Definition cs_moving (y : conn_sys) : Prop :=
  y.(cs_conn).(closed) = false → y.(cs_conn).(wbuf) ≠ [] →
  PFlush y.(cs_conn).(conn_id) ∈ y.(cs_reactor).(posts) ∨
  y.(cs_conn).(write_armed) = true ∨
  PScheduleClose y.(cs_conn).(conn_id) ∈ y.(cs_reactor).(posts) ∨
  y.(cs_conn).(closing) = true.

Definition cs_ok (y : conn_sys) : Prop := cs_core y ∧ cs_moving y.

(** What a flush does: it moves a prefix of the buffer to the kernel and either
    empties it, arms for writing, or schedules a close. *)
Record flushed (c : Connection) (r : Reactor) (moved : list Z) (c' : Connection) (r' : Reactor)
    : Prop := {
  fl_wire : c.(wbuf) = moved ++ c'.(wbuf);
  fl_conn : c' = set_write c'.(wbuf) c'.(write_armed) c;
  fl_posts : ∃ l, r'.(posts) = r.(posts) ++ l ∧ count_deliver l = 0%nat ∧
    (c'.(wbuf) = [] ∨ c'.(write_armed) = true ∨ PScheduleClose c.(conn_id) ∈ l);
  fl_interest : r.(interest) !! c.(conn_id) = Some (mask_of c.(write_armed)) →
    r'.(interest) !! c.(conn_id) = Some (mask_of c'.(write_armed));
}.

Lemma try_flush_spec script sent c r :
  ∃ moved c' r', try_flush_locked script sent (c, r) = (Ret (sent ++ moved), (c', r')) ∧
    flushed c r moved c' r'.
Proof.
  revert sent c. induction script as [|x script IH]; intros sent c; cbn [try_flush_locked].
  all: destruct (wbuf c) as [|b bs] eqn:Hw.
  1,3: destruct (write_armed c) eqn:Ha; eexists [], _, _; rewrite app_nil_r; (split; [done|]).
  1-4: split; [done|destruct c; simpl in *; by subst| |].
  1,3,5,7: (exists []); rewrite ?app_nil_r; split_and!; eauto.
  1-4: simpl; rewrite ?lookup_alter_eq, ?Ha; by intros ->.
  - destruct (write_armed c) eqn:Ha; eexists [], _, _; rewrite app_nil_r; (split; [done|]).
    + split; [done|by destruct c| |by rewrite Ha]. exists []. rewrite app_nil_r. eauto.
    + split; simpl; [done|by rewrite <-Hw; destruct c| |].
      * exists []. rewrite app_nil_r. eauto.
      * rewrite lookup_alter_eq. by intros ->.
  - rewrite <-Hw. destruct x as [n| | |].
    + destruct (IH (sent ++ take (Pos.to_nat n) (wbuf c))
        (set_write (drop (Pos.to_nat n) (wbuf c)) (write_armed c) c)) as (mv & c' & r' & -> & Hf).
      exists (take (Pos.to_nat n) (wbuf c) ++ mv), c', r'. rewrite app_assoc. split; [done|].
      destruct Hf as [H1 H2 H3 H4]. split; [|exact H2|exact H3|exact H4].
      simpl in H1. by rewrite <-app_assoc, <-H1, take_drop.
    + destruct (write_armed c) eqn:Ha; eexists [], _, _; rewrite app_nil_r; (split; [done|]).
      * split; [done|by destruct c| |by rewrite Ha]. exists []. rewrite app_nil_r. eauto.
      * split; simpl; [done|by destruct c| |].
        -- exists []. rewrite app_nil_r. eauto.
        -- rewrite lookup_alter_eq. by intros ->.
    + apply IH.
    + eexists [], _, _. rewrite app_nil_r. split; [done|]. split; [done|by destruct c| |done].
      eexists. split; [done|]. split; [done|]. right; right. set_solver.
Qed.

Lemma count_deliver_app a b : count_deliver (a ++ b) = (count_deliver a + count_deliver b)%nat.
Proof. unfold count_deliver. by rewrite List.filter_app, length_app. Qed.

(** The invariant does not look at the read state. *)
Lemma cs_ok_read c c' r wire log fs fs' n :
  set_read [] true 4 c' = set_read [] true 4 c →
  cs_ok (mkCS c r wire log fs n) → cs_ok (mkCS c' r wire log fs' n).
Proof.
  intros Heq [[H1 H2 H3 H4 H5] H6]. destruct c, c'. unfold set_read in Heq. cbn in Heq.
  injection Heq as -> -> -> -> -> -> -> -> ->. by split.
Qed.

Lemma cs_ok_schedule c r wire log fs n :
  cs_core (mkCS c r wire log fs n) →
  (closing c = false ∨ cs_moving (mkCS c r wire log fs n)) →
  let '(_, (c', r')) := schedule_close (c, r) in cs_ok (mkCS c' r' wire log fs n).
Proof.
  intros [H1 H2 H3 H4 H5] Hm. cbn [schedule_close]. destruct (closing c) eqn:Hc.
  - split; [split; cbn in *; rewrite ?Hc in *; done|]. by destruct Hm.
  - split; [|intros _ _; by right; right; right]. split; cbn in *; try done.
    rewrite count_deliver_app. rewrite Hc in H3. unfold count_deliver at 2. cbn in *. lia.
Qed.

Lemma cs_ok_flushed c r moved c' r' wire log fs n :
  cs_core (mkCS c r wire log fs n) → closed c = false → flushed c r moved c' r' →
  cs_ok (mkCS c' r' (wire ++ moved) log fs n).
Proof.
  intros [H1 H2 H3 H4 H5] Hcl [Hw Hc (l & Hp & Hl & Hm) Hi]. cbn in *.
  set (b := wbuf c') in *. set (a := write_armed c') in *. clearbody a b. subst c'. cbn in *.
  split; [split; cbn; try done|].
  - by rewrite <-app_assoc, <-Hw.
  - rewrite Hp, count_deliver_app, Hl. lia.
  - intros _. by apply Hi, H5.
  - intros _ Hne. cbn in *. rewrite Hp.
    destruct Hm as [->|[->|Hin]]; [done|by right; left|].
    right; right; left. apply elem_of_app. by right.
Qed.

Lemma concat_str_snoc a b : concat_str (a ++ [b]) = concat_str a +:+ b.
Proof.
  induction a as [|x a IH]; [apply str_app_nil_r|].
  change (concat_str ((x :: a) ++ [b])) with (x +:+ concat_str (a ++ [b])).
  by rewrite IH, str_app_assoc.
Qed.

Lemma cs_ok_send p c r wire log fs n :
  cs_ok (mkCS c r wire log fs n) → cs_ok (cs_step (mkCS c r wire log fs n) (CoSend p)).
Proof.
  intros [[H1 H2 H3 H4 H5] H6]. unfold cs_step, send_frame, accepts.
  destruct (closing c || closed c) eqn:E; cbn [negb andb]; [by split|].
  destruct (max_frame c <? _) eqn:E2; cbn [negb]; [by split|]. to_prop. cbn in *.
  split; [split; cbn; try done|].
  - rewrite app_assoc, H1, fmap_app. cbn [fmap list_fmap].
    rewrite concat_str_snoc, to_bytes_app. f_equal. unfold frame.
    by rewrite to_bytes_app, to_bytes_of_bytes by apply be32_ok.
  - apply Forall_app. split; [done|]. repeat constructor. lia.
  - rewrite count_deliver_app. unfold count_deliver at 2. cbn. lia.
  - intros _ _. left. cbn. apply elem_of_app. right. set_solver.
Qed.

Lemma on_readable_effect script out c r :
  ∃ out' c' r', on_readable script out (c, r) = (Ret out', (c', r')) ∧
    ((set_read [] true 4 c' = set_read [] true 4 c ∧ r' = r) ∨
     ∃ c1, set_read [] true 4 c1 = set_read [] true 4 c ∧ (c', r') = snd (schedule_close (c1, r))).
Proof.
  revert out c. induction script as [|x script IH]; intros out c; cbn [on_readable].
  - do 3 eexists. split; [done|]. by left.
  - destruct x as [b| | | |].
    + destruct (parse_frames _ _ out) as [[fs c1] bad] eqn:E.
      pose proof (parse_rest (conn_app c b) out _ _ _ E) as Hr.
      change (set_read [] true 4 (conn_app c b)) with (set_read [] true 4 c) in Hr. destruct bad.
      * destruct (schedule_close (c1, r)) as [o [c2 r2]] eqn:Es. do 3 eexists. split; [done|].
        right. exists c1. by rewrite Es.
      * destruct (IH fs c1) as (out' & c' & r' & -> & Heff). do 3 eexists. split; [done|].
        rewrite <-Hr. done.
    + destruct (schedule_close (c, r)) as [o [c2 r2]] eqn:Es. do 3 eexists. split; [done|].
      right. exists c. by rewrite Es.
    + do 3 eexists. split; [done|]. by left.
    + apply IH.
    + destruct (schedule_close (c, r)) as [o [c2 r2]] eqn:Es. do 3 eexists. split; [done|].
      right. exists c. by rewrite Es.
Qed.

Lemma cs_ok_readable script c r wire log fs n :
  cs_ok (mkCS c r wire log fs n) →
  ∃ out c' r', on_readable script [] (c, r) = (Ret out, (c', r')) ∧
    cs_ok (mkCS c' r' wire log (fs ++ out) n).
Proof.
  intros Hok. destruct (on_readable_effect script [] c r) as (out & c' & r' & -> & Heff).
  do 3 eexists. split; [done|]. destruct Heff as [[Hr ->]|(c1 & Hr & Heq)].
  - by eapply cs_ok_read.
  - destruct (cs_ok_read c c1 r wire log fs (fs ++ out) n Hr Hok) as [Hcore Hm].
    pose proof (cs_ok_schedule c1 r wire log (fs ++ out) n Hcore (or_intror Hm)) as H.
    destruct (schedule_close (c1, r)) as [o [c2 r2]]. simpl in Heq. by simplify_eq.
Qed.

Lemma cs_ok_event ev rs ss y : cs_ok y → cs_ok (cs_step y (CoEvent ev rs ss)).
Proof.
  destruct y as [c r wire log fs n]. intros Hok. unfold cs_step, on_event.
  destruct (closed c) eqn:Hcl; [by rewrite !app_nil_r|].
  assert (∃ out c1 r1,
    (if Z.testbit ev 0
     then match on_readable rs [] (c, r) with (Ret f, cr) => (f, cr) | (Throw _, cr) => ([], cr) end
     else ([], (c, r))) = (out, (c1, r1)) ∧ cs_ok (mkCS c1 r1 wire log (fs ++ out) n))
    as (out & c1 & r1 & -> & Hok1).
  { destruct (Z.testbit ev 0).
    - destruct (cs_ok_readable rs c r wire log fs n Hok) as (out & c' & r' & -> & H). eauto.
    - exists [], c, r. by rewrite app_nil_r. }
  destruct (closed c1) eqn:Hcl1; [by rewrite app_nil_r|].
  destruct (Z.testbit ev 1); [|by rewrite app_nil_r].
  unfold on_writable. destruct (try_flush_spec ss [] c1 r1) as (mv & c' & r' & -> & Hf).
  eapply cs_ok_flushed; [apply Hok1|done|exact Hf].
Qed.

(** Removing a posted closure other than a delivery keeps the core invariant. *)
Lemma cs_core_pop c r p ps wire log fs n :
  cs_core (mkCS c r wire log fs n) → r.(posts) = p :: ps → is_deliver p = false →
  cs_core (mkCS c (mkReactor ps r.(interest)) wire log fs n).
Proof.
  intros [H1 H2 H3 H4 H5] Hp Hd. cbn in *. rewrite Hp in H3. unfold count_deliver in *. cbn in H3.
  rewrite Hd in H3. by split.
Qed.

Lemma cs_ok_post ss y : cs_ok y → cs_ok (cs_step y (CoRunPost ss)).
Proof.
  destruct y as [c r wire log fs n]. intros Hok. unfold cs_step.
  destruct (posts r) as [|p ps] eqn:Hp; [done|]. pose proof Hok as [Hcore Hm].
  destruct p as [i|i|i]; cbn [run_post].
  - destruct (closed c) eqn:Hcl.
    + rewrite app_nil_r. split; [by eapply cs_core_pop|]. unfold cs_moving. cbn. by rewrite Hcl.
    + destruct (try_flush_spec ss [] c (mkReactor ps (interest r))) as (mv & c' & r' & -> & Hf).
      eapply cs_ok_flushed; [by eapply cs_core_pop|done|exact Hf].
  - pose proof (cs_core_pop _ _ _ _ _ _ _ _ Hcore Hp eq_refl) as Hcore'.
    assert (closing c = false ∨ cs_moving (mkCS c (mkReactor ps (interest r)) wire log fs n)) as Hor.
    { destruct (closing c) eqn:Hcl; [right|by left]. intros _ _. by right; right; right. }
    pose proof (cs_ok_schedule _ _ _ _ _ _ Hcore' Hor) as H.
    destruct (schedule_close (c, mkReactor ps (interest r))) as [o [c' r']].
    by rewrite app_nil_r.
  - destruct Hcore as [H1 H2 H3 H4 H5]. cbn in *. rewrite Hp in H3.
    change (count_deliver (PDeliverClose i :: ps)) with (S (count_deliver ps)) in H3.
    destruct (closed c) eqn:Hcl.
    { exfalso. destruct (closing c); simpl in H3; lia. }
    destruct (closing c) eqn:Hcg; [|simpl in H3; lia].
    rewrite app_nil_r. split; [split; cbn; try done|].
    + rewrite Hcg. simpl in *. lia.
    + rewrite H4. done.
    + unfold cs_moving. done.
Qed.

Lemma cs_step_ok o y : cs_ok y → cs_ok (cs_step y o).
Proof.
  intros Hy. destruct y as [c r wire log fs n], o as [p| |ev rs ss|ss].
  - by apply cs_ok_send.
  - unfold cs_step, close. destruct Hy as [Hcore Hm].
    pose proof (cs_ok_schedule _ _ _ _ _ _ Hcore (or_intror Hm)) as H.
    by destruct (schedule_close (c, r)) as [o [c' r']].
  - by apply cs_ok_event.
  - by apply cs_ok_post.
Qed.

Lemma cs_run_step_ok ops y : cs_ok y → cs_ok (cs_run y ops).
Proof. unfold cs_run. revert y. induction ops; simpl; auto using cs_step_ok. Qed.

Lemma cs_init_ok id max : cs_ok (cs_init id max).
Proof.
  split; [split; cbn; try done|by intros _ []]. intros _. by rewrite lookup_insert_eq.
Qed.

Lemma cs_run_ok id max ops : cs_ok (cs_run (cs_init id max) ops).
Proof. apply cs_run_step_ok, cs_init_ok. Qed.

(** The frame limit never changes. *)
Lemma schedule_close_max c r : max_frame (snd (schedule_close (c, r))).1 = max_frame c.
Proof. cbn. by destruct (closing c). Qed.

Lemma on_readable_max rs out c r : max_frame (snd (on_readable rs out (c, r))).1 = max_frame c.
Proof.
  destruct (on_readable_effect rs out c r) as (out' & c' & r' & -> & [[Hr _]|(c1 & Hr & Heq)]).
  - apply (f_equal max_frame Hr).
  - cbn [snd]. rewrite Heq, schedule_close_max. apply (f_equal max_frame Hr).
Qed.

Lemma flushed_max c r mv c' r' : flushed c r mv c' r' → max_frame c' = max_frame c.
Proof. intros [_ -> _ _]. done. Qed.

Lemma cs_step_max o y : max_frame (cs_step y o).(cs_conn) = max_frame y.(cs_conn).
Proof.
  destruct y as [c r wire log fs n], o as [p| |ev rs ss|ss]; unfold cs_step.
  - unfold send_frame. by repeat case_match; simplify_eq.
  - unfold close. pose proof (schedule_close_max c r).
    by destruct (schedule_close (c, r)) as [o [c' r']].
  - unfold on_event. destruct (closed c); [done|].
    pose proof (on_readable_max rs [] c r) as Hr.
    destruct (on_readable rs [] (c, r)) as [o [c1 r1]]. simpl in Hr.
    destruct (Z.testbit ev 0); [destruct o|];
      match goal with |- context [closed ?c] => destruct (closed c) end; try done;
      (destruct (Z.testbit ev 1); [|done]); unfold on_writable;
      match goal with |- context [try_flush_locked ss [] (?c, ?r)] =>
        destruct (try_flush_spec ss [] c r) as (mv & c' & r' & -> & Hf%flushed_max) end;
      simpl; congruence.
  - destruct (posts r) as [|p ps]; [done|]. destruct p as [i|i|i]; cbn [run_post].
    + destruct (closed c); [done|].
      destruct (try_flush_spec ss [] c (mkReactor ps (interest r))) as (mv & c' & r' & -> & Hf).
      by apply flushed_max in Hf.
    + pose proof (schedule_close_max c (mkReactor ps (interest r))).
      by destruct (schedule_close (c, mkReactor ps (interest r))) as [o [c' r']].
    + cbn. by destruct (closed c).
Qed.

Lemma cs_run_max ops y : max_frame (cs_run y ops).(cs_conn) = max_frame y.(cs_conn).
Proof.
  unfold cs_run. revert y. induction ops as [|o ops IH]; intros y; [done|]. simpl.
  by rewrite IH, cs_step_max.
Qed.

(** ** Draining the posted closures *)

Lemma cs_post_spec ss c r wire log fs n p ps :
  r.(posts) = p :: ps → ∃ l c' r' wire' n',
    cs_step (mkCS c r wire log fs n) (CoRunPost ss) = mkCS c' r' wire' log fs n' ∧
    r'.(posts) = ps ++ l ∧ (c.(closing) = true → c'.(closing) = true) ∧
    (c.(closed) = true → c'.(closed) = true) ∧ (is_deliver p = true → c'.(closed) = true).
Proof.
  intros Hp. unfold cs_step. rewrite Hp. destruct p as [i|i|i]; cbn [run_post].
  - destruct (closed c) eqn:Hcl.
    + exists []. do 4 eexists. split; [done|]. by rewrite app_nil_r.
    + destruct (try_flush_spec ss [] c (mkReactor ps (interest r))) as (mv & c' & r' & -> & Hf).
      destruct Hf as [_ Hc (l & Hl & _) _]. exists l. do 4 eexists. split; [done|].
      rewrite Hc. done.
  - cbn. destruct (closing c) eqn:Hcg.
    + exists []. do 4 eexists. split; [done|]. by rewrite app_nil_r.
    + exists [PDeliverClose (conn_id c)]. do 4 eexists. split; [done|]. done.
  - cbn. destruct (closed c) eqn:Hcl; (exists []; do 4 eexists; split; [done|]); by rewrite app_nil_r.
Qed.

Lemma drain_closes sss y a b :
  y.(cs_reactor).(posts) = a ++ b → length sss = length a →
  y.(cs_conn).(closed) = true ∨ (0 < count_deliver a)%nat →
  (cs_run y (CoRunPost <$> sss)).(cs_conn).(closed) = true.
Proof.
  revert sss y b. induction a as [|p a IH]; intros [|ss sss] y b Hp Hl Hc; try done.
  - destruct Hc as [Hc|Hc]; [done|]. unfold count_deliver in Hc. simpl in Hc. lia.
  - destruct y as [c r wire log fs n]. simpl in Hp.
    destruct (cs_post_spec ss c r wire log fs n p (a ++ b) Hp)
      as (l & c' & r' & w' & n' & Hs & Hp' & _ & Hcl & Hd).
    rewrite fmap_cons. unfold cs_run. cbn [foldl]. rewrite Hs.
    apply (IH sss _ (b ++ l)); [by rewrite app_assoc|simpl in Hl; lia|].
    simpl. destruct Hc as [Hc|Hc]; [left; by apply Hcl|].
    unfold count_deliver in *. simpl in Hc. destruct (is_deliver p); [left; by apply Hd|by right].
Qed.

(** ** Properties of the life cycle *)

(** C10: outbound stream integrity.  After any interleaving of sends, events,
    posted closures and closes, with any partial writes, the bytes the kernel has
    accepted followed by those still buffered are exactly the frames of the
    accepted payloads in the order of the [send_frame] calls; and if no payload is
    empty, a peer decoding with the same limit reads a prefix of them. *)
Theorem conn_wire_integrity id max ops :
  is_u32 max →
  let y := cs_run (cs_init id max) ops in
  y.(cs_wire) ++ y.(cs_conn).(wbuf) = to_bytes (concat_str (frame <$> y.(cs_log))) ∧
  (Forall (λ p, p ≠ "") y.(cs_log) →
   ∃ ps d, feed (mkDecoder [] true 4 max) (of_bytes y.(cs_wire)) = (Ret ps, d) ∧
           ps `prefix_of` y.(cs_log)).
Proof.
  intros Hmax y. destruct (cs_run_ok id max ops) as [[H1 H2 _ _ _] _]. fold y in H1, H2.
  split; [done|]. intros Hne.
  assert (y.(cs_conn).(max_frame) = max) as Hm by apply (cs_run_max ops (cs_init id max)).
  assert (Forall (payload_ok max) y.(cs_log)) as Hok.
  { apply Forall_forall. intros p Hp. rewrite Forall_forall in Hne, H2.
    specialize (Hne p Hp). specialize (H2 p Hp). rewrite Hm in H2. split; [|done].
    destruct p; [done|simpl; lia]. }
  pose proof (feed_loop_frames _ max [] Hmax Hok) as Hall.
  assert (feed (mkDecoder [] true 4 max)
    (of_bytes y.(cs_wire) +:+ of_bytes y.(cs_conn).(wbuf)) = (Ret y.(cs_log), mkDecoder [] true 4 max))
    as Hfeed.
  { unfold feed. cbn [buf reading_len want max_frame_bytes app].
    rewrite <-of_bytes_app, H1, of_bytes_to_bytes. exact Hall. }
  rewrite feed_app in Hfeed.
  destruct (feed _ (of_bytes y.(cs_wire))) as [[ps|e] d]; [|done]. exists ps, d. split; [done|].
  destruct (feed d _) as [[gs|e] d']; [|done]. injection Hfeed as Hlog _.
  exists gs. by rewrite Hlog.
Qed.

Lemma conn_wire_integrity_witness :
  ∃ ps d, feed (mkDecoder [] true 4 100)
    (of_bytes (cs_run (cs_init 1 100)
       [CoSend "hi"; CoSend "you"; CoRunPost [SendOk 7]]).(cs_wire)) = (Ret ps, d) ∧
    ps `prefix_of` ["hi"; "you"].
Proof.
  apply (conn_wire_integrity 1 100 [CoSend "hi"; CoSend "you"; CoRunPost [SendOk 7]]);
    [done|]. repeat constructor; done.
Defined.

(** C28: closing is exactly-once: in every reachable state [on_close_] has been
    called once if the connection is closed and never otherwise, and a connection
    that has begun to close is closed after the closures already posted have run
    (whatever their sends return). *)
Theorem conn_close_once id max ops sss :
  let y := cs_run (cs_init id max) ops in
  y.(cs_closes) = bool_nat y.(cs_conn).(closed) ∧
  (y.(cs_conn).(closing) = true → length sss = length y.(cs_reactor).(posts) →
   (cs_run y (CoRunPost <$> sss)).(cs_closes) = 1%nat).
Proof.
  intros y. pose proof (cs_run_ok id max ops) as Hok. fold y in Hok. split; [apply Hok|].
  intros Hcl Hlen. pose proof (cs_run_step_ok (CoRunPost <$> sss) y Hok) as [Hcore' _].
  rewrite (cs_ok_closes _ Hcore').
  rewrite (drain_closes sss y y.(cs_reactor).(posts) []); [done|by rewrite app_nil_r|done|].
  destruct Hok as [Hcore _]. pose proof (cs_ok_deliver _ Hcore) as Hd. rewrite Hcl in Hd.
  destruct (closed (cs_conn y)); [by left|]. right. simpl in Hd. lia.
Qed.

Lemma conn_close_once_witness :
  (cs_run (cs_run (cs_init 1 100) [CoSend "x"; CoClose])
     (CoRunPost <$> [[SendError]; []])).(cs_closes) = 1%nat.
Proof. by apply (conn_close_once 1 100 [CoSend "x"; CoClose] [[SendError]; []]). Defined.

(** C29: output is never stuck: in every reachable state of an open connection
    whose buffer is not empty, a flush is posted, or the socket is registered for
    write readiness, or the connection is being closed. *)
Theorem conn_output_moves id max ops :
  let y := cs_run (cs_init id max) ops in
  y.(cs_conn).(closed) = false → y.(cs_conn).(wbuf) ≠ [] →
  PFlush y.(cs_conn).(conn_id) ∈ y.(cs_reactor).(posts) ∨
  y.(cs_reactor).(interest) !! y.(cs_conn).(conn_id) = Some (Z.lor EvRead EvWrite) ∨
  PScheduleClose y.(cs_conn).(conn_id) ∈ y.(cs_reactor).(posts) ∨
  y.(cs_conn).(closing) = true.
Proof.
  intros y Hcl Hne. destruct (cs_run_ok id max ops) as [Hcore Hm]. fold y in Hcore, Hm.
  destruct (Hm Hcl Hne) as [H|[H|[H|H]]]; [by left| |by right; right; left|by right; right; right].
  right; left. rewrite (cs_ok_interest _ Hcore Hcl), H. done.
Qed.

Lemma conn_output_moves_witness :
  let y := cs_run (cs_init 1 100) [CoSend "hi"; CoRunPost [SendOk 3]] in
  y.(cs_conn).(closed) = false ∧ y.(cs_conn).(wbuf) = [2; 104; 105] ∧
  y.(cs_reactor).(interest) !! 1 = Some 3.
Proof.
  intros y. split; [done|]. split; [done|].
  destruct (conn_output_moves 1 100 [CoSend "hi"; CoRunPost [SendOk 3]]) as [H|[H|[H|H]]];
    [done|done| |exact H| |done]; by apply not_elem_of_nil in H.
Defined.
