(* ===== verification/ThreadPool.v ===== *)
(** * The worker pool: [include/common/thread_pool.h], [src/common/thread_pool.cpp]

    Threads interleave at the points where the code lets them: the sections under
    [mu_] are atomic, except that a worker which has found nothing to do still
    holds [mu_] until it blocks in [cv_.wait], and [shutdown] touches [stopping_]
    and [cv_] without [mu_].  A submitter releases [mu_] before [notify_one]; a
    notification between is a separate step.  [started], [accepted] and [finished]
    are ghost logs. *)
From S2P Require Import Prelude.

(** Where a worker is in [worker_loop]. *)
Inductive worker (T : Type) :=
| WTop                    (** about to take [mu_] and test the wait predicate *)
| WBlocking               (** predicate false, holds [mu_], not blocked yet *)
| WWaiting                (** blocked in [cv_.wait], [mu_] released *)
| WRunning (job : T)      (** runs a job outside the lock *)
| WReturned.
Arguments WTop {T}.
Arguments WBlocking {T}.
Arguments WWaiting {T}.
Arguments WRunning {T} job.
Arguments WReturned {T}.

Record Pool (T : Type) := mkPool {
  workers : list (worker T);
  q : list T;
  stopping : bool;
  notifies : nat;           (** submitters that have pushed and not notified yet *)
  accepted : list T;
  started : list T;
  finished : list T;
}.
Arguments mkPool {T}.
Arguments workers {T}.
Arguments q {T}.
Arguments stopping {T}.
Arguments notifies {T}.
Arguments accepted {T}.
Arguments started {T}.
Arguments finished {T}.

Section pool.
Context {T : Type}.
Implicit Types (p : Pool T) (t : T) (x : worker T).

(** [ThreadPool(n)]: at least one worker. *)
Definition pool_init (n : nat) : Pool T :=
  mkPool (replicate (if (n =? 0)%nat then 1 else n)%nat WTop) [] false 0 [] [] [].

(** A worker between its test and its wait owns [mu_]. *)
Definition is_blocking x : bool := match x with WBlocking => true | _ => false end.
Definition mu_free p : bool := negb (existsb is_blocking p.(workers)).

Definition set_worker (i : nat) x p : Pool T :=
  mkPool (<[i := x]> p.(workers)) p.(q) p.(stopping) p.(notifies) p.(accepted) p.(started) p.(finished).

(** [submit] up to the end of its locked section; [false] is a rejection. *)
Definition submit t p : option (bool * Pool T) :=
  if p.(stopping) then Some (false, p)
  else if mu_free p then
    Some (true, mkPool p.(workers) (p.(q) ++ [t]) p.(stopping) (S p.(notifies))
                  (p.(accepted) ++ [t]) p.(started) p.(finished))
  else None.

(** [cv_.notify_one()] of a submitter: some waiting worker goes back to the test;
    it does nothing when no worker waits. *)
Definition notify_one (i : nat) p : option (Pool T) :=
  match p.(notifies) with
  | O => None
  | S k =>
      let p' := mkPool p.(workers) p.(q) p.(stopping) k p.(accepted) p.(started) p.(finished) in
      if existsb (λ x, match x with WWaiting => true | _ => false end) p.(workers) then
        match p.(workers) !! i with Some WWaiting => Some (set_worker i WTop p') | _ => None end
      else Some p'
  end.

(** The next step of worker [i] in [worker_loop]. *)
Definition worker_loop (i : nat) p : option (Pool T) :=
  match p.(workers) !! i with
  | Some WTop =>
      if mu_free p then
        if p.(stopping) || negb (match p.(q) with [] => true | _ => false end) then
          match p.(q) with
          | [] => Some (set_worker i WReturned p)
          | job :: q =>
              Some (mkPool (<[i := WRunning job]> p.(workers)) q p.(stopping) p.(notifies)
                      p.(accepted) (p.(started) ++ [job]) p.(finished))
          end
        else Some (set_worker i WBlocking p)
      else None
  | Some WBlocking => Some (set_worker i WWaiting p)
  | Some (WRunning job) =>
      Some (mkPool (<[i := WTop]> p.(workers)) p.(q) p.(stopping) p.(notifies)
              p.(accepted) p.(started) (p.(finished) ++ [job]))
  | _ => None
  end.

(** A wait may return without a notification; the predicate is tested again. *)
Definition spurious (i : nat) p : option (Pool T) :=
  match p.(workers) !! i with Some WWaiting => Some (set_worker i WTop p) | _ => None end.

(** [shutdown]: the exchange of [stopping_], then [cv_.notify_all()], neither
    under [mu_]; joining waits for every worker to return. *)
Definition set_stopping p : Pool T :=
  mkPool p.(workers) p.(q) true p.(notifies) p.(accepted) p.(started) p.(finished).
Definition wake x : worker T := match x with WWaiting => WTop | _ => x end.
Definition notify_all p : Pool T :=
  mkPool (wake <$> p.(workers)) p.(q) p.(stopping) p.(notifies) p.(accepted) p.(started) p.(finished).
Definition joined p : bool :=
  forallb (λ x, match x with WReturned => true | _ => false end) p.(workers).

Inductive pool_op :=
| TSubmit t
| TNotify (i : nat)
| TWorker (i : nat)
| TSpurious (i : nat)
| TSetStopping
| TNotifyAll.

Definition pool_step (o : pool_op) p : option (Pool T) :=
  match o with
  | TSubmit t => snd <$> submit t p
  | TNotify i => notify_one i p
  | TWorker i => worker_loop i p
  | TSpurious i => spurious i p
  | TSetStopping => Some (set_stopping p)
  | TNotifyAll => Some (notify_all p)
  end.

Inductive pool_reach (n : nat) : Pool T → Prop :=
| preach_init : pool_reach n (pool_init n)
| preach_step o p p' : pool_reach n p → pool_step o p = Some p' → pool_reach n p'.

(** ** Invariant *)

Definition job_of x : list T := match x with WRunning t => [t] | _ => [] end.
Definition running p : list T := concat (job_of <$> p.(workers)).

Record pool_ok p : Prop := {
  pool_fifo : p.(started) ++ p.(q) = p.(accepted);
  pool_jobs : p.(started) ≡ₚ p.(finished) ++ running p;
  pool_nonempty : p.(workers) ≠ [];
  pool_blocking : WBlocking ∈ p.(workers) → p.(q) = [];
  pool_returned : WReturned ∈ p.(workers) → p.(stopping) = true ∧ p.(q) = [];
  pool_awake : p.(q) ≠ [] → (0 < p.(notifies))%nat ∨
    WTop ∈ p.(workers) ∨ ∃ t, WRunning t ∈ p.(workers);
}.
End pool.
Arguments pool_op T : clear implicits.

Section lemmas.
Context {T : Type}.
Implicit Types (p : Pool T) (t : T) (x y : worker T) (l : list (worker T)).

Lemma running_insert l i x y :
  l !! i = Some y →
  concat (job_of <$> <[i := x]> l) ++ job_of y ≡ₚ concat (job_of <$> l) ++ job_of x.
Proof.
  revert i. induction l as [|z l IH]; intros [|i] Hi; cbn in *; try done.
  - injection Hi as ->. rewrite (Permutation_app_comm (job_of x ++ _)), app_assoc.
    by rewrite (Permutation_app_comm (job_of y ++ _) (job_of x)), app_assoc, (Permutation_app_comm (job_of y) (job_of x)).
  - rewrite <-!app_assoc. f_equiv. by apply IH.
Qed.

(** A move that starts or ends no job. *)
Lemma running_same l i x y :
  l !! i = Some y → job_of x = [] → job_of y = [] →
  concat (job_of <$> <[i := x]> l) ≡ₚ concat (job_of <$> l).
Proof.
  intros Hi Hx Hy. pose proof (running_insert l i x y Hi) as Hp. by rewrite Hx, Hy, !app_nil_r in Hp.
Qed.

Lemma elem_insert l i x y z : l !! i = Some y → z ∈ <[i := x]> l → z = x ∨ z ∈ l.
Proof.
  intros Hi [k Hk]%list_elem_of_lookup. apply list_lookup_insert_Some in Hk as [(_ & -> & _)|[_ Hk]];
    [by left|right; by eapply list_elem_of_lookup_2].
Qed.

Lemma elem_insert_self l i x y : l !! i = Some y → x ∈ <[i := x]> l.
Proof.
  intros Hi. eapply list_elem_of_lookup_2, list_lookup_insert_eq. by eapply lookup_lt_Some.
Qed.

Lemma elem_insert_other l i x y z : l !! i = Some y → z ∈ l → z ≠ y → z ∈ <[i := x]> l.
Proof.
  intros Hi [k Hk]%list_elem_of_lookup Hne. destruct (decide (k = i)) as [->|]; [congruence|].
  eapply list_elem_of_lookup_2. by rewrite list_lookup_insert_ne.
Qed.

Lemma insert_nonempty l i x : l ≠ [] → <[i := x]> l ≠ [].
Proof. destruct l, i; done. Qed.

Lemma mu_free_spec p : mu_free p = true → WBlocking ∉ p.(workers).
Proof.
  unfold mu_free. intros Hf Hin. apply negb_true_iff in Hf.
  assert (existsb is_blocking p.(workers) = true) as Ht; [|congruence].
  apply existsb_exists. exists WBlocking. by rewrite <-list_elem_of_In.
Qed.

Lemma pool_init_ok n : pool_ok (@pool_init T n).
Proof.
  split; cbn; try done.
  - unfold running. cbn. by induction (if (n =? 0)%nat then 1%nat else n).
  - by destruct n.
  - intros Hin. apply list_elem_of_lookup in Hin as [k Hk]. by apply lookup_replicate in Hk as [].
Qed.

(** A worker changes place; nothing else does. *)
Lemma set_worker_ok i x y p :
  pool_ok p → p.(workers) !! i = Some y → job_of x = [] → job_of y = [] →
  (x = WBlocking → p.(q) = []) → (x = WReturned → p.(stopping) = true ∧ p.(q) = []) →
  (x = WTop ∨ p.(q) = []) → pool_ok (set_worker i x p).
Proof.
  intros [Hf Hj Hne Hb Hr Ha] Hi Hx Hy Hxb Hxr Hxa. split; cbn; try done.
  - unfold running. cbn. by rewrite (running_same _ _ _ _ Hi Hx Hy).
  - by apply insert_nonempty.
  - intros [<-|?]%(elem_insert _ _ _ _ _ Hi); auto.
  - intros [<-|?]%(elem_insert _ _ _ _ _ Hi); auto.
  - intros Hq. destruct Hxa as [->|]; [|done]. right; left. by eapply elem_insert_self.
Qed.

Lemma notify_count_ok k p :
  pool_ok p → (p.(q) ≠ [] → (0 < k)%nat ∨ WTop ∈ p.(workers) ∨ ∃ t, WRunning t ∈ p.(workers)) →
  pool_ok (mkPool p.(workers) p.(q) p.(stopping) k p.(accepted) p.(started) p.(finished)).
Proof. intros [Hf Hj Hne Hb Hr Ha] Hk. by split. Qed.

(** With work queued and no one waiting or about to wait, someone is at the test
    or running. *)
Lemma busy_worker p :
  pool_ok p → p.(q) ≠ [] → WWaiting ∉ p.(workers) →
  WTop ∈ p.(workers) ∨ ∃ t, WRunning t ∈ p.(workers).
Proof.
  intros [Hf Hj Hne Hb Hr Ha] Hq Hw. destruct (workers p) as [|x l]; [done|].
  destruct x as [| | |t|].
  - left. by left.
  - destruct Hq. apply Hb. by left.
  - destruct Hw. by left.
  - right. exists t. by left.
  - destruct Hq. by apply Hr; left.
Qed.
End lemmas.

Section steps.
Context {T : Type}.
Implicit Types (p : Pool T) (t : T) (x y : worker T).

Lemma submit_ok t b p p' : pool_ok p → submit t p = Some (b, p') → pool_ok p'.
Proof.
  intros Hp. unfold submit. destruct (stopping p) eqn:Hs; [by intros [= <- <-]|].
  destruct (mu_free p) eqn:Hf; [|done]. intros [= <- <-]. apply mu_free_spec in Hf.
  destruct Hp as [Hfi Hj Hne Hb Hr Ha]. split; cbn; try done.
  - by rewrite app_assoc, Hfi.
  - intros Hin. destruct (Hr Hin). congruence.
  - intros _. left. lia.
Qed.

Lemma notify_one_ok i p p' : pool_ok p → notify_one i p = Some p' → pool_ok p'.
Proof.
  intros Hp. unfold notify_one. destruct (notifies p) as [|k] eqn:Hk; [done|].
  destruct (existsb _ _) eqn:Hw.
  - destruct (workers p !! i) as [[| | | |]|] eqn:Hi; try done. intros [= <-].
    assert (pool_ok (set_worker i WTop p)) as [Hf Hj Hne Hb Hr Ha]
      by by eapply set_worker_ok; [..|left].
    split; cbn in *; try done. intros _. right; left. by eapply elem_insert_self.
  - intros [= <-]. apply notify_count_ok; [done|]. intros Hq. right. apply busy_worker; [done|done|].
    intros Hin. assert (existsb (λ x, match x with WWaiting => true | _ => false end) (workers p) = true);
      [|congruence]. apply existsb_exists. exists WWaiting. by rewrite <-list_elem_of_In.
Qed.

Lemma spurious_ok i p p' : pool_ok p → spurious i p = Some p' → pool_ok p'.
Proof.
  intros Hp. unfold spurious. destruct (workers p !! i) as [[| | | |]|] eqn:Hi; try done.
  intros [= <-]. by eapply set_worker_ok; [..|left].
Qed.

Lemma worker_loop_ok i p p' : pool_ok p → worker_loop i p = Some p' → pool_ok p'.
Proof.
  intros Hp. unfold worker_loop. destruct (workers p !! i) as [[| | |job|]|] eqn:Hi; try done.
  - destruct (mu_free p) eqn:Hf; [|done]. apply mu_free_spec in Hf.
    destruct (q p) as [|job q'] eqn:Hq; cbn.
    + destruct (stopping p) eqn:Hs; cbn; intros [= <-];
        by eapply set_worker_ok; [done|done|done|done|done|intros|right].
    + rewrite orb_true_r. intros [= <-]. destruct Hp as [Hfi Hj Hne Hb Hr Ha].
      pose proof (running_insert _ _ (WRunning job) _ Hi) as Hrun. rewrite app_nil_r in Hrun.
      split; cbn.
      * rewrite <-Hfi, Hq, <-app_assoc. done.
      * unfold running in *. cbn. rewrite Hrun, Hj, <-app_assoc. done.
      * by apply insert_nonempty.
      * intros [?|?]%(elem_insert _ _ _ _ _ Hi); done.
      * intros [?|Hin]%(elem_insert _ _ _ _ _ Hi); [done|]. destruct (Hr Hin). congruence.
      * intros _. right; right. exists job. by eapply elem_insert_self.
  - intros [= <-]. assert (q p = []) as Hq by (apply (pool_blocking _ Hp); by eapply list_elem_of_lookup_2).
    by eapply set_worker_ok; [..|right].
  - intros [= <-]. destruct Hp as [Hfi Hj Hne Hb Hr Ha].
    pose proof (running_insert _ _ WTop _ Hi) as Hrun. cbn [job_of] in Hrun. rewrite app_nil_r in Hrun.
    split; cbn; try done.
    + unfold running in *. cbn. rewrite Hj, <-Hrun, <-app_assoc. f_equiv. apply Permutation_app_comm.
    + by apply insert_nonempty.
    + intros [?|?]%(elem_insert _ _ _ _ _ Hi); [done|auto].
    + intros [?|?]%(elem_insert _ _ _ _ _ Hi); [done|auto].
    + intros _. right; left. by eapply elem_insert_self.
Qed.

Lemma elem_wake x (l : list (worker T)) : x ∈ wake <$> l → x ≠ WTop → x ∈ l.
Proof.
  intros (y & -> & Hy)%list_elem_of_fmap Hne. by destruct y.
Qed.

Lemma notify_all_ok p : pool_ok p → pool_ok (notify_all p).
Proof.
  intros [Hfi Hj Hne Hb Hr Ha]. split; cbn; try done.
  - rewrite Hj. f_equiv. unfold running. cbn. rewrite <-list_fmap_compose.
    by rewrite (list_fmap_ext (job_of ∘ wake) job_of (workers p)) by (intros ? [] ?; done).
  - destruct (workers p); done.
  - intros Hin. apply Hb. by apply elem_wake in Hin.
  - intros Hin. apply Hr. by apply elem_wake in Hin.
  - intros Hq. destruct (Ha Hq) as [?|[?|[t ?]]]; [by left|right; left|right; right; exists t];
      apply list_elem_of_fmap; [by exists WTop|by exists (WRunning t)].
Qed.

Lemma set_stopping_ok p : pool_ok p → pool_ok (set_stopping p).
Proof.
  intros [Hfi Hj Hne Hb Hr Ha]. split; cbn; try done. intros Hin. split; [done|by apply Hr].
Qed.

Lemma pool_step_ok o p p' : pool_ok p → pool_step o p = Some p' → pool_ok p'.
Proof.
  intros Hp. destruct o as [t|i|i|i| |]; cbn [pool_step].
  - destruct (submit t p) as [[b p1]|] eqn:Hs; [|done]. intros [= <-]. by eapply submit_ok.
  - by apply notify_one_ok.
  - by apply worker_loop_ok.
  - by apply spurious_ok.
  - intros [= <-]. by apply set_stopping_ok.
  - intros [= <-]. by apply notify_all_ok.
Qed.

Lemma pool_reach_ok n p : pool_reach n p → pool_ok p.
Proof. induction 1; [apply pool_init_ok|by eapply pool_step_ok]. Qed.
End steps.

(** ** Properties *)

(** Every accepted task is started exactly once, in the order of acceptance,
    whatever the interleaving: the tasks started so far followed by the queue are
    the accepted tasks, and each started task is finished or is being run by one
    worker.  A task is rejected only when the pool is stopping. *)
Theorem pool_runs_each_task_once {T : Type} n (p : Pool T) :
  pool_reach n p →
  p.(started) ++ p.(q) = p.(accepted) ∧ p.(started) ≡ₚ p.(finished) ++ running p ∧
  (∀ t b p', submit t p = Some (b, p') →
     b = negb p.(stopping) ∧ p'.(accepted) = p.(accepted) ++ (if b then [t] else [])).
Proof.
  intros Hr%pool_reach_ok. split; [apply Hr|]. split; [apply Hr|]. intros t b p'. unfold submit.
  destruct (stopping p); [intros [= <- <-]; by rewrite app_nil_r|].
  destruct (mu_free p); [|done]. by intros [= <- <-].
Qed.

(** Work never waits for ever while a worker sleeps: whenever the queue is not
    empty, a notification is on its way, or some worker is about to look at the
    queue or is running a job (after which it looks).  A worker that is about to
    block or has returned saw the queue empty, and it is still empty. *)
Theorem pool_no_missed_work {T : Type} n (p : Pool T) :
  pool_reach n p →
  (p.(q) ≠ [] → (0 < p.(notifies))%nat ∨ WTop ∈ p.(workers) ∨ ∃ t, WRunning t ∈ p.(workers)) ∧
  (WBlocking ∈ p.(workers) ∨ WReturned ∈ p.(workers) → p.(q) = []).
Proof.
  intros Hr%pool_reach_ok. split; [apply Hr|]. intros [Hb|Hb]; [by apply (pool_blocking _ Hr)|].
  by apply (pool_returned _ Hr).
Qed.

(** Graceful shutdown: when [shutdown] has joined every worker, the queue is
    empty and every task ever accepted has finished. *)
Theorem pool_shutdown_drains {T : Type} n (p : Pool T) :
  pool_reach n p → joined p = true →
  p.(q) = [] ∧ p.(finished) ≡ₚ p.(accepted).
Proof.
  intros Hr%pool_reach_ok Hj. unfold joined in Hj. rewrite forallb_forall in Hj.
  assert (∀ x, x ∈ p.(workers) → x = WReturned) as Hall.
  { intros x Hx. apply list_elem_of_In, Hj in Hx. by destruct x. }
  assert (WReturned ∈ p.(workers)) as Hin.
  { pose proof (pool_nonempty _ Hr) as Hne. destruct (workers p) as [|x l]; [done|].
    rewrite (Hall x) by (by left). by left. }
  destruct (pool_returned _ Hr Hin) as [_ Hq]. split; [done|].
  rewrite <-(pool_fifo _ Hr), Hq, app_nil_r, (pool_jobs _ Hr).
  assert (running p = []) as ->; [|by rewrite app_nil_r].
  unfold running. clear -Hall. revert Hall. induction (workers p) as [|x l IH]; intros Hall; [done|].
  rewrite fmap_cons. cbn [concat]. rewrite IH by (intros y Hy; apply Hall; by right).
  by rewrite (Hall x) by (by left).
Qed.

(** *** Examples *)

Fixpoint run_ops {T : Type} (ops : list (pool_op T)) (p : Pool T) : option (Pool T) :=
  match ops with
  | [] => Some p
  | o :: ops => match pool_step o p with Some p' => run_ops ops p' | None => None end
  end.

Lemma run_ops_reach {T : Type} n (ops : list (pool_op T)) p p' :
  pool_reach n p → run_ops ops p = Some p' → pool_reach n p'.
Proof.
  revert p. induction ops as [|o ops IH]; intros p Hp; cbn; [by intros [= <-]|].
  destruct (pool_step o p) as [p1|] eqn:Hs; [|done]. apply IH. by eapply preach_step.
Qed.

(** One worker, two tasks, then a clean shutdown. *)
Definition busy_ops : list (pool_op Z) :=
  [TWorker 0; TWorker 0; TSubmit 7; TSubmit 8; TNotify 0; TWorker 0].
Definition busy : Pool Z := default (pool_init 1) (run_ops busy_ops (pool_init 1)).
Definition stopped : Pool Z :=
  default (pool_init 1) (run_ops (busy_ops ++ [TSetStopping; TNotifyAll; TWorker 0; TWorker 0; TWorker 0; TWorker 0]) (pool_init 1)).

Lemma busy_reach : pool_reach 1 busy.
Proof. apply (run_ops_reach 1 busy_ops (pool_init 1)); [constructor|by vm_compute]. Qed.
Lemma stopped_reach : pool_reach 1 stopped.
Proof.
  apply (run_ops_reach 1 (busy_ops ++ [TSetStopping; TNotifyAll; TWorker 0; TWorker 0; TWorker 0; TWorker 0])
    (pool_init 1)); [constructor|by vm_compute].
Qed.

Lemma pool_runs_each_task_once_witness : busy.(started) ++ busy.(q) = [7; 8].
Proof. destruct (pool_runs_each_task_once 1 busy busy_reach) as [H _]. exact H. Defined.

Lemma pool_no_missed_work_witness :
  busy.(q) = [8] ∧ ((0 < busy.(notifies))%nat ∨ WTop ∈ busy.(workers) ∨ ∃ t, WRunning t ∈ busy.(workers)).
Proof.
  split; [reflexivity|]. destruct (pool_no_missed_work 1 busy busy_reach) as [H _]. by apply H.
Defined.

Lemma pool_shutdown_drains_witness : stopped.(q) = [] ∧ stopped.(finished) ≡ₚ [7; 8].
Proof. apply (pool_shutdown_drains 1 stopped stopped_reach). reflexivity. Defined.

(** *** The lost wake-up *)

(** The worker has tested the predicate and not blocked yet when [shutdown] sets
    [stopping_] and notifies. *)
Definition hung_ops : list (pool_op Z) := [TWorker 0; TSetStopping; TNotifyAll; TWorker 0].
Definition hung : Pool Z := default (pool_init 1) (run_ops hung_ops (pool_init 1)).

(** Steps other than a spurious wake-up and a second [shutdown]. *)
Definition ordinary {T : Type} (o : pool_op T) : bool :=
  match o with TSpurious _ | TNotifyAll => false | _ => true end.

(** C33: [shutdown] can hang: it does not hold [mu_] when it sets [stopping_] and
    notifies, so a worker between its test and its wait misses both; from then on
    no submission, notification or worker step wakes it, and [join] never returns. *)
Theorem shutdown_can_hang :
  pool_reach 1 hung ∧ hung.(stopping) = true ∧
  ∀ ops p, forallb ordinary ops = true → run_ops ops hung = Some p →
    p.(workers) = [WWaiting] ∧ joined p = false.
Proof.
  split; [apply (run_ops_reach 1 hung_ops (pool_init 1)); [constructor|by vm_compute]|].
  split; [reflexivity|].
  assert (∀ ops (p0 p : Pool Z), p0.(workers) = [WWaiting] → p0.(stopping) = true → p0.(notifies) = 0%nat →
    forallb ordinary ops = true → run_ops ops p0 = Some p → p.(workers) = [WWaiting]) as H.
  { induction ops as [|o ops IH]; intros p0 p Hw Hs Hn Ho; cbn in *; [by intros [= <-]|]. to_prop.
    destruct (pool_step o p0) as [p1|] eqn:E; [|done]. apply IH; [..|done];
      destruct o as [t|i|i|i| |]; cbn in *; try done; unfold submit, notify_one, worker_loop in E;
      rewrite ?Hw, ?Hs, ?Hn in E; cbn in E; try done; try (by injection E as <-);
      destruct i; done. }
  intros ops p Ho Hr. assert (p.(workers) = [WWaiting]) as Hw by by eapply (H ops hung).
  split; [done|]. unfold joined. by rewrite Hw.
Qed.
