(* ===== verification/Config.v ===== *)
(** * Configuration: [include/common/config.h], [src/common/config.cpp]

    The file loader, the environment overlay and the typed accessors.  The text of
    the file and the environment are arguments. *)
From S2P Require Import Prelude Util Crypto.

(** [kv_]. *)
Abbreviation Config := (gmap string string).

(** [std::getline] in a loop: the text between newlines; nothing after a final one. *)
Fixpoint getlines (s cur : string) : list string :=
  match s with
  | EmptyString => if str_empty cur then [] else [cur]
  | String c s =>
      if Ascii.eqb c "010" then cur :: getlines s "" else getlines s (cur +:+ String c "")
  end.

(** The body of the loop of [load_file]. *)
Definition load_line (kv : Config) (line : string) : Config :=
  let t := trim line in
  if str_empty t || match t with String c _ => Ascii.eqb c "#" | _ => false end then kv
  else
    match find_char "=" t with
    | None => kv
    | Some (l, r) => <[to_lower (trim l) := trim r]> kv
    end.

(** [load_file]: [None] for a file that cannot be opened. *)
Definition load_file (text : option string) (kv : Config) : bool * Config :=
  match text with
  | None => (false, kv)
  | Some s => (true, foldl load_line kv (getlines s ""))
  end.

Definition well_known : list string :=
  ["listen_host"; "listen_port"; "worker_threads"; "log_level"; "log_file"; "mysql_host";
   "mysql_port"; "mysql_user"; "mysql_password"; "mysql_database"; "mysql_pool_size";
   "session_ttl_seconds"; "pbkdf2_iterations"; "max_message_bytes"; "max_frame_bytes"].

(** The body of the second loop of [overlay_env]. *)
Definition overlay_key (getenv : string → option string) (kv : Config) (key : string) : Config :=
  match getenv (to_upper key) with
  | Some env => <[key := env]> kv
  | None => kv
  end.

Definition overlay_env (getenv : string → option string) (kv : Config) : Config :=
  foldl (overlay_key getenv) kv (elements (dom kv) ++ well_known).

Definition get (kv : Config) (key def : string) : string := default def (kv !! to_lower key).

Definition get_int (kv : Config) (key : string) (def : Z) : Z :=
  let v := get kv key "" in
  if str_empty v then def else match stoi v with Ret z => z | Throw _ => def end.

Definition get_u32 (kv : Config) (key : string) (def : Z) : Z :=
  let v := get kv key "" in
  if str_empty v then def else match stoul v with Ret z => u32 z | Throw _ => def end.

Definition get_bool (kv : Config) (key : string) (def : bool) : bool :=
  let v := to_lower (get kv key "") in
  if str_empty v then def
  else if String.eqb v "1" || String.eqb v "true" || String.eqb v "yes" || String.eqb v "on" then true
  else if String.eqb v "0" || String.eqb v "false" || String.eqb v "no" || String.eqb v "off" then false
  else def.

Definition config_set (k v : string) (kv : Config) : Config := <[to_lower k := v]> kv.

(** ** Case folding *)

Lemma tolower_range c : byte_of_ascii (tolower c) < 65 ∨ 90 < byte_of_ascii (tolower c).
Proof.
  unfold tolower. pose proof (byte_of_ascii_range c) as Hc. unfold is_u8 in Hc.
  destruct ((65 <=? byte_of_ascii c) && (byte_of_ascii c <=? 90)) eqn:E.
  - to_prop. rewrite byte_of_ascii_of_byte by (unfold is_u8; lia). lia.
  - apply andb_false_iff in E. rewrite !Z.leb_gt in E. lia.
Qed.

Lemma tolower_idemp c : tolower (tolower c) = tolower c.
Proof.
  pose proof (tolower_range c) as Hr. unfold tolower at 1.
  destruct ((65 <=? byte_of_ascii (tolower c)) && (byte_of_ascii (tolower c) <=? 90)) eqn:E; [|done].
  to_prop. lia.
Qed.

Lemma to_lower_idemp s : to_lower (to_lower s) = to_lower s.
Proof.
  unfold to_lower. rewrite chars_of_chars. f_equal. induction (chars s) as [|c l IH]; [done|].
  rewrite !fmap_cons. by rewrite tolower_idemp, IH.
Qed.

(** ** What [trim] returns *)

(** No white space at either end. *)
Definition trimmed (s : string) : Prop :=
  (∀ c, head (chars s) = Some c → isspace c = false) ∧
  (∀ c, last (chars s) = Some c → isspace c = false).

Lemma space_prefix_unique (l l' k k' : list ascii) :
  Forall (λ c, isspace c = true) l → Forall (λ c, isspace c = true) l' →
  (∀ c, head k = Some c → isspace c = false) → (∀ c, head k' = Some c → isspace c = false) →
  l ++ k = l' ++ k' → k = k'.
Proof.
  intros Hl. revert l'. induction Hl as [|c l Hc Hl IH]; intros l' Hl' Hk Hk' Heq.
  - destruct Hl' as [|c' l' Hc' Hl']; [done|]. simpl in Heq. subst k. cbn in Hk.
    by rewrite (Hk c' eq_refl) in Hc'.
  - destruct Hl' as [|c' l' Hc' Hl']; simpl in Heq.
    + subst k'. cbn in Hk'. by rewrite (Hk' c eq_refl) in Hc.
    + injection Heq as -> Heq. by apply (IH l').
Qed.

Lemma head_app_ne (k r : list ascii) c : k ≠ [] → head (k ++ r) = Some c → head k = Some c.
Proof. by destruct k. Qed.

(** [trim] is determined by any decomposition into white space, a trimmed middle,
    white space. *)
Lemma trim_eq l m r :
  all_space l → all_space r → trimmed m → trim (l +:+ m +:+ r) = m.
Proof.
  intros Hl Hr [Hh Ht].
  destruct (trim_correct (l +:+ m +:+ r)) as (l' & r' & Heq & Hl' & Hr' & Hh' & Ht').
  set (m' := trim (l +:+ m +:+ r)) in *. apply chars_inj.
  apply (f_equal chars) in Heq. rewrite !chars_app in Heq. unfold all_space in *.
  assert (∀ a b c : list ascii, Forall (λ c, isspace c = true) (a ++ b ++ c) →
    (∀ x, head b = Some x → isspace x = false) → b = []) as Hall.
  { intros a [|x b] c [_ [Hb _]%Forall_app]%Forall_app Hx; [done|].
    apply Forall_cons in Hb as [Hb _]. by rewrite (Hx x eq_refl) in Hb. }
  destruct (decide (chars m = [])) as [Hm|Hm].
  - rewrite Hm in *. apply (Hall (chars l') _ (chars r')); [|done].
    rewrite <-Heq. by apply Forall_app_2, Forall_app_2.
  - destruct (decide (chars m' = [])) as [Hm'|Hm'].
    { destruct Hm. apply (Hall (chars l) _ (chars r)); [|done]. rewrite Heq, Hm'.
      by apply Forall_app_2, Forall_app_2. }
    apply space_prefix_unique in Heq; [|done|done| |];
      [|intros c Hc; by eapply Hh, head_app_ne|intros c Hc; by eapply Hh', head_app_ne].
    apply (f_equal reverse) in Heq. rewrite !reverse_app in Heq.
    apply space_prefix_unique in Heq; [|by apply Forall_reverse..| |].
    + by apply (inj reverse).
    + intros c. rewrite head_reverse. apply Ht.
    + intros c. rewrite head_reverse. apply Ht'.
Qed.

(** ** The loader on lines it is meant for *)

(** An entry as a configuration file writes it. *)
Definition good_entry (e : string * string) : Prop :=
  e.1 ≠ "" ∧ trimmed e.1 ∧ to_lower e.1 = e.1 ∧ ("="%char ∉ chars e.1) ∧
  head (chars e.1) ≠ Some "#"%char ∧ ("010"%char ∉ chars e.1) ∧
  trimmed e.2 ∧ ("010"%char ∉ chars e.2).

Definition entry_line (e : string * string) : string := e.1 +:+ " = " +:+ e.2.

Fixpoint render (es : list (string * string)) : string :=
  match es with
  | [] => ""
  | e :: es => entry_line e +:+ String "010" (render es)
  end.

Lemma getlines_line line rest cur :
  "010"%char ∉ chars line → getlines (line +:+ String "010" rest) cur = (cur +:+ line) :: getlines rest "".
Proof.
  revert cur. induction line as [|c line IH]; intros cur Hn.
  - rewrite str_app_nil_r. reflexivity.
  - rewrite str_app_cons. cbn [getlines]. cbn [chars] in Hn. apply not_elem_of_cons in Hn as [Hc Hn].
    destruct (Ascii.eqb_spec c "010"); [by subst|]. rewrite IH by done.
    by rewrite <-str_app_assoc.
Qed.

Lemma all_space_one : all_space " ".
Proof. by repeat constructor. Qed.
Lemma all_space_nil : all_space "".
Proof. constructor. Qed.

Lemma last_app_ne (k r : list ascii) c : r ≠ [] → last (k ++ r) = Some c → last r = Some c.
Proof. intros Hr. rewrite last_app. destruct (last r) eqn:E; [done|]. by apply last_None in E. Qed.

Lemma head_of_key (k rest : string) c : k ≠ "" → head (chars (k +:+ rest)) = Some c → head (chars k) = Some c.
Proof. rewrite chars_app. intros Hk. apply head_app_ne. by destruct k. Qed.

(** The trimmed line: the whole of it, less the blank before an empty value. *)
Definition entry_trim (e : string * string) : string :=
  if str_empty e.2 then e.1 +:+ " =" else entry_line e.

Lemma trim_entry e : good_entry e → trim (entry_line e) = entry_trim e.
Proof.
  intros (Hk & [Hkh Hkt] & _ & _ & _ & _ & [Hvh Hvt] & _). destruct e as [k v]. cbn [fst snd] in *.
  unfold entry_trim, entry_line. cbn [fst snd]. destruct v as [|c v]; cbn [str_empty].
  - rewrite str_app_nil_r. change " = " with (" =" +:+ " "). rewrite str_app_assoc.
    apply (trim_eq "" (k +:+ " =") " "); [apply all_space_nil|apply all_space_one|]. split.
    + intros c Hc. by eapply Hkh, head_of_key.
    + intros c. rewrite chars_app. intros Hc%last_app_ne; [|done]. by injection Hc as <-.
  - set (s := k +:+ " = " +:+ String c v). rewrite <-(str_app_nil_r s) at 1.
    apply (trim_eq "" s ""); [apply all_space_nil|apply all_space_nil|]. subst s. split.
    + intros x Hx. by eapply Hkh, head_of_key.
    + intros x. rewrite !chars_app. intros Hx%last_app_ne; [|done].
      apply Hvt. by apply (last_app_ne (chars " = ")) in Hx.
Qed.

Lemma load_entry e kv : good_entry e → load_line kv (entry_line e) = <[e.1 := e.2]> kv.
Proof.
  intros He. pose proof He as (Hk & [Hkh Hkt] & Hlow & Heq & Hhash & _ & [Hvh Hvt] & _).
  unfold load_line. rewrite trim_entry by done. destruct e as [k v]. cbn [fst snd] in *.
  set (r := if str_empty v then "" else " " +:+ v).
  assert (entry_trim (k, v) = (k +:+ " ") +:+ String "=" r) as ->.
  { unfold entry_trim, entry_line. subst r. cbn [fst snd]. destruct v; cbn [str_empty];
      rewrite <-str_app_assoc; done. }
  assert (str_empty ((k +:+ " ") +:+ String "=" r) = false) as -> by by destruct k.
  assert (match (k +:+ " ") +:+ String "=" r with String c _ => Ascii.eqb c "#" | _ => false end = false) as ->.
  { destruct k as [|c k]; [done|]. cbn [chars head] in Hhash.
    change (Ascii.eqb c "#" = false). by destruct (Ascii.eqb_spec c "#") as [->|]. }
  cbn [orb]. rewrite (proj2 (find_char_Some "=" _ (k +:+ " ") r)).
  - change (trim (k +:+ " ")) with (trim ("" +:+ k +:+ " ")). rewrite (trim_eq "" k " "), Hlow; [|apply all_space_nil|apply all_space_one|by split].
    apply (f_equal (λ x, <[k := x]> kv)).
    subst r. destruct v as [|c v]; cbn [str_empty]; [by vm_compute|].
    rewrite <-(str_app_nil_r (String c v)) at 1.
    apply (trim_eq " " (String c v) ""); [apply all_space_one|apply all_space_nil|by split].
  - split; [done|]. rewrite chars_app, not_elem_of_app. split; [done|]. cbn. set_solver.
Qed.

(** ** The overlay *)

Lemma overlay_fold getenv keys kv k :
  foldl (overlay_key getenv) kv keys !! k =
  if bool_decide (k ∈ keys)
  then match getenv (to_upper k) with Some v => Some v | None => kv !! k end
  else kv !! k.
Proof.
  revert kv. induction keys as [|x keys IH]; intros kv; cbn [foldl]; [done|]. rewrite IH.
  unfold overlay_key. destruct (decide (k = x)) as [->|Hne].
  - rewrite (bool_decide_eq_true_2 (x ∈ x :: keys)) by set_solver.
    destruct (getenv (to_upper x)), (bool_decide (x ∈ keys)); try done.
    apply lookup_insert_eq.
  - rewrite (bool_decide_ext (k ∈ x :: keys) (k ∈ keys)) by set_solver.
    destruct (getenv (to_upper x)); [|done]. by rewrite lookup_insert_ne by congruence.
Qed.

(** ** Properties *)

(** Loading the text written from well-formed entries assigns each of them, the
    later ones overriding the earlier, and keeps every other key. *)
Theorem config_roundtrip es kv :
  Forall good_entry es →
  load_file (Some (render es)) kv = (true, foldl (λ kv e, <[e.1 := e.2]> kv) kv es).
Proof.
  intros Hes. unfold load_file. f_equal. revert kv.
  induction Hes as [|e es He Hes IH]; intros kv; [done|]. cbn [render].
  rewrite getlines_line.
  - cbn [foldl]. change ("" +:+ entry_line e) with (entry_line e). by rewrite load_entry.
  - destruct He as (_ & _ & _ & _ & _ & Hk & _ & Hv). unfold entry_line.
    rewrite !chars_app, !not_elem_of_app. split; [done|]. split; [|done]. cbn. set_solver.
Qed.

Lemma config_roundtrip_witness :
  get (snd (load_file (Some (render [("listen_port", "9000"); ("log_file", "")])) ∅)) "LISTEN_PORT" ""
  = "9000".
Proof.
  rewrite (config_roundtrip [("listen_port", "9000"); ("log_file", "")] ∅); [reflexivity|].
  repeat constructor; cbn; try done; try (by intros ? [= <-]); set_solver.
Defined.

(** The environment overrides the file, and only for known settings: after
    [overlay_env] a key reads as the variable with its upper-case name when that is
    set and the key is one the server knows or the file has; otherwise as before. *)
Lemma config_precedence getenv kv key def :
  get (overlay_env getenv kv) key def =
  let k := to_lower key in
  match getenv (to_upper k) with
  | Some v => if bool_decide (k ∈ dom kv ∨ k ∈ well_known) then v else get kv key def
  | None => get kv key def
  end.
Proof.
  cbv zeta. unfold get, overlay_env. rewrite overlay_fold.
  rewrite (bool_decide_ext (to_lower key ∈ elements (dom kv) ++ well_known)
    (to_lower key ∈ dom kv ∨ to_lower key ∈ well_known)) by (by rewrite elem_of_app, elem_of_elements).
  case_bool_decide; by destruct (getenv (to_upper (to_lower key))).
Qed.

(** The shipped example puts comments after values; the loader has no such
    comments, so its [log_file] line, meant to be empty, names a file. *)
Lemma inline_comment_is_value :
  get (snd (load_file (Some "log_file  =             # empty = stderr") ∅)) "log_file" ""
  = "# empty = stderr".
Proof. by vm_compute. Qed.
