(* ===== verification/Logger.v ===== *)
(** * The logger: [include/common/logger.h], [src/common/logger.cpp]

    The singleton's threshold and sink, and the lines it writes.  What an operation
    does to the streams of the C library is the list of its calls; the result of
    [fopen] and the reading of the clock are arguments.  [mu_] makes the calls of an
    operation one unit; [level_] is read before it. *)
From S2P Require Import Prelude Util.

Inductive LogLevel := Trace | Debug | Info | Warn | Error.

(** [static_cast<int>(level)]. *)
Definition level_int (l : LogLevel) : Z :=
  match l with Trace => 0 | Debug => 1 | Info => 2 | Warn => 3 | Error => 4 end.

Definition parse_level (s : string) : LogLevel :=
  let l := to_lower s in
  if String.eqb l "trace" then Trace
  else if String.eqb l "debug" then Debug
  else if String.eqb l "info" then Info
  else if String.eqb l "warn" || String.eqb l "warning" then Warn
  else if String.eqb l "error" || String.eqb l "err" then Error
  else Info.

Definition level_str (l : LogLevel) : string :=
  match l with
  | Trace => "TRACE" | Debug => "DEBUG" | Info => "INFO " | Warn => "WARN " | Error => "ERROR"
  end.

(** ** Streams *)

Inductive FILE := Stderr | File (h : Z).

Inductive io_call :=
| Fopen (path : string) (r : option Z)
| Fclose (f : FILE)
| Fprintf (f : FILE) (text : string)
| Fflush (f : FILE).

(** ** The logger *)

Record Logger := mkLogger {
  log_level : Z;
  sink : FILE;
  file : bool;
}.

Definition logger_init : Logger := mkLogger (level_int Info) Stderr false.

Definition set_level (l : LogLevel) (g : Logger) : Logger := mkLogger (level_int l) g.(sink) g.(file).

(** [if (file_ && sink_) std::fclose(sink_)]. *)
Definition close_sink (g : Logger) : list io_call := if g.(file) then [Fclose g.(sink)] else [].

(** [set_file]; [f] is what [fopen] returns. *)
Definition set_file (path : string) (f : option Z) (g : Logger) : list io_call * Logger :=
  if str_empty path then (close_sink g, mkLogger g.(log_level) Stderr false)
  else
    match f with
    | None =>
        (close_sink g ++
           [Fopen (cstr path) None;
            Fprintf Stderr ("logger: failed to open " +:+ cstr path +:+ ", falling back to stderr" +:+ String "010" "")],
         mkLogger g.(log_level) Stderr false)
    | Some h => (close_sink g ++ [Fopen (cstr path) (Some h)], mkLogger g.(log_level) (File h) true)
    end.

(** [~Logger]. *)
Definition logger_exit (g : Logger) : list io_call := close_sink g.

(** *** The time stamp *)

Record tm := mkTm { tm_year : Z; tm_mon : Z; tm_mday : Z; tm_hour : Z; tm_min : Z; tm_sec : Z }.

(** [gmtime_r]: the civil date of a count of seconds since 1970-01-01, in the
    proleptic Gregorian calendar with years that begin in March. *)
Definition gmtime (secs : Z) : tm :=
  let z := secs / 86400 + 719468 in
  let s := secs mod 86400 in
  let doe := z mod 146097 in
  let yoe := (doe - doe / 1460 + doe / 36524 - doe / 146096) / 365 in
  let doy := doe - (365 * yoe + yoe / 4 - yoe / 100) in
  let mp := (5 * doy + 2) / 153 in
  let mon := if mp <? 10 then mp + 3 else mp - 9 in
  let year := yoe + z / 146097 * 400 + (if mon <=? 2 then 1 else 0) in
  mkTm (year - 1900) (mon - 1) (doy - (153 * mp + 2) / 5 + 1) (s / 3600) (s / 60 mod 60) (s mod 60).

(** [%0<w>d]. *)
Definition zero_padded (w : nat) (n : Z) : string :=
  let digits := dec_digits 20 (Z.abs n) "" in
  let w := if n <? 0 then (w - 1)%nat else w in
  (if n <? 0 then "-" else "") +:+
  of_chars (replicate (w - String.length digits)%nat "0"%char) +:+ digits.

Definition timestamp (now_ms : Z) : string :=
  let t := gmtime (Z.quot now_ms 1000) in
  let ms := Z.rem now_ms 1000 in
  zero_padded 4 (t.(tm_year) + 1900) +:+ "-" +:+ zero_padded 2 (t.(tm_mon) + 1) +:+ "-" +:+
  zero_padded 2 t.(tm_mday) +:+ "T" +:+ zero_padded 2 t.(tm_hour) +:+ ":" +:+
  zero_padded 2 t.(tm_min) +:+ ":" +:+ zero_padded 2 t.(tm_sec) +:+ "." +:+ zero_padded 3 ms +:+ "Z".

Definition log_line (now_ms : Z) (l : LogLevel) (msg : string) : string :=
  timestamp now_ms +:+ " " +:+ level_str l +:+ " " +:+ cstr msg +:+ String "010" "".

(** [log]. *)
Definition log (l : LogLevel) (msg : string) (now_ms : Z) (g : Logger) : list io_call :=
  if level_int l <? g.(log_level) then []
  else [Fprintf g.(sink) (log_line now_ms l msg); Fflush g.(sink)].

(** ** Runs *)

Inductive log_op :=
| OpLevel (l : LogLevel)
| OpFile (path : string) (f : option Z)
| OpLog (l : LogLevel) (msg : string) (now_ms : Z).

Definition log_step (o : log_op) (g : Logger) : list io_call * Logger :=
  match o with
  | OpLevel l => ([], set_level l g)
  | OpFile path f => set_file path f g
  | OpLog l msg now => (log l msg now g, g)
  end.

Fixpoint log_run (ops : list log_op) (g : Logger) : list io_call * Logger :=
  match ops with
  | [] => ([], g)
  | o :: ops => let '(cs, g) := log_step o g in let '(cs', g) := log_run ops g in (cs ++ cs', g)
  end.

(** *** What the C library allows *)

Definition stream_open (f : FILE) (open : gset Z) : bool :=
  match f with Stderr => true | File h => bool_decide (h ∈ open) end.

(** The streams open after a sequence of calls; [None] when a call used a stream
    that was not open, closed one twice, or was handed an open stream by [fopen]. *)
Fixpoint replay (cs : list io_call) (open : gset Z) : option (gset Z) :=
  match cs with
  | [] => Some open
  | Fopen _ None :: cs => replay cs open
  | Fopen _ (Some h) :: cs => if decide (h ∈ open) then None else replay cs ({[h]} ∪ open)
  | Fclose (File h) :: cs => if decide (h ∈ open) then replay cs (open ∖ {[h]}) else None
  | Fclose Stderr :: _ => None
  | (Fprintf f _ | Fflush f) :: cs => if stream_open f open then replay cs open else None
  end.

Lemma replay_app cs cs' open :
  replay (cs ++ cs') open = match replay cs open with Some o => replay cs' o | None => None end.
Proof.
  revert open. induction cs as [|c cs IH]; intros open; [done|].
  destruct c as [p [h|]|[|h]|f t|f]; cbn [replay app]; try done; try case_match; try done; apply IH.
Qed.

(** The stream a logger owns. *)
Definition owned (g : Logger) : gset Z :=
  match g.(sink) with File h => if g.(file) then {[h]} else ∅ | Stderr => ∅ end.

Definition logger_ok (g : Logger) : Prop := g.(file) = true ↔ ∃ h, g.(sink) = File h.

(** Closing the sink leaves no stream. *)
Lemma close_sink_replay g : logger_ok g → replay (close_sink g) (owned g) = Some ∅.
Proof.
  intros Hg. unfold close_sink, owned, logger_ok in *. destruct (file g).
  - destruct (proj1 Hg eq_refl) as [h ->]. cbn. rewrite decide_True by set_solver. f_equal. set_solver.
  - destruct (sink g); done.
Qed.

Lemma log_step_ok o g cs g' :
  log_step o g = (cs, g') → logger_ok g → logger_ok g' ∧ replay cs (owned g) = Some (owned g').
Proof.
  intros Hs Hg. destruct o as [l|path f|l msg now]; cbn in Hs.
  - injection Hs as <- <-. split; [done|]. by destruct g as [? [|h] []].
  - pose proof (close_sink_replay g Hg) as Hc. unfold set_file in Hs.
    assert (∀ v, logger_ok (mkLogger v Stderr false)) as Hstd.
    { split; [done|]. by intros [h [=]]. }
    destruct (str_empty path); [injection Hs as <- <-; by rewrite Hc|].
    destruct f as [h|]; injection Hs as <- <-; rewrite replay_app, Hc.
    + split; [split; [by eexists|done]|]. cbn. f_equal. set_solver.
    + by split.
  - injection Hs as <- <-. split; [done|]. unfold log. case_match; [done|].
    assert (stream_open g.(sink) (owned g) = true) as Ho.
    { unfold owned, stream_open, logger_ok in *. destruct (sink g) as [|h]; [done|].
      rewrite (proj2 Hg) by eauto. apply bool_decide_eq_true. set_solver. }
    cbn [replay]. by rewrite Ho.
Qed.

Lemma log_run_ok ops g cs g' :
  log_run ops g = (cs, g') → logger_ok g → logger_ok g' ∧ replay cs (owned g) = Some (owned g').
Proof.
  revert g cs. induction ops as [|o ops IH]; intros g cs Hr Hg; cbn [log_run] in Hr.
  - injection Hr as <- <-. done.
  - destruct (log_step o g) as [cs1 g1] eqn:E1. destruct (log_run ops g1) as [cs2 g2] eqn:E2.
    injection Hr as <- <-. destruct (log_step_ok _ _ _ _ E1 Hg) as [Hg1 Hc1].
    destruct (IH _ _ E2 Hg1) as [Hg2 Hc2]. split; [done|]. by rewrite replay_app, Hc1.
Qed.

(** *** The lines *)

(** The lines the calls of a run should write: one per message at or above the
    threshold in force, to the sink in force, and the notice of a failed [fopen]. *)
Definition is_line (c : io_call) : option (FILE * string) :=
  match c with Fprintf f t => Some (f, t) | _ => None end.

Fixpoint expected (ops : list log_op) (lvl : LogLevel) (f : FILE) : list (FILE * string) :=
  match ops with
  | [] => []
  | OpLevel l :: ops => expected ops l f
  | OpFile path r :: ops =>
      if decide (path = "") then expected ops lvl Stderr
      else match r with
           | Some h => expected ops lvl (File h)
           | None =>
               (Stderr, "logger: failed to open " +:+ cstr path +:+ ", falling back to stderr" +:+ String "010" "")
                 :: expected ops lvl Stderr
           end
  | OpLog l msg now :: ops =>
      if decide (level_int lvl <= level_int l)
      then (f, log_line now l msg) :: expected ops lvl f else expected ops lvl f
  end.

Lemma close_sink_silent g : omap is_line (close_sink g) = [].
Proof. unfold close_sink. by case_match. Qed.

Lemma log_run_lines ops lvl f b :
  omap is_line (log_run ops (mkLogger (level_int lvl) f b)).1 = expected ops lvl f.
Proof.
  revert lvl f b. induction ops as [|o ops IH]; intros lvl f b; [done|]. cbn [log_run].
  destruct (log_step o _) as [cs g] eqn:E. destruct (log_run ops g) as [cs' g'] eqn:E'. cbn [fst].
  rewrite omap_app. pose proof (f_equal fst E') as Hr. cbn [fst] in Hr. rewrite <-Hr. clear Hr E'.
  destruct o as [l|path r|l msg now]; cbn [log_step expected] in *.
  - injection E as <- <-. by rewrite <-(IH l f b).
  - unfold set_file in E. destruct path as [|c path].
    + injection E as <- <-. cbn [str_empty] in *. by rewrite close_sink_silent, IH.
    + rewrite decide_False by done. destruct r as [h|]; injection E as <- <-;
        by rewrite omap_app, close_sink_silent, IH.
  - injection E as <- <-. unfold log. rewrite IH. cbn [log_level].
    destruct (Z.ltb_spec (level_int l) (level_int lvl)).
    + by rewrite decide_False by lia.
    + by rewrite decide_True by lia.
Qed.

(** Whatever sequence of [set_level], [set_file] and [log] calls runs, and
    whatever [fopen] returns, no call touches a stream that is not open or closes
    one twice, at most the sink is open, the destructor closes it, and the lines
    written are exactly those of the messages at or above the threshold, each to
    the sink in place when it was logged. *)
Theorem logger_streams ops :
  let '(calls, g) := log_run ops logger_init in
  replay calls ∅ = Some (owned g) ∧
  replay (calls ++ logger_exit g) ∅ = Some ∅ ∧
  omap is_line calls = expected ops Info Stderr.
Proof.
  destruct (log_run ops logger_init) as [calls g] eqn:E.
  assert (logger_ok logger_init) as Hi by (split; [done|]; by intros [h [=]]).
  destruct (log_run_ok _ _ _ _ E Hi) as [Hg Hr]. change (owned logger_init) with (∅ : gset Z) in Hr.
  split; [done|]. split.
  - rewrite replay_app, Hr. by apply close_sink_replay.
  - pose proof (log_run_lines ops Info Stderr false) as Hl.
    change (mkLogger (level_int Info) Stderr false) with logger_init in Hl. by rewrite E in Hl.
Qed.

(** The leap day of 2024, and a line as it is written. *)
Example timestamp_leap_day : timestamp 1709210096007 = "2024-02-29T12:34:56.007Z".
Proof. vm_compute. reflexivity. Qed.
Example log_line_sample :
  log_line 0 Warn "disk full" = "1970-01-01T00:00:00.000Z WARN  disk full" +:+ String "010" "".
Proof. vm_compute. reflexivity. Qed.
