(* ===== verification/World.v ===== *)
(** * The server's state: the components of [ChatServer] together

    [include/chat/chat_server.h] owns one of each component; the handlers reach
    them through its accessors.  The state below holds them with the connections,
    which are shared objects known by their id (a [shared_ptr] keeps the object
    alive while it is in use, so an id stays valid).  A handler runs on a worker
    thread; here it is one transition, as if no other worker ran meanwhile
    ([Programs] has the handlers as sequences of accesses that interleave).

    Clock readings and random draws come from outside: the n-th reading and the
    n-th draw are given by the class [Env]. *)
From S2P Require Import Prelude Framing Repositories Session Presence RoomManager Connection.

Class Env := {
  env_clock : nat → Z;
  env_random : nat → nat → list Z;
}.

Record World := mkWorld {
  w_repos : Repositories;
  w_sessions : SessionManager;
  w_presence : Presence;
  w_rooms : RoomManager;
  w_conns : gmap Z Connection;
  w_reactor : Reactor;
  w_reads : nat;
  w_draws : nat;
}.

Definition set_repos (r : Repositories) (w : World) : World :=
  mkWorld r w.(w_sessions) w.(w_presence) w.(w_rooms) w.(w_conns) w.(w_reactor) w.(w_reads) w.(w_draws).
Definition set_sess (s : SessionManager) (w : World) : World :=
  mkWorld w.(w_repos) s w.(w_presence) w.(w_rooms) w.(w_conns) w.(w_reactor) w.(w_reads) w.(w_draws).
Definition set_presence (p : Presence) (w : World) : World :=
  mkWorld w.(w_repos) w.(w_sessions) p w.(w_rooms) w.(w_conns) w.(w_reactor) w.(w_reads) w.(w_draws).
Definition set_rooms (rm : RoomManager) (w : World) : World :=
  mkWorld w.(w_repos) w.(w_sessions) w.(w_presence) rm w.(w_conns) w.(w_reactor) w.(w_reads) w.(w_draws).
Definition set_net (cs : gmap Z Connection) (r : Reactor) (w : World) : World :=
  mkWorld w.(w_repos) w.(w_sessions) w.(w_presence) w.(w_rooms) cs r w.(w_reads) w.(w_draws).
Definition set_env (reads draws : nat) (w : World) : World :=
  mkWorld w.(w_repos) w.(w_sessions) w.(w_presence) w.(w_rooms) w.(w_conns) w.(w_reactor) reads draws.

(** ** Calling a component *)

Definition on_repos {A : Type} (m : M Repositories A) : M World A := λ w,
  let '(o, r) := m w.(w_repos) in (o, set_repos r w).

Definition on_sessions {A : Type} (m : M (SessionManager * Repositories) A) : M World A := λ w,
  let '(o, (s, r)) := m (w.(w_sessions), w.(w_repos)) in (o, set_repos r (set_sess s w)).

Definition on_rooms {A : Type} (m : M (RoomManager * Repositories) A) : M World A := λ w,
  let '(o, (rm, r)) := m (w.(w_rooms), w.(w_repos)) in (o, set_repos r (set_rooms rm w)).

(** A method of the connection with this id. *)
Definition on_conn (cid : Z) (m : M CR unit) : M World unit := λ w,
  match w.(w_conns) !! cid with
  | None => (Ret tt, w)
  | Some c =>
      let '(o, (c', r')) := m (c, w.(w_reactor)) in
      (o, set_net (<[cid := c']> w.(w_conns)) r' w)
  end.

Definition update_conn (cid : Z) (f : Connection → Connection) : M World unit :=
  on_conn cid (λ '(c, r), (Ret tt, (f c, r))).

(** [util::now_unix_ms()]. *)
Definition now_unix_ms `{Env} : M World Z := λ w,
  (Ret (env_clock w.(w_reads)), set_env (S w.(w_reads)) w.(w_draws) w).

(** [util::random_bytes(buf, n)]. *)
Definition random_bytes `{Env} (n : nat) : M World (list Z) := λ w,
  (Ret (env_random w.(w_draws) n), set_env w.(w_reads) (S w.(w_draws)) w).

(** [presence()->connections_of(uid)]. *)
Definition conns_of (uid : Z) : M World (list Z) := λ w,
  (Ret (connections_of w.(w_presence) uid), w).

(** A pure computation that may throw. *)
Definition lift_outcome {A : Type} (o : outcome A) : M World A := λ w, (o, w).

(** ** Sending to connections *)

(** What a connection becomes when [send_frame] is called on it. *)
Definition pushed (ev : string) (c : Connection) : Connection :=
  if accepts c ev
  then set_write (c.(wbuf) ++ be32 (u32 (Z.of_nat (String.length ev))) ++ to_bytes ev) c.(write_armed) c
  else c.

Definition send_to (ev : string) (cid : Z) : M World unit := on_conn cid (send_frame ev).

(** ** A small world for the examples *)

Definition test_env : Env := {|
  env_clock := λ n, 1000 + Z.of_nat n;
  env_random := λ n k, replicate k (Z.of_nat n mod 256);
|}.

(** Users 1 (ada) and 2 (bob); ada is logged in on connection 1, connection 2 is
    open and not logged in. *)
Definition two_users : World :=
  mkWorld (snd (create_user "bob" "h2" 20 (snd (create_user "ada" "h1" 10 repos_init))))
    (sessions_init 3600) (fst (bind_locked 1 1 presence_init)) rooms_init
    {[ 1 := set_auth 1 "t1" (conn_init 1 65536); 2 := conn_init 2 65536 ]}
    (reactor_add 2 EvRead (reactor_add 1 EvRead reactor_init)) 0 0.

Lemma two_users_ok : repos_ok two_users.(w_repos).
Proof. apply create_user_ok; [apply create_user_ok; [apply repos_init_ok|done]|done]. Qed.
