(* ===== verification/Router.v ===== *)
(** * Message routing: [include/chat/message_router.h], [src/chat/message_router.cpp]

    Where a new message is stored and handed to connections.  The definitions run
    over the whole [World]; the theorems say what happens to the store, the
    offline queues and every connection. *)
From S2P Require Import Prelude Framing Repositories Session Presence RoomManager Messages.
From S2P Require Import Json Connection World.

Section router.
Context `{Env, FloatText}.

(** [protocol::serialize(make_event_message(...))] with the ids as [int64_t]. *)
Definition event_text (id sender : Z) (receiver room : option Z) (content : string) (ts : Z)
    : outcome string :=
  dump (make_event_message (i64 id) (i64 sender) (i64 <$> receiver) (i64 <$> room) content ts).

Definition send_dm (sender receiver : Z) (content : string) : M World Z :=
  ts ← now_unix_ms;
  oid ← on_repos (insert_dm sender receiver content ts);
  match oid with
  | None => mret 0
  | Some id =>
      event ← lift_outcome (event_text id sender (Some receiver) None content ts);
      conns ← conns_of receiver;
      (if bool_decide (conns = []) then on_repos (enqueue_undelivered id receiver)
       else mfor conns (send_to event) ;; on_repos (update_message_status id 1)) ;;
      own ← conns_of sender;
      mfor own (send_to event) ;;
      mret id
  end.

(** The body of [send_room]'s loop for one member. *)
Definition room_deliver (id sender : Z) (event : string) (uid : Z) : M World unit :=
  conns ← conns_of uid;
  if bool_decide (conns = [])
  then (if negb (uid =? sender) then on_repos (enqueue_undelivered id uid) else mret tt)
  else mfor conns (send_to event).

Definition send_room (sender room : Z) (content : string) : M World Z :=
  member ← on_rooms (RoomManager.is_member room sender);
  if negb member then mret 0
  else
    ts ← now_unix_ms;
    oid ← on_repos (insert_room_msg sender room content ts);
    match oid with
    | None => mret 0
    | Some id =>
        event ← lift_outcome (event_text id sender None (Some room) content ts);
        members ← on_rooms (members_of room);
        mfor members (room_deliver id sender event) ;;
        mret id
    end.

Definition message_text (m : Message) : outcome string :=
  event_text m.(m_id) m.(m_sender_id) m.(m_receiver_id) m.(m_room_id) m.(m_content)
    m.(m_created_at_ms).

Definition replay_offline (user : Z) : M World unit :=
  pending ← on_repos (drain_undelivered user);
  if bool_decide (pending = []) then mret tt
  else
    conns ← conns_of user;
    if bool_decide (conns = []) then mret tt
    else mfor pending (λ m,
           s ← lift_outcome (message_text m);
           mfor conns (send_to s)).
End router.

(** ** What sending does to the connections *)

Definition push_all (evs : list string) (c : Connection) : Connection :=
  foldl (λ c ev, pushed ev c) c evs.

(** Each connection [cid] was handed the payloads [f cid], in this order. *)
Definition delivered (f : Z → list string) (cs cs' : gmap Z Connection) : Prop :=
  ∀ cid, cs' !! cid = push_all (f cid) <$> cs !! cid.

(** [evs] to the connections of [l]. *)
Definition to_conns (evs : list string) (l : list Z) (cid : Z) : list string :=
  if bool_decide (cid ∈ l) then evs else [].

Lemma delivered_refl f cs : (∀ cid, f cid = []) → delivered f cs cs.
Proof. intros Hf cid. rewrite Hf. by destruct (cs !! cid). Qed.

Lemma delivered_trans f g h cs cs1 cs2 :
  delivered f cs cs1 → delivered g cs1 cs2 → (∀ cid, h cid = f cid ++ g cid) →
  delivered h cs cs2.
Proof.
  intros H1 H2 Hh cid. rewrite H2, H1, Hh. unfold push_all.
  destruct (cs !! cid); simpl; by rewrite ?foldl_app.
Qed.

Lemma send_to_spec ev cid w :
  ∃ cs r, send_to ev cid w = (Ret tt, set_net cs r w) ∧
    delivered (to_conns [ev] [cid]) w.(w_conns) cs.
Proof.
  unfold send_to, on_conn, to_conns. destruct (w_conns w !! cid) as [c|] eqn:Hc.
  - assert (∃ r, send_frame ev (c, w_reactor w) = (Ret tt, (pushed ev c, r))) as [r ->].
    { unfold send_frame, pushed, accepts. destruct (closing c || closed c); [by eexists|].
      cbn [negb andb]. destruct (max_frame c <? _); by eexists. }
    do 2 eexists. split; [done|]. intros x. destruct (decide (x = cid)) as [->|Hne].
    + rewrite lookup_insert_eq, bool_decide_eq_true_2 by set_solver. by rewrite Hc.
    + rewrite lookup_insert_ne, bool_decide_eq_false_2 by set_solver. by destruct (w_conns w !! x).
  - exists w.(w_conns), w.(w_reactor). split; [by destruct w|]. intros x.
    destruct (decide (x = cid)) as [->|Hne]; [by rewrite Hc|].
    rewrite bool_decide_eq_false_2 by set_solver. by destruct (w_conns w !! x).
Qed.

Lemma send_all_spec ev l w :
  NoDup l → ∃ cs r, mfor l (send_to ev) w = (Ret tt, set_net cs r w) ∧
    delivered (to_conns [ev] l) w.(w_conns) cs.
Proof.
  intros Hl. revert w. induction Hl as [|cid l Hn Hl IH]; intros w; cbn [mfor].
  - exists w.(w_conns), w.(w_reactor). split; [by destruct w|]. by apply delivered_refl.
  - destruct (send_to_spec ev cid w) as (cs1 & r1 & Hs & H1).
    erewrite M_bind_ret by exact Hs. destruct (IH (set_net cs1 r1 w)) as (cs2 & r2 & -> & H2).
    do 2 eexists. split; [done|]. eapply delivered_trans; [exact H1|exact H2|].
    intros x. unfold to_conns. repeat case_bool_decide; set_solver.
Qed.

Lemma NoDup_connections_of p uid : NoDup (connections_of p uid).
Proof. unfold connections_of. case_match; [apply NoDup_elements|apply NoDup_nil_2]. Qed.

#[export] Hint Resolve NoDup_connections_of : chat.

(** ** Lemmas on the store *)

Lemma set_status_snoc id st l m :
  id ∉ m_id <$> l → m.(m_id) = id → set_status id st (l ++ [m]) = l ++ [with_status st m].
Proof.
  intros Hn Hm. induction l as [|x l IH]; cbn [set_status app].
  - by rewrite Hm, Z.eqb_refl.
  - rewrite fmap_cons, not_elem_of_cons in Hn. destruct Hn as [Hx Hl].
    rewrite (proj2 (Z.eqb_neq _ _)) by congruence. by rewrite IH.
Qed.

Lemma next_msg_fresh r : repos_ok r → r.(next_msg_id) ∉ m_id <$> r.(messages).
Proof.
  intros Hr. rewrite (ok_msg_ids _ Hr), (ok_next_msg _ Hr), elem_of_seqZ. lia.
Qed.

Lemma queue_of_enqueue mid uid r u :
  queue_of (snd (enqueue_undelivered mid uid r)) u =
  queue_of r u ++ (if u =? uid then [mid] else []).
Proof.
  unfold enqueue_undelivered, queue_of at 1. simpl. destruct (u =? uid) eqn:E; to_prop.
  - subst. by rewrite lookup_insert_eq.
  - rewrite lookup_insert_ne by congruence. by rewrite app_nil_r.
Qed.

(** The parts of the store a routed message leaves alone. *)
Definition same_tables (r r' : Repositories) : Prop :=
  r'.(users) = r.(users) ∧ r'.(username_idx) = r.(username_idx) ∧
  r'.(Repositories.sessions) = r.(Repositories.sessions) ∧ r'.(rooms) = r.(rooms) ∧
  r'.(room_name_idx) = r.(room_name_idx) ∧ r'.(room_members) = r.(room_members).

(** A world whose store and connections have changed and whose clock was read once. *)
Definition routed (w : World) (rm : RoomManager) (r : Repositories) (cs : gmap Z Connection)
    (w' : World) : Prop :=
  ∃ re, w' = set_net cs re (set_repos r (set_rooms rm (set_env (S w.(w_reads)) w.(w_draws) w))).

(** ** Sending and replaying *)

(** [send_dm] of a valid text stores the message once under the next id
    and returns that id.  If the receiver is online the event goes once to each of
    its connections and the message is marked delivered; if not, the id is appended
    to the receiver's offline queue and no one else's queue changes.  Then each
    connection of the sender gets the event.  Nothing else changes. *)
Lemma send_dm_spec `{Env, FloatText} sender receiver content w :
  repos_ok w.(w_repos) → utf8_valid content = true →
  let ts := env_clock w.(w_reads) in
  let id := w.(w_repos).(next_msg_id) in
  let online := negb (bool_decide (connections_of w.(w_presence) receiver = [])) in
  ∃ ev w' r cs,
    event_text id sender (Some receiver) None content ts = Ret ev ∧
    send_dm sender receiver content w = (Ret id, w') ∧
    routed w w.(w_rooms) r cs w' ∧ same_tables w.(w_repos) r ∧
    r.(messages) = w.(w_repos).(messages) ++
      [mkMessage id sender (Some receiver) None content (if online then 1 else 0) ts] ∧
    (∀ u, queue_of r u = queue_of w.(w_repos) u ++
       (if (u =? receiver) && negb online then [id] else [])) ∧
    delivered (λ cid, to_conns [ev] (connections_of w.(w_presence) receiver) cid ++
                      to_conns [ev] (connections_of w.(w_presence) sender) cid) w.(w_conns) cs.
Proof.
  intros Hr Hc ts id online.
  destruct (dump_event_total (i64 id) (i64 sender) (Some (i64 receiver)) None content ts Hc) as [ev Hev].
  assert (event_text id sender (Some receiver) None content ts = Ret ev) as Hev' by exact Hev.
  set (w0 := set_env (S (w_reads w)) (w_draws w) w).
  set (r1 := snd (insert_dm sender receiver content ts (w_repos w))).
  set (r2 := if online then snd (update_message_status id 1 r1)
             else snd (enqueue_undelivered id receiver r1)).
  assert (∃ cs1 re1,
    (if bool_decide (connections_of (w_presence w) receiver = [])
     then on_repos (enqueue_undelivered id receiver)
     else mfor (connections_of (w_presence w) receiver) (send_to ev) ;;
          on_repos (update_message_status id 1)) (set_repos r1 w0)
      = (Ret tt, set_net cs1 re1 (set_repos r2 w0)) ∧
    delivered (to_conns [ev] (connections_of (w_presence w) receiver)) (w_conns w) cs1) as (cs1 & re1 & Hd & H1).
  { subst r2 online. destruct (bool_decide _) eqn:E; to_prop; cbn [negb].
    - exists (w_conns w), (w_reactor w). split; [by destruct w|]. rewrite E. by apply delivered_refl.
    - destruct (send_all_spec ev (connections_of (w_presence w) receiver) (set_repos r1 w0))
        as (cs & re & Hs & Hh); [auto with chat|].
      exists cs, re. split; [|done]. erewrite M_bind_ret by exact Hs. done. }
  destruct (send_all_spec ev (connections_of (w_presence w) sender) (set_net cs1 re1 (set_repos r2 w0)))
    as (cs2 & re2 & Hs2 & H2); [auto with chat|].
  exists ev. do 2 eexists. exists cs2. split; [done|]. split.
  { unfold send_dm. erewrite M_bind_ret by reflexivity. erewrite M_bind_ret by reflexivity.
    cbv beta iota. fold ts id. erewrite M_bind_ret by exact (f_equal (λ o, (o, set_repos r1 w0)) Hev').
    erewrite M_bind_ret by reflexivity. erewrite M_bind_ret by exact Hd.
    erewrite M_bind_ret by reflexivity. erewrite M_bind_ret by exact Hs2. reflexivity. }
  split; [exists re2; by destruct w|]. split; [subst r2; destruct online; split_and!; reflexivity|].
  assert (set_status id 1 r1.(messages) = w.(w_repos).(messages) ++
    [mkMessage id sender (Some receiver) None content 1 ts]) as Hst.
  { by apply (set_status_snoc id 1 (messages (w_repos w))
      (mkMessage id sender (Some receiver) None content 0 ts)); [apply next_msg_fresh|]. }
  split; [subst r2; destruct online; [exact Hst|reflexivity]|]. split; [|by eapply delivered_trans].
  intros u. subst r2. destruct online; cbn [negb].
  - rewrite andb_false_r, app_nil_r. reflexivity.
  - rewrite andb_true_r. etransitivity; [apply queue_of_enqueue|reflexivity].
Qed.

(** ** Replay *)

(** Every stored text is valid UTF-8: what the handlers store comes out of the
    JSON parser. *)
Definition texts_ok (r : Repositories) : Prop :=
  Forall (λ m, utf8_valid m.(m_content) = true) r.(messages).

Lemma message_text_total `{FloatText} m :
  utf8_valid m.(m_content) = true → ∃ s, message_text m = Ret s.
Proof. intros Hm. by apply dump_event_total. Qed.

(** The body of the replay loop, over the pending messages. *)
Lemma replay_loop_spec `{FloatText} conns ms w :
  NoDup conns → Forall (λ m, utf8_valid m.(m_content) = true) ms →
  ∃ evs cs re,
    mfor ms (λ m, s ← lift_outcome (message_text m); mfor conns (send_to s)) w
      = (Ret tt, set_net cs re w) ∧
    Forall2 (λ m ev, message_text m = Ret ev) ms evs ∧
    delivered (to_conns evs conns) w.(w_conns) cs.
Proof.
  intros Hnd Hms. revert w. induction Hms as [|m ms Hm Hms IH]; intros w; cbn [mfor].
  - exists [], w.(w_conns), w.(w_reactor). split; [by destruct w|]. split; [done|].
    apply delivered_refl. intros cid. unfold to_conns. by case_bool_decide.
  - destruct (message_text_total m Hm) as [ev Hev].
    destruct (send_all_spec ev conns w Hnd) as (cs1 & re1 & Hs & H1).
    destruct (IH (set_net cs1 re1 w)) as (evs & cs2 & re2 & Hl & Hf & H2).
    exists (ev :: evs), cs2, re2. split.
    + erewrite M_bind_ret; [exact Hl|]. erewrite M_bind_ret; [exact Hs|].
      by unfold lift_outcome; rewrite Hev.
    + split; [by constructor|]. eapply delivered_trans; [exact H1|exact H2|].
      intros cid. unfold to_conns. by case_bool_decide.
Qed.

(** [replay_offline] of a user who is online hands every connection of the
    user the queued messages, exactly once each and in the order they were queued,
    empties the user's queue, and touches no other user's queue, connection or
    message. *)
Lemma replay_offline_spec `{FloatText} user w :
  repos_ok w.(w_repos) → texts_ok w.(w_repos) → connections_of w.(w_presence) user ≠ [] →
  ∃ ms evs w' cs,
    replay_offline user w = (Ret tt, w') ∧
    m_id <$> ms = queue_of w.(w_repos) user ∧ Forall (λ m, m ∈ w.(w_repos).(messages)) ms ∧
    Forall2 (λ m ev, message_text m = Ret ev) ms evs ∧
    delivered (to_conns evs (connections_of w.(w_presence) user)) w.(w_conns) cs ∧
    queue_of w'.(w_repos) user = [] ∧
    (∃ re, w' = set_net cs re (set_repos (set_undelivered (delete user) w.(w_repos)) w)).
Proof.
  intros Hr Ht Hon.
  destruct (drain_undelivered user w.(w_repos)) as [out r'] eqn:Hd.
  destruct (drain_spec _ _ _ _ Hr Hd) as (ms & -> & Hids & Hall & Hq & Hoth & ->).
  assert (Forall (λ m, utf8_valid m.(m_content) = true) ms) as Hms.
  { apply Forall_forall. intros m Hin. rewrite Forall_forall in Hall.
    unfold texts_ok in Ht. rewrite Forall_forall in Ht. by apply Ht, Hall. }
  set (w1 := set_repos (set_undelivered (delete user) w.(w_repos)) w).
  destruct (replay_loop_spec (connections_of w.(w_presence) user) ms w1)
    as (evs & cs & re & Hl & Hf & Hdel); [auto with chat|done|].
  assert (on_repos (drain_undelivered user) w = (Ret ms, w1)) as Hdr.
  { unfold on_repos. by rewrite Hd. }
  exists ms, evs, (set_net cs re w1), cs. split.
  { unfold replay_offline. erewrite M_bind_ret by exact Hdr. case_bool_decide as Hnil.
    - subst ms. inversion Hf; subst. simpl in Hl. by rewrite <-Hl.
    - erewrite M_bind_ret by reflexivity. rewrite bool_decide_eq_false_2 by exact Hon.
      exact Hl. }
  split; [done|]. split; [done|]. split; [done|]. split; [done|]. split; [exact Hq|].
  by exists re.
Qed.

(** Bob is offline and has one message from ada waiting; then he comes online. *)
Definition bob_waiting : World :=
  set_presence (fst (bind_locked 2 2 two_users.(w_presence)))
    (set_repos (snd (enqueue_undelivered 1 2 (snd (insert_dm 1 2 "hi" 5 two_users.(w_repos))))) two_users).

Lemma bob_waiting_ok : repos_ok bob_waiting.(w_repos).
Proof.
  apply enqueue_ok; [|by vm_compute]. apply insert_dm_ok; [apply two_users_ok|by vm_compute].
Qed.

(** [replay_offline] drains before it looks for connections: when the user
    has none, the whole queue is discarded and nobody is sent anything. *)
Theorem replay_offline_drops_when_unbound `{FloatText} user w :
  repos_ok w.(w_repos) → connections_of w.(w_presence) user = [] →
  replay_offline user w =
    (Ret tt, set_repos (set_undelivered (delete user) w.(w_repos)) w).
Proof.
  intros Hr Hoff. destruct (drain_undelivered user w.(w_repos)) as [out r'] eqn:Hd.
  destruct (drain_spec _ _ _ _ Hr Hd) as (ms & -> & _ & _ & _ & _ & ->).
  unfold replay_offline. erewrite M_bind_ret by (unfold on_repos; rewrite Hd; reflexivity).
  case_bool_decide; [done|]. erewrite M_bind_ret by reflexivity.
  by rewrite bool_decide_eq_true_2 by exact Hoff.
Qed.

Lemma replay_offline_drops_when_unbound_witness :
  queue_of bob_waiting.(w_repos) 2 = [1] ∧
  queue_of (snd (@replay_offline test_float 2
     (set_presence presence_init bob_waiting))).(w_repos) 2 = [].
Proof.
  split; [by vm_compute|].
  rewrite (@replay_offline_drops_when_unbound test_float 2
             (set_presence presence_init bob_waiting)); [by vm_compute|apply bob_waiting_ok|done].
Defined.

(** ** Rooms *)

(** The member is offline and not the sender: the message waits for it. *)
Definition must_queue (p : Presence) (sender uid : Z) : bool :=
  bool_decide (connections_of p uid = []) && negb (uid =? sender).

Definition queue_members (p : Presence) (id sender : Z) (l : list Z) (r : Repositories)
    : Repositories :=
  foldl (λ r uid, if must_queue p sender uid then snd (enqueue_undelivered id uid r) else r) r l.

Lemma room_deliver_spec id sender ev uid w :
  ∃ cs re, room_deliver id sender ev uid w =
    (Ret tt, set_net cs re (set_repos (queue_members w.(w_presence) id sender [uid] w.(w_repos)) w)) ∧
    delivered (to_conns [ev] (connections_of w.(w_presence) uid)) w.(w_conns) cs.
Proof.
  unfold room_deliver. erewrite M_bind_ret by reflexivity.
  unfold queue_members, must_queue. cbn [foldl].
  destruct (bool_decide (connections_of (w_presence w) uid = [])) eqn:E; to_prop; cbn [andb].
  - exists (w_conns w), (w_reactor w). split.
    + by destruct (negb (uid =? sender)), w.
    + rewrite E. by apply delivered_refl.
  - destruct (send_all_spec ev (connections_of (w_presence w) uid) w) as (cs & re & -> & Hd);
      [auto with chat|]. exists cs, re. split; [by destruct w|done].
Qed.

Lemma room_loop_spec id sender ev l w :
  ∃ cs re, mfor l (room_deliver id sender ev) w =
    (Ret tt, set_net cs re (set_repos (queue_members w.(w_presence) id sender l w.(w_repos)) w)) ∧
    delivered (λ cid, concat ((λ uid, to_conns [ev] (connections_of w.(w_presence) uid) cid) <$> l))
      w.(w_conns) cs.
Proof.
  revert w. induction l as [|uid l IH]; intros w; cbn [mfor].
  - exists w.(w_conns), w.(w_reactor). split; [by destruct w|]. by apply delivered_refl.
  - destruct (room_deliver_spec id sender ev uid w) as (cs1 & re1 & Hs & H1).
    erewrite M_bind_ret by exact Hs.
    destruct (IH (set_net cs1 re1 (set_repos (queue_members w.(w_presence) id sender [uid] w.(w_repos)) w)))
      as (cs2 & re2 & -> & H2).
    exists cs2, re2. split; [done|]. by eapply delivered_trans; [exact H1|exact H2|].
Qed.

Lemma queue_members_queue p id sender l r u :
  NoDup l → queue_of (queue_members p id sender l r) u =
    queue_of r u ++ (if bool_decide (u ∈ l) && must_queue p sender u then [id] else []).
Proof.
  intros Hl. revert r. induction Hl as [|uid l Hn Hl IH]; intros r; unfold queue_members; cbn [foldl].
  - rewrite bool_decide_eq_false_2 by apply not_elem_of_nil. by rewrite app_nil_r.
  - fold (queue_members p id sender l (if must_queue p sender uid
      then (enqueue_undelivered id uid r).2 else r)). rewrite IH.
    destruct (decide (u = uid)) as [->|Hne].
    + rewrite (bool_decide_eq_false_2 (uid ∈ l)), (bool_decide_eq_true_2 (uid ∈ uid :: l))
        by set_solver. cbn [andb]. rewrite app_nil_r.
      destruct (must_queue p sender uid); [|by rewrite app_nil_r].
      by rewrite queue_of_enqueue, Z.eqb_refl.
    + replace (bool_decide (u ∈ uid :: l)) with (bool_decide (u ∈ l))
        by (apply bool_decide_ext; set_solver).
      f_equal. destruct (must_queue p sender uid); [|done].
      rewrite queue_of_enqueue. rewrite (proj2 (Z.eqb_neq _ _)) by done. by rewrite app_nil_r.
Qed.

Lemma queue_members_frame p id sender l r :
  same_tables r (queue_members p id sender l r) ∧
  (queue_members p id sender l r).(messages) = r.(messages).
Proof.
  unfold queue_members. revert r. induction l as [|uid l IH]; intros r; cbn [foldl];
    [by split_and!|].
  destruct (must_queue p sender uid); [|apply IH].
  destruct (IH (snd (enqueue_undelivered id uid r))) as [Ht Hm]. by split.
Qed.

(** [send_room] by a user who is not a member returns 0 and stores and
    sends nothing.  By a member it stores the message once and returns its id;
    every offline member except the sender gets the id appended to its queue,
    no one else's queue changes, and every connection gets the event once for
    each member it belongs to (the sender's own connections included). *)
Lemma send_room_spec `{Env, FloatText} sender room content w :
  rooms_inv (mkSys w.(w_rooms) w.(w_repos) ∅) → utf8_valid content = true →
  let ts := env_clock w.(w_reads) in
  let id := w.(w_repos).(next_msg_id) in
  let p := w.(w_presence) in
  let members := members_slot w.(w_repos) room in
  if bool_decide (sender ∈ members) then
    ∃ ev w' rm r cs,
      event_text id sender None (Some room) content ts = Ret ev ∧
      send_room sender room content w = (Ret id, w') ∧
      routed w rm r cs w' ∧ same_tables w.(w_repos) r ∧
      r.(messages) = w.(w_repos).(messages) ++ [mkMessage id sender None (Some room) content 0 ts] ∧
      (∀ u, queue_of r u = queue_of w.(w_repos) u ++
         (if bool_decide (u ∈ members) && must_queue p sender u then [id] else [])) ∧
      delivered (λ cid, concat ((λ uid, to_conns [ev] (connections_of p uid) cid) <$> elements members))
        w.(w_conns) cs
  else ∃ rm, send_room sender room content w = (Ret 0, set_rooms rm w).
Proof.
  intros Hinv Hc ts id p members.
  set (r1 := snd (insert_room_msg sender room content ts (w_repos w))).
  destruct (is_member_then_members room sender _ _ r1 Hinv I) as (rm1 & Hm & _ & Hmem).
  change (rs_members (w_repos w) room) with members in Hm, Hmem.
  unfold send_room. erewrite M_bind_ret by (unfold on_rooms; rewrite Hm; reflexivity).
  destruct (bool_decide (sender ∈ members)) eqn:E; cbn [negb].
  2:{ exists rm1. by destruct w. }
  destruct (dump_event_total (i64 id) (i64 sender) None (Some (i64 room)) content ts Hc) as [ev Hev].
  assert (event_text id sender None (Some room) content ts = Ret ev) as Hev' by exact Hev.
  set (w1 := set_repos r1 (set_rooms rm1 (set_env (S (w_reads w)) (w_draws w) w))).
  assert (on_rooms (members_of room) w1 = (Ret (elements members), w1)) as Hmem1.
  { unfold on_rooms. change (w_rooms w1, w_repos w1) with (rm1, r1). rewrite Hmem. reflexivity. }
  destruct (room_loop_spec id sender ev (elements members) w1) as (cs & re & Hl & Hd).
  destruct (queue_members_frame p id sender (elements members) r1) as [Hst Hmsg].
  exists ev. do 2 eexists. exists (queue_members p id sender (elements members) r1), cs.
  split; [exact Hev'|]. split.
  { erewrite M_bind_ret by reflexivity. erewrite M_bind_ret by reflexivity. cbv beta iota.
    erewrite M_bind_ret by exact (f_equal (λ o, (o, w1)) Hev').
    erewrite M_bind_ret by exact Hmem1. erewrite M_bind_ret by exact Hl. reflexivity. }
  split; [by exists re|]. split; [exact Hst|]. split; [by rewrite Hmsg|]. split; [|exact Hd].
  intros u. rewrite queue_members_queue by apply NoDup_elements.
  by rewrite (bool_decide_ext _ _ (elem_of_elements members u)).
Qed.

(** Ada is alone online in room 1; bob is a member and offline. *)
Definition lobby : World :=
  set_repos (snd (RoomManager.rs_join 1 2 (snd (RoomManager.rs_join 1 1
    (snd (create_room "lobby" 30 two_users.(w_repos))))))) two_users.

Lemma lobby_ok : repos_ok lobby.(w_repos).
Proof.
  apply join_room_ok, join_room_ok, create_room_ok; [apply two_users_ok|by vm_compute].
Qed.

