(* ===== verification/Handlers.v ===== *)
(** * Request handlers: [src/handlers/handlers.cpp] and the callbacks of
      [src/chat/chat_server.cpp]

    One definition per handler, whole: guards in the order of the code, every
    reply and every call that changes state.  A handler runs over the [World] for
    the connection [c].  A clock reading that the store makes inside an operation
    is made before the call; the clock is arbitrary, so this loses nothing. *)
From S2P Require Import Prelude Util Crypto Framing Repositories Session Presence RoomManager.
From S2P Require Import Messages Json Connection World Router.

(** The limits [ChatServer::init] reads from the configuration. *)
Class Settings := { max_message : Z; pbkdf2_iter : Z }.

Section handlers.
Context `{Env, FloatText, FloatCast, Settings}.

(** ** [ChatServer]'s callbacks *)

(** The lambda given to [set_transition_handler]. *)
Definition on_transition (uid : Z) (online : bool) : M World unit :=
  if negb online then ts ← now_unix_ms; on_repos (update_last_seen uid ts)
  else replay_offline uid.

Definition presence_bind (uid c : Z) : M World bool :=
  Presence.bind w_presence set_presence (Some on_transition) uid c.

Definition presence_unbind (uid c : Z) : M World bool :=
  Presence.unbind w_presence set_presence (Some on_transition) uid c.

(** Fields of the connection a handler runs for. *)
Definition conn_user (c : Z) : M World Z := λ w,
  (Ret (default 0 (user_id <$> w.(w_conns) !! c)), w).
Definition conn_token (c : Z) : M World string := λ w,
  (Ret (default "" (token <$> w.(w_conns) !! c)), w).

(** [ChatServer::on_close]. *)
Definition on_close (c : Z) : M World unit :=
  uid ← conn_user c;
  if negb (uid =? 0) then presence_unbind uid c ;; mret tt else mret tt.

(** ** Helpers *)

Definition send (c : Z) (j : json) : M World unit :=
  s ← lift_outcome (dump j); on_conn c (send_frame s).

Definition send_ack (c : Z) (id : option Z) (data : json) : M World unit :=
  j ← lift_outcome (make_ack id data); send c j.

Definition sessions_create (uid : Z) : M World string :=
  rand ← random_bytes 32;
  now ← now_unix_ms;
  on_sessions (create uid now rand).

Definition sessions_validate (tok : string) : M World (option SessionInfo) :=
  now ← now_unix_ms; on_sessions (validate tok now).

(** [set_user_id], [set_session_token], [presence()->bind]. *)
Definition authenticate (c uid : Z) (tok : string) : M World unit :=
  update_conn c (set_user_id uid) ;;
  update_conn c (set_session_token tok) ;;
  presence_bind uid c ;;
  mret tt.

Definition require_auth (c : Z) (req : json) (id : option Z) : M World Z :=
  uid ← conn_user c;
  if negb (uid =? 0) then mret uid
  else
    let tok := get_str req "token" in
    if str_empty tok then
      send c (make_error id kUnauthorized "missing session token") ;; mret 0
    else
      info ← sessions_validate tok;
      match info with
      | None => send c (make_error id kUnauthorized "invalid or expired token") ;; mret 0
      | Some info => authenticate c info.(si_user_id) tok ;; mret info.(si_user_id)
      end.

(** ** Handlers *)

Definition handle_register (c : Z) (req : json) (id : option Z) : M World unit :=
  let user := get_str req "username" in
  let pass := get_str req "password" in
  if str_empty user || str_empty pass || (64 <? Z.of_nat (String.length user))
     || (Z.of_nat (String.length pass) <? 4)
  then send c (make_error id kBadRequest "username/password invalid")
  else
    salt ← random_bytes 16;
    let hash := make_password_hash pass pbkdf2_iter salt in
    now ← now_unix_ms;
    new_id ← on_repos (create_user user hash now);
    match new_id with
    | None => send c (make_error id kConflict "username already taken")
    | Some uid =>
        send_ack c id (json_of [("user_id", JUint uid); ("username", JStr user)])
    end.

Definition handle_login (c : Z) (req : json) (id : option Z) : M World unit :=
  let user := get_str req "username" in
  let pass := get_str req "password" in
  u ← on_repos (find_user_by_username user);
  match u with
  | Some u =>
      if verify_password_hash pass u.(u_password_hash) then
        tok ← sessions_create u.(u_id);
        authenticate c u.(u_id) tok ;;
        w ← get_state;
        send_ack c id (json_of [("user_id", JUint u.(u_id)); ("username", JStr u.(u_username));
                                ("token", JStr tok); ("ttl_s", JInt w.(w_sessions).(ttl_seconds))])
      else send c (make_error id kUnauthorized "bad credentials")
  | None => send c (make_error id kUnauthorized "bad credentials")
  end.

Definition handle_logout (c : Z) (req : json) (id : option Z) : M World unit :=
  tok ← conn_token c;
  (if negb (str_empty tok) then on_sessions (revoke tok) else mret tt) ;;
  uid ← conn_user c;
  (if negb (uid =? 0) then presence_unbind uid c ;; mret tt else mret tt) ;;
  update_conn c (set_user_id 0) ;;
  update_conn c (set_session_token "") ;;
  send_ack c id (JObj []).

(** The tail of [handle_send_dm] and [handle_send_room]. *)
Definition ack_message (c : Z) (id : option Z) (msg_id : Z) : M World unit :=
  t ← now_unix_ms;
  send_ack c id (json_of [("msg_id", JUint msg_id); ("timestamp", JInt t)]).

Definition handle_send_dm (c : Z) (req : json) (id : option Z) : M World unit :=
  sender ← require_auth c req id;
  if sender =? 0 then mret tt
  else
    let receiver := u64 (get_i64 req "receiver_id" 0) in
    let content := get_str req "content" in
    if (receiver =? 0) || str_empty content
    then send c (make_error id kBadRequest "receiver_id and content required")
    else if max_message <? Z.of_nat (String.length content)
    then send c (make_error id kBadRequest "content too large")
    else
      u ← on_repos (find_user_by_id receiver);
      match u with
      | None => send c (make_error id kNotFound "receiver does not exist")
      | Some _ =>
          msg_id ← send_dm sender receiver content;
          if msg_id =? 0 then send c (make_error id kInternal "failed to persist message")
          else ack_message c id msg_id
      end.

Definition handle_send_room (c : Z) (req : json) (id : option Z) : M World unit :=
  sender ← require_auth c req id;
  if sender =? 0 then mret tt
  else
    let room := u64 (get_i64 req "room_id" 0) in
    let content := get_str req "content" in
    if (room =? 0) || str_empty content
    then send c (make_error id kBadRequest "room_id and content required")
    else if max_message <? Z.of_nat (String.length content)
    then send c (make_error id kBadRequest "content too large")
    else
      msg_id ← send_room sender room content;
      if msg_id =? 0
      then send c (make_error id kBadRequest "not a member of room or room missing")
      else ack_message c id msg_id.

(** [join_room] on the store (its result ignored), then the cache, then the ack. *)
Definition handle_create_room (c : Z) (req : json) (id : option Z) : M World unit :=
  uid ← require_auth c req id;
  if uid =? 0 then mret tt
  else
    let name := get_str req "name" in
    if str_empty name || (128 <? Z.of_nat (String.length name))
    then send c (make_error id kBadRequest "invalid name")
    else
      now ← now_unix_ms;
      created ← on_repos (create_room name now);
      rid ← match created with
            | Some rid => mret (Some rid)
            | None => existing ← on_repos (find_room_by_name name); mret (room_id <$> existing)
            end;
      match rid with
      | None => send c (make_error id kInternal "create_room failed")
      | Some rid =>
          on_repos (join_room rid uid) ;;
          on_rooms (on_join rid uid) ;;
          send_ack c id (json_of [("room_id", JUint rid); ("name", JStr name)])
      end.

Definition handle_join_room (c : Z) (req : json) (id : option Z) : M World unit :=
  uid ← require_auth c req id;
  if uid =? 0 then mret tt
  else
    let rid0 := u64 (get_i64 req "room_id" 0) in
    let name := get_str req "name" in
    rid ← (if (rid0 =? 0) && negb (str_empty name)
           then r ← on_repos (find_room_by_name name); mret (default rid0 (room_id <$> r))
           else mret rid0);
    if rid =? 0 then send c (make_error id kNotFound "room not found")
    else
      joined ← on_repos (join_room rid uid);
      if negb joined then send c (make_error id kInternal "join failed")
      else
        on_rooms (on_join rid uid) ;;
        send_ack c id (json_of [("room_id", JUint rid)]).

Definition handle_leave_room (c : Z) (req : json) (id : option Z) : M World unit :=
  uid ← require_auth c req id;
  if uid =? 0 then mret tt
  else
    let rid := u64 (get_i64 req "room_id" 0) in
    if rid =? 0 then send c (make_error id kBadRequest "room_id required")
    else
      on_repos (leave_room rid uid) ;;
      on_rooms (on_leave rid uid) ;;
      send_ack c id (JObj []).

Definition room_json (r : Room) : json :=
  json_of [("id", JUint r.(room_id)); ("name", JStr r.(room_name));
           ("created_at", JInt r.(room_created_at_ms))].

Definition handle_list_rooms (c : Z) (req : json) (id : option Z) : M World unit :=
  uid ← require_auth c req id;
  if uid =? 0 then mret tt
  else
    rs ← on_repos (list_rooms_for_user uid);
    send_ack c id (json_of [("rooms", JArr (room_json <$> rs))]).

(** The object of one history entry, with its target field [k] when present. *)
Definition history_json (k : string) (target : option Z) (m : Message) : json :=
  json_of ([("id", JUint m.(m_id)); ("sender_id", JUint m.(m_sender_id))]
           ++ match target with Some t => [(k, JUint t)] | None => [] end
           ++ [("content", JStr m.(m_content)); ("status", JUint m.(m_status));
               ("timestamp", JInt m.(m_created_at_ms))]).

Definition handle_history_dm (c : Z) (req : json) (id : option Z) : M World unit :=
  uid ← require_auth c req id;
  if uid =? 0 then mret tt
  else
    let other := u64 (get_i64 req "user_id" 0) in
    let before := u64 (get_i64 req "before_id" 0) in
    let limit := u32 (get_i64 req "limit" 50) in
    if other =? 0 then send c (make_error id kBadRequest "user_id required")
    else
      msgs ← on_repos (history_dm uid other before limit);
      send_ack c id (json_of [("messages",
        JArr ((λ m, history_json "receiver_id" m.(m_receiver_id) m) <$> msgs))]).

Definition handle_history_room (c : Z) (req : json) (id : option Z) : M World unit :=
  uid ← require_auth c req id;
  if uid =? 0 then mret tt
  else
    let room := u64 (get_i64 req "room_id" 0) in
    let before := u64 (get_i64 req "before_id" 0) in
    let limit := u32 (get_i64 req "limit" 50) in
    if room =? 0 then send c (make_error id kBadRequest "room_id required")
    else
      member ← on_rooms (RoomManager.is_member room uid);
      if negb member then send c (make_error id kUnauthorized "not a member of this room")
      else
        msgs ← on_repos (history_room room before limit);
        send_ack c id (json_of [("messages",
          JArr ((λ m, history_json "room_id" m.(m_room_id) m) <$> msgs))]).

Definition handle_presence (c : Z) (req : json) (id : option Z) : M World unit :=
  uid ← require_auth c req id;
  if uid =? 0 then mret tt
  else
    let target := u64 (get_i64 req "user_id" 0) in
    if target =? 0 then send c (make_error id kBadRequest "user_id required")
    else
      u ← on_repos (find_user_by_id target);
      match u with
      | None => send c (make_error id kNotFound "user not found")
      | Some u =>
          w ← get_state;
          send_ack c id (json_of [("user_id", JUint u.(u_id)); ("username", JStr u.(u_username));
            ("online", JBool (is_online w.(w_presence) u.(u_id)));
            ("last_seen", JInt u.(u_last_seen_ms))])
      end.

Definition handle_ping (c : Z) (req : json) (id : option Z) : M World unit :=
  t ← now_unix_ms;
  j ← lift_outcome (make_ack id (json_of [("t", JInt t)]));
  r ← lift_outcome (json_set "type" (JStr kPong) j);
  send c r.

(** ** [dispatch] *)

Definition handler : Type := Z → json → option Z → M World unit.

(** The dispatch table. *)
Definition handler_table : list (string * handler) :=
  [(kRegister, handle_register); (kLogin, handle_login); (kLogout, handle_logout);
   (kSendDM, handle_send_dm); (kSendRoom, handle_send_room); (kCreateRoom, handle_create_room);
   (kJoinRoom, handle_join_room); (kLeaveRoom, handle_leave_room); (kListRooms, handle_list_rooms);
   (kHistoryDM, handle_history_dm); (kHistoryRoom, handle_history_room);
   (kPresence, handle_presence); (kPing, handle_ping)].

Fixpoint find_handler (t : string) (l : list (string * handler)) : option handler :=
  match l with
  | [] => None
  | (k, h) :: l => if String.eqb k t then Some h else find_handler t l
  end.

Definition request_id (req : json) : option Z :=
  match json_find "id" req with Some v => get_integer v | None => None end.

(** The [try] block: any exception of the handler becomes an error reply. *)
Definition try_handler (h : handler) (c : Z) (req : json) (id : option Z) : M World unit := λ w,
  match h c req id w with
  | (Throw _, w') => send c (make_error id kInternal "internal error") w'
  | r => r
  end.

Definition dispatch (c : Z) (payload : string) : M World unit :=
  match parse payload with
  | None => send c (make_error None kBadRequest "malformed JSON")
  | Some req =>
      let id := request_id req in
      let type := get_str req "type" in
      if str_empty type then send c (make_error id kBadRequest "missing 'type'")
      else
        match find_handler type handler_table with
        | None => send c (make_error id kBadRequest ("unknown type: " +:+ type))
        | Some h => try_handler h c req id
        end
  end.
End handlers.
