(* ===== verification/HandlerLogic.v ===== *)
(** * A program logic for the request handlers

    [world_ok] is the invariant of the server's state between requests.  [spec]
    is a total-correctness triple for code that runs over the [World]: from a
    state with the invariant the code returns (it does not throw), restores the
    invariant and hands the connections exactly the payloads of a trace.  The
    rules follow the monad; each operation the handlers call has its triple here. *)
From S2P Require Import Prelude Util Framing Repositories Session Presence RoomManager.
From S2P Require Import Messages Json JsonProofs Connection World Router Handlers.

(** ** Traces of payloads *)

(** A payload handed to a connection by [send_frame]. *)
Definition trace : Type := list (Z * string).

Definition payloads (cid : Z) (tr : trace) : list string :=
  snd <$> List.filter (λ p, p.1 =? cid) tr.

(** A connection apart from the fields that say who it belongs to. *)
Definition anon (c : Connection) : Connection := set_auth 0 "" c.

(** From [cs] to [cs'] the connections were handed the payloads of [tr], in order. *)
Definition sent (tr : trace) (cs cs' : gmap Z Connection) : Prop :=
  ∀ cid, anon <$> cs' !! cid = push_all (payloads cid tr) <$> (anon <$> cs !! cid).

Lemma payloads_app cid t1 t2 : payloads cid (t1 ++ t2) = payloads cid t1 ++ payloads cid t2.
Proof. unfold payloads. by rewrite List.filter_app, fmap_app. Qed.

Lemma payloads_send cid x ev :
  payloads cid [(x, ev)] = if x =? cid then [ev] else [].
Proof. unfold payloads. cbn [List.filter fst]. by destruct (x =? cid). Qed.

Lemma sent_nil cs cs' : (∀ cid, anon <$> cs' !! cid = anon <$> cs !! cid) → sent [] cs cs'.
Proof. intros H cid. rewrite H. by destruct (cs !! cid). Qed.

Lemma sent_trans t1 t2 cs cs1 cs2 :
  sent t1 cs cs1 → sent t2 cs1 cs2 → sent (t1 ++ t2) cs cs2.
Proof.
  intros H1 H2 cid. rewrite H2, H1, payloads_app. unfold push_all.
  destruct (cs !! cid); simpl; by rewrite ?foldl_app.
Qed.

Lemma sent_after_silent tr cs cs1 cs2 : sent [] cs cs1 → sent tr cs1 cs2 → sent tr cs cs2.
Proof. apply (sent_trans []). Qed.

Lemma pushed_anon ev c : pushed ev (anon c) = anon (pushed ev c).
Proof. unfold pushed. change (accepts (anon c) ev) with (accepts c ev). by case_match. Qed.

Lemma push_all_anon evs c : push_all evs (anon c) = anon (push_all evs c).
Proof.
  unfold push_all. revert c. induction evs as [|ev evs IH]; intros c; [done|].
  cbn [foldl]. by rewrite pushed_anon, IH.
Qed.

(** A payload does not change whose connection it is. *)
Lemma push_all_owner evs c :
  (push_all evs c).(user_id) = c.(user_id) ∧ (push_all evs c).(token) = c.(token) ∧
  (push_all evs c).(closed) = c.(closed).
Proof.
  unfold push_all. revert c. induction evs as [|ev evs IH]; intros c; [done|]. cbn [foldl].
  destruct (IH (pushed ev c)) as (-> & -> & ->). unfold pushed. by case_match.
Qed.

Lemma delivered_sent f tr cs cs' :
  delivered f cs cs' → (∀ cid, f cid = payloads cid tr) → sent tr cs cs'.
Proof.
  intros Hd Hf cid. rewrite Hd, Hf. destruct (cs !! cid); [|done]. simpl.
  by rewrite push_all_anon.
Qed.

(** ** The invariant *)

Definition names_ok (r : Repositories) : Prop :=
  (∀ id u, r.(users) !! id = Some u → utf8_valid u.(u_username) = true) ∧
  (∀ id x, r.(rooms) !! id = Some x → utf8_valid x.(room_name) = true).

(** The store: consistent, its counters at most [n + 1], its texts serializable. *)
Record store_ok (n : Z) (r : Repositories) : Prop := {
  so_repos : repos_ok r;
  so_count : counters_le n r;
  so_texts : texts_ok r;
  so_names : names_ok r;
}.

(** What an operation on the store keeps for the other components. *)
Definition store_ext (r r' : Repositories) : Prop :=
  (∀ rid, members_slot r' rid = members_slot r rid) ∧
  (∀ uid, is_Some (r.(users) !! uid) → is_Some (r'.(users) !! uid)).

(** Who a connection belongs to: a user that exists and, while the connection is
    not closed, has it among its connections. *)
Definition owner_ok (r : Repositories) (p : Presence) (cid : Z) (c : Connection) : Prop :=
  c.(user_id) ≠ 0 → is_Some (r.(users) !! c.(user_id)) ∧
    (c.(closed) = false → cid ∈ slot_of p c.(user_id)).

Record world_ok (n : Z) (w : World) : Prop := {
  wk_store : store_ok n w.(w_repos);
  wk_rooms : rooms_inv (mkSys w.(w_rooms) w.(w_repos) ∅);
  wk_presence : presence_ok w.(w_presence);
  wk_sessions : ∀ tok info, w.(w_sessions).(session_cache) !! tok = Some info →
    is_Some (w.(w_repos).(users) !! info.(si_user_id));
  wk_conns : ∀ cid c, w.(w_conns) !! cid = Some c →
    owner_ok w.(w_repos) w.(w_presence) cid c;
}.

Lemma user_id_pos n r uid : store_ok n r → is_Some (r.(users) !! uid) → 1 <= uid.
Proof. intros Hs Hu. apply (tab_ids _ _ _ _ _ (ok_users _ (so_repos _ _ Hs))) in Hu. lia. Qed.

Lemma store_ok_weaken n n' r : n <= n' → store_ok n r → store_ok n' r.
Proof. intros Hn [Hr (? & ? & ?) Ht Hm]. split; [done| |done|done]. repeat split; lia. Qed.

Lemma world_ok_weaken n n' w : n <= n' → world_ok n w → world_ok n' w.
Proof. intros Hn []. split; eauto using store_ok_weaken. Qed.

Lemma store_ext_refl r : store_ext r r.
Proof. by split. Qed.

Lemma store_ext_trans r1 r2 r3 : store_ext r1 r2 → store_ext r2 r3 → store_ext r1 r3.
Proof. intros [H1 H2] [H3 H4]. split; [intros; by rewrite H3|auto]. Qed.

Lemma rooms_inv_ext rm r r' :
  rooms_inv (mkSys rm r ∅) → repos_ok r' → (∀ rid, members_slot r' rid = members_slot r rid) →
  rooms_inv (mkSys rm r' ∅).
Proof.
  intros [Hok Hl Ha Hp] Hr' Hm. simpl in *.
  split; simpl; [done|done| |intros ???; by rewrite lookup_empty].
  intros rid s uid Hc He. rewrite (Ha rid s uid Hc He). cbn. by rewrite Hm.
Qed.

(** Replacing the store. *)
Lemma world_ok_set_repos n n' w r' :
  world_ok n w → store_ok n' r' → store_ext w.(w_repos) r' → world_ok n' (set_repos r' w).
Proof.
  intros [Hs Hrm Hp Hss Hc] Hs' [Hm Hu]. split; simpl; [done| |done|eauto|].
  - eapply rooms_inv_ext; [done|by destruct Hs'|done].
  - intros cid c Hl Hne. destruct (Hc cid c Hl Hne). split; [by apply Hu|done].
Qed.

(** ** Triples *)

Definition spec {A : Type} (P : World → Prop) (n n' : Z) (m : M World A)
    (Φ : A → trace → World → Prop) : Prop :=
  ∀ w, world_ok n w → P w → ∃ a w' tr,
    m w = (Ret a, w') ∧ world_ok n' w' ∧ sent tr w.(w_conns) w'.(w_conns) ∧ Φ a tr w'.

Lemma spec_ret {A} P n (a : A) Φ : (∀ w, P w → Φ a [] w) → spec P n n (mret a) Φ.
Proof.
  intros H w Hw HP. exists a, w, []. split; [done|]. split; [done|].
  split; [by apply sent_nil|by apply H].
Qed.

Lemma spec_bind {A B} P n n1 n2 (m : M World A) (k : A → M World B) Φ Ψ :
  spec P n n1 m Φ →
  (∀ a tr, spec (Φ a tr) n1 n2 (k a) (λ b tr' w, Ψ b (tr ++ tr') w)) →
  spec P n n2 (m ≫= k) Ψ.
Proof.
  intros Hm Hk w Hw HP. destruct (Hm w Hw HP) as (a & w1 & t1 & He & Hw1 & Hs1 & HΦ).
  destruct (Hk a t1 w1 Hw1 HΦ) as (b & w2 & t2 & He2 & Hw2 & Hs2 & HΨ).
  exists b, w2, (t1 ++ t2). rewrite (M_bind_ret _ _ _ _ _ He). eauto using sent_trans.
Qed.

Lemma spec_mono {A} (P P' : World → Prop) n n' n1 (m : M World A) (Φ Φ' : A → trace → World → Prop) :
  spec P n n1 m Φ → (∀ w, P' w → P w) → n1 <= n' → (∀ a tr w, Φ a tr w → Φ' a tr w) →
  spec P' n n' m Φ'.
Proof.
  intros H HP Hn HΦ w Hw HP'. destruct (H w Hw (HP w HP')) as (a & w' & tr & ? & ? & ? & ?).
  exists a, w', tr. split_and!; [done|by eapply world_ok_weaken|done|by apply HΦ].
Qed.

Lemma spec_weaken {A} P n1 n n' (m : M World A) Φ :
  n1 <= n' → spec P n n1 m Φ → spec P n n' m Φ.
Proof. intros Hn Hm. by eapply spec_mono. Qed.

Lemma spec_pre {A} (P P' : World → Prop) n n' (m : M World A) Φ :
  (∀ w, P' w → P w) → spec P n n' m Φ → spec P' n n' m Φ.
Proof. intros HP Hm. by eapply spec_mono. Qed.

(** Using what the precondition says apart from the state. *)
Lemma spec_pure {A} (φ : Prop) (P : World → Prop) n n' (m : M World A) Φ :
  (∀ w, world_ok n w → P w → φ) → (φ → spec P n n' m Φ) → spec P n n' m Φ.
Proof. intros H Hm w Hw HP. by apply Hm; [eapply H|..]. Qed.

(** A step that sends nothing, followed by the rest. *)
Lemma spec_silent {A B} P n n1 n2 (m : M World A) (k : A → M World B) Φ Ψ :
  spec P n n1 m (λ a tr w, tr = [] ∧ Φ a w) →
  (∀ a, spec (Φ a) n1 n2 (k a) Ψ) → spec P n n2 (m ≫= k) Ψ.
Proof.
  intros Hm Hk. eapply spec_bind; [exact Hm|]. intros a tr w Hw [-> HΦ]. by apply Hk.
Qed.

Lemma spec_for {A} P n (l : list A) (f : A → M World unit) Q :
  (∀ x, x ∈ l → spec P n n (f x) (λ _ tr w, Forall Q tr ∧ P w)) →
  spec P n n (mfor l f) (λ _ tr w, Forall Q tr ∧ P w).
Proof.
  induction l as [|x l IH]; intros Hf; cbn [mfor]; [by apply spec_ret|].
  eapply spec_bind; [apply Hf; by left|]. intros [] tr w Hw [Htr HP].
  destruct (IH ltac:(intros; apply Hf; by right) w Hw HP) as (a & w' & tr' & ? & ? & ? & Htr' & ?).
  exists a, w', tr'. split_and!; [done|done|done| |done]. by apply Forall_app.
Qed.

(** A computation that only reads the state. *)
Lemma spec_read {A} P n (m : M World A) Φ :
  (∀ w, world_ok n w → P w → ∃ a, m w = (Ret a, w) ∧ Φ a w) →
  spec P n n m (λ a tr w, tr = [] ∧ Φ a w).
Proof.
  intros H w Hw HP. destruct (H w Hw HP) as (a & He & HΦ).
  exists a, w, []. split_and!; [done|done|by apply sent_nil|done|done].
Qed.

Lemma spec_repos {A} P n n' (m : M Repositories A) Φ :
  (∀ w, world_ok n w → P w → ∃ a r', m w.(w_repos) = (Ret a, r') ∧
     store_ok n' r' ∧ store_ext w.(w_repos) r' ∧ Φ a (set_repos r' w)) →
  spec P n n' (on_repos m) (λ a tr w, tr = [] ∧ Φ a w).
Proof.
  intros H w Hw HP. destruct (H w Hw HP) as (a & r' & He & Hr & Hx & HΦ).
  exists a, (set_repos r' w), []. unfold on_repos. rewrite He.
  split_and!; [done|by eapply world_ok_set_repos|by apply sent_nil|done|done].
Qed.

(** ** Operations of the store *)

Section store.
Context (n : Z) (Hn : n <= u64_max - 2).
Implicit Types (P : World → Prop) (r : Repositories).

(** Operations that keep the names, the texts and the counters. *)
Lemma store_ok_frame r r' :
  store_ok n r → repos_ok r' → r'.(next_user_id) = r.(next_user_id) →
  r'.(next_room_id) = r.(next_room_id) → r'.(next_msg_id) = r.(next_msg_id) →
  texts_ok r' → r'.(users) = r.(users) → r'.(rooms) = r.(rooms) → store_ok n r'.
Proof.
  intros [Hr Hc Ht Hm] Hr' H1 H2 H3 Ht' Hu Hro. split; [done| |done|].
  - unfold counters_le. by rewrite H1, H2, H3.
  - unfold names_ok. by rewrite Hu, Hro.
Qed.

Lemma push_message_store (mk : Z → Message) r :
  store_ok n r → (∀ id, (mk id).(m_id) = id ∧ one_target (mk id) ∧ utf8_valid (mk id).(m_content) = true) →
  ∃ r', push_message mk r = (Ret (Some r.(next_msg_id)), r') ∧ store_ok (n + 1) r' ∧
    store_ext r r' ∧ r'.(next_msg_id) = r.(next_msg_id) + 1.
Proof using Hn.
  intros [Hr (Hc1 & Hc2 & Hc3) Ht Hm] Hmk. eexists. split; [reflexivity|].
  pose proof (ok_next_msg _ Hr) as Hnm.
  assert (u64 (next_msg_id r + 1) = next_msg_id r + 1) as Hu.
  { apply u64_small. unfold is_u64, u64_max in *. lia. }
  split; [split|split].
  - apply (push_message_ok mk); [done|unfold u64_max in *; lia|]; intros id; split; apply Hmk.
  - repeat split; cbn; rewrite ?Hu; lia.
  - apply Forall_app. split; [done|]. apply Forall_singleton, Hmk.
  - done.
  - by split.
  - exact Hu.
Qed.

Lemma spec_insert_dm P s rcv c ts :
  utf8_valid c = true →
  spec P n (n + 1) (on_repos (insert_dm s rcv c ts))
    (λ o tr w, tr = [] ∧ ∃ id, o = Some id ∧ 1 <= id < w.(w_repos).(next_msg_id)).
Proof using Hn.
  intros Hc. apply spec_repos. intros w Hw _. pose proof (wk_store _ _ Hw) as Hs.
  destruct (push_message_store (λ id, mkMessage id s (Some rcv) None c 0 ts) _ Hs)
    as (r' & He & Hr' & Hx & Hid); [intros id; split_and!; [done|by left|done]|].
  exists (Some (next_msg_id (w_repos w))), r'. split_and!; [done|done|done|].
  eexists. split; [done|]. cbn. rewrite Hid. pose proof (ok_next_msg _ (so_repos _ _ Hs)). lia.
Qed.

Lemma spec_insert_room_msg P s room c ts :
  utf8_valid c = true →
  spec P n (n + 1) (on_repos (insert_room_msg s room c ts))
    (λ o tr w, tr = [] ∧ ∃ id, o = Some id ∧ 1 <= id < w.(w_repos).(next_msg_id)).
Proof using Hn.
  intros Hc. apply spec_repos. intros w Hw _. pose proof (wk_store _ _ Hw) as Hs.
  destruct (push_message_store (λ id, mkMessage id s None (Some room) c 0 ts) _ Hs)
    as (r' & He & Hr' & Hx & Hid); [intros id; split_and!; [done|by right|done]|].
  exists (Some (next_msg_id (w_repos w))), r'. split_and!; [done|done|done|].
  eexists. split; [done|]. cbn. rewrite Hid. pose proof (ok_next_msg _ (so_repos _ _ Hs)). lia.
Qed.

Lemma spec_create_user P name h now :
  utf8_valid name = true →
  spec P n (n + 1) (on_repos (create_user name h now)) (λ o tr w, tr = [] ∧ True).
Proof using Hn.
  intros Hu. apply spec_repos. intros w Hw _. destruct (wk_store _ _ Hw) as [Hr (Hc1 & Hc2 & Hc3) Ht [Hm1 Hm2]].
  pose proof (tab_next _ _ _ _ _ (ok_users _ Hr)) as Hnx.
  assert (repos_ok (snd (create_user name h now (w_repos w)))) as Hr'
    by (apply create_user_ok; [done|lia]).
  unfold create_user in *. destruct (username_idx (w_repos w) !! name) as [x|] eqn:Hidx.
  { exists None, (w_repos w). split_and!; [done| |by split|done].
    apply (store_ok_weaken n); [lia|]. by apply (wk_store _ _ Hw). }
  do 2 eexists. split; [reflexivity|]. split; [|split; [|done]].
  - split; [exact Hr'| |exact Ht|split; [|exact Hm2]].
    + repeat split; cbn; [|lia..]. apply u64_succ_le; lia.
    + cbn. intros id u. rewrite lookup_insert_Some. intros [[_ <-]|[_ Hl]]; [exact Hu|by eapply Hm1].
  - split; [done|]. cbn. intros uid [u Hl].
    destruct (decide (uid = next_user_id (w_repos w))) as [->|];
      [rewrite lookup_insert_eq; by eexists|rewrite lookup_insert_ne by done; by eexists].
Qed.

Lemma spec_create_room P name now :
  utf8_valid name = true →
  spec P n (n + 1) (on_repos (create_room name now))
    (λ o tr w, tr = [] ∧
       ∃ rid, w.(w_repos).(room_name_idx) !! name = Some rid ∧ (o = Some rid ∨ o = None)).
Proof using Hn.
  intros Hu. apply spec_repos. intros w Hw _. destruct (wk_store _ _ Hw) as [Hr (Hc1 & Hc2 & Hc3) Ht [Hm1 Hm2]].
  pose proof (tab_next _ _ _ _ _ (ok_rooms _ Hr)) as Hnx.
  assert (repos_ok (snd (create_room name now (w_repos w)))) as Hr'
    by (apply create_room_ok; [done|lia]).
  unfold create_room in *. destruct (room_name_idx (w_repos w) !! name) as [x|] eqn:Hidx.
  { exists None, (w_repos w). split_and!; [done| |by split|exists x; auto].
    apply (store_ok_weaken n); [lia|]. by apply (wk_store _ _ Hw). }
  do 2 eexists. split; [reflexivity|]. split; [|split].
  - split; [exact Hr'| |exact Ht|split; [exact Hm1|]].
    + repeat split; cbn; [lia| |lia]. apply u64_succ_le; lia.
    + cbn. intros id u. rewrite lookup_insert_Some. intros [[_ <-]|[_ Hl]]; [exact Hu|by eapply Hm2].
  - by split.
  - eexists. cbn. rewrite lookup_insert_eq. by split; [|left].
Qed.
End store.

Section reads.
Context (n : Z).
Implicit Types (P : World → Prop) (r : Repositories).

Lemma spec_find_user_by_username P name :
  spec P n n (on_repos (find_user_by_username name))
    (λ o tr w, tr = [] ∧ ∀ u, o = Some u →
       w.(w_repos).(users) !! u.(u_id) = Some u ∧ utf8_valid u.(u_username) = true).
Proof.
  apply spec_repos. intros w Hw _. destruct (wk_store _ _ Hw) as [Hr Hc Ht Hm].
  unfold find_user_by_username. destruct (_ !! name) as [id|] eqn:Hname.
  - destruct (table_at _ _ _ _ _ _ _ (ok_users _ Hr) Hname) as (u & -> & Hu & _).
    destruct (tab_rows _ _ _ _ _ (ok_users _ Hr) _ _ Hu) as [Hid _].
    exists (Some u), (w_repos w). split_and!; [done|done|by split|].
    intros ? [= <-]. rewrite Hid. split; [done|]. by eapply Hm.
  - exists None, (w_repos w). by split_and!; [| |by split|].
Qed.

Lemma spec_find_user_by_id P id :
  spec P n n (on_repos (find_user_by_id id))
    (λ o tr w, tr = [] ∧ ∀ u, o = Some u → utf8_valid u.(u_username) = true).
Proof.
  apply spec_repos. intros w Hw _. destruct (wk_store _ _ Hw) as [Hr Hc Ht Hm].
  eexists _, (w_repos w). split_and!; [done|done|by split|].
  intros u Hu. by eapply Hm.
Qed.

Lemma spec_find_room_by_name P name :
  spec P n n (on_repos (find_room_by_name name))
    (λ o tr w, tr = [] ∧
       room_id <$> o = w.(w_repos).(room_name_idx) !! name).
Proof.
  apply spec_repos. intros w Hw _. destruct (wk_store _ _ Hw) as [Hr Hc Ht Hm].
  unfold find_room_by_name. destruct (_ !! name) as [id|] eqn:Hname.
  - destruct (table_at _ _ _ _ _ _ _ (ok_rooms _ Hr) Hname) as (x & -> & Hx & _).
    destruct (tab_rows _ _ _ _ _ (ok_rooms _ Hr) _ _ Hx) as [Hid _].
    exists (Some x), (w_repos w). split_and!; [done|done|by split|].
    cbn. by rewrite Hid.
  - exists None, (w_repos w). by split_and!; [| |by split|].
Qed.

Lemma spec_list_rooms P uid :
  spec P n n (on_repos (list_rooms_for_user uid))
    (λ o tr w, tr = [] ∧ Forall (λ x, utf8_valid x.(room_name) = true) o).
Proof.
  apply spec_repos. intros w Hw _. destruct (wk_store _ _ Hw) as [Hr Hc Ht [_ Hm]].
  unfold list_rooms_for_user.
  destruct (rooms_with_member_spec (rooms (w_repos w)) uid (map_to_list (room_members (w_repos w))) [])
    as (rms & -> & Hspec).
  { intros rid s ?%elem_of_map_to_list. by eapply (ok_members _ Hr). }
  exists rms, (w_repos w). split_and!; [done|by apply wk_store|by split|].
  apply Forall_forall. intros x (rid & s & _ & _ & Hx)%Hspec. by eapply Hm.
Qed.

(** A history query returns stored messages. *)
Lemma history_loop_elem matches before lim rl out m :
  m ∈ history_loop matches before lim rl out → m ∈ out ∨ m ∈ rl.
Proof.
  revert out. induction rl as [|x rl IH]; intros out; cbn [history_loop]; [by left|].
  repeat case_match; intros Hm; try (apply IH in Hm); set_solver.
Qed.

Lemma spec_history P matches before lim (q : M Repositories (list Message)) :
  (∀ r, q r = (Ret (rev (history_loop matches before lim (rev r.(messages)) [])), r)) →
  spec P n n (on_repos q)
    (λ o tr w, tr = [] ∧ Forall (λ m, utf8_valid m.(m_content) = true) o).
Proof.
  intros Hq. apply spec_repos. intros w Hw _. destruct (wk_store _ _ Hw) as [Hr Hc Ht Hm].
  rewrite Hq. eexists _, (w_repos w). split_and!; [done|done|by split|].
  apply Forall_forall. intros m Hin. apply list_elem_of_In, in_rev, list_elem_of_In in Hin.
  apply history_loop_elem in Hin as [Hin|Hin]; [by apply elem_of_nil in Hin|].
  apply list_elem_of_In, in_rev, list_elem_of_In in Hin.
  unfold texts_ok in Ht. rewrite Forall_forall in Ht. by apply Ht.
Qed.

Lemma spec_update_status P id st :
  spec P n n (on_repos (update_message_status id st)) (λ _ tr w, tr = [] ∧ True).
Proof.
  apply spec_repos. intros w Hw _. destruct (wk_store _ _ Hw) as [Hr Hc Ht Hm].
  do 2 eexists. split; [reflexivity|]. split; [|split; [by split|done]].
  apply (store_ok_frame n (w_repos w)); try done.
  - by apply (update_status_ok id st).
  - unfold texts_ok in *. cbn. induction Ht as [|m l Hm' Hl IH]; cbn [set_status]; [constructor|].
    destruct (m_id m =? id); by constructor.
Qed.

Lemma update_last_seen_store id ts r :
  store_ok n r → store_ok n (snd (update_last_seen id ts r)) ∧
    store_ext r (snd (update_last_seen id ts r)).
Proof.
  intros Hs. pose proof Hs as [Hr Hc Ht [Hm1 Hm2]].
  pose proof (update_last_seen_ok id ts r Hr) as Hr'. unfold update_last_seen in *.
  destruct (users r !! id) as [u|] eqn:Hu; [|by split; [|by split]].
  split; [split; [exact Hr'|exact Hc|exact Ht|split; [|exact Hm2]]|split; [done|]]; cbn.
  - intros x v. rewrite lookup_insert_Some. intros [[_ <-]|[_ Hl]]; [exact (Hm1 _ _ Hu)|by eapply Hm1].
  - intros x [v Hl]. destruct (decide (x = id)) as [->|];
      [rewrite lookup_insert_eq; by eexists|rewrite lookup_insert_ne by done; by eexists].
Qed.

Lemma spec_enqueue P mid uid :
  spec (λ w, 1 <= mid < w.(w_repos).(next_msg_id) ∧ P w) n n (on_repos (enqueue_undelivered mid uid))
    (λ _ tr w, tr = [] ∧ 1 <= mid < w.(w_repos).(next_msg_id)).
Proof.
  apply spec_repos. intros w Hw [Hmid _]. destruct (wk_store _ _ Hw) as [Hr Hc Ht Hm].
  do 2 eexists. split; [reflexivity|]. split; [|split; [by split|exact Hmid]].
  apply (store_ok_frame n (w_repos w)); try done. by apply (enqueue_ok mid uid).
Qed.

Lemma spec_drain P uid :
  spec P n n (on_repos (drain_undelivered uid))
    (λ ms tr w, tr = [] ∧ Forall (λ m, utf8_valid m.(m_content) = true) ms).
Proof.
  apply spec_repos. intros w Hw _. destruct (wk_store _ _ Hw) as [Hr Hc Ht Hm].
  destruct (drain_undelivered uid (w_repos w)) as [out r'] eqn:Hd.
  destruct (drain_spec _ _ _ _ Hr Hd) as (ms & -> & _ & Hall & _ & _ & Hr').
  exists ms, r'. split; [done|]. subst r'. split; [|split; [by split|]].
  - apply (store_ok_frame n (w_repos w)); try done.
    pose proof (drain_ok uid _ Hr) as Hok. by rewrite Hd in Hok.
  - apply Forall_forall. intros m Hin. rewrite Forall_forall in Hall.
    unfold texts_ok in Ht. rewrite Forall_forall in Ht. by apply Ht, Hall.
Qed.
End reads.

(** ** Sending *)

(** The reply to the request with id [id]: an ack, an error or a pong. *)
Definition is_reply `{FloatText} (id : option Z) (s : string) : Prop :=
  ∃ j, dump j = Ret s ∧ json_find "id" j = JInt <$> id ∧
    (get_str j "type" = kAck ∨ get_str j "type" = kError ∨ get_str j "type" = kPong).

(** A message event. *)
Definition is_event `{FloatText} (p : Z * string) : Prop :=
  ∃ mid snd_id rcv room content ts,
    dump (make_event_message mid snd_id rcv room content ts) = Ret p.2.

(** Message events, then one reply to [c]: what a request must produce. *)
Definition answer `{FloatText} (c : Z) (id : option Z) (tr : trace) : Prop :=
  ∃ evs s, tr = evs ++ [(c, s)] ∧ Forall is_event evs ∧ is_reply id s.

Lemma answer_app `{FloatText} c id evs tr :
  Forall is_event evs → answer c id tr → answer c id (evs ++ tr).
Proof.
  intros He (evs' & s & -> & He' & Hs). exists (evs ++ evs'), s. rewrite app_assoc.
  split_and!; [done|by apply Forall_app|done].
Qed.

Section net.
Context `{Env, FloatText} (n : Z).
Implicit Types (P : World → Prop).

Lemma world_ok_env w reads draws : world_ok n w → world_ok n (set_env reads draws w).
Proof. intros []. by split. Qed.

Lemma spec_now P : (∀ w reads draws, P w → P (set_env reads draws w)) →
  spec P n n now_unix_ms (λ _ tr w, tr = [] ∧ P w).
Proof.
  intros HP w Hw Hp. do 2 eexists. exists []. split; [reflexivity|].
  split; [by apply world_ok_env|]. split; [by apply sent_nil|]. split; [done|by apply HP].
Qed.

Lemma spec_random P k : (∀ w reads draws, P w → P (set_env reads draws w)) →
  spec P n n (random_bytes k) (λ _ tr w, tr = [] ∧ P w).
Proof.
  intros HP w Hw Hp. do 2 eexists. exists []. split; [reflexivity|].
  split; [by apply world_ok_env|]. split; [by apply sent_nil|]. split; [done|by apply HP].
Qed.

(** New connections that keep their owners. *)
Lemma world_ok_delivered f cs re w :
  world_ok n w → delivered f w.(w_conns) cs → world_ok n (set_net cs re w).
Proof.
  intros [] Hd. split; try done. intros cid c. cbn. rewrite Hd.
  destruct (w_conns w !! cid) as [c0|] eqn:Hc0; [|done]. intros [= <-].
  unfold owner_ok. destruct (push_all_owner (f cid) c0) as (-> & _ & ->). by apply wk_conns0.
Qed.

Lemma spec_send_to P ev cid :
  (∀ w cs re, P w → P (set_net cs re w)) →
  spec P n n (send_to ev cid) (λ _ tr w, tr = [(cid, ev)] ∧ P w).
Proof.
  intros HP w Hw Hp. destruct (send_to_spec ev cid w) as (cs & re & Hs & Hd).
  exists tt, (set_net cs re w), [(cid, ev)]. split; [done|].
  split; [by eapply world_ok_delivered|]. split; [|by auto].
  eapply delivered_sent; [exact Hd|]. intros x. rewrite payloads_send. unfold to_conns.
  destruct (cid =? x) eqn:E; to_prop; case_bool_decide; set_solver.
Qed.

Lemma spec_dump P j :
  json_utf8 j = true →
  spec P n n (lift_outcome (dump j)) (λ s tr w, tr = [] ∧ (dump j = Ret s ∧ P w)).
Proof.
  intros Hj. apply spec_read. intros w Hw Hp. destruct (dump_total j Hj) as [s Hs].
  exists s. unfold lift_outcome. by rewrite Hs.
Qed.

Lemma spec_send_json P c j :
  json_utf8 j = true → spec P n n (send c j) (λ _ tr _, ∃ s, dump j = Ret s ∧ tr = [(c, s)]).
Proof.
  intros Hj. unfold send. eapply spec_silent; [by apply spec_dump|]. intros s.
  eapply spec_mono; [apply (spec_send_to (λ _, dump j = Ret s)); auto|by intros ? []|lia|].
  intros _ tr w [-> Hs]. by exists s.
Qed.

Lemma spec_conns_of P uid :
  spec P n n (conns_of uid) (λ _ tr w, tr = [] ∧ P w).
Proof. apply spec_read. intros w Hw Hp. by eexists. Qed.

(** ** Routing *)

Lemma event_is_event (mid sid : Z) rcv room content ts cid s :
  event_text mid sid rcv room content ts = Ret s → is_event (cid, s).
Proof. intros Hs. repeat eexists. exact Hs. Qed.

Lemma spec_send_event P ev l :
  (∀ w cs re, P w → P (set_net cs re w)) → (∀ cid, is_event (cid, ev)) →
  spec P n n (mfor l (send_to ev)) (λ _ tr w, Forall is_event tr ∧ P w).
Proof.
  intros HP Hev. apply spec_for. intros x _.
  eapply spec_mono; [by apply (spec_send_to P)|done|lia|].
  intros _ tr w [-> Hw]. split; [|done]. apply Forall_singleton, Hev.
Qed.

Lemma spec_event P mid sid rcv room content ts :
  utf8_valid content = true →
  spec P n n (lift_outcome (event_text mid sid rcv room content ts))
    (λ s tr w, tr = [] ∧ ((∀ cid, is_event (cid, s)) ∧ P w)).
Proof.
  intros Hc. eapply spec_mono; [apply (spec_dump P)|done|lia|].
  - apply json_of_utf8. destruct rcv, room; cbn; unfold member_utf8; cbn; by rewrite Hc.
  - intros s tr w (-> & Hs & HP). split; [done|]. split; [|done]. intros cid.
    by eapply event_is_event.
Qed.

Lemma spec_replay P uid :
  spec P n n (replay_offline uid) (λ _ tr _, Forall is_event tr).
Proof.
  unfold replay_offline. eapply spec_silent; [apply spec_drain|]. intros ms.
  case_bool_decide; [apply spec_ret; intros; constructor|].
  eapply spec_silent; [apply (spec_conns_of (λ _, Forall (λ m, utf8_valid m.(m_content) = true) ms))|].
  intros conns.
  case_bool_decide; [apply spec_ret; intros; constructor|].
  eapply spec_mono; [apply (spec_for (λ _, Forall (λ m, utf8_valid m.(m_content) = true) ms) _ ms _ is_event)
    |done|lia|by intros ? ? ? []].
  intros m Hm w Hw Hms. pose proof (proj1 (Forall_forall _ _) Hms m Hm) as Hc.
  revert w Hw Hms. eapply spec_silent; [by apply spec_event|]. intros s.
  intros w Hw [Hs Hms]. revert w Hw Hms. by apply spec_send_event.
Qed.
End net.

(** ** Routing and presence *)

(** A step that sends only events, followed by the rest. *)
Lemma spec_events `{FloatText} {A B} P n n1 n2 (m : M World A) (k : A → M World B) Φ Ψ :
  spec P n n1 m (λ a tr w, Forall is_event tr ∧ Φ a w) →
  (∀ a, spec (Φ a) n1 n2 (k a) Ψ) →
  (∀ b evs tr w, Forall is_event evs → Ψ b tr w → Ψ b (evs ++ tr) w) →
  spec P n n2 (m ≫= k) Ψ.
Proof.
  intros Hm Hk HΨ. eapply spec_bind; [exact Hm|]. intros a tr w Hw [Htr HΦ].
  destruct (Hk a w Hw HΦ) as (b & w' & tr' & ? & ? & ? & ?). exists b, w', tr'.
  split_and!; [done|done|done|by apply HΨ].
Qed.

(** A silent step is one that sends only events. *)
Lemma spec_silent_events `{FloatText} {A} P n n' (m : M World A) Φ :
  spec P n n' m (λ a tr w, tr = [] ∧ Φ a w) →
  spec P n n' m (λ a tr w, Forall is_event tr ∧ Φ a w).
Proof. intros Hm. eapply spec_mono; [exact Hm|done|lia|]. by intros a tr w [-> ?]. Qed.

Section routing.
Context `{Env, FloatText} (n : Z).
Implicit Types (P : World → Prop).

(** Message [id] is in the store. *)
Definition stored (id : Z) (w : World) : Prop := 1 <= id < w.(w_repos).(next_msg_id).

Definition events_only {A : Type} (φ : A → Prop) (a : A) (tr : trace) (w : World) : Prop :=
  Forall is_event tr ∧ φ a.

Lemma events_only_app {A} (φ : A → Prop) b evs tr w :
  Forall is_event evs → events_only φ b tr w → events_only φ b (evs ++ tr) w.
Proof. intros ? []. split; [by apply Forall_app|done]. Qed.

Lemma spec_send_dm sender receiver content :
  n <= u64_max - 2 → utf8_valid content = true →
  spec (λ _, True) n (n + 1) (send_dm sender receiver content) (events_only (λ id, id ≠ 0)).
Proof.
  intros Hn Hc. unfold send_dm. eapply spec_silent; [by apply (spec_now _ (λ _, True))|]. intros ts.
  eapply spec_silent; [apply (spec_insert_dm n Hn _ sender receiver content ts Hc)|]. intros o.
  eapply (spec_pure (∃ id, o = Some id ∧ id ≠ 0)); [intros w _ (id & -> & ?); exists id; split; [done|lia]|].
  intros (id & -> & Hid).
  eapply spec_mono; [|intros w (? & [= <-] & Hw); exact Hw|reflexivity|done].
  fold (stored id). eapply spec_silent; [by apply (spec_event _ (stored id))|]. intros ev.
  eapply (spec_pure (∀ cid, is_event (cid, ev))); [by intros w _ []|]. intros Hev.
  eapply spec_mono; [|intros w [_ Hw]; exact Hw|reflexivity|done].
  eapply spec_silent; [apply (spec_conns_of _ (stored id))|]. intros conns.
  eapply (spec_events _ _ (n + 1) _ _ _ (λ _ _, True)); [| |apply events_only_app].
  - case_bool_decide.
    + apply spec_silent_events. eapply spec_mono; [apply (spec_enqueue _ (λ _, True) id receiver)|
        by intros w ?|reflexivity|by intros ? ? ? []].
    + eapply (spec_events _ _ (n + 1) _ _ _ (λ _ _, True)).
      * eapply spec_mono; [by apply (spec_send_event _ (λ _, True))|done|reflexivity|done].
      * intros []. apply spec_silent_events, spec_update_status.
      * intros [] ? ? ? ? []. split; [by apply Forall_app|done].
  - intros []. eapply spec_silent; [apply (spec_conns_of _ (λ _, True))|]. intros own.
    eapply (spec_events _ _ (n + 1) _ _ _ (λ _ _, True)); [| |apply events_only_app].
    + by apply (spec_send_event _ (λ _, True)).
    + intros []. apply spec_ret. intros. split; [constructor|done].
Qed.

(** A query of the room cache may load the room. *)
Lemma spec_room_query {A} P (q : M (RoomManager * Repositories) A) :
  (∀ w rm, P w → P (set_rooms rm w)) →
  (∀ rm r, rooms_inv (mkSys rm r ∅) → ∃ a rm', q (rm, r) = (Ret a, (rm', r)) ∧
     rooms_inv (mkSys rm' r ∅)) →
  spec P n n (on_rooms q) (λ _ tr w, tr = [] ∧ P w).
Proof.
  intros HP Hq w Hw Hp. destruct (Hq _ _ (wk_rooms _ _ Hw)) as (a & rm' & He & Hi).
  exists a, (set_rooms rm' w), []. unfold on_rooms. rewrite He. split; [by destruct w|].
  split; [destruct Hw; by split|]. split; [by apply sent_nil|]. split; [done|by apply HP].
Qed.

Lemma spec_is_member P rid uid :
  (∀ w rm, P w → P (set_rooms rm w)) →
  spec P n n (on_rooms (RoomManager.is_member rid uid)) (λ _ tr w, tr = [] ∧ P w).
Proof.
  intros HP. apply spec_room_query; [done|]. intros rm r Hi.
  destruct (is_member_spec rid uid rm r ∅ Hi I) as (rm' & He & Hi'); [apply lookup_empty|]. eauto.
Qed.

Lemma spec_members_of P rid :
  (∀ w rm, P w → P (set_rooms rm w)) →
  spec P n n (on_rooms (members_of rid)) (λ _ tr w, tr = [] ∧ P w).
Proof.
  intros HP. apply spec_room_query; [done|]. intros rm r Hi.
  destruct (members_of_spec rid rm r ∅ Hi I) as (rm' & He & Hi'); [intros; apply lookup_empty|]. eauto.
Qed.

Lemma spec_room_deliver id sender ev uid :
  (∀ cid, is_event (cid, ev)) →
  spec (stored id) n n (room_deliver id sender ev uid) (λ _ tr w, Forall is_event tr ∧ stored id w).
Proof.
  intros Hev. unfold room_deliver. eapply spec_silent; [apply (spec_conns_of _ (stored id))|].
  intros conns. case_bool_decide; [destruct (negb _)|].
  - apply spec_silent_events. eapply spec_mono; [apply (spec_enqueue _ (λ _, True) id uid)|
      by intros w ?|reflexivity|done].
  - by apply spec_ret.
  - by apply spec_send_event.
Qed.
End routing.

Section send_room.
Context `{Env, FloatText} (n : Z).

Lemma spec_send_room sender room content :
  n <= u64_max - 2 → utf8_valid content = true →
  spec (λ _, True) n (n + 1) (send_room sender room content) (events_only (λ _, True)).
Proof.
  intros Hn Hc. unfold send_room. eapply spec_silent; [by apply (spec_is_member n (λ _, True))|].
  intros [|]; cbn [negb].
  2:{ apply (spec_weaken _ n); [lia|]. apply spec_ret. intros. split; [constructor|done]. }
  eapply spec_silent; [by apply (spec_now _ (λ _, True))|]. intros ts.
  eapply spec_silent; [apply (spec_insert_room_msg n Hn _ sender room content ts Hc)|]. intros o.
  eapply (spec_pure (∃ id, o = Some id)); [intros w _ (id & -> & ?); by exists id|]. intros (id & ->).
  eapply spec_mono; [|intros w (? & [= <-] & Hw); exact Hw|reflexivity|done].
  fold (stored id). eapply spec_silent; [by apply (spec_event _ (stored id))|]. intros ev.
  eapply (spec_pure (∀ cid, is_event (cid, ev))); [by intros w _ []|]. intros Hev.
  eapply spec_mono; [|intros w [_ Hw]; exact Hw|reflexivity|done].
  eapply spec_silent; [by apply (spec_members_of _ (stored id))|]. intros members.
  eapply (spec_events _ _ (n + 1) _ _ _ (λ _, stored id)); [| |apply events_only_app].
  - apply spec_for. intros uid _. by apply spec_room_deliver.
  - intros []. apply spec_ret. intros. split; [constructor|done].
Qed.
End send_room.

