(* ===== verification/HandlerSpecs.v ===== *)
(** * What every request does

    The triples of the handlers, and the theorem they give for [dispatch]: a
    request never escapes as an exception, keeps the server's invariant and is
    answered exactly once. *)
From S2P Require Import Prelude Util Crypto Framing Repositories Session Presence RoomManager.
From S2P Require Import Messages Json JsonProofs Connection World Router Handlers HandlerLogic.

(** ** Owners of connections *)

Definition set_owner (c uid : Z) (tok : string) (w : World) : World :=
  set_net (alter (set_auth uid tok) c w.(w_conns)) w.(w_reactor) w.

Lemma update_conn_eq c f w :
  update_conn c f w = (Ret tt, set_net (alter f c w.(w_conns)) w.(w_reactor) w).
Proof.
  unfold update_conn, on_conn. destruct (w_conns w !! c) as [c0|] eqn:Hc.
  - do 2 f_equal. apply map_eq. intros x. destruct (decide (x = c)) as [->|].
    + by rewrite lookup_insert_eq, lookup_alter_eq, Hc.
    + by rewrite lookup_insert_ne, lookup_alter_ne.
  - rewrite (alter_id _ _ _); [by destruct w|]. intros ? Hx. congruence.
Qed.

(** [set_user_id] followed by [set_session_token]. *)
Lemma update_owner_eq c uid tok w :
  (update_conn c (set_user_id uid) ;; update_conn c (set_session_token tok)) w
  = (Ret tt, set_owner c uid tok w).
Proof.
  erewrite M_bind_ret by apply update_conn_eq. rewrite update_conn_eq. unfold set_owner.
  assert (alter (set_session_token tok) c (alter (set_user_id uid) c (w_conns w))
          = alter (set_auth uid tok) c (w_conns w)) as <-; [|done].
  apply map_eq. intros x. destruct (decide (x = c)) as [->|].
  - rewrite !lookup_alter_eq. by destruct (w_conns w !! c).
  - by rewrite !lookup_alter_ne.
Qed.

Lemma set_owner_sent c uid tok w : sent [] w.(w_conns) (set_owner c uid tok w).(w_conns).
Proof.
  apply sent_nil. intros x. cbn. destruct (decide (x = c)) as [->|].
  - rewrite lookup_alter_eq. by destruct (w_conns w !! c).
  - by rewrite lookup_alter_ne.
Qed.

(** Giving a connection an owner whose slot has it; slots may only grow. *)
Lemma world_ok_set_owner n c uid tok p w :
  world_ok n w → presence_ok p → (∀ u x, x ∈ slot_of w.(w_presence) u → x ∈ slot_of p u) →
  (uid ≠ 0 → is_Some (w.(w_repos).(users) !! uid) ∧ c ∈ slot_of p uid) →
  world_ok n (set_presence p (set_owner c uid tok w)).
Proof.
  intros [Hs Hr Hp Hss Hc] Hp' Hgrow Huid. split; cbn; try done.
  intros x cx Hx. destruct (decide (x = c)) as [->|Hne].
  - rewrite lookup_alter_eq in Hx. destruct (w_conns w !! c) as [c0|]; [|done].
    injection Hx as <-. intros H0. cbn in *. destruct (Huid H0). by split.
  - rewrite lookup_alter_ne in Hx by done. intros H0. destruct (Hc x cx Hx H0) as [Hu Hb].
    split; [done|]. intros Hcl. by apply Hgrow, Hb.
Qed.

Lemma slot_of_bind uid c p u :
  slot_of (bind_locked uid c p).1 u = if u =? uid then {[c]} ∪ slot_of p u else slot_of p u.
Proof.
  unfold bind_locked, slot_of. cbn. destruct (u =? uid) eqn:E; to_prop.
  - subst. by rewrite lookup_insert_eq.
  - by rewrite lookup_insert_ne by congruence.
Qed.

(** ** Texts *)

Lemma utf8_ascii_all l : Forall (λ b, 0 <= b < 128) l → utf8_bytes l.
Proof.
  induction 1 as [|b l Hb Hl IH]; [by split; [constructor|]|].
  apply (utf8_bytes_app [b] l); [by apply utf8_ascii|done].
Qed.

Lemma utf8_valid_app_ascii a s :
  forallb (λ b, (0 <=? b) && (b <? 128)) (to_bytes a) = true → utf8_valid s = true →
  utf8_valid (a +:+ s) = true.
Proof.
  intros Hf Hs. assert (Forall (λ b, 0 <= b < 128) (to_bytes a)) as Ha.
  { apply Forall_forall. intros b Hb. rewrite forallb_forall in Hf.
    apply list_elem_of_In, Hf in Hb. to_prop. lia. }
  apply utf8_valid_run. rewrite to_bytes_app, utf8_run_app.
  destruct (utf8_ascii_all _ Ha) as [_ ->]. by apply utf8_valid_run.
Qed.

(** [hex_encode] writes hex digits only. *)
Lemma hex_encode_utf8 l : utf8_valid (hex_encode l) = true.
Proof.
  assert (∀ z, 0 <= byte_of_ascii (char_at kHex (Z.land z 15)) < 128) as Hd.
  { intros z. assert (0 <= Z.land z 15 < 16) as Hz
      by (change 15 with (Z.ones 4); rewrite Z.land_ones by done; by apply Z.mod_pos_bound).
    pose proof (forallb_range (λ z, (0 <=? byte_of_ascii (char_at kHex z)) &&
      (byte_of_ascii (char_at kHex z) <? 128)) 16 eq_refl _ Hz). cbv beta in *. to_prop. lia. }
  apply utf8_valid_run. apply utf8_ascii_all.
  induction l as [|b l IH]; cbn [hex_encode to_bytes]; [constructor|].
  by repeat constructor; try apply Hd.
Qed.

Lemma get_str_utf8 j k : json_utf8 j = true → utf8_valid (get_str j k) = true.
Proof.
  intros Hj. unfold get_str, json_find. destruct j as [| | | | | | |o]; try done.
  change (forallb member_utf8 o = true) in Hj.
  induction o as [|[k' v] o IH]; cbn [obj_find forallb] in *; [done|]. to_prop.
  destruct (String.eqb k' k); [|by apply IH]. unfold member_utf8 in H. cbn in H. to_prop.
  by destruct v.
Qed.

(** ** Sessions *)

Section sessions.
Context `{Env} (n : Z).

Definition user_exists (uid : Z) (w : World) : Prop := is_Some (w.(w_repos).(users) !! uid).

Lemma spec_sessions_create uid :
  spec (user_exists uid) n n (sessions_create uid)
    (λ tok tr w, tr = [] ∧ (utf8_valid tok = true ∧ user_exists uid w)).
Proof.
  unfold sessions_create. eapply spec_silent; [by apply (spec_random _ (user_exists uid))|].
  intros rand. eapply spec_silent; [by apply (spec_now _ (user_exists uid))|]. intros now w Hw Hu.
  unfold on_sessions, create. cbn. do 2 eexists. exists []. split; [reflexivity|].
  destruct Hw as [Hs Hr Hp Hss Hc].
  assert (store_ok n (snd (insert_session (make_session_token rand) uid now (w_repos w)))) as Hs'.
  { apply (store_ok_frame n (w_repos w)); try done; [|by destruct Hs].
    apply insert_session_ok. by destruct Hs. }
  split; [|split; [by apply sent_nil|split; [done|split; [apply hex_encode_utf8|exact Hu]]]].
  split; cbn; [exact Hs'| |done| |done].
  - eapply rooms_inv_ext; [done|by destruct Hs'|done].
  - intros tok info. rewrite lookup_insert_Some. intros [[_ <-]|[_ Hl]]; [exact Hu|by eapply Hss].
Qed.

Lemma spec_sessions_validate tok :
  spec (λ _, True) n n (sessions_validate tok)
    (λ o tr w, tr = [] ∧ ∀ info, o = Some info → user_exists info.(si_user_id) w).
Proof.
  unfold sessions_validate. eapply spec_silent; [by apply (spec_now _ (λ _, True))|].
  intros now w Hw _. unfold on_sessions, validate.
  destruct (session_cache (w_sessions w) !! tok) as [info|] eqn:Hl.
  - destruct (si_expires_at_ms info <=? now).
    + do 2 eexists. exists []. split; [reflexivity|]. split; [|split; [by apply sent_nil|done]].
      destruct Hw as [Hs Hr Hp Hss Hc]. split; cbn; try done.
      intros t i. rewrite lookup_delete_Some. intros [_ Hi]. by eapply Hss.
    + do 2 eexists. exists []. split; [reflexivity|]. split; [by destruct w|].
      split; [by apply sent_nil|]. split; [done|]. intros ? [= <-]. by eapply (wk_sessions _ _ Hw).
  - do 2 eexists. exists []. split; [reflexivity|]. split; [by destruct w|].
    split; [by apply sent_nil|done].
Qed.

Lemma spec_revoke tok :
  spec (λ _, True) n n (on_sessions (revoke tok)) (λ _ tr w, tr = [] ∧ True).
Proof.
  intros w Hw _. unfold on_sessions, revoke. cbn. do 2 eexists. exists []. split; [reflexivity|].
  destruct Hw as [Hs Hr Hp Hss Hc].
  assert (store_ok n (snd (delete_session tok (w_repos w)))) as Hs'.
  { apply (store_ok_frame n (w_repos w)); try done; [|by destruct Hs].
    apply delete_session_ok. by destruct Hs. }
  split; [|split; [by apply sent_nil|done]]. split; cbn; [exact Hs'| |done| |done].
  - eapply rooms_inv_ext; [done|by destruct Hs'|done].
  - intros t info. rewrite lookup_delete_Some. intros [_ Hl]. by eapply Hss.
Qed.
End sessions.

(** ** Presence and authentication *)

Section auth.
Context `{Env, FloatText}.

(** [authenticate] sets the owner, binds, and replays on the first connection. *)
Lemma authenticate_eq c uid tok w :
  authenticate c uid tok w =
    (if bool_decide (slot_of w.(w_presence) uid = ∅) then replay_offline uid else mret tt)
      (set_presence (bind_locked uid c w.(w_presence)).1 (set_owner c uid tok w)).
Proof.
  unfold authenticate. pose proof (update_owner_eq c uid tok w) as Hu.
  erewrite M_bind_ret in Hu by apply update_conn_eq. erewrite M_bind_ret by apply update_conn_eq.
  erewrite M_bind_ret by exact Hu. clear Hu.
  unfold mbind, M_bind, presence_bind, Presence.bind, notify, bind_locked, on_transition.
  cbn [fst negb]. change (w_presence (set_owner c uid tok w)) with (w_presence w).
  set (w2 := set_presence _ _). destruct (bool_decide _); [|reflexivity].
  destruct (replay_offline uid w2) as [[[]|e] w3]; reflexivity.
Qed.

Lemma world_ok_bound n c uid tok w :
  world_ok n w → is_Some (w.(w_repos).(users) !! uid) →
  world_ok n (set_presence (bind_locked uid c w.(w_presence)).1 (set_owner c uid tok w)).
Proof.
  intros Hw Hu. apply world_ok_set_owner; [done|apply bind_locked_ok, (wk_presence _ _ Hw)| |].
  - intros u x. rewrite slot_of_bind. case_match; set_solver.
  - intros _. split; [done|]. rewrite slot_of_bind, Z.eqb_refl. set_solver.
Qed.

Lemma spec_authenticate n c uid tok :
  spec (user_exists uid) n n (authenticate c uid tok) (λ _ tr _, Forall is_event tr ∧ True).
Proof.
  intros w Hw Hu. rewrite authenticate_eq.
  pose proof (world_ok_bound n c uid tok w Hw Hu) as Hw2.
  assert (spec (λ _, True) n n (if bool_decide (slot_of w.(w_presence) uid = ∅)
    then replay_offline uid else mret tt) (λ _ tr _, Forall is_event tr ∧ True)) as Hm.
  { case_bool_decide; [|by apply spec_ret].
    eapply spec_mono; [apply (spec_replay n (λ _, True) uid)|done|lia|done]. }
  destruct (Hm _ Hw2 I) as (a & w' & tr & He & Hw' & Hs & Hev).
  exists a, w', tr. split_and!; [done|done| |apply Hev|done].
  eapply sent_after_silent; [apply set_owner_sent|exact Hs].
Qed.

(** [unbind] with its callback: the slot loses the connection, the last-seen
    time may be stored, nothing is sent. *)
Lemma presence_unbind_eq uid c w :
  ∃ b p r reads, presence_unbind uid c w =
      (Ret b, set_env reads w.(w_draws) (set_repos r (set_presence p w))) ∧
    (presence_ok w.(w_presence) → presence_ok p) ∧
    (∀ u, slot_of p u = if u =? uid then slot_of w.(w_presence) u ∖ {[c]}
                        else slot_of w.(w_presence) u) ∧
    (r = w.(w_repos) ∨ ∃ ts, r = snd (update_last_seen uid ts w.(w_repos))).
Proof.
  unfold presence_unbind, unbind, notify.
  destruct (unbind_locked uid c (w_presence w)) as [[p off]|] eqn:Hu.
  2:{ exists false, w.(w_presence), w.(w_repos), w.(w_reads). split; [by destruct w|].
      split; [done|]. split; [|by left]. intros u. unfold unbind_locked in Hu.
      destruct (_ !! uid) as [s|] eqn:Hs; [by case_bool_decide|].
      destruct (u =? uid) eqn:E; to_prop; [|done]. subst. unfold slot_of. rewrite Hs. set_solver. }
  assert (∀ u, slot_of p u = if u =? uid then slot_of w.(w_presence) u ∖ {[c]}
                             else slot_of w.(w_presence) u) as Hslot.
  { unfold unbind_locked, slot_of in *. destruct (_ !! uid) as [s|] eqn:Hs; [|done]. intros u.
    case_bool_decide as He; injection Hu as <- <-; cbn; destruct (u =? uid) eqn:E; to_prop.
    - subst. by rewrite lookup_delete_eq, Hs.
    - by rewrite lookup_delete_ne by congruence.
    - subst. by rewrite lookup_insert_eq, Hs.
    - by rewrite lookup_insert_ne by congruence. }
  assert (presence_ok (w_presence w) → presence_ok p) as Hok by eauto with chat.
  destruct off.
  - set (ts := env_clock (w_reads w)).
    exists true, p, (snd (update_last_seen uid ts (w_repos w))), (S (w_reads w)).
    split; [|split; [exact Hok|split; [exact Hslot|right; by exists ts]]].
    unfold on_transition. cbn [negb]. erewrite M_bind_ret by reflexivity. unfold on_repos. cbn.
    fold ts. destruct (update_last_seen uid ts (w_repos w)) as [o r] eqn:Hr.
    assert (o = Ret tt) as -> by (unfold update_last_seen in Hr; case_match; by injection Hr).
    by destruct w.
  - exists false, p, w.(w_repos), w.(w_reads). split; [by destruct w|]. by split_and!; [| |left].
Qed.
End auth.

(** ** Replies *)

Section replies.
Context `{FloatText} (n : Z).
Implicit Types (P : World → Prop) (c : Z) (id : option Z).

Definition answers c id (u : unit) (tr : trace) (w : World) : Prop := answer c id tr.

Lemma answers_app c id b evs tr w :
  Forall is_event evs → answers c id b tr w → answers c id b (evs ++ tr) w.
Proof. apply answer_app. Qed.

Lemma spec_reply P c id j :
  json_utf8 j = true → json_find "id" j = JInt <$> id →
  (get_str j "type" = kAck ∨ get_str j "type" = kError ∨ get_str j "type" = kPong) →
  spec P n n (send c j) (answers c id).
Proof.
  intros Hj Hid Ht. eapply spec_mono; [by apply spec_send_json|done|lia|].
  intros [] tr w (s & Hs & ->). exists [], s. split_and!; [done|constructor|]. by exists j.
Qed.

Lemma spec_error P c id code message :
  utf8_valid code = true → utf8_valid message = true →
  spec P n n (send c (make_error id code message)) (answers c id).
Proof.
  intros Hc Hm. apply spec_reply; unfold get_str, make_error; rewrite ?json_find_of.
  - apply json_of_utf8. destruct id; cbn; unfold member_utf8; cbn; by rewrite Hc, Hm.
  - by destruct id.
  - right; left. by destruct id.
Qed.

Lemma spec_ack P c id o :
  forallb member_utf8 o = true → obj_find "id" o = None →
  spec P n n (send_ack c id (JObj o)) (answers c id).
Proof.
  intros Ho Hid. set (j := match id with
    | Some i => JObj (obj_set "id" (JInt i) (obj_set "type" (JStr kAck) o))
    | None => JObj (obj_set "type" (JStr kAck) o) end).
  assert (forallb member_utf8 (obj_set "type" (JStr kAck) o) = true) as Ho' by by apply obj_set_utf8.
  unfold send_ack. eapply spec_silent; [apply (spec_read _ _ _ (λ a w, a = j))|].
  - intros w _ _. exists j. by subst j; destruct id.
  - intros a. eapply spec_pure; [by intros w _ Ha; exact Ha|]. intros ->. apply spec_reply; subst j.
    + destruct id; [|exact Ho']. by apply (obj_set_utf8 "id").
    + destruct id; cbn [json_find]; [by rewrite obj_find_set_eq|]. by rewrite obj_find_set_ne.
    + left. unfold get_str. destruct id; cbn [json_find];
        [rewrite obj_find_set_ne by done|]; by rewrite obj_find_set_eq.
Qed.

Lemma spec_ack_of P c id kvs :
  forallb member_utf8 kvs = true → last_value "id" kvs None = None → kvs ≠ [] →
  spec P n n (send_ack c id (json_of kvs)) (answers c id).
Proof.
  intros Hk Hid Hne. pose proof (json_of_utf8 kvs Hk) as Hu.
  pose proof (json_find_of "id" kvs) as Hf. rewrite Hid in Hf.
  destruct (json_of_object kvs Hne) as [o Ho]. rewrite Ho in *. by apply spec_ack.
Qed.
End replies.

(** ** Authentication *)

Section require_auth.
Context `{Env, FloatText} (n : Z).

Lemma spec_require_auth c req id :
  spec (λ _, True) n n (require_auth c req id)
    (λ uid tr _, (uid ≠ 0 ∧ Forall is_event tr) ∨ (uid = 0 ∧ answer c id tr)).
Proof.
  assert (∀ P code msg, utf8_valid code = true → utf8_valid msg = true →
    spec P n n (send c (make_error id code msg) ;; mret 0)
      (λ uid tr _, (uid ≠ 0 ∧ Forall is_event tr) ∨ (uid = 0 ∧ answer c id tr))) as Herr.
  { intros P code msg Hc Hm. eapply spec_bind; [by apply spec_error|]. intros [] tr.
    apply spec_ret. intros w Ha. right. by rewrite app_nil_r. }
  unfold require_auth. eapply spec_silent; [apply (spec_read _ _ _ (λ _ _, True)); by eexists|].
  intros uid. destruct (uid =? 0) eqn:E; to_prop; cbn [negb].
  2:{ apply spec_ret. intros. left. split; [done|constructor]. }
  destruct (str_empty _); [by apply Herr|].
  eapply spec_silent; [apply spec_sessions_validate|]. intros [info|]; [|by apply Herr].
  eapply spec_pure.
  { intros w Hw Hi. exact (user_id_pos _ _ _ (wk_store _ _ Hw) (Hi info eq_refl)). }
  intros Hpos. eapply (spec_events _ _ n _ _ _ (λ _ _, True)); [|intros []; apply spec_ret|].
  - eapply spec_mono; [apply (spec_authenticate n c (si_user_id info))| |lia|done].
    intros w Hi. by apply Hi.
  - intros w _. left. split; [lia|constructor].
  - intros uid' evs tr w He [[? ?]|[? ?]]; [left|right]; split; try done;
      [by apply Forall_app|by apply answer_app].
Qed.

(** The rest of a handler that starts with [require_auth]. *)
Lemma spec_with_auth n' c req id (k : Z → M World unit) :
  n <= n' → (∀ uid, uid ≠ 0 → spec (λ _, True) n n' (k uid) (answers c id)) →
  spec (λ _, True) n n' (uid ← require_auth c req id; if uid =? 0 then mret tt else k uid)
    (answers c id).
Proof.
  intros Hn Hk. eapply spec_bind; [apply spec_require_auth|]. intros uid tr.
  destruct (uid =? 0) eqn:E; to_prop.
  - apply (spec_weaken _ n); [done|]. apply spec_ret. intros w [[? _]|[_ Ha]]; [done|].
    unfold answers. by rewrite app_nil_r.
  - intros w Hw [[_ Hev]|[? _]]; [|done]. destruct (Hk uid E w Hw I) as (b & w' & tr' & ? & ? & ? & ?).
    exists b, w', tr'. split_and!; [done|done|done|by apply answers_app].
Qed.
End require_auth.

(** ** Membership: the store, then the cache *)

Section membership.
Context (n : Z).

Lemma world_ok_membership rm r w :
  world_ok n w → rooms_inv (mkSys rm r ∅) → repos_ok r →
  (∃ f, r = set_room_members f w.(w_repos)) → world_ok n (set_repos r (set_rooms rm w)).
Proof.
  intros [Hs Hr Hp Hss Hc] Hi Hr' [f ->]. split; cbn; try done.
  apply (store_ok_frame n (w_repos w)); try done. by destruct Hs.
Qed.

Lemma join_step rid uid w :
  world_ok n w →
  match w.(w_repos).(rooms) !! rid with
  | None => on_repos (join_room rid uid) w = (Ret false, w)
  | Some _ => ∃ w1 w2, on_repos (join_room rid uid) w = (Ret true, w1) ∧
      on_rooms (on_join rid uid) w1 = (Ret tt, w2) ∧ world_ok n w2 ∧ w2.(w_conns) = w.(w_conns)
  end.
Proof.
  intros Hw. pose proof (wk_rooms _ _ Hw) as Hi. pose proof (inv_ok _ Hi) as Hr. cbn [sys_store] in Hr.
  destruct (rooms (w_repos w) !! rid) as [x|] eqn:Hx.
  2:{ unfold on_repos, join_room. rewrite Hx. by destruct w. }
  destruct (rs_join_spec rid uid (w_repos w) Hr I) as (b & r' & He & Hr' & Hm).
  assert (∃ f, r' = set_room_members f (w_repos w)) as Hf.
  { unfold rs_join in He. cbn in He. unfold join_room in He. rewrite Hx in He.
    injection He as <- <-. by eexists. }
  assert (b = true) as ->.
  { unfold rs_join in He. cbn in He. unfold join_room in He. rewrite Hx in He. by injection He. }
  assert (rooms_inv (mkSys (w_rooms w) r' (<[(rid, uid) := true]> ∅))) as Hi1.
  { eapply rooms_inv_store; [exact Hi|apply lookup_empty|exact Hr'| |].
    - rewrite Hm, Z.eqb_refl. set_solver.
    - intros rid' u Hne. rewrite Hm. simpl. destruct (rid' =? rid) eqn:E; to_prop; [|done].
      subst. assert (u ≠ uid) by congruence. set_solver. }
  destruct (rooms_inv_on_join rid uid _ _ _ Hi1 I) as (rm' & Hj & Hi2); [apply lookup_insert_eq|].
  rewrite delete_insert_id in Hi2 by apply lookup_empty.
  exists (set_repos r' w), (set_repos r' (set_rooms rm' w)). split_and!.
  - unfold on_repos. change (join_room rid uid (w_repos w)) with (rs_join rid uid (w_repos w)).
    by rewrite He.
  - unfold on_rooms. change (w_rooms (set_repos r' w), w_repos (set_repos r' w)) with (w_rooms w, r').
    by rewrite Hj.
  - by apply world_ok_membership.
  - done.
Qed.

Lemma leave_step rid uid w :
  world_ok n w → ∃ b w1 w2, on_repos (leave_room rid uid) w = (Ret b, w1) ∧
    on_rooms (on_leave rid uid) w1 = (Ret tt, w2) ∧ world_ok n w2 ∧ w2.(w_conns) = w.(w_conns).
Proof.
  intros Hw. pose proof (wk_rooms _ _ Hw) as Hi. pose proof (inv_ok _ Hi) as Hr. cbn [sys_store] in Hr.
  destruct (rs_leave_spec rid uid (w_repos w) Hr I I) as (b & r' & He & Hr' & Hm).
  assert (∃ f, r' = set_room_members f (w_repos w)) as Hf.
  { unfold rs_leave in He. cbn in He. unfold leave_room in He.
    destruct (room_members (w_repos w) !! rid); injection He as <- <-; [by eexists|].
    exists (λ x, x). by destruct (w_repos w). }
  assert (rooms_inv (mkSys (w_rooms w) r' (<[(rid, uid) := false]> ∅))) as Hi1.
  { eapply rooms_inv_store; [exact Hi|apply lookup_empty|exact Hr'| |].
    - rewrite Hm, Z.eqb_refl. set_solver.
    - intros rid' u Hne. rewrite Hm. destruct (rid' =? rid) eqn:E; to_prop; [|done].
      subst. assert (u ≠ uid) by congruence. set_solver. }
  destruct (rooms_inv_on_leave rid uid _ _ _ Hi1) as (rm' & Hj & Hi2); [apply lookup_insert_eq|].
  rewrite delete_insert_id in Hi2 by apply lookup_empty.
  exists b, (set_repos r' w), (set_repos r' (set_rooms rm' w)). split_and!.
  - unfold on_repos. change (leave_room rid uid (w_repos w)) with (rs_leave rid uid (w_repos w)).
    by rewrite He.
  - unfold on_rooms. change (w_rooms (set_repos r' w), w_repos (set_repos r' w)) with (w_rooms w, r').
    by rewrite Hj.
  - by apply world_ok_membership.
  - done.
Qed.

(** Continuing after a join or a leave, which send nothing. *)
Lemma spec_after {A} P n' (k : M World A) Φ w w2 :
  spec P n n' k Φ → world_ok n w2 → P w2 → w2.(w_conns) = w.(w_conns) →
  ∃ a w' tr, k w2 = (Ret a, w') ∧ world_ok n' w' ∧ sent tr w.(w_conns) w'.(w_conns) ∧ Φ a tr w'.
Proof.
  intros Hk Hw2 HP Hc. destruct (Hk w2 Hw2 HP) as (a & w' & tr & He & ? & Hs & ?).
  rewrite Hc in Hs. by exists a, w', tr.
Qed.
End membership.

(** ** The handlers *)

(** A list of fields is serializable when its texts are. *)
Ltac fields_utf8 :=
  unfold member_utf8; cbn [forallb fst snd json_utf8];
  repeat match goal with H : utf8_valid _ = true |- _ => rewrite H end; vm_compute; reflexivity.

Section handlers.
Context `{Env, FloatText, FloatCast, Settings}.
Context (n : Z) (Hn : n <= u64_max - 2) (c : Z) (req : json) (Hreq : json_utf8 req = true).
Context (id : option Z).

Definition handles (m : M World unit) : Prop := spec (λ _, True) n (n + 1) m (answers c id).

(** A reply that changes no counter. *)
Lemma handles_error P code message :
  utf8_valid code = true → utf8_valid message = true →
  spec P n (n + 1) (send c (make_error id code message)) (answers c id).
Proof. intros. apply (spec_weaken _ n); [lia|]. by apply spec_error. Qed.

Lemma handle_register_handles : handles (handle_register c req id).
Proof using Hn Hreq.
  unfold handles, handle_register. pose proof (get_str_utf8 req "username" Hreq) as Hu.
  destruct (_ || _); [by apply handles_error|].
  eapply spec_silent; [by apply (spec_random _ (λ _, True))|]. intros salt.
  eapply spec_silent; [by apply (spec_now _ (λ _, True))|]. intros now.
  eapply spec_silent; [by apply spec_create_user|]. intros [uid|]; [|by apply spec_error].
  apply spec_ack_of; [fields_utf8|done|done].
Qed.

Lemma handle_login_handles : handles (handle_login c req id).
Proof using Hreq.
  unfold handles, handle_login.
  eapply spec_silent; [apply (spec_find_user_by_username _ (λ _, True))|].
  intros [u|]; [|by apply handles_error].
  destruct (verify_password_hash _ _); [|by apply handles_error].
  apply (spec_weaken _ n); [lia|].
  eapply (spec_pure (utf8_valid (u_username u) = true)); [by intros w _ Hu; apply Hu|]. intros Hname.
  eapply spec_silent; [eapply spec_pre; [|apply (spec_sessions_create _ (u_id u))]|].
  { intros w Hu. destruct (Hu u eq_refl) as [Hl _]. unfold user_exists. by rewrite Hl. }
  intros tok. eapply (spec_pure (utf8_valid tok = true)); [by intros w _ []|]. intros Htok.
  eapply (spec_events _ _ n _ _ _ (λ _ _, True)); [| |apply answers_app].
  - eapply spec_mono; [apply (spec_authenticate n c (u_id u) tok)|by intros w []|lia|done].
  - intros []. eapply spec_silent; [apply (spec_read _ _ _ (λ _ _, True)); by eexists|].
    intros w. apply spec_ack_of; [fields_utf8|done|done].
Qed.

Lemma ack_message_handles P k mid : spec P k k (ack_message c id mid) (answers c id).
Proof.
  eapply spec_mono; [|by intros ? ?; exact I|reflexivity|done].
  unfold ack_message. eapply spec_silent; [by apply (spec_now _ (λ _, True))|]. intros t.
  by apply spec_ack_of.
Qed.

Lemma handle_send_dm_handles : handles (handle_send_dm c req id).
Proof using Hn Hreq.
  apply spec_with_auth; [lia|]. intros sender Hs.
  pose proof (get_str_utf8 req "content" Hreq) as Hc.
  destruct (_ || _); [by apply handles_error|]. destruct (max_message <? _); [by apply handles_error|].
  eapply spec_silent; [apply (spec_find_user_by_id _ (λ _, True))|].
  intros [u|]; [|by apply handles_error].
  eapply spec_bind.
  { eapply spec_mono; [by apply (spec_send_dm n)|done|reflexivity|done]. }
  intros mid tr. eapply (spec_pure (mid ≠ 0 ∧ Forall is_event tr)); [by intros w _ []|].
  intros [Hmid Hev]. rewrite (proj2 (Z.eqb_neq _ _)) by done.
  eapply spec_mono; [apply ack_message_handles|done|reflexivity|].
  intros [] tr' w. by apply answers_app.
Qed.

Lemma handle_send_room_handles : handles (handle_send_room c req id).
Proof using Hn Hreq.
  apply spec_with_auth; [lia|]. intros sender Hs.
  pose proof (get_str_utf8 req "content" Hreq) as Hc.
  destruct (_ || _); [by apply handles_error|]. destruct (max_message <? _); [by apply handles_error|].
  eapply (spec_events _ _ (n + 1) _ _ _ (λ _ _, True)); [| |apply answers_app].
  - eapply spec_mono; [by apply (spec_send_room n)|done|reflexivity|by intros ? ? ? []].
  - intros mid. destruct (mid =? 0); [by apply spec_error|apply ack_message_handles].
Qed.

Lemma room_json_utf8 rs :
  Forall (λ x, utf8_valid x.(room_name) = true) rs → forallb json_utf8 (room_json <$> rs) = true.
Proof.
  induction 1 as [|x rs Hx Hrs IH]; [done|]. rewrite fmap_cons. cbn [forallb]. rewrite IH, andb_true_r.
  unfold room_json. apply json_of_utf8. fields_utf8.
Qed.

Lemma handle_list_rooms_handles : handles (handle_list_rooms c req id).
Proof.
  apply spec_with_auth; [lia|]. intros uid Hs. apply (spec_weaken _ n); [lia|].
  eapply spec_silent; [apply (spec_list_rooms _ (λ _, True))|]. intros rs.
  eapply spec_pure; [by intros w _ Hrs; exact Hrs|]. intros Hrs%room_json_utf8.
  apply spec_ack_of; [|done|done]. unfold member_utf8. cbn [forallb fst snd json_utf8].
  rewrite Hrs. by vm_compute.
Qed.

Lemma history_json_utf8 k (target : Message → option Z) ms :
  utf8_valid k = true → Forall (λ m, utf8_valid m.(m_content) = true) ms →
  forallb json_utf8 ((λ m, history_json k (target m) m) <$> ms) = true.
Proof.
  intros Hk. induction 1 as [|m ms Hm Hms IH]; [done|]. rewrite fmap_cons. cbn [forallb].
  rewrite IH, andb_true_r. unfold history_json. apply json_of_utf8.
  destruct (target m); cbn [app]; fields_utf8.
Qed.

Lemma handle_history_dm_handles : handles (handle_history_dm c req id).
Proof.
  apply spec_with_auth; [lia|]. intros uid Hs. destruct (_ =? 0); [by apply handles_error|].
  apply (spec_weaken _ n); [lia|].
  eapply spec_silent; [by eapply (spec_history _ (λ _, True))|]. intros ms.
  eapply spec_pure; [by intros w _ Hms; exact Hms|].
  intros Hms%(history_json_utf8 "receiver_id" m_receiver_id); [|done].
  apply spec_ack_of; [|done|done]. unfold member_utf8. cbn [forallb fst snd json_utf8].
  rewrite Hms. by vm_compute.
Qed.

Lemma handle_history_room_handles : handles (handle_history_room c req id).
Proof.
  apply spec_with_auth; [lia|]. intros uid Hs. destruct (_ =? 0); [by apply handles_error|].
  eapply spec_silent; [by apply (spec_is_member _ (λ _, True))|]. intros [|]; cbn [negb];
    [|by apply handles_error].
  apply (spec_weaken _ n); [lia|].
  eapply spec_silent; [by eapply (spec_history _ (λ _, True))|]. intros ms.
  eapply spec_pure; [by intros w _ Hms; exact Hms|].
  intros Hms%(history_json_utf8 "room_id" m_room_id); [|done].
  apply spec_ack_of; [|done|done]. unfold member_utf8. cbn [forallb fst snd json_utf8].
  rewrite Hms. by vm_compute.
Qed.

Lemma handle_create_room_handles : handles (handle_create_room c req id).
Proof using Hn Hreq.
  apply spec_with_auth; [lia|]. intros uid Hs. pose proof (get_str_utf8 req "name" Hreq) as Hname.
  destruct (_ || _); [by apply handles_error|].
  eapply spec_silent; [by apply (spec_now _ (λ _, True))|]. intros now.
  eapply spec_silent; [by apply spec_create_room|]. intros created.
  set (name := get_str req "name") in *.
  eapply (spec_silent _ _ (n + 1) _ _ _ (λ o w, ∃ rid, o = Some rid ∧
    w.(w_repos).(room_name_idx) !! name = Some rid)).
  { destruct created as [rid|].
    - apply spec_ret. intros w (rid' & Hl & [[= <-]|?]); [|done]. split; [done|]. by exists rid.
    - intros w Hw (rid & Hl & _).
      destruct (spec_find_room_by_name (n + 1) (λ w', w' = w) name w Hw eq_refl)
        as (o & w' & tr & He & Hw' & Hsent & -> & Ho).
      assert (w' = w) as ->.
      { unfold on_repos, find_room_by_name in He. rewrite Hl in He. destruct (map_at _ _);
          injection He as _ <-; by destruct w. }
      exists (room_id <$> o), w, []. erewrite M_bind_ret by exact He.
      split_and!; [done|done|done|done|]. exists rid. by rewrite Ho. }
  intros o. eapply (spec_pure (∃ rid, o = Some rid)); [intros w _ (rid & -> & _); by exists rid|].
  intros [rid ->] w Hw (? & [= <-] & Hl).
  destruct (tab_idx _ _ _ _ _ (ok_rooms _ (so_repos _ _ (wk_store _ _ Hw))) _ _ Hl) as (x & Hx & _).
  pose proof (join_step (n + 1) rid uid w Hw) as Hj. rewrite Hx in Hj.
  destruct Hj as (w1 & w2 & H1' & H2' & Hw2 & Hc).
  erewrite M_bind_ret by exact H1'. erewrite M_bind_ret by exact H2'.
  eapply (spec_after _ (λ _, True)); [|exact Hw2|done|exact Hc].
  apply spec_ack_of; [fields_utf8|done|done].
Qed.

Lemma handle_join_room_handles : handles (handle_join_room c req id).
Proof.
  apply spec_with_auth; [lia|]. intros uid Hs. apply (spec_weaken _ n); [lia|].
  eapply (spec_silent _ _ n _ _ _ (λ _ _, True)).
  { destruct (_ && _); [|by apply spec_ret].
    eapply spec_silent; [apply (spec_find_room_by_name _ (λ _, True))|]. intros r. by apply spec_ret. }
  intros rid. destruct (rid =? 0); [by apply spec_error|]. intros w Hw _.
  pose proof (join_step n rid uid w Hw) as Hj. destruct (rooms (w_repos w) !! rid) as [x|].
  - destruct Hj as (w1 & w2 & H1' & H2' & Hw2 & Hc).
    erewrite M_bind_ret by exact H1'. cbn [negb]. erewrite M_bind_ret by exact H2'.
    eapply (spec_after _ (λ _, True)); [|exact Hw2|done|exact Hc]. by apply spec_ack_of.
  - erewrite M_bind_ret by exact Hj. cbn [negb].
    eapply (spec_after _ (λ _, True)); [|exact Hw|done|done]. by apply spec_error.
Qed.

Lemma handle_leave_room_handles : handles (handle_leave_room c req id).
Proof.
  apply spec_with_auth; [lia|]. intros uid Hs. apply (spec_weaken _ n); [lia|].
  destruct (_ =? 0); [by apply spec_error|]. intros w Hw _.
  destruct (leave_step n (u64 (get_i64 req "room_id" 0)) uid w Hw) as (b & w1 & w2 & H1' & H2' & Hw2 & Hc).
  erewrite M_bind_ret by exact H1'. erewrite M_bind_ret by exact H2'.
  eapply (spec_after _ (λ _, True)); [|exact Hw2|done|exact Hc]. by apply spec_ack.
Qed.

Lemma handle_presence_handles : handles (handle_presence c req id).
Proof.
  apply spec_with_auth; [lia|]. intros uid Hs. apply (spec_weaken _ n); [lia|].
  destruct (_ =? 0); [by apply spec_error|].
  eapply spec_silent; [apply (spec_find_user_by_id _ (λ _, True))|].
  intros [u|]; [|by apply spec_error].
  eapply (spec_pure (utf8_valid (u_username u) = true)); [by intros w _ Hu; apply Hu|]. intros Hname.
  eapply spec_silent; [apply (spec_read _ _ _ (λ _ _, True)); by eexists|].
  intros w. apply spec_ack_of; [fields_utf8|done|done].
Qed.

Lemma handle_ping_handles : handles (handle_ping c req id).
Proof.
  apply (spec_weaken _ n); [lia|]. unfold handle_ping.
  eapply spec_silent; [by apply (spec_now _ (λ _, True))|]. intros t.
  set (j := json_of ([("t", JInt t); ("type", JStr kAck)] ++ opt_field "id" id)).
  set (r := json_of ([("t", JInt t); ("type", JStr kAck)] ++ opt_field "id" id ++ [("type", JStr kPong)])).
  eapply (spec_silent _ _ n _ _ _ (λ a _, a = j)).
  { apply spec_read. intros w _ _. exists j. by subst j; destruct id. }
  intros a. eapply (spec_pure (a = j)); [done|]. intros ->.
  eapply (spec_silent _ _ n _ _ _ (λ a _, a = r)).
  { apply spec_read. intros w _ _. exists r. by subst j r; destruct id. }
  intros a. eapply (spec_pure (a = r)); [done|]. intros ->.
  apply spec_reply; subst r; unfold get_str; rewrite ?json_find_of.
  - apply json_of_utf8. destruct id; by vm_compute.
  - by destruct id.
  - right; right. by destruct id.
Qed.

(** ** Unbinding *)

Lemma world_ok_unbound k p r reads cs w :
  world_ok k w → store_ok k r → store_ext w.(w_repos) r → presence_ok p →
  (∀ u x, x ≠ c → x ∈ slot_of w.(w_presence) u → x ∈ slot_of p u) →
  (∀ x, x ≠ c → cs !! x = w.(w_conns) !! x) →
  (∀ c0, cs !! c = Some c0 → owner_ok r p c c0) →
  world_ok k (set_net cs w.(w_reactor) (set_env reads w.(w_draws) (set_repos r (set_presence p w)))).
Proof.
  intros Hw Hr Hx Hp Hslot Hcs Hc. pose proof (world_ok_set_repos _ _ _ _ Hw Hr Hx) as [Hs Hrm _ Hss Hcn].
  split; cbn in *; try done. intros x cx Hl. destruct (decide (x = c)) as [->|Hne]; [by apply Hc|].
  rewrite Hcs in Hl by done. intros H0'. destruct (Hcn x cx Hl H0') as [Hu Hb].
  split; [done|]. intros Hcl. by apply Hslot, Hb.
Qed.

Lemma unbind_store k uid r' w :
  world_ok k w → (r' = w.(w_repos) ∨ ∃ ts, r' = snd (update_last_seen uid ts w.(w_repos))) →
  store_ok k r' ∧ store_ext w.(w_repos) r'.
Proof.
  intros Hw [->|[ts ->]]; [split; [by destruct Hw|by split]|].
  apply update_last_seen_store. by destruct Hw.
Qed.

(** The unbinding of [handle_logout] and [on_close]. *)
Lemma unbind_step k uid w :
  world_ok k w → ∃ p r reads,
    (if negb (uid =? 0) then presence_unbind uid c ;; mret tt else mret tt) w
      = (Ret tt, set_env reads w.(w_draws) (set_repos r (set_presence p w))) ∧
    store_ok k r ∧ store_ext w.(w_repos) r ∧ presence_ok p ∧
    (∀ u, slot_of p u = if negb (uid =? 0) && (u =? uid) then slot_of w.(w_presence) u ∖ {[c]}
                        else slot_of w.(w_presence) u) ∧
    r.(sessions) = w.(w_repos).(sessions).
Proof.
  intros Hw. destruct (uid =? 0); cbn [negb andb].
  - exists w.(w_presence), w.(w_repos), w.(w_reads).
    split_and!; [by destruct w|by destruct Hw|by split|by destruct Hw|done|done].
  - destruct (presence_unbind_eq uid c w) as (b & p & r & reads & He & Hok & Hslot & Hr).
    destruct (unbind_store k uid r w Hw Hr). exists p, r, reads.
    split_and!; [|done|done|apply Hok; by destruct Hw|done|].
    + by erewrite M_bind_ret by exact He.
    + destruct Hr as [->|[ts ->]]; [done|]. unfold update_last_seen. by case_match.
Qed.

Lemma handle_logout_handles : handles (handle_logout c req id).
Proof.
  apply (spec_weaken _ n); [lia|]. unfold handle_logout.
  eapply spec_silent; [apply (spec_read _ _ _ (λ _ _, True)); by eexists|]. intros tok.
  eapply (spec_silent _ _ n _ _ _ (λ _ _, True)).
  { destruct (negb _); [apply spec_revoke|by apply spec_ret]. }
  intros [] w Hw _. erewrite M_bind_ret by reflexivity.
  destruct (unbind_step n (default 0 (user_id <$> w_conns w !! c)) w Hw)
    as (p & r & reads & He & Hs & Hx & Hp & Hslot & _).
  erewrite M_bind_ret by exact He. clear He. set (w1 := set_env _ _ _).
  pose proof (update_owner_eq c 0 "" w1) as Hu. erewrite M_bind_ret in Hu by apply update_conn_eq.
  erewrite M_bind_ret by apply update_conn_eq. erewrite M_bind_ret by exact Hu. clear Hu.
  assert (world_ok n (set_owner c 0 "" w1)) as Hw1.
  { apply (world_ok_unbound n p r reads _ w); try done.
    - intros u x Hne. rewrite Hslot. case_match; set_solver.
    - intros x Hne. by rewrite lookup_alter_ne.
    - intros c0. rewrite lookup_alter_eq. destruct (w_conns w1 !! c); [|done].
      intros [= <-]. by intros []. }
  destruct (spec_ack n (λ _, True) c id [] eq_refl eq_refl _ Hw1 I) as (a & w' & tr & He & Hw' & Hsent & Ha).
  exists a, w', tr. split_and!; [exact He|done| |done].
  eapply sent_after_silent; [apply (set_owner_sent c 0 "" w1)|exact Hsent].
Qed.

(** ** [dispatch] *)

Lemma find_handler_handles t h : find_handler t handler_table = Some h → handles (h c req id).
Proof using Hn Hreq.
  unfold handler_table, find_handler. intros Hf.
  repeat match type of Hf with
  | (if ?b then _ else _) = _ => destruct b; [injection Hf as <-|]
  end; [..|done].
  - apply handle_register_handles.
  - apply handle_login_handles.
  - apply handle_logout_handles.
  - apply handle_send_dm_handles.
  - apply handle_send_room_handles.
  - apply handle_create_room_handles.
  - apply handle_join_room_handles.
  - apply handle_leave_room_handles.
  - apply handle_list_rooms_handles.
  - apply handle_history_dm_handles.
  - apply handle_history_room_handles.
  - apply handle_presence_handles.
  - apply handle_ping_handles.
Qed.

Lemma try_handler_handles h : handles (h c req id) → handles (try_handler h c req id).
Proof.
  intros Hh w Hw HP. destruct (Hh w Hw HP) as (a & w' & tr & He & ?). exists a, w', tr.
  unfold try_handler. by rewrite He.
Qed.
End handlers.

(** The id of the request in [payload], when it parses and has one. *)
Definition payload_id `{FloatText} (payload : string) : option Z :=
  parse payload ≫= request_id.

Lemma dispatch_handles `{Env, FloatText, FloatCast, Settings} n c payload :
  n <= u64_max - 2 → handles n c (payload_id payload) (dispatch c payload).
Proof.
  intros Hn. unfold dispatch, payload_id. destruct (parse payload) as [req|] eqn:Hp.
  2:{ change (None ≫= request_id) with (@None Z). by apply handles_error. }
  change (Some req ≫= request_id) with (request_id req).
  apply parse_utf8 in Hp. destruct (str_empty _); [by apply handles_error|].
  destruct (find_handler _ _) as [h|] eqn:Hf.
  - by eapply try_handler_handles, find_handler_handles.
  - apply handles_error; [done|]. by apply utf8_valid_app_ascii, get_str_utf8.
Qed.
