(* ===== verification/Server.v ===== *)
(** * The running server: [src/net/server.cpp], the callbacks of
      [src/chat/chat_server.cpp], and the reactor's post queue

    The reactor thread accepts connections, reads frames and runs posted
    closures; every frame becomes a task of the worker pool; a worker runs the
    task's [dispatch].  [server_step] is one such action, and a run is any sequence
    of them: a worker may take any waiting task.  A handler is one action here;
    [Interleaving] runs the handlers access by access and relates the two. *)
From S2P Require Import Prelude Util Crypto Framing Repositories Session Presence RoomManager.
From S2P Require Import Messages Json JsonProofs Connection World Router Handlers HandlerLogic.
From S2P Require Import HandlerSpecs.

Record Server := mkServer {
  sv_world : World;
  sv_conns : gset Z;
  sv_listening : bool;
  sv_next_id : Z;
  sv_tasks : list (Z * string);     (** the pool's [q_] *)
  sv_stopping : bool;               (** the pool's [stopping_] *)
}.

Definition set_world (w : World) (y : Server) : Server :=
  mkServer w y.(sv_conns) y.(sv_listening) y.(sv_next_id) y.(sv_tasks) y.(sv_stopping).
Definition set_conns (s : gset Z) (y : Server) : Server :=
  mkServer y.(sv_world) s y.(sv_listening) y.(sv_next_id) y.(sv_tasks) y.(sv_stopping).
Definition set_tasks (l : list (Z * string)) (y : Server) : Server :=
  mkServer y.(sv_world) y.(sv_conns) y.(sv_listening) y.(sv_next_id) l y.(sv_stopping).

Definition register_connection (cid : Z) (y : Server) : Server :=
  set_conns ({[cid]} ∪ y.(sv_conns)) y.
Definition unregister_connection (cid : Z) (y : Server) : Server :=
  set_conns (y.(sv_conns) ∖ {[cid]}) y.

(** ** Accepting *)

(** What one [accept] returns. *)
Inductive accept_result := AcceptOk | AcceptAgain | AcceptIntr | AcceptError.

(** [Connection::make], [register_connection], [start]; [on_connect] only logs. *)
Definition accept_connection (max : Z) (y : Server) : Server :=
  let cid := y.(sv_next_id) in
  let w := y.(sv_world) in
  let '(_, (c, r)) := start (conn_init cid max, w.(w_reactor)) in
  register_connection cid
    (mkServer (set_net (<[cid := c]> w.(w_conns)) r w) y.(sv_conns) y.(sv_listening)
       (u64 (cid + 1)) y.(sv_tasks) y.(sv_stopping)).

(** [on_listen_event]: accept until the first failure. *)
Fixpoint on_listen_event (max : Z) (script : list accept_result) (y : Server) : Server :=
  match script with
  | AcceptOk :: script => on_listen_event max script (accept_connection max y)
  | _ => y
  end.

(** ** Events of a connection *)

(** [ChatServer::on_frame]: one task for the pool, which rejects it when it is
    stopping; [on_frame] ignores the result of [submit]. *)
Definition on_frame (cid : Z) (payload : string) (y : Server) : Server :=
  if y.(sv_stopping) then y else set_tasks (y.(sv_tasks) ++ [(cid, payload)]) y.

(** The reactor calls [Connection::on_event], which calls [on_frame] per payload. *)
Definition conn_event (cid events : Z) (rs : list recv_result) (ss : list send_result)
    (y : Server) : Server :=
  let w := y.(sv_world) in
  match w.(w_conns) !! cid with
  | None => y
  | Some c =>
      match on_event events rs ss (c, w.(w_reactor)) with
      | (Ret (frames, _), (c, r)) =>
          foldl (λ y p, on_frame cid p y) (set_world (set_net (<[cid := c]> w.(w_conns)) r w) y) frames
      | (Throw _, (c, r)) => set_world (set_net (<[cid := c]> w.(w_conns)) r w) y
      end
  end.

Definition post_cid (p : post) : Z :=
  match p with PFlush cid | PScheduleClose cid | PDeliverClose cid => cid end.

Section server.
Context `{Env, FloatText, FloatCast, Settings}.

(** The close handler given to [start]: [on_close], then [unregister_connection];
    [drain_posts] swallows an exception. *)
Definition close_handler (cid : Z) (y : Server) : Server :=
  match on_close cid y.(sv_world) with
  | (Ret _, w) => unregister_connection cid (set_world w y)
  | (Throw _, w) => set_world w y
  end.

(** One closure of [drain_posts]. *)
Definition run_posted (p : post) (ss : list send_result) (y : Server) : Server :=
  let w := y.(sv_world) in
  match w.(w_conns) !! post_cid p with
  | None => y
  | Some c =>
      match run_post p ss (c, w.(w_reactor)) with
      | (Ret (_, closed_now), (c, r)) =>
          let y := set_world (set_net (<[post_cid p := c]> w.(w_conns)) r w) y in
          if closed_now then close_handler (post_cid p) y else y
      | (Throw _, (c, r)) => set_world (set_net (<[post_cid p := c]> w.(w_conns)) r w) y
      end
  end.

(** [drain_posts]: the queue is swapped out, then run in order. *)
Definition drain_posts (sss : list (list send_result)) (y : Server) : Server :=
  let batch := y.(sv_world).(w_reactor).(posts) in
  let w := y.(sv_world) in
  let w := set_net w.(w_conns) (mkReactor [] w.(w_reactor).(interest)) w in
  foldl (λ y '(i, p), run_posted p (nth i sss []) y) (set_world w y) (imap pair batch).

(** ** Workers *)

(** A worker runs the [i]-th waiting task to its end. *)
Definition run_task (i : nat) (y : Server) : Server :=
  match y.(sv_tasks) !! i with
  | None => y
  | Some (cid, payload) =>
      set_world (snd (dispatch cid payload y.(sv_world))) (set_tasks (delete i y.(sv_tasks)) y)
  end.

(** ** Shutdown *)

(** [Server::stop]: close the listener, empty the map, close every connection. *)
Definition stop (y : Server) : Server :=
  let snap := elements y.(sv_conns) in
  let '(_, w) := mfor snap (λ cid, on_conn cid Connection.close) y.(sv_world) in
  mkServer w ∅ false y.(sv_next_id) y.(sv_tasks) y.(sv_stopping).

(** The part of [ChatServer::stop] after [Server::stop] that other threads see at
    once: the pool stops taking tasks.  [reactor_->stop()] ends the reactor's
    actions; the workers finish the queue. *)
Definition pool_stop (y : Server) : Server :=
  mkServer y.(sv_world) y.(sv_conns) y.(sv_listening) y.(sv_next_id) y.(sv_tasks) true.

Inductive server_op :=
| SvListen (script : list accept_result)
| SvEvent (cid events : Z) (rs : list recv_result) (ss : list send_result)
| SvPosts (sss : list (list send_result))
| SvTask (i : nat)
| SvStop
| SvPoolStop.

(** A listening socket whose event the reactor delivers only while it is registered. *)
Definition server_step (max : Z) (o : server_op) (y : Server) : Server :=
  match o with
  | SvListen script => if y.(sv_listening) then on_listen_event max script y else y
  | SvEvent cid ev rs ss => conn_event cid ev rs ss y
  | SvPosts sss => drain_posts sss y
  | SvTask i => run_task i y
  | SvStop => stop y
  | SvPoolStop => pool_stop y
  end.
End server.

(** ** What I/O keeps of a connection *)

(** The owner and the id. *)
Definition same_owner (c c' : Connection) : Prop :=
  c'.(user_id) = c.(user_id) ∧ c'.(token) = c.(token) ∧ c'.(conn_id) = c.(conn_id).

Lemma schedule_close_owner c r :
  same_owner c (snd (schedule_close (c, r))).1 ∧ closed (snd (schedule_close (c, r))).1 = closed c.
Proof. unfold schedule_close. by case_match. Qed.

Lemma set_read_owner c c' :
  set_read [] true 4 c' = set_read [] true 4 c → same_owner c c' ∧ closed c' = closed c.
Proof. destruct c, c'. by intros [= -> -> -> -> -> -> -> -> ->]. Qed.

Lemma on_readable_owner rs out c r :
  ∃ fs c' r', on_readable rs out (c, r) = (Ret fs, (c', r')) ∧ same_owner c c' ∧
    c'.(closed) = c.(closed).
Proof.
  destruct (on_readable_effect rs out c r) as (fs & c' & r' & -> & [[Hc _]|(c1 & Hc & Hs)]).
  - exists fs, c', r'. by apply set_read_owner in Hc as [].
  - exists fs, c', r'. apply set_read_owner in Hc as [(? & ? & ?) ?].
    destruct (schedule_close_owner c1 r) as [(? & ? & ?) ?]. rewrite <-Hs in *. cbn [fst] in *.
    split; [done|]. split; [repeat split|]; congruence.
Qed.

Lemma try_flush_owner ss out c r :
  ∃ l c' r', try_flush_locked ss out (c, r) = (Ret l, (c', r')) ∧ same_owner c c' ∧
    c'.(closed) = c.(closed).
Proof.
  destruct (try_flush_spec ss out c r) as (moved & c' & r' & -> & Hf).
  do 3 eexists. split; [done|]. by rewrite (fl_conn _ _ _ _ _ Hf).
Qed.

Lemma on_event_owner ev rs ss c r :
  ∃ out c' r', on_event ev rs ss (c, r) = (Ret out, (c', r')) ∧ same_owner c c' ∧
    c'.(closed) = c.(closed).
Proof.
  unfold on_event. destruct (closed c) eqn:Hcl; [by do 3 eexists|].
  assert (∃ fs c1 r1, (if Z.testbit ev 0 then match on_readable rs [] (c, r) with
      | (Ret f, cr) => (f, cr) | (Throw _, cr) => ([], cr) end else ([], (c, r))) = (fs, (c1, r1)) ∧
      same_owner c c1 ∧ c1.(closed) = c.(closed)) as (fs & c1 & r1 & -> & Ho & Hc1).
  { destruct (Z.testbit ev 0); [|by do 3 eexists].
    destruct (on_readable_owner rs [] c r) as (fs & c1 & r1 & -> & ?). by do 3 eexists. }
  rewrite Hc1, Hcl. destruct (Z.testbit ev 1); [|do 3 eexists; split; [done|]; by rewrite Hc1].
  unfold on_writable. destruct (try_flush_owner ss [] c1 r1) as (l & c2 & r2 & -> & (? & ? & ?) & ?).
  destruct Ho as (? & ? & ?). do 3 eexists. split; [done|]. split; [repeat split|]; congruence.
Qed.

Lemma run_post_owner p ss c r :
  ∃ l b c' r', run_post p ss (c, r) = (Ret (l, b), (c', r')) ∧ same_owner c c' ∧
    c'.(closed) = c.(closed) || b ∧ (b = true → c.(closed) = false).
Proof.
  destruct p as [cid|cid|cid]; cbn [run_post].
  - destruct (closed c) eqn:Hcl; [by do 4 eexists; rewrite orb_false_r|].
    destruct (try_flush_owner ss [] c r) as (l & c' & r' & -> & Ho & Hc).
    do 4 eexists. split; [done|]. by rewrite Hc, Hcl.
  - destruct (schedule_close_owner c r) as [Ho Hc]. destruct (schedule_close (c, r)) as [o [c' r']].
    cbn [fst snd] in *. do 4 eexists. split; [done|]. by rewrite Hc, orb_false_r.
  - unfold deliver_close. destruct (closed c) eqn:Hcl.
    + do 4 eexists. split; [done|]. by rewrite Hcl.
    + do 4 eexists. split; [done|]. done.
Qed.

(** ** The invariant of the server *)

Record server_ok (n : Z) (y : Server) : Prop := {
  sv_world_ok : world_ok n y.(sv_world);
  sv_ids : ∀ cid, is_Some (y.(sv_world).(w_conns) !! cid) ↔ 1 <= cid < y.(sv_next_id);
  sv_next : 1 <= y.(sv_next_id) <= n + 1;
  sv_registered : ∀ cid, cid ∈ y.(sv_conns) →
    ∃ c, y.(sv_world).(w_conns) !! cid = Some c ∧ c.(closed) = false;
  sv_open : y.(sv_listening) = true → ∀ cid c, y.(sv_world).(w_conns) !! cid = Some c →
    c.(closed) = false → cid ∈ y.(sv_conns);
  sv_task_conns : ∀ t, t ∈ y.(sv_tasks) → is_Some (y.(sv_world).(w_conns) !! t.1);
}.

(** The same connections, each as open as before. *)
Definition same_conns (cs cs' : gmap Z Connection) : Prop :=
  ∀ cid, closed <$> cs' !! cid = closed <$> cs !! cid.

Lemma same_conns_is_Some cs cs' cid :
  same_conns cs cs' → is_Some (cs' !! cid) ↔ is_Some (cs !! cid).
Proof.
  intros H. specialize (H cid). destruct (cs !! cid), (cs' !! cid); try done; split; by intros [].
Qed.

Lemma same_conns_open cs cs' cid :
  same_conns cs cs' → (∃ c, cs' !! cid = Some c ∧ c.(closed) = false) ↔
    (∃ c, cs !! cid = Some c ∧ c.(closed) = false).
Proof.
  intros H. specialize (H cid).
  destruct (cs !! cid) as [c|], (cs' !! cid) as [c'|]; simpl in H; [injection H as H|done..].
  split; intros (x & [= <-] & Hcl); eexists; (split; [done|congruence]).
Qed.

Lemma sent_same_conns tr cs cs' : sent tr cs cs' → same_conns cs cs'.
Proof.
  intros Hs cid. specialize (Hs cid). destruct (cs !! cid) as [c|] eqn:E; simpl in *.
  - destruct (cs' !! cid) as [c'|]; [|done]. simpl in *. injection Hs as Hs. f_equal.
    change (closed c') with (closed (anon c')). rewrite Hs.
    by destruct (push_all_owner (payloads cid tr) (anon c)) as (_ & _ & ->).
  - by destruct (cs' !! cid).
Qed.

Lemma same_conns_insert cs cid c c' :
  cs !! cid = Some c → c'.(closed) = c.(closed) → same_conns cs (<[cid := c']> cs).
Proof.
  intros Hc Hcl x. destruct (decide (x = cid)) as [->|].
  - rewrite lookup_insert_eq, Hc. simpl. by rewrite Hcl.
  - by rewrite lookup_insert_ne.
Qed.

(** Replacing the world by one with the same connections. *)
Lemma server_ok_world n n' w tasks y :
  server_ok n y → n <= n' → world_ok n' w → same_conns y.(sv_world).(w_conns) w.(w_conns) →
  (∀ t, t ∈ tasks → t ∈ y.(sv_tasks) ∨ is_Some (y.(sv_world).(w_conns) !! t.1)) →
  server_ok n' (set_world w (set_tasks tasks y)).
Proof.
  intros [Hw Hids Hnx Hreg Hop Ht] Hn Hw' Hs Htasks.
  pose proof (λ cid, same_conns_is_Some _ _ cid Hs) as Hd.
  pose proof (λ cid, same_conns_open _ _ cid Hs) as Ho. split; cbn; [done| |lia| | |].
  - intros cid. by rewrite Hd.
  - intros cid Hin. by apply Ho, Hreg.
  - intros Hl cid c Hc Hcl. destruct (proj1 (Ho cid) ltac:(by exists c)) as (c0 & Hc0 & Hcl0).
    by eapply Hop.
  - intros t Hin. rewrite Hd. destruct (Htasks t Hin) as [?|?]; [by apply Ht|done].
Qed.

Lemma world_ok_conn n cid c c' re w :
  world_ok n w → w.(w_conns) !! cid = Some c → same_owner c c' →
  (c'.(closed) = false → c.(closed) = false) →
  world_ok n (set_net (<[cid := c']> w.(w_conns)) re w).
Proof.
  intros [Hs Hr Hp Hss Hc] Hl (Hu & _ & _) Hcl. split; cbn; try done.
  intros x cx. destruct (decide (x = cid)) as [->|Hne].
  - rewrite lookup_insert_eq. intros [= <-]. unfold owner_ok. rewrite Hu. intros H0.
    destruct (Hc cid c Hl H0). split; [done|]. auto.
  - rewrite lookup_insert_ne by done. apply Hc.
Qed.

(** ** Each action keeps it *)

Section steps.
Context `{Env, FloatText, FloatCast, Settings}.

Lemma accept_connection_ok n max y :
  server_ok n y → n <= u64_max - 2 → server_ok (n + 1) (accept_connection max y).
Proof.
  intros [Hw Hids Hnx Hreg Hop Ht] Hn. unfold accept_connection. cbn [start].
  set (cid := sv_next_id y) in *.
  assert (w_conns (sv_world y) !! cid = None) as Hfresh.
  { apply eq_None_not_Some. rewrite Hids. lia. }
  assert (u64 (cid + 1) = cid + 1) as Hu.
  { apply u64_small. unfold is_u64, u64_max in *. lia. }
  split; cbn [sv_world sv_next_id sv_conns sv_listening sv_tasks sv_stopping register_connection set_conns
              set_net w_conns].
  - destruct (world_ok_weaken n (n + 1) _ ltac:(lia) Hw) as [Hs Hr Hp Hss Hc]. split; cbn; try done.
    intros x cx. rewrite lookup_insert_Some. intros [[<- <-]|[_ Hl]]; [by intros []|by apply Hc].
  - intros x. rewrite Hu. destruct (decide (x = cid)) as [->|].
    + rewrite lookup_insert_eq. split; [lia|by eexists].
    + rewrite lookup_insert_ne by done. rewrite Hids. lia.
  - lia.
  - intros x [->%elem_of_singleton|Hin]%elem_of_union.
    + exists (conn_init cid max). by rewrite lookup_insert_eq.
    + destruct (Hreg x Hin) as (c & Hc & Hcl). exists c. rewrite lookup_insert_ne; [done|congruence].
  - intros Hl x c. rewrite lookup_insert_Some. intros [[<- _]|[_ Hc]] Hcl; [set_solver|].
    apply elem_of_union. right. by eapply Hop.
  - intros t Hin. destruct (decide (t.1 = cid)) as [->|];
      [rewrite lookup_insert_eq; by eexists|rewrite lookup_insert_ne by done; by apply Ht].
Qed.

Lemma server_ok_weaken n n' y : n <= n' → server_ok n y → server_ok n' y.
Proof.
  intros Hn [Hw Hids Hnx Hreg Hop Ht]. split; try done; [|lia]. by eapply world_ok_weaken.
Qed.

Lemma on_listen_event_ok n max script y :
  server_ok n y → n + Z.of_nat (length script) <= u64_max - 1 →
  server_ok (n + Z.of_nat (length script)) (on_listen_event max script y).
Proof.
  revert n y. induction script as [|x script IH]; intros n y Hy Hn; cbn [on_listen_event length] in *.
  { apply (server_ok_weaken n); [lia|done]. }
  destruct x; [|apply (server_ok_weaken n); [lia|done]..].
  replace (n + Z.of_nat (S (length script))) with (n + 1 + Z.of_nat (length script)) by lia.
  apply IH; [|lia]. apply accept_connection_ok; [done|lia].
Qed.

Lemma on_frame_ok n cid p y :
  server_ok n y → is_Some (y.(sv_world).(w_conns) !! cid) → server_ok n (on_frame cid p y).
Proof.
  intros Hy Hc. pose proof Hy as [Hw _ _ _ _ _]. destruct y as [w cs l nx ts sp]. cbn in *.
  unfold on_frame. cbn [sv_stopping]. destruct sp; [exact Hy|].
  apply (server_ok_world n n w (ts ++ [(cid, p)]) (mkServer w cs l nx ts false)); try done.
  intros t [Hin|Hin]%elem_of_app; [by left|]. apply list_elem_of_singleton in Hin as ->. by right.
Qed.

Lemma on_frames_ok n cid ps y :
  server_ok n y → is_Some (y.(sv_world).(w_conns) !! cid) →
  server_ok n (foldl (λ y p, on_frame cid p y) y ps).
Proof.
  revert y. induction ps as [|p ps IH]; intros y Hy Hc; [done|]. cbn [foldl].
  apply IH; [by apply on_frame_ok|]. unfold on_frame. by destruct (sv_stopping y).
Qed.

(** One connection replaced after I/O, as open as before. *)
Lemma server_ok_io n cid c c' re y :
  server_ok n y → y.(sv_world).(w_conns) !! cid = Some c → same_owner c c' →
  c'.(closed) = c.(closed) →
  server_ok n (set_world (set_net (<[cid := c']> y.(sv_world).(w_conns)) re y.(sv_world)) y).
Proof.
  intros Hy Hc Ho Hcl. pose proof Hy as [Hw _ _ _ _ _]. destruct y as [w cs l nx ts sp]. cbn in *.
  apply (server_ok_world n n _ ts (mkServer w cs l nx ts sp)); cbn; [done|done| | |by left].
  - eapply world_ok_conn; [done|done|done|congruence].
  - by eapply same_conns_insert.
Qed.

Lemma conn_event_ok n cid ev rs ss y : server_ok n y → server_ok n (conn_event cid ev rs ss y).
Proof.
  intros Hy. unfold conn_event. destruct (w_conns (sv_world y) !! cid) as [c|] eqn:Hc; [|done].
  destruct (on_event_owner ev rs ss c (w_reactor (sv_world y))) as ([fs sent] & c' & r' & -> & Ho & Hcl).
  apply on_frames_ok; [by eapply server_ok_io|]. cbn. rewrite lookup_insert_eq. by eexists.
Qed.

(** [on_close] of a connection that has just been closed. *)
Lemma on_close_ok n cid w :
  world_ok n w → (∀ c, w.(w_conns) !! cid = Some c → c.(closed) = true) →
  ∃ w', on_close cid w = (Ret tt, w') ∧ world_ok n w' ∧ w'.(w_conns) = w.(w_conns).
Proof.
  intros Hw Hcl. unfold on_close. erewrite M_bind_ret by reflexivity.
  destruct (unbind_step cid n (default 0 (user_id <$> w_conns w !! cid)) w Hw)
    as (p & r & reads & -> & Hs & Hx & Hp & Hslot & _).
  eexists. split; [reflexivity|]. split; [|done].
  assert (world_ok n (set_net (w_conns w) (w_reactor w)
    (set_env reads (w_draws w) (set_repos r (set_presence p w))))) as Hok; [|by destruct w].
  apply (world_ok_unbound cid n p r reads _ w); try done.
  - intros u x Hne. rewrite Hslot. case_match; set_solver.
  - intros c Hc H0'. destruct (wk_conns _ _ Hw cid c Hc H0') as [Hu _]. split; [by apply Hx|].
    by rewrite (Hcl c Hc).
Qed.

Lemma close_handler_ok n cid c c' re y :
  server_ok n y → y.(sv_world).(w_conns) !! cid = Some c → same_owner c c' → c'.(closed) = true →
  server_ok n (close_handler cid
    (set_world (set_net (<[cid := c']> y.(sv_world).(w_conns)) re y.(sv_world)) y)).
Proof.
  intros [Hw Hids Hnx Hreg Hop Ht] Hc Ho Hcl. unfold close_handler. cbn [sv_world set_world].
  set (w1 := set_net _ _ _).
  assert (world_ok n w1) as Hw1 by (eapply world_ok_conn; [done|done|done|congruence]).
  destruct (on_close_ok n cid w1 Hw1) as (w2 & -> & Hw2 & Hcs).
  { intros x. cbn. rewrite lookup_insert_eq. by intros [= <-]. }
  split; cbn; [done| |done| | |]; rewrite Hcs; cbn.
  - intros x. rewrite <-Hids. destruct (decide (x = cid)) as [->|];
      [rewrite lookup_insert_eq, Hc; split; by eexists|by rewrite lookup_insert_ne].
  - intros x [Hin Hne]%elem_of_difference. rewrite lookup_insert_ne by set_solver. by apply Hreg.
  - intros Hl x cx. destruct (decide (x = cid)) as [->|].
    + rewrite lookup_insert_eq. intros [= <-]. congruence.
    + rewrite lookup_insert_ne by done. intros Hx Hxc. pose proof (Hop Hl x cx Hx Hxc). set_solver.
  - intros t Hin. destruct (decide (t.1 = cid)) as [->|];
      [rewrite lookup_insert_eq; by eexists|rewrite lookup_insert_ne by done; by apply Ht].
Qed.

Lemma run_posted_ok n p ss y : server_ok n y → server_ok n (run_posted p ss y).
Proof.
  intros Hy. unfold run_posted. destruct (w_conns (sv_world y) !! post_cid p) as [c|] eqn:Hc; [|done].
  destruct (run_post_owner p ss c (w_reactor (sv_world y))) as (l & b & c' & r' & -> & Ho & Hcl & Hb).
  destruct b; [|rewrite orb_false_r in Hcl; by eapply server_ok_io].
  rewrite orb_true_r in Hcl. by eapply close_handler_ok.
Qed.

Lemma set_reactor_ok n re y :
  server_ok n y → server_ok n (set_world (set_net y.(sv_world).(w_conns) re y.(sv_world)) y).
Proof.
  intros [Hw Hids Hnx Hreg Hop Ht]. split; try done. by destruct Hw.
Qed.

Lemma drain_posts_ok n sss y : server_ok n y → server_ok n (drain_posts sss y).
Proof.
  intros Hy. unfold drain_posts.
  pose proof (set_reactor_ok n (mkReactor [] (interest (w_reactor (sv_world y)))) y Hy) as Hy1.
  revert Hy1. generalize (set_world (set_net (w_conns (sv_world y))
    (mkReactor [] (interest (w_reactor (sv_world y)))) (sv_world y)) y) as y1.
  generalize (imap pair (posts (w_reactor (sv_world y)))) as batch.
  induction batch as [|[i p] batch IH]; intros y1 Hy1; [done|]. cbn [foldl].
  by apply IH, run_posted_ok.
Qed.

(** Running a task: the connections get message events, then the one reply. *)
Lemma run_task_spec n i cid payload y :
  server_ok n y → n <= u64_max - 2 → y.(sv_tasks) !! i = Some (cid, payload) →
  ∃ tr, server_ok (n + 1) (run_task i y) ∧ answer cid (payload_id payload) tr ∧
    sent tr y.(sv_world).(w_conns) (run_task i y).(sv_world).(w_conns) ∧
    (run_task i y).(sv_tasks) = delete i y.(sv_tasks).
Proof.
  intros Hy Hn Ht. unfold run_task. rewrite Ht.
  destruct (dispatch_handles n cid payload Hn _ (sv_world_ok _ _ Hy) I)
    as (u & w' & tr & -> & Hw' & Hs & Ha). cbn [snd].
  exists tr. split_and!; [|exact Ha|exact Hs|done].
  apply (server_ok_world n); [done|lia|done|by eapply sent_same_conns|].
  intros t Hin. left. apply list_elem_of_lookup in Hin as [k Hk]. rewrite list_lookup_delete in Hk.
  case_match; by eapply list_elem_of_lookup_2.
Qed.

Lemma run_task_ok n i y :
  server_ok n y → n <= u64_max - 2 → server_ok (n + 1) (run_task i y).
Proof.
  intros Hy Hn. destruct (sv_tasks y !! i) as [[cid payload]|] eqn:Ht.
  - by destruct (run_task_spec n i cid payload y Hy Hn Ht) as (tr & ? & _).
  - unfold run_task. rewrite Ht. apply (server_ok_weaken n); [lia|done].
Qed.

Lemma close_all_spec n l w :
  world_ok n w → ∃ w', mfor l (λ cid, on_conn cid Connection.close) w = (Ret tt, w') ∧
    world_ok n w' ∧ same_conns w.(w_conns) w'.(w_conns).
Proof.
  revert w. induction l as [|cid l IH]; intros w Hw; cbn [mfor]; [by exists w|].
  assert (∃ w1, on_conn cid Connection.close w = (Ret tt, w1) ∧ world_ok n w1 ∧
    same_conns w.(w_conns) w1.(w_conns)) as (w1 & H1' & Hw1 & Hs1).
  { unfold on_conn. destruct (w_conns w !! cid) as [c|] eqn:Hc; [|by exists w].
    destruct (schedule_close_owner c (w_reactor w)) as [Ho Hcl]. unfold Connection.close.
    destruct (schedule_close (c, w_reactor w)) as [o [c' r']] eqn:E. cbn [fst snd] in *.
    assert (o = Ret tt) as -> by (unfold schedule_close in E; case_match; by injection E).
    eexists. split; [done|]. split; [eapply world_ok_conn; [done|done|done|congruence]|].
    by eapply same_conns_insert. }
  destruct (IH w1 Hw1) as (w2 & H2' & Hw2 & Hs2). exists w2. erewrite M_bind_ret by exact H1'.
  split_and!; [done|done|]. intros x. by rewrite Hs2.
Qed.

Lemma stop_ok n y : server_ok n y → server_ok n (stop y).
Proof.
  intros Hy. pose proof Hy as [Hw Hids Hnx Hreg Hop Ht]. unfold stop.
  destruct (close_all_spec n (elements (sv_conns y)) _ Hw) as (w' & -> & Hw' & Hs).
  pose proof (λ cid, same_conns_is_Some _ _ cid Hs) as Hd. split; cbn; [done| |done|set_solver|done|].
  - intros cid. by rewrite Hd.
  - intros t Hin. rewrite Hd. by apply Ht.
Qed.
End steps.

(** ** Reachable states *)

(** At start-up: the store as loaded, the sessions warmed, nothing connected. *)
Definition server_start (w : World) : Server := mkServer w ∅ true 1 [] false.

(** How many ids an action can use up. *)
Definition op_cost (o : server_op) : Z :=
  match o with
  | SvListen script => Z.of_nat (length script)
  | SvTask _ => 1
  | _ => 0
  end.

Inductive server_reach `{Env, FloatText, FloatCast, Settings} (max : Z) (w0 : World) : Z → Server → Prop :=
| sreach_start : server_reach max w0 0 (server_start w0)
| sreach_step n y o : server_reach max w0 n y →
    server_reach max w0 (n + op_cost o) (server_step max o y).

Lemma server_start_ok n w :
  world_ok n w → w.(w_conns) = ∅ → 0 <= n → server_ok n (server_start w).
Proof.
  intros Hw Hc Hn. split; cbn; try rewrite Hc; [done| |lia|set_solver| |set_solver].
  - intros cid. rewrite lookup_empty. split; [by intros []|lia].
  - intros _ cid c. by rewrite lookup_empty.
Qed.

Lemma server_reach_cost `{Env, FloatText, FloatCast, Settings} max w0 n y : server_reach max w0 n y → 0 <= n.
Proof. induction 1 as [|n y o _ IH]; [done|]. destruct o; cbn; lia. Qed.

Lemma server_reach_ok `{Env, FloatText, FloatCast, Settings} max w0 n0 n y :
  world_ok n0 w0 → 0 <= n0 → w0.(w_conns) = ∅ → server_reach max w0 n y →
  n0 + n <= u64_max - 1 → server_ok (n0 + n) y.
Proof.
  intros Hw Hn0 Hc Hr. induction Hr as [|n y o Hr IH]; intros Hn.
  { rewrite Z.add_0_r. by apply server_start_ok. }
  pose proof (server_reach_cost _ _ _ _ Hr).
  destruct o as [script|cid ev rs ss|sss|i| |]; cbn [server_step op_cost] in *;
    rewrite ?Z.add_0_r in *; try specialize (IH Hn).
  - specialize (IH ltac:(lia)). destruct (sv_listening y).
    + rewrite Z.add_assoc. apply on_listen_event_ok; [done|lia].
    + eapply server_ok_weaken; [|done]. lia.
  - by apply conn_event_ok.
  - by apply drain_posts_ok.
  - specialize (IH ltac:(lia)). rewrite Z.add_assoc. apply run_task_ok; [done|lia].
  - by apply stop_ok.
  - by destruct IH.
Qed.

(** A server that starts with an empty store. *)
Definition fresh_world (ttl : Z) : World :=
  mkWorld repos_init (sessions_init ttl) presence_init rooms_init ∅ reactor_init 0 0.

Lemma fresh_world_ok ttl : world_ok 0 (fresh_world ttl).
Proof.
  split; cbn.
  - split; [apply repos_init_ok|done|constructor|]. split; intros id x; cbn; by rewrite lookup_empty.
  - apply rooms_inv_init, repos_init_ok.
  - apply presence_init_ok.
  - intros tok info. by rewrite lookup_empty.
  - intros cid c. by rewrite lookup_empty.
Qed.

(** ** Properties *)

(** C2: whatever the threads do, in any order (accept connections, read any
    bytes, run posted closures, run waiting tasks in any order, stop; each action
    as one step), the state stays consistent: the store's tables and indexes agree, the room cache agrees
    with the store, every session and every logged-in connection belongs to an
    existing user, an open logged-in connection is among its user's connections,
    the connections registered with the listener are open, and while it listens
    all open ones are registered. *)
Theorem server_stays_consistent `{Env, FloatText, FloatCast, Settings} max ttl n y :
  server_reach max (fresh_world ttl) n y → n <= u64_max - 1 → server_ok n y.
Proof.
  intros Hr Hn. apply (server_reach_ok max (fresh_world ttl) 0 n y);
    [apply fresh_world_ok|done|done|done|lia].
Qed.

(** C1: a worker that takes any waiting task of any reachable state runs it to the
    end: the task leaves the queue, no exception escapes, and what the
    connections are handed is a sequence of message events followed by exactly one
    reply (an ack, an error or a pong), to the connection that asked, with the
    request's id (and no id when the request has none or does not parse). *)
Theorem server_answers_every_task `{Env, FloatText, FloatCast, Settings} max ttl n y i cid payload :
  server_reach max (fresh_world ttl) n y → n <= u64_max - 2 →
  y.(sv_tasks) !! i = Some (cid, payload) →
  ∃ evs reply,
    Forall is_event evs ∧ is_reply (payload_id payload) reply ∧
    sent (evs ++ [(cid, reply)]) y.(sv_world).(w_conns) (run_task i y).(sv_world).(w_conns) ∧
    (run_task i y).(sv_tasks) = delete i y.(sv_tasks) ∧
    (∃ w, dispatch cid payload y.(sv_world) = (Ret tt, w)).
Proof.
  intros Hr Hn Ht.
  assert (server_ok n y) as Hy.
  { apply (server_reach_ok max (fresh_world ttl) 0 n y); [apply fresh_world_ok|done..|lia]. }
  destruct (run_task_spec n i cid payload y Hy Hn Ht) as (tr & _ & (evs & s & -> & He & Hs) & Hsent & Htl).
  exists evs, s. split_and!; [done|done|done|done|].
  destruct (dispatch_handles n cid payload Hn _ (sv_world_ok _ _ Hy) I) as ([] & w & _ & Hd & _).
  by exists w.
Qed.

(** *** An example run *)

Definition test_cast : FloatCast := {| cast_out_of_range := λ _, 0 |}.
Definition test_settings : Settings := {| max_message := 4096; pbkdf2_iter := 1 |}.

(** The text of a request. *)
Definition text_of (kvs : list (string * json)) : string :=
  match @dump test_float (json_of kvs) with Ret s => s | Throw _ => "" end.

Definition test_step : server_op → Server → Server :=
  @server_step test_env test_float test_cast test_settings 65536.
Definition test_reach : Z → Server → Prop :=
  @server_reach test_env test_float test_cast test_settings 65536 (fresh_world 3600).

(** One client connects and sends a ping. *)
Definition ping_text : string := text_of [("type", JStr "ping"); ("id", JInt 7)].
Definition ping_ops : list server_op :=
  [SvListen [AcceptOk; AcceptAgain];
   SvEvent 1 EvRead [RecvData (to_bytes (frame ping_text))] []].
Definition pinged : Server := foldl (λ y o, test_step o y) (server_start (fresh_world 3600)) ping_ops.

Lemma pinged_reach : test_reach 2 pinged.
Proof.
  apply (@sreach_step test_env test_float test_cast test_settings 65536 _ 2 _
    (SvEvent 1 EvRead [RecvData (to_bytes (frame ping_text))] [])).
  apply (@sreach_step test_env test_float test_cast test_settings 65536 _ 0 _
    (SvListen [AcceptOk; AcceptAgain])).
  apply sreach_start.
Qed.

Lemma server_stays_consistent_witness : server_ok 2 pinged.
Proof.
  apply (@server_stays_consistent test_env test_float test_cast test_settings 65536 3600 2 pinged
           pinged_reach). by vm_compute.
Defined.

Lemma server_answers_every_task_witness :
  ∃ evs reply, Forall (@is_event test_float) evs ∧ @is_reply test_float (Some 7) reply ∧
    sent (evs ++ [(1, reply)]) pinged.(sv_world).(w_conns)
      (test_step (SvTask 0) pinged).(sv_world).(w_conns).
Proof.
  destruct (@server_answers_every_task test_env test_float test_cast test_settings 65536 3600 2 pinged
              0 1 ping_text pinged_reach) as (evs & reply & He & Hr & Hs & _);
    [by vm_compute|by vm_compute|].
  exists evs, reply. split; [exact He|]. split; [|exact Hs].
  assert (@payload_id test_float ping_text = Some 7) as <- by by vm_compute. exact Hr.
Defined.
