(* ===== verification/Workers.v ===== *)
(** * The server with its threads: [Server] composed with [ThreadPool]

    In [Server] a waiting task is run to its end in one action and in any order.
    Here the tasks are in the pool of [ThreadPool], with its workers, mutex and
    condition variable: [on_frame] calls [submit], a worker takes the first task of
    the queue, and the task's [dispatch] runs when the worker finishes it, while
    other workers have started others.  The composition refines [Server], so its
    theorems hold of it, and what the pool guarantees of tasks becomes a guarantee
    on requests. *)
From S2P Require Import Prelude Util Crypto Framing Repositories Session Presence RoomManager.
From S2P Require Import Messages Json JsonProofs Connection World Router Handlers HandlerLogic.
From S2P Require Import HandlerSpecs ThreadPool Server.

Abbreviation task := (Z * string)%type.

(** The server's state beside the pool; its own task list and flag are not used. *)
Record Threads := mkThreads { t_server : Server; t_pool : Pool task }.

(** The same server with other tasks and another flag. *)
Definition retask (l : list task) (b : bool) (y : Server) : Server :=
  mkServer y.(sv_world) y.(sv_conns) y.(sv_listening) y.(sv_next_id) l b.

(** [on_frame] for each frame of an event, in order; [submit] blocks while a worker
    holds [mu_], and its result is ignored. *)
Fixpoint submit_all (l : list task) (p : Pool task) : option (Pool task) :=
  match l with
  | [] => Some p
  | t :: l => match submit t p with Some (_, p) => submit_all l p | None => None end
  end.

Section threads.
Context `{Env, FloatText, FloatCast, Settings}.
Variable max : Z.

Inductive thread_op :=
| TrListen (script : list accept_result)
| TrEvent (cid events : Z) (rs : list recv_result) (ss : list send_result)
| TrPosts (sss : list (list send_result))
| TrStop
| TrPool (o : pool_op task).

(** A callback of the reactor that hands nothing to the pool. *)
Definition on_reactor (o : server_op) (d : Threads) : option Threads :=
  Some (mkThreads (server_step max o d.(t_server)) d.(t_pool)).

(** A step of the pool; the worker that ends a job has run its [dispatch], whose
    exceptions [worker_loop] swallows. *)
Definition pool_act (o : pool_op task) (d : Threads) : option Threads :=
  match pool_step o d.(t_pool) with
  | None => None
  | Some p =>
      let y := d.(t_server) in
      match o with
      | TWorker i =>
          match d.(t_pool).(workers) !! i with
          | Some (WRunning (cid, payload)) =>
              Some (mkThreads (set_world (snd (dispatch cid payload y.(sv_world))) y) p)
          | _ => Some (mkThreads y p)
          end
      | TSubmit _ => None           (** only [on_frame] submits *)
      | _ => Some (mkThreads y p)
      end
  end.

Definition thread_step (o : thread_op) (d : Threads) : option Threads :=
  match o with
  | TrListen script => on_reactor (SvListen script) d
  | TrPosts sss => on_reactor (SvPosts sss) d
  | TrStop => on_reactor SvStop d
  | TrEvent cid ev rs ss =>
      let y := conn_event cid ev rs ss (retask [] false d.(t_server)) in
      match submit_all y.(sv_tasks) d.(t_pool) with
      | Some p => Some (mkThreads y p)
      | None => None
      end
  | TrPool o => pool_act o d
  end.

(** The ids an action can use up: those of the connections it accepts, and one for
    a finished job. *)
Definition thread_cost (o : thread_op) (d : Threads) : Z :=
  match o with
  | TrListen script => Z.of_nat (length script)
  | TrPool (TWorker i) =>
      match d.(t_pool).(workers) !! i with Some (WRunning _) => 1 | _ => 0 end
  | _ => 0
  end.

(** A server with [k] workers started from the world [w0]. *)
Inductive thread_reach (w0 : World) (k : nat) : Z → Threads → Prop :=
| treach_start : thread_reach w0 k 0 (mkThreads (server_start w0) (pool_init k))
| treach_step n d o d' :
    thread_reach w0 k n d → thread_step o d = Some d' → thread_reach w0 k (n + thread_cost o d) d'.

(** ** The reactor's callbacks do not see the tasks *)

Lemma on_listen_retask l b script y :
  on_listen_event max script (retask l b y) = retask l b (on_listen_event max script y).
Proof.
  revert y. induction script as [|[] script IH]; intros y; cbn [on_listen_event]; try done.
  assert (accept_connection max (retask l b y) = retask l b (accept_connection max y)) as ->; [|done].
  unfold accept_connection. cbn [retask sv_world sv_next_id].
  by destruct (start _) as [? [c r]].
Qed.

Lemma close_handler_retask l b cid y : close_handler cid (retask l b y) = retask l b (close_handler cid y).
Proof.
  unfold close_handler. cbn [retask sv_world]. by destruct (on_close cid (sv_world y)) as [[]].
Qed.

Lemma run_posted_retask l b p ss y : run_posted p ss (retask l b y) = retask l b (run_posted p ss y).
Proof.
  unfold run_posted. cbn [retask sv_world]. destruct (_ !! _) as [c|]; [|done].
  destruct (run_post _ _ _) as [[[? []]|] [c' r']]; try done.
  by rewrite <-close_handler_retask.
Qed.

Lemma drain_posts_retask l b sss y : drain_posts sss (retask l b y) = retask l b (drain_posts sss y).
Proof.
  unfold drain_posts. cbn [retask sv_world]. generalize (imap pair (posts (w_reactor (sv_world y)))) as batch.
  intros batch. set (w := set_net _ _ _).
  change (set_world w (retask l b y)) with (retask l b (set_world w y)).
  generalize (set_world w y) as z. clear.
  induction batch as [|[i p] batch IH]; intros z; [done|]. cbn [foldl].
  by rewrite run_posted_retask, IH.
Qed.

Lemma stop_retask l b y : stop (retask l b y) = retask l b (stop y).
Proof. unfold stop. cbn [retask sv_world sv_conns]. by destruct (mfor _ _ _). Qed.

(** The frames of an event reach the pool, or nobody when it is stopping. *)
Lemma on_frames_retask cid fs l b y :
  foldl (λ y p, on_frame cid p y) (retask l b y) fs =
  retask (if b then l else l ++ (pair cid <$> fs)) b y.
Proof.
  revert l. induction fs as [|f fs IH]; intros l; cbn [foldl]; [by destruct b; rewrite ?app_nil_r|].
  unfold on_frame at 2. cbn [sv_stopping retask]. destruct b.
  - by rewrite IH.
  - change (set_tasks (sv_tasks (retask l false y) ++ [(cid, f)]) (retask l false y))
      with (retask (l ++ [(cid, f)]) false y).
    rewrite IH, fmap_cons. by rewrite <-app_assoc.
Qed.

Lemma conn_event_retask l b cid ev rs ss y :
  let y0 := conn_event cid ev rs ss (retask [] false y) in
  conn_event cid ev rs ss (retask l b y) =
  retask (if b then l else l ++ y0.(sv_tasks)) b y0.
Proof.
  cbv zeta. unfold conn_event. cbn [retask sv_world].
  destruct (w_conns (sv_world y) !! cid) as [c|]; [|by destruct b; rewrite ?app_nil_r].
  destruct (on_event _ _ _ _) as [[[fs snt]|e] [c' r']].
  - set (w := set_net _ _ _).
    change (set_world w (retask l b y)) with (retask l b (set_world w y)).
    change (set_world w (retask [] false y)) with (retask [] false (set_world w y)).
    by rewrite !on_frames_retask.
  - cbn. destruct b; rewrite ?app_nil_r; done.
Qed.

(** ** Submitting *)

Lemma submit_all_reach k l p p' :
  pool_reach k p → submit_all l p = Some p' → pool_reach k p'.
Proof.
  revert p. induction l as [|t l IH]; intros p Hp; cbn [submit_all]; [by intros [= <-]|].
  destruct (submit t p) as [[b p1]|] eqn:E; [|done]. apply IH.
  apply (preach_step k (TSubmit t) p); [done|]. cbn. by rewrite E.
Qed.

Lemma submit_all_effect l p p' :
  submit_all l p = Some p' →
  p'.(stopping) = p.(stopping) ∧ p'.(workers) = p.(workers) ∧
  p'.(q) = (if p.(stopping) then p.(q) else p.(q) ++ l) ∧
  p'.(accepted) = (if p.(stopping) then p.(accepted) else p.(accepted) ++ l) ∧
  p'.(finished) = p.(finished).
Proof.
  revert p. induction l as [|t l IH]; intros p; cbn [submit_all].
  - intros [= <-]. destruct (stopping p); rewrite ?app_nil_r; done.
  - unfold submit. destruct (stopping p) eqn:Hs.
    + intros (-> & -> & -> & -> & ->)%IH. by rewrite Hs.
    + destruct (mu_free p); [|done]. intros (-> & -> & -> & -> & ->)%IH. cbn.
      by rewrite <-!app_assoc.
Qed.

(** ** The steps of workers *)

(** The jobs being run and waiting. *)
Definition jobs (p : Pool task) : list task := running p ++ p.(q).

(** A worker that ends a job removes it; no other step of the pool changes the jobs. *)
Lemma worker_jobs i p p' :
  worker_loop i p = Some p' →
  p'.(stopping) = p.(stopping) ∧
  match p.(workers) !! i with
  | Some (WRunning t) => jobs p ≡ₚ t :: jobs p'
  | _ => jobs p' ≡ₚ jobs p
  end.
Proof.
  unfold worker_loop, jobs, running. destruct (workers p !! i) as [[| | |t|]|] eqn:Hi; try done.
  - destruct (mu_free p); [|done]. destruct (q p) as [|t q'] eqn:Hq.
    + rewrite orb_false_r. destruct (stopping p) eqn:Hs; intros [= <-]; cbn; rewrite Hq, Hs;
        (split; [done|]); by rewrite (running_same _ _ _ _ Hi) by done.
    + rewrite orb_true_r. intros [= <-]. split; [done|]. cbn.
      pose proof (running_insert _ _ (WRunning t) _ Hi) as Hr. cbn [job_of] in Hr.
      rewrite app_nil_r in Hr. by rewrite Hr, <-app_assoc.
  - intros [= <-]. split; [done|]. cbn. by rewrite (running_same _ _ _ _ Hi) by done.
  - intros [= <-]. split; [done|]. cbn.
    pose proof (running_insert _ _ WTop _ Hi) as Hr. cbn [job_of] in Hr. rewrite app_nil_r in Hr.
    by rewrite <-Hr, <-app_assoc, (Permutation_app_comm [t]), app_assoc, Permutation_app_comm.
Qed.

Lemma quiet_jobs o p p' :
  pool_step o p = Some p' → (∀ t, o ≠ TSubmit t) → (∀ i, o ≠ TWorker i) → jobs p' ≡ₚ jobs p.
Proof.
  unfold jobs, running. destruct o as [t|i|i|i| |]; intros Hs Hns Hnw; [by destruct (Hns t)| |by destruct (Hnw i)|..].
  - cbn in Hs. unfold notify_one in Hs. destruct (notifies p); [done|]. destruct (existsb _ _).
    + destruct (workers p !! i) as [[]|] eqn:Hi; try done. injection Hs as <-. cbn.
      by rewrite (running_same _ _ _ _ Hi) by done.
    + by injection Hs as <-.
  - cbn in Hs. unfold spurious in Hs. destruct (workers p !! i) as [[]|] eqn:Hi; try done.
    injection Hs as <-. cbn. by rewrite (running_same _ _ _ _ Hi) by done.
  - by injection Hs as <-.
  - injection Hs as <-. cbn. rewrite <-list_fmap_compose.
    by rewrite (list_fmap_ext (job_of ∘ wake) job_of (workers p)) by (intros ? [] ?; done).
Qed.

Lemma quiet_stopping o (p p' : Pool task) :
  pool_step o p = Some p' → (∀ t, o ≠ TSubmit t) → o ≠ TSetStopping → p'.(stopping) = p.(stopping).
Proof.
  destruct o as [t|i|i|i| |]; intros Hs Hns Hn; [by destruct (Hns t)|..|done|].
  - cbn in Hs. unfold notify_one in Hs. repeat case_match; by simplify_eq.
  - by apply worker_jobs in Hs as [].
  - cbn in Hs. unfold spurious in Hs. repeat case_match; by simplify_eq.
  - by injection Hs as <-.
Qed.

(** ** Refinement *)

(** The abstract state: the same server, its waiting tasks are the jobs. *)
Definition refines (d : Threads) (y : Server) : Prop :=
  ∃ l, y = retask l d.(t_pool).(stopping) d.(t_server) ∧ l ≡ₚ jobs d.(t_pool).

Lemma reactor_refines o d d' y :
  (∀ l b s, server_step max o (retask l b s) = retask l b (server_step max o s)) →
  on_reactor o d = Some d' → refines d y → refines d' (server_step max o y).
Proof. intros Ho [= <-] (l & -> & Hl). exists l. by rewrite Ho. Qed.

(** The abstract state after the action a step stands for, or the same when it
    stands for none. *)
Definition simulated (w0 : World) (n cost : Z) (d' : Threads) : Prop :=
  ∃ y', server_reach max w0 (n + cost) y' ∧ refines d' y'.

Lemma simulated_act w0 n y so d' :
  server_reach max w0 n y → refines d' (server_step max so y) → simulated w0 n (op_cost so) d'.
Proof. intros Hy Hr. eexists. split; [apply (sreach_step max w0 n y so); exact Hy|exact Hr]. Qed.

Lemma simulated_idle w0 n y d' : server_reach max w0 n y → refines d' y → simulated w0 n 0 d'.
Proof. intros Hy Hr. exists y. by rewrite Z.add_0_r. Qed.

Lemma worker_simulates w0 n d i d' y :
  thread_step (TrPool (TWorker i)) d = Some d' → server_reach max w0 n y → refines d y →
  simulated w0 n (thread_cost (TrPool (TWorker i)) d) d'.
Proof.
  cbn [thread_step]. unfold pool_act. intros Hs Hy (l & -> & Hl).
  destruct (pool_step _ _) as [p|] eqn:E; [|done]. cbn in E. apply worker_jobs in E as [Hst Hj].
  cbn [thread_cost].
  destruct (workers (t_pool d) !! i) as [[| | |[cid payload]|]|] eqn:Hi; injection Hs as <-;
    try (eapply simulated_idle; [exact Hy|]; exists l; cbn [t_server t_pool]; by rewrite Hst, Hj).
  rewrite Hj in Hl. assert ((cid, payload) ∈ l) as [k Hk]%list_elem_of_lookup by (rewrite Hl; by left).
  eapply (simulated_act _ _ _ (SvTask k)); [exact Hy|]. cbn [server_step]. unfold run_task.
  cbn [retask sv_tasks]. rewrite Hk. exists (delete k l). cbn [t_server t_pool]. rewrite Hst.
  split; [done|]. apply (Permutation_cons_inv (a := (cid, payload))). rewrite <-Hl. symmetry.
  by apply delete_Permutation.
Qed.

Lemma pool_simulates w0 n d o d' y :
  thread_step (TrPool o) d = Some d' → server_reach max w0 n y → refines d y →
  simulated w0 n (thread_cost (TrPool o) d) d'.
Proof.
  destruct o as [t|i|i|i| |]; try apply worker_simulates;
    cbn [thread_step]; unfold pool_act; intros Hs Hy (l & -> & Hl);
    destruct (pool_step _ _) as [p|] eqn:E; try done; injection Hs as <-.
  1,2,4: eapply simulated_idle; [exact Hy|]; exists l; cbn [t_server t_pool];
    by rewrite (quiet_stopping _ _ _ E), (quiet_jobs _ _ _ E).
  eapply (simulated_act _ _ _ SvPoolStop); [exact Hy|]. injection E as <-. by exists l.
Qed.

Lemma thread_simulates w0 n d o d' y :
  thread_step o d = Some d' → server_reach max w0 n y → refines d y →
  simulated w0 n (thread_cost o d) d'.
Proof.
  intros Hs Hy Hr. destruct o as [script|cid ev rs ss|sss| |o]; [..|by eapply pool_simulates];
    cbn [thread_step] in Hs.
  - eapply (simulated_act _ _ _ (SvListen script)); [exact Hy|]. eapply reactor_refines; [|done|done].
    intros l b s. cbn [server_step retask sv_listening]. destruct (sv_listening s); [|done].
    apply on_listen_retask.
  - eapply (simulated_act _ _ _ (SvEvent cid ev rs ss)); [exact Hy|]. destruct Hr as (l & -> & Hl).
    destruct (submit_all _ _) as [p|] eqn:E; [|done]. injection Hs as <-.
    apply submit_all_effect in E as (Hst & Hw & Hq & _). cbn [server_step].
    rewrite (conn_event_retask l (stopping (t_pool d)) cid ev rs ss (t_server d)).
    eexists. cbn [t_server t_pool]. rewrite Hst. split; [reflexivity|].
    unfold jobs, running. rewrite Hw, Hq. destruct (stopping (t_pool d)); [done|].
    by rewrite Hl, app_assoc.
  - eapply (simulated_act _ _ _ (SvPosts sss)); [exact Hy|]. eapply reactor_refines; [|done|done].
    intros. apply drain_posts_retask.
  - eapply (simulated_act _ _ _ SvStop); [exact Hy|]. eapply reactor_refines; [|done|done].
    intros. apply stop_retask.
Qed.

Lemma thread_reach_refines w0 k n d :
  thread_reach w0 k n d → ∃ y, server_reach max w0 n y ∧ refines d y.
Proof.
  induction 1 as [|n d o d' Hr (y & Hy & Hd) Hs].
  - exists (server_start w0). split; [constructor|]. exists []. split; [done|].
    unfold jobs, running. cbn. rewrite app_nil_r.
    by induction (if (k =? 0)%nat then 1%nat else k) as [|m IH].
  - by eapply thread_simulates.
Qed.

Lemma thread_reach_pool w0 k n d : thread_reach w0 k n d → pool_reach k d.(t_pool).
Proof.
  induction 1 as [|n d o d' Hr IH Hs]; [constructor|].
  destruct o as [script|cid ev rs ss|sss| |o]; cbn [thread_step] in Hs; try (by injection Hs as <-).
  - destruct (submit_all _ _) as [p|] eqn:E; [|done]. injection Hs as <-. by eapply submit_all_reach.
  - unfold pool_act in Hs. destruct (pool_step o (t_pool d)) as [p|] eqn:E; [|done].
    assert (t_pool d' = p) as -> by (repeat case_match; by simplify_eq).
    by eapply preach_step.
Qed.
End threads.

(** ** What the threads guarantee of requests *)

(** A job that a worker runs is answered when it ends. *)
Lemma job_answered `{Env, FloatText, FloatCast, Settings} max n d y i cid payload :
  server_ok n y → n <= u64_max - 2 → refines d y →
  d.(t_pool).(workers) !! i = Some (WRunning (cid, payload)) →
  ∃ d' tr, thread_step max (TrPool (TWorker i)) d = Some d' ∧
    d'.(t_pool).(finished) = d.(t_pool).(finished) ++ [(cid, payload)] ∧
    answer cid (payload_id payload) tr ∧
    sent tr d.(t_server).(sv_world).(w_conns) d'.(t_server).(sv_world).(w_conns).
Proof.
  intros Hy Hn (l & -> & Hl) Hi.
  destruct (dispatch_handles n cid payload Hn _ (sv_world_ok _ _ Hy) I) as ([] & w' & tr & Hd & _ & Hs & Ha).
  cbn [retask sv_world] in Hd, Hs. cbn [thread_step]. unfold pool_act. cbn [pool_step]. unfold worker_loop.
  rewrite Hi, Hd. do 2 eexists. split; [reflexivity|]. done.
Qed.

(** C12: the server with its real pool (workers, queue, mutex, condition variable)
    refines the abstract server: every state its threads can reach shows a state
    of the abstract machine, with the same connections and components and the jobs
    of the pool as waiting tasks, and that state is consistent.  A worker that ends a
    job has sent exactly one reply for it, to its connection and with its id, after
    any events; and when the pool has been joined every accepted request has been
    run, so answered, exactly once. *)
Theorem threads_answer_requests `{Env, FloatText, FloatCast, Settings} max ttl k n d :
  thread_reach max (fresh_world ttl) k n d → n <= u64_max - 2 →
  (∃ y, server_reach max (fresh_world ttl) n y ∧ refines d y ∧ server_ok n y) ∧
  (∀ i cid payload, d.(t_pool).(workers) !! i = Some (WRunning (cid, payload)) →
     ∃ d' evs reply, thread_step max (TrPool (TWorker i)) d = Some d' ∧
       d'.(t_pool).(finished) = d.(t_pool).(finished) ++ [(cid, payload)] ∧
       Forall is_event evs ∧ is_reply (payload_id payload) reply ∧
       sent (evs ++ [(cid, reply)]) d.(t_server).(sv_world).(w_conns)
         d'.(t_server).(sv_world).(w_conns)) ∧
  (joined d.(t_pool) = true → d.(t_pool).(q) = [] ∧ d.(t_pool).(finished) ≡ₚ d.(t_pool).(accepted)).
Proof.
  intros Hr Hn. destruct (thread_reach_refines max _ _ _ _ Hr) as (y & Hy & Hd).
  assert (server_ok n y) as Hok.
  { apply (server_reach_ok max (fresh_world ttl) 0 n y); [apply fresh_world_ok|done..|lia]. }
  split; [by exists y|]. split.
  - intros i cid payload Hi.
    destruct (job_answered max n d y i cid payload Hok Hn Hd Hi) as (d' & tr & Hs & Hf & (evs & s & -> & He & Hp) & Hsent).
    by exists d', evs, s.
  - apply (pool_shutdown_drains k). by eapply thread_reach_pool.
Qed.

(** *** An example run: two workers, one client that pings *)

Definition test_thread_step : thread_op → Threads → option Threads :=
  @thread_step test_env test_float test_cast test_settings 65536.
Definition test_thread_reach : Z → Threads → Prop :=
  @thread_reach test_env test_float test_cast test_settings 65536 (fresh_world 3600) 2.

Fixpoint thread_run (ops : list thread_op) (n : Z) (d : Threads) : option (Z * Threads) :=
  match ops with
  | [] => Some (n, d)
  | o :: ops =>
      match test_thread_step o d with
      | Some d' => thread_run ops (n + thread_cost o d) d'
      | None => None
      end
  end.

Lemma thread_run_reach ops n d n' d' :
  test_thread_reach n d → thread_run ops n d = Some (n', d') → test_thread_reach n' d'.
Proof.
  revert n d. induction ops as [|o ops IH]; intros n d Hr; cbn [thread_run]; [by intros [= <- <-]|].
  destruct (test_thread_step o d) as [d1|] eqn:E; [|done]. apply IH. by eapply treach_step.
Qed.

(** Worker 1 has taken the request, worker 0 waits. *)
Definition ping_threads : list thread_op :=
  [TrPool (TWorker 0); TrPool (TWorker 0); TrListen [AcceptOk; AcceptAgain];
   TrEvent 1 EvRead [RecvData (to_bytes (frame ping_text))] []; TrPool (TWorker 1)].
Definition pinged_threads : Z * Threads :=
  default (0, mkThreads (server_start (fresh_world 3600)) (pool_init 2))
    (thread_run ping_threads 0 (mkThreads (server_start (fresh_world 3600)) (pool_init 2))).

Lemma threads_answer_requests_witness :
  ∃ d' evs reply,
    test_thread_step (TrPool (TWorker 1)) pinged_threads.2 = Some d' ∧
    @is_reply test_float (Some 7) reply ∧
    sent (evs ++ [(1, reply)]) pinged_threads.2.(t_server).(sv_world).(w_conns)
      d'.(t_server).(sv_world).(w_conns).
Proof.
  assert (test_thread_reach pinged_threads.1 pinged_threads.2) as Hr.
  { apply (thread_run_reach ping_threads 0 (mkThreads (server_start (fresh_world 3600)) (pool_init 2)));
      [constructor|vm_compute; reflexivity]. }
  destruct (@threads_answer_requests test_env test_float test_cast test_settings 65536 3600 2
    pinged_threads.1 pinged_threads.2 Hr) as (_ & Hjob & _); [vm_compute; discriminate|].
  destruct (Hjob 1%nat 1 ping_text) as (d' & evs & reply & Hs & _ & _ & Hrep & Hsent);
    [vm_compute; reflexivity|].
  exists d', evs, reply. split; [exact Hs|]. split; [|exact Hsent].
  assert (@payload_id test_float ping_text = Some 7) as <- by (vm_compute; reflexivity). exact Hrep.
Defined.
