(* ===== verification/Programs.v ===== *)
(** * Handlers at the granularity of their locks

    [Handlers.v] runs a request as one transition.  The code runs requests on
    several worker threads at once; what is atomic there is one access to shared
    state: a method of a component that holds its mutex throughout, one atomic
    field, one clock reading.  This file writes the router, the session manager's
    methods, the transition handler, every request handler, [dispatch] and
    [ChatServer::on_close] again as programs over such accesses, and shows that a
    program run without interruption is the function of [Handlers.v].
    [Interleaving.v] runs the programs of many threads in any order.

    A method of [RoomManager] that loads a room reads the store while it holds its
    own mutex; nobody sees the cache in between, so it is one access. *)
From S2P Require Import Prelude Util Crypto Framing Repositories Session Presence RoomManager.
From S2P Require Import Messages Json Connection World Router Handlers.

(** ** Programs *)

(** One access to the shared state.  [Call] is the start of
    [Connection::send_frame], the test of the two flags and of the size; [Append]
    is its insertion into [wbuf_] under [mu_]. *)
Inductive effect : Type → Type :=
| Do {B : Type} (m : M World B) : effect B
| Call (cid : Z) (payload : string) : effect bool
| Append (cid : Z) (payload : string) : effect unit.

(** A program makes an access and goes on with what it returned or threw. *)
Inductive prog (A : Type) : Type :=
| Done (a : A)
| Fail (e : exn)
| Act {B : Type} (x : effect B) (k : outcome B → prog A).
Arguments Done {A} a.
Arguments Fail {A} e.
Arguments Act {A B} x k.

Fixpoint pbind {A B : Type} (p : prog A) (f : A → prog B) : prog B :=
  match p with
  | Done a => f a
  | Fail e => Fail e
  | Act x k => Act x (λ o, pbind (k o) f)
  end.

#[export] Instance prog_ret : MRet prog := λ A a, Done a.
#[export] Instance prog_bind : MBind prog := λ A B f p, pbind p f.

(** [try { p } catch (...) { h }]. *)
Fixpoint catch {A : Type} (p : prog A) (h : exn → prog A) : prog A :=
  match p with
  | Done a => Done a
  | Fail e => h e
  | Act x k => Act x (λ o, catch (k o) h)
  end.

(** A computation that touches no shared state. *)
Definition pure_of {A : Type} (o : outcome A) : prog A :=
  match o with Ret a => Done a | Throw e => Fail e end.

Definition act {B : Type} (m : M World B) : prog B := Act (Do m) pure_of.

Fixpoint pfor {A : Type} (l : list A) (f : A → prog unit) : prog unit :=
  match l with
  | [] => mret tt
  | x :: l => f x ;; pfor l f
  end.

(** *** Running a program without interruption *)

Definition send_check (cid : Z) (payload : string) : M World bool := λ w,
  (Ret match w.(w_conns) !! cid with Some c => accepts c payload | None => false end, w).

Definition send_append (cid : Z) (payload : string) : M World unit :=
  update_conn cid (λ c,
    set_write (c.(wbuf) ++ be32 (u32 (Z.of_nat (String.length payload))) ++ to_bytes payload)
      c.(write_armed) c).

Definition perform {B : Type} (x : effect B) : M World B :=
  match x with
  | Do m => m
  | Call cid payload => send_check cid payload
  | Append cid payload => send_append cid payload
  end.

Fixpoint run {A : Type} (p : prog A) : M World A := λ w,
  match p with
  | Done a => (Ret a, w)
  | Fail e => (Throw e, w)
  | Act x k => let '(o, w') := perform x w in run (k o) w'
  end.

(** ** [Connection::send_frame] *)

(** [reactor_->post] of the flush. *)
Definition send_post (cid : Z) : M World unit :=
  on_conn cid (λ '(c, r), (Ret tt, (c, reactor_post (PFlush c.(conn_id)) r))).

Definition send_frame_p (cid : Z) (payload : string) : prog unit :=
  accepted ← Act (Call cid payload) pure_of;
  if accepted : bool then Act (Append cid payload) pure_of ;; act (send_post cid) else mret tt.

(** ** Accesses of their own *)

(** The locked parts of [SessionManager::create] and [revoke]. *)
Definition cache_session (tok : string) (uid now : Z) : M World unit :=
  modify (λ w, set_sess (set_cache (<[tok := mkSessionInfo uid
    (now + w.(w_sessions).(ttl_seconds) * 1000)]>) w.(w_sessions)) w).
Definition uncache_session (tok : string) : M World unit :=
  modify (λ w, set_sess (set_cache (delete tok) w.(w_sessions)) w).
Definition session_ttl : M World Z := λ w, (Ret w.(w_sessions).(ttl_seconds), w).

(** The locked parts of [Presence::bind], [unbind] and [is_online]. *)
Definition bind_step (uid c : Z) : M World bool := λ w,
  let '(p, transitioned) := bind_locked uid c w.(w_presence) in (Ret transitioned, set_presence p w).
Definition unbind_step (uid c : Z) : M World bool := λ w,
  match unbind_locked uid c w.(w_presence) with
  | None => (Ret false, w)
  | Some (p, went_offline) => (Ret went_offline, set_presence p w)
  end.
Definition online_step (uid : Z) : M World bool := λ w, (Ret (is_online w.(w_presence) uid), w).

Section programs.
Context `{Env, FloatText, FloatCast, Settings}.

(** ** The router *)

Definition send_dm_p (sender receiver : Z) (content : string) : prog Z :=
  ts ← act now_unix_ms;
  oid ← act (on_repos (insert_dm sender receiver content ts));
  match oid with
  | None => mret 0
  | Some id =>
      event ← pure_of (event_text id sender (Some receiver) None content ts);
      conns ← act (conns_of receiver);
      (if bool_decide (conns = []) then act (on_repos (enqueue_undelivered id receiver))
       else pfor conns (λ c, send_frame_p c event) ;; act (on_repos (update_message_status id 1))) ;;
      own ← act (conns_of sender);
      pfor own (λ c, send_frame_p c event) ;;
      mret id
  end.

Definition room_deliver_p (id sender : Z) (event : string) (uid : Z) : prog unit :=
  conns ← act (conns_of uid);
  if bool_decide (conns = [])
  then (if negb (uid =? sender) then act (on_repos (enqueue_undelivered id uid)) else mret tt)
  else pfor conns (λ c, send_frame_p c event).

Definition send_room_p (sender room : Z) (content : string) : prog Z :=
  member ← act (on_rooms (RoomManager.is_member room sender));
  if negb member then mret 0
  else
    ts ← act now_unix_ms;
    oid ← act (on_repos (insert_room_msg sender room content ts));
    match oid with
    | None => mret 0
    | Some id =>
        event ← pure_of (event_text id sender None (Some room) content ts);
        members ← act (on_rooms (members_of room));
        pfor members (room_deliver_p id sender event) ;;
        mret id
    end.

Definition replay_offline_p (user : Z) : prog unit :=
  pending ← act (on_repos (drain_undelivered user));
  if bool_decide (pending = []) then mret tt
  else
    conns ← act (conns_of user);
    if bool_decide (conns = []) then mret tt
    else pfor pending (λ m,
           s ← pure_of (message_text m);
           pfor conns (λ c, send_frame_p c s)).

(** ** Presence and sessions *)

Definition on_transition_p (uid : Z) (online : bool) : prog unit :=
  if negb online then ts ← act now_unix_ms; act (on_repos (update_last_seen uid ts))
  else replay_offline_p uid.

Definition bind_p (uid c : Z) : prog bool :=
  transitioned ← act (bind_step uid c);
  (if transitioned : bool then on_transition_p uid true else mret tt) ;;
  mret transitioned.

Definition unbind_p (uid c : Z) : prog bool :=
  went_offline ← act (unbind_step uid c);
  (if went_offline : bool then on_transition_p uid false else mret tt) ;;
  mret went_offline.

Definition on_close_p (c : Z) : prog unit :=
  uid ← act (conn_user c);
  if negb (uid =? 0) then unbind_p uid c ;; mret tt else mret tt.

Definition create_p (uid : Z) : prog string :=
  rand ← act (random_bytes 32);
  let tok := make_session_token rand in
  now ← act now_unix_ms;
  act (cache_session tok uid now) ;;
  act (on_repos (insert_session tok uid now)) ;;
  mret tok.

Definition revoke_p (tok : string) : prog unit :=
  act (uncache_session tok) ;;
  act (on_repos (delete_session tok)).

(** ** Helpers of the handlers *)

Definition send_p (c : Z) (j : json) : prog unit :=
  s ← pure_of (dump j); send_frame_p c s.

Definition send_ack_p (c : Z) (id : option Z) (data : json) : prog unit :=
  j ← pure_of (make_ack id data); send_p c j.

Definition authenticate_p (c uid : Z) (tok : string) : prog unit :=
  act (update_conn c (set_user_id uid)) ;;
  act (update_conn c (set_session_token tok)) ;;
  bind_p uid c ;;
  mret tt.

Definition require_auth_p (c : Z) (req : json) (id : option Z) : prog Z :=
  uid ← act (conn_user c);
  if negb (uid =? 0) then mret uid
  else
    let tok := get_str req "token" in
    if str_empty tok then
      send_p c (make_error id kUnauthorized "missing session token") ;; mret 0
    else
      info ← act (sessions_validate tok);
      match info with
      | None => send_p c (make_error id kUnauthorized "invalid or expired token") ;; mret 0
      | Some info => authenticate_p c info.(si_user_id) tok ;; mret info.(si_user_id)
      end.

(** ** Handlers *)

Definition handle_register_p (c : Z) (req : json) (id : option Z) : prog unit :=
  let user := get_str req "username" in
  let pass := get_str req "password" in
  if str_empty user || str_empty pass || (64 <? Z.of_nat (String.length user))
     || (Z.of_nat (String.length pass) <? 4)
  then send_p c (make_error id kBadRequest "username/password invalid")
  else
    salt ← act (random_bytes 16);
    let hash := make_password_hash pass pbkdf2_iter salt in
    now ← act now_unix_ms;
    new_id ← act (on_repos (create_user user hash now));
    match new_id with
    | None => send_p c (make_error id kConflict "username already taken")
    | Some uid =>
        send_ack_p c id (json_of [("user_id", JUint uid); ("username", JStr user)])
    end.

Definition handle_login_p (c : Z) (req : json) (id : option Z) : prog unit :=
  let user := get_str req "username" in
  let pass := get_str req "password" in
  u ← act (on_repos (find_user_by_username user));
  match u with
  | Some u =>
      if verify_password_hash pass u.(u_password_hash) then
        tok ← create_p u.(u_id);
        authenticate_p c u.(u_id) tok ;;
        ttl ← act session_ttl;
        send_ack_p c id (json_of [("user_id", JUint u.(u_id)); ("username", JStr u.(u_username));
                                  ("token", JStr tok); ("ttl_s", JInt ttl)])
      else send_p c (make_error id kUnauthorized "bad credentials")
  | None => send_p c (make_error id kUnauthorized "bad credentials")
  end.

Definition handle_logout_p (c : Z) (req : json) (id : option Z) : prog unit :=
  tok ← act (conn_token c);
  (if negb (str_empty tok) then revoke_p tok else mret tt) ;;
  uid ← act (conn_user c);
  (if negb (uid =? 0) then unbind_p uid c ;; mret tt else mret tt) ;;
  act (update_conn c (set_user_id 0)) ;;
  act (update_conn c (set_session_token "")) ;;
  send_ack_p c id (JObj []).

Definition ack_message_p (c : Z) (id : option Z) (msg_id : Z) : prog unit :=
  t ← act now_unix_ms;
  send_ack_p c id (json_of [("msg_id", JUint msg_id); ("timestamp", JInt t)]).

Definition handle_send_dm_p (c : Z) (req : json) (id : option Z) : prog unit :=
  sender ← require_auth_p c req id;
  if sender =? 0 then mret tt
  else
    let receiver := u64 (get_i64 req "receiver_id" 0) in
    let content := get_str req "content" in
    if (receiver =? 0) || str_empty content
    then send_p c (make_error id kBadRequest "receiver_id and content required")
    else if max_message <? Z.of_nat (String.length content)
    then send_p c (make_error id kBadRequest "content too large")
    else
      u ← act (on_repos (find_user_by_id receiver));
      match u with
      | None => send_p c (make_error id kNotFound "receiver does not exist")
      | Some _ =>
          msg_id ← send_dm_p sender receiver content;
          if msg_id =? 0 then send_p c (make_error id kInternal "failed to persist message")
          else ack_message_p c id msg_id
      end.

Definition handle_send_room_p (c : Z) (req : json) (id : option Z) : prog unit :=
  sender ← require_auth_p c req id;
  if sender =? 0 then mret tt
  else
    let room := u64 (get_i64 req "room_id" 0) in
    let content := get_str req "content" in
    if (room =? 0) || str_empty content
    then send_p c (make_error id kBadRequest "room_id and content required")
    else if max_message <? Z.of_nat (String.length content)
    then send_p c (make_error id kBadRequest "content too large")
    else
      msg_id ← send_room_p sender room content;
      if msg_id =? 0
      then send_p c (make_error id kBadRequest "not a member of room or room missing")
      else ack_message_p c id msg_id.

(** The id of a new room, or of the room that has the name already. *)
Definition room_id_p (name : string) (created : option Z) : prog (option Z) :=
  match created with
  | Some rid => mret (Some rid)
  | None =>
      existing ← act (on_repos (find_room_by_name name));
      mret (option_map room_id existing)
  end.

Definition handle_create_room_p (c : Z) (req : json) (id : option Z) : prog unit :=
  uid ← require_auth_p c req id;
  if uid =? 0 then mret tt
  else
    let name := get_str req "name" in
    if str_empty name || (128 <? Z.of_nat (String.length name))
    then send_p c (make_error id kBadRequest "invalid name")
    else
      now ← act now_unix_ms;
      created ← act (on_repos (create_room name now));
      rid ← room_id_p name created;
      match rid with
      | None => send_p c (make_error id kInternal "create_room failed")
      | Some rid =>
          act (on_repos (join_room rid uid)) ;;
          act (on_rooms (on_join rid uid)) ;;
          send_ack_p c id (json_of [("room_id", JUint rid); ("name", JStr name)])
      end.

(** The room a join request names. *)
Definition join_target_p (rid0 : Z) (name : string) : prog Z :=
  if (rid0 =? 0) && negb (str_empty name)
  then r ← act (on_repos (find_room_by_name name)); mret (default rid0 (option_map room_id r))
  else mret rid0.

Definition handle_join_room_p (c : Z) (req : json) (id : option Z) : prog unit :=
  uid ← require_auth_p c req id;
  if uid =? 0 then mret tt
  else
    rid ← join_target_p (u64 (get_i64 req "room_id" 0)) (get_str req "name");
    if rid =? 0 then send_p c (make_error id kNotFound "room not found")
    else
      joined ← act (on_repos (join_room rid uid));
      if negb joined then send_p c (make_error id kInternal "join failed")
      else
        act (on_rooms (on_join rid uid)) ;;
        send_ack_p c id (json_of [("room_id", JUint rid)]).

Definition handle_leave_room_p (c : Z) (req : json) (id : option Z) : prog unit :=
  uid ← require_auth_p c req id;
  if uid =? 0 then mret tt
  else
    let rid := u64 (get_i64 req "room_id" 0) in
    if rid =? 0 then send_p c (make_error id kBadRequest "room_id required")
    else
      act (on_repos (leave_room rid uid)) ;;
      act (on_rooms (on_leave rid uid)) ;;
      send_ack_p c id (JObj []).

Definition handle_list_rooms_p (c : Z) (req : json) (id : option Z) : prog unit :=
  uid ← require_auth_p c req id;
  if uid =? 0 then mret tt
  else
    rs ← act (on_repos (list_rooms_for_user uid));
    send_ack_p c id (json_of [("rooms", JArr (room_json <$> rs))]).

Definition handle_history_dm_p (c : Z) (req : json) (id : option Z) : prog unit :=
  uid ← require_auth_p c req id;
  if uid =? 0 then mret tt
  else
    let other := u64 (get_i64 req "user_id" 0) in
    let before := u64 (get_i64 req "before_id" 0) in
    let limit := u32 (get_i64 req "limit" 50) in
    if other =? 0 then send_p c (make_error id kBadRequest "user_id required")
    else
      msgs ← act (on_repos (history_dm uid other before limit));
      send_ack_p c id (json_of [("messages",
        JArr ((λ m, history_json "receiver_id" m.(m_receiver_id) m) <$> msgs))]).

Definition handle_history_room_p (c : Z) (req : json) (id : option Z) : prog unit :=
  uid ← require_auth_p c req id;
  if uid =? 0 then mret tt
  else
    let room := u64 (get_i64 req "room_id" 0) in
    let before := u64 (get_i64 req "before_id" 0) in
    let limit := u32 (get_i64 req "limit" 50) in
    if room =? 0 then send_p c (make_error id kBadRequest "room_id required")
    else
      member ← act (on_rooms (RoomManager.is_member room uid));
      if negb member then send_p c (make_error id kUnauthorized "not a member of this room")
      else
        msgs ← act (on_repos (history_room room before limit));
        send_ack_p c id (json_of [("messages",
          JArr ((λ m, history_json "room_id" m.(m_room_id) m) <$> msgs))]).

Definition handle_presence_p (c : Z) (req : json) (id : option Z) : prog unit :=
  uid ← require_auth_p c req id;
  if uid =? 0 then mret tt
  else
    let target := u64 (get_i64 req "user_id" 0) in
    if target =? 0 then send_p c (make_error id kBadRequest "user_id required")
    else
      u ← act (on_repos (find_user_by_id target));
      match u with
      | None => send_p c (make_error id kNotFound "user not found")
      | Some u =>
          online ← act (online_step u.(u_id));
          send_ack_p c id (json_of [("user_id", JUint u.(u_id)); ("username", JStr u.(u_username));
            ("online", JBool online); ("last_seen", JInt u.(u_last_seen_ms))])
      end.

Definition handle_ping_p (c : Z) (req : json) (id : option Z) : prog unit :=
  t ← act now_unix_ms;
  j ← pure_of (make_ack id (json_of [("t", JInt t)]));
  r ← pure_of (json_set "type" (JStr kPong) j);
  send_p c r.

(** ** [dispatch] *)

Definition program : Type := Z → json → option Z → prog unit.

Definition program_table : list (string * program) :=
  [(kRegister, handle_register_p); (kLogin, handle_login_p); (kLogout, handle_logout_p);
   (kSendDM, handle_send_dm_p); (kSendRoom, handle_send_room_p); (kCreateRoom, handle_create_room_p);
   (kJoinRoom, handle_join_room_p); (kLeaveRoom, handle_leave_room_p); (kListRooms, handle_list_rooms_p);
   (kHistoryDM, handle_history_dm_p); (kHistoryRoom, handle_history_room_p);
   (kPresence, handle_presence_p); (kPing, handle_ping_p)].

Fixpoint find_program (t : string) (l : list (string * program)) : option program :=
  match l with
  | [] => None
  | (k, h) :: l => if String.eqb k t then Some h else find_program t l
  end.

Definition try_program (h : program) (c : Z) (req : json) (id : option Z) : prog unit :=
  catch (h c req id) (λ _, send_p c (make_error id kInternal "internal error")).

Definition dispatch_p (c : Z) (payload : string) : prog unit :=
  match parse payload with
  | None => send_p c (make_error None kBadRequest "malformed JSON")
  | Some req =>
      let id := request_id req in
      let type := get_str req "type" in
      if str_empty type then send_p c (make_error id kBadRequest "missing 'type'")
      else
        match find_program type program_table with
        | None => send_p c (make_error id kBadRequest ("unknown type: " +:+ type))
        | Some h => try_program h c req id
        end
  end.
End programs.

(** ** A program without interruption *)

Lemma run_bind {A B} (p : prog A) (f : A → prog B) w :
  run (p ≫= f) w = (run p ≫= λ a, run (f a)) w.
Proof.
  revert w. induction p as [a|e|C x k IH]; intros w; [done|done|].
  change (run (Act x k ≫= f) w) with (let '(o, w') := perform x w in run (k o ≫= f) w').
  unfold mbind, M_bind. cbn [run]. destruct (perform x w) as [o w']. by rewrite IH.
Qed.

Lemma run_catch {A} (p : prog A) h w :
  run (catch p h) w = match run p w with (Throw e, w') => run (h e) w' | r => r end.
Proof.
  revert w. induction p as [a|e|C x k IH]; intros w; [done|done|]. cbn [catch run].
  destruct (perform x w) as [o w']. apply IH.
Qed.

(** [p] run without interruption is [m]. *)
Definition impl {A : Type} (p : prog A) (m : M World A) : Prop := ∀ w, run p w = m w.

Lemma impl_ret {A} (a : A) : impl (mret a) (mret a).
Proof. done. Qed.

Lemma impl_act {B} (m : M World B) : impl (act m) m.
Proof. intros w. unfold act. cbn [run perform]. by destruct (m w) as [[b|e] w']. Qed.

Lemma impl_pure {A} (o : outcome A) : impl (pure_of o) (lift_outcome o).
Proof. intros w. by destruct o. Qed.

Lemma impl_bind {A B} (p : prog A) (f : A → prog B) m k :
  impl p m → (∀ a, impl (f a) (k a)) → impl (p ≫= f) (m ≫= k).
Proof.
  intros Hp Hf w. rewrite run_bind. unfold mbind, M_bind. rewrite Hp.
  destruct (m w) as [[a|e] w']; [apply Hf|done].
Qed.

Lemma impl_for {A} (l : list A) f g : (∀ x, impl (f x) (g x)) → impl (pfor l f) (mfor l g).
Proof.
  intros Hf. induction l as [|x l IH]; cbn [pfor mfor]; [apply impl_ret|].
  apply impl_bind; [apply Hf|intros; apply IH].
Qed.

(** A program that ends in [mret] of what it computes, against the plain function. *)
Lemma impl_mret {A} (p : prog A) m : impl p m → impl p (m ≫= mret).
Proof. intros Hp w. rewrite Hp. unfold mbind, M_bind. by destruct (m w) as [[a|e] w']. Qed.

Create HintDb progs discriminated.
#[export] Hint Resolve impl_ret impl_act impl_pure : progs.

(** Walk a program and its function together. *)
Ltac impl_step :=
  match goal with
  | |- impl (if ?b then _ else _) _ => destruct b
  | |- impl (match ?x with _ => _ end) _ => destruct x
  | |- impl (pfor _ _) _ => apply impl_for; intros
  | |- impl (_ ≫= _) _ => apply impl_bind; [|intros]
  | |- impl _ _ => solve [eauto with progs]
  end.
Ltac impl_solve := cbv zeta; repeat (impl_step; cbv zeta).

(** *** The pieces *)

Lemma impl_send_frame cid s : impl (send_frame_p cid s) (send_to s cid).
Proof.
  intros w. unfold send_frame_p, send_to. rewrite run_bind. unfold mbind at 1, M_bind at 1.
  cbn [run perform]. unfold send_check. destruct (w_conns w !! cid) as [c|] eqn:Hc; cbn [run pure_of].
  2:{ unfold on_conn. by rewrite Hc. }
  destruct (accepts c s) eqn:Ha; unfold accepts in Ha.
  - apply andb_prop in Ha as [Hcl%negb_true_iff Hmax%negb_true_iff]. rewrite run_bind.
    erewrite M_bind_ret by (cbn [run perform]; unfold send_append, update_conn, on_conn;
      rewrite Hc; reflexivity).
    rewrite impl_act. unfold send_post, on_conn. cbn [w_conns set_net].
    rewrite lookup_insert_eq, Hc, insert_insert_eq. unfold send_frame. by rewrite Hcl, Hmax.
  - unfold on_conn. rewrite Hc. unfold send_frame.
    destruct (closing c || closed c); cbn [negb andb] in Ha.
    + by rewrite insert_id; [destruct w|].
    + apply negb_false_iff in Ha as ->. by rewrite insert_id; [destruct w|].
Qed.
#[export] Hint Resolve impl_send_frame : progs.

Section equivalence.
Context `{Env, FloatText, FloatCast, Settings}.

Lemma impl_send_dm sender receiver content :
  impl (send_dm_p sender receiver content) (send_dm sender receiver content).
Proof. unfold send_dm_p, send_dm. impl_solve. Qed.

Lemma impl_room_deliver id sender event uid :
  impl (room_deliver_p id sender event uid) (room_deliver id sender event uid).
Proof. unfold room_deliver_p, room_deliver. impl_solve. Qed.
Hint Resolve impl_send_dm impl_room_deliver : progs.

Lemma impl_send_room sender room content :
  impl (send_room_p sender room content) (send_room sender room content).
Proof. unfold send_room_p, send_room. impl_solve. Qed.

Lemma impl_replay user : impl (replay_offline_p user) (replay_offline user).
Proof. unfold replay_offline_p, replay_offline. impl_solve. Qed.
Hint Resolve impl_send_room impl_replay : progs.

Lemma impl_on_transition uid online :
  impl (on_transition_p uid online) (on_transition uid online).
Proof. unfold on_transition_p, on_transition. impl_solve. Qed.

(** The transition handler after the locked part of [bind] or [unbind]. *)
Lemma run_notify uid online b w :
  run ((if b : bool then on_transition_p uid online else mret tt) ;; mret b) w
  = notify (Some on_transition) uid online b w.
Proof.
  rewrite run_bind. unfold mbind, M_bind, notify. destruct b; [|done].
  rewrite impl_on_transition. by destruct (on_transition uid online w) as [[[]|e] w'].
Qed.

Lemma impl_presence_bind uid c : impl (bind_p uid c) (presence_bind uid c).
Proof.
  intros w. unfold bind_p. rewrite run_bind.
  erewrite M_bind_ret by (rewrite impl_act; reflexivity). apply run_notify.
Qed.

Lemma impl_presence_unbind uid c : impl (unbind_p uid c) (presence_unbind uid c).
Proof.
  intros w. unfold unbind_p, presence_unbind, unbind. rewrite run_bind.
  unfold mbind at 1, M_bind at 1. rewrite impl_act. unfold unbind_step.
  destruct (unbind_locked uid c (w_presence w)) as [[p off]|]; [apply run_notify|done].
Qed.
Hint Resolve impl_presence_bind impl_presence_unbind : progs.

Lemma impl_on_close c : impl (on_close_p c) (on_close c).
Proof. unfold on_close_p, on_close. impl_solve. Qed.

Lemma impl_create uid : impl (create_p uid) (sessions_create uid).
Proof.
  unfold create_p, sessions_create. apply impl_bind; [auto with progs|]. intros rand.
  apply impl_bind; [auto with progs|]. intros now w. rewrite run_bind.
  erewrite M_bind_ret by (rewrite impl_act; reflexivity). rewrite run_bind.
  erewrite M_bind_ret by (rewrite impl_act; reflexivity). by destruct w.
Qed.

Lemma impl_revoke tok : impl (revoke_p tok) (on_sessions (revoke tok)).
Proof.
  intros w. unfold revoke_p. rewrite run_bind.
  erewrite M_bind_ret by (rewrite impl_act; reflexivity). rewrite impl_act. by destruct w.
Qed.

Lemma impl_send c j : impl (send_p c j) (send c j).
Proof. unfold send_p, send. apply impl_bind; [auto with progs|]. intros s. apply impl_send_frame. Qed.
Hint Resolve impl_create impl_revoke impl_send : progs.

Lemma impl_send_ack c id data : impl (send_ack_p c id data) (send_ack c id data).
Proof. unfold send_ack_p, send_ack. impl_solve. Qed.

Lemma impl_authenticate c uid tok : impl (authenticate_p c uid tok) (authenticate c uid tok).
Proof. unfold authenticate_p, authenticate. impl_solve. Qed.
Hint Resolve impl_send_ack impl_authenticate : progs.

Lemma impl_require_auth c req id : impl (require_auth_p c req id) (require_auth c req id).
Proof. unfold require_auth_p, require_auth. impl_solve. Qed.

Lemma impl_ack_message c id mid : impl (ack_message_p c id mid) (ack_message c id mid).
Proof. unfold ack_message_p, ack_message. impl_solve. Qed.
Hint Resolve impl_require_auth impl_ack_message : progs.

(** A read of the state followed by code that uses one field. *)
Lemma impl_read {A B} (g : World → A) (f : A → prog B) k :
  (∀ w, impl (f (g w)) (k w)) →
  impl (act (λ w, (Ret (g w), w)) ≫= f) (get_state ≫= k).
Proof.
  intros Hf w. rewrite run_bind. erewrite M_bind_ret by (rewrite impl_act; reflexivity). apply Hf.
Qed.

Lemma impl_join_target rid0 name :
  impl (join_target_p rid0 name)
    (if (rid0 =? 0) && negb (str_empty name)
     then r ← on_repos (find_room_by_name name); mret (default rid0 (room_id <$> r))
     else mret rid0).
Proof. unfold join_target_p. impl_solve. Qed.

Lemma impl_room_id name created :
  impl (room_id_p name created)
    (match created with
     | Some rid => mret (Some rid)
     | None => existing ← on_repos (find_room_by_name name); mret (room_id <$> existing)
     end).
Proof. unfold room_id_p. impl_solve. Qed.
Hint Resolve impl_join_target impl_room_id : progs.

(** *** The handlers *)

Lemma impl_login c req id : impl (handle_login_p c req id) (handle_login c req id).
Proof.
  unfold handle_login_p, handle_login. apply impl_bind; [auto with progs|]. intros [u|]; [|impl_solve].
  destruct (verify_password_hash _ _); [|impl_solve].
  apply impl_bind; [auto with progs|]. intros tok. apply impl_bind; [auto with progs|].
  intros _. apply impl_read. intros w. auto with progs.
Qed.

Lemma impl_presence c req id : impl (handle_presence_p c req id) (handle_presence c req id).
Proof.
  unfold handle_presence_p, handle_presence. apply impl_bind; [auto with progs|]. intros uid.
  destruct (uid =? 0); [impl_solve|]. cbv zeta. destruct (_ =? 0); [impl_solve|].
  apply impl_bind; [auto with progs|]. intros [u|]; [|impl_solve].
  apply (impl_read (λ w, is_online w.(w_presence) u.(u_id))). intros w. auto with progs.
Qed.

(** The two dispatch tables name the same requests and hold the same code. *)
Lemma impl_table t :
  match find_program t program_table, find_handler t handler_table with
  | Some p, Some h => ∀ c req id, impl (p c req id) (h c req id)
  | None, None => True
  | _, _ => False
  end.
Proof.
  unfold program_table, handler_table. cbn [find_program find_handler].
  repeat match goal with |- context [String.eqb ?k t] =>
    destruct (String.eqb k t); [intros c req id|] end; [..|done].
  - unfold handle_register_p, handle_register. impl_solve.
  - apply impl_login.
  - unfold handle_logout_p, handle_logout. impl_solve.
  - unfold handle_send_dm_p, handle_send_dm. impl_solve.
  - unfold handle_send_room_p, handle_send_room. impl_solve.
  - unfold handle_create_room_p, handle_create_room. impl_solve.
  - unfold handle_join_room_p, handle_join_room. impl_solve.
  - unfold handle_leave_room_p, handle_leave_room. impl_solve.
  - unfold handle_list_rooms_p, handle_list_rooms. impl_solve.
  - unfold handle_history_dm_p, handle_history_dm. impl_solve.
  - unfold handle_history_room_p, handle_history_room. impl_solve.
  - apply impl_presence.
  - unfold handle_ping_p, handle_ping. impl_solve.
Qed.

Lemma impl_dispatch c payload : impl (dispatch_p c payload) (dispatch c payload).
Proof.
  unfold dispatch_p, dispatch. destruct (parse payload) as [req|]; [|auto with progs]. cbv zeta.
  destruct (str_empty _); [auto with progs|].
  pose proof (impl_table (get_str req "type")) as Ht.
  destruct (find_program _ _) as [p|], (find_handler _ _) as [h|]; try done; [|auto with progs].
  intros w. unfold try_program, try_handler. rewrite run_catch, Ht.
  destruct (h c req (request_id req) w) as [[[]|e] w']; [done|apply impl_send].
Qed.
End equivalence.
