(* ===== verification/Concurrency.v ===== *)
(** * A logic for programs that other threads interrupt

    [shared_ok] is what stays true of the server's state while requests run
    concurrently, between any two accesses to it; it says less than [world_ok],
    which holds between whole requests.  [grows] is what every access of every thread
    does to the store: users, rooms and messages are only ever added.  [safe] is a
    total-correctness judgment for a program whose accesses may be separated by
    any number of accesses of others that grow the store and keep [shared_ok]; [tri]
    is the triple made of it.  Each access of the handlers has its rule here, and
    each program its triple. *)
From S2P Require Import Prelude Util Crypto Framing Repositories Session Presence RoomManager.
From S2P Require Import Messages Json JsonProofs Connection World Router Handlers HandlerLogic.
From S2P Require Import HandlerSpecs Programs.

(** ** What every access does to the store *)

(** A message apart from its delivery status, the one field that changes. *)
Definition sans_status (m : Message) : Message := with_status 0 m.

(** The same account, whenever it was last seen. *)
Definition same_account (u u' : User) : Prop :=
  u'.(u_id) = u.(u_id) ∧ u'.(u_username) = u.(u_username) ∧
  u'.(u_password_hash) = u.(u_password_hash).

(** What no access takes away: accounts, rooms, room names and messages with their
    text.  Nothing is said of memberships, sessions and queues, which do shrink. *)
Record grows (r r' : Repositories) : Prop := {
  gr_users : ∀ uid u, r.(users) !! uid = Some u →
    ∃ u', r'.(users) !! uid = Some u' ∧ same_account u u';
  gr_rooms : r.(rooms) ⊆ r'.(rooms);
  gr_names : r.(room_name_idx) ⊆ r'.(room_name_idx);
  gr_messages : (sans_status <$> r.(messages)) `prefix_of` (sans_status <$> r'.(messages));
}.

#[export] Instance grows_preorder : PreOrder grows.
Proof.
  split.
  - intros r. split; [|done..]. intros uid u Hu. by exists u.
  - intros r1 r2 r3 [H1 H2 H3 H4] [G1 G2 G3 G4]. split; [|by etransitivity..].
    intros uid u Hu. destruct (H1 uid u Hu) as (u2 & Hu2 & E1 & E2 & E3).
    destruct (G1 uid u2 Hu2) as (u3 & Hu3 & F1 & F2 & F3). exists u3.
    split; [done|]. repeat split; congruence.
Qed.

(** Operations that leave the four tables alone. *)
Lemma grows_same r r' :
  r'.(users) = r.(users) → r'.(rooms) = r.(rooms) → r'.(room_name_idx) = r.(room_name_idx) →
  sans_status <$> r'.(messages) = sans_status <$> r.(messages) → grows r r'.
Proof.
  intros Hu Hr Hn Hm. split; rewrite ?Hu, ?Hr, ?Hn, ?Hm; [|done..].
  intros uid u Hl. by exists u.
Qed.

Lemma create_user_grows n h now r : repos_ok r → grows r (snd (create_user n h now r)).
Proof.
  intros Hr. unfold create_user. destruct (_ !! n); [reflexivity|]. split; cbn; [|done..].
  intros uid u Hl. exists u. split; [|done]. rewrite lookup_insert_ne; [done|]. intros <-.
  assert (is_Some (users r !! next_user_id r)) as Hs by by eexists.
  apply (tab_ids _ _ _ _ _ (ok_users _ Hr)) in Hs. lia.
Qed.

Lemma create_room_grows n now r : repos_ok r → grows r (snd (create_room n now r)).
Proof.
  intros Hr. unfold create_room. destruct (_ !! n) eqn:Hn; [reflexivity|]. split; cbn.
  - intros uid u Hl. by exists u.
  - apply insert_subseteq. destruct (rooms r !! next_room_id r) as [x|] eqn:Hx; [|done].
    assert (is_Some (rooms r !! next_room_id r)) as Hs by by eexists.
    apply (tab_ids _ _ _ _ _ (ok_rooms _ Hr)) in Hs. lia.
  - by apply insert_subseteq.
  - done.
Qed.

Lemma update_last_seen_grows id ts r : grows r (snd (update_last_seen id ts r)).
Proof.
  unfold update_last_seen. destruct (users r !! id) as [u|] eqn:Hu; [|reflexivity].
  split; cbn; [|done..]. intros uid v Hv. destruct (decide (uid = id)) as [->|Hne].
  - rewrite lookup_insert_eq. eexists. split; [done|]. by simplify_eq.
  - rewrite lookup_insert_ne by done. by exists v.
Qed.

Lemma push_message_grows mk r : grows r (snd (push_message mk r)).
Proof.
  split; [by intros uid u Hl; exists u|done|done|].
  exists (sans_status <$> [mk r.(next_msg_id)]). apply fmap_app.
Qed.

Lemma set_status_text id st l : sans_status <$> set_status id st l = sans_status <$> l.
Proof.
  induction l as [|m l IH]; cbn [set_status]; [done|]. destruct (m_id m =? id); [done|].
  by rewrite !fmap_cons, IH.
Qed.

Lemma update_status_grows id st r : grows r (snd (update_message_status id st r)).
Proof. by apply grows_same, set_status_text. Qed.

Lemma join_room_grows rid uid r : grows r (snd (join_room rid uid r)).
Proof. unfold join_room. destruct (rooms r !! rid); by apply grows_same. Qed.

Lemma leave_room_grows rid uid r : grows r (snd (leave_room rid uid r)).
Proof. unfold leave_room. destruct (room_members r !! rid); by apply grows_same. Qed.

Lemma drain_grows uid r : grows r (snd (drain_undelivered uid r)).
Proof. unfold drain_undelivered. destruct (undelivered r !! uid); by apply grows_same. Qed.

(** ** Knowledge that others do not destroy *)

Class Stable (P : Repositories → Prop) := stable : ∀ r r', grows r r' → P r → P r'.

#[export] Instance stable_const (φ : Prop) : Stable (λ _, φ).
Proof. by intros r r'. Qed.
#[export] Instance stable_and P Q : Stable P → Stable Q → Stable (λ r, P r ∧ Q r).
Proof. intros HP HQ r r' Hg []. split; [by eapply HP|by eapply HQ]. Qed.
#[export] Instance stable_impl (φ : Prop) Q : Stable Q → Stable (λ r, φ → Q r).
Proof. intros HQ r r' Hg H Hφ. by eapply HQ, H. Qed.
#[export] Instance stable_all {A} (Q : A → Repositories → Prop) :
  (∀ a, Stable (Q a)) → Stable (λ r, ∀ a, Q a r).
Proof. intros HQ r r' Hg H a. by eapply HQ. Qed.
#[export] Instance stable_ex {A} (Q : A → Repositories → Prop) :
  (∀ a, Stable (Q a)) → Stable (λ r, ∃ a, Q a r).
Proof. intros HQ r r' Hg [a H]. exists a. by eapply HQ. Qed.

#[export] Hint Extern 0 (Stable _) => typeclasses eauto : core.

Definition known_user (uid : Z) (r : Repositories) : Prop := is_Some (r.(users) !! uid).

#[export] Instance known_user_stable uid : Stable (known_user uid).
Proof. intros r r' Hg [u Hu]. destruct (gr_users _ _ Hg uid u Hu) as (u' & Hu' & _). by exists u'. Qed.

(** The message [mid] with this text is in the store. *)
Definition persisted (mid : Z) (content : string) (r : Repositories) : Prop :=
  ∃ m, m ∈ r.(messages) ∧ m.(m_id) = mid ∧ m.(m_content) = content.

#[export] Instance persisted_stable mid content : Stable (persisted mid content).
Proof.
  intros r r' Hg (m & Hm & <- & <-). destruct (gr_messages _ _ Hg) as [l Hl].
  assert (sans_status m ∈ sans_status <$> r'.(messages)) as Hin.
  { rewrite Hl. apply elem_of_app. left. apply list_elem_of_fmap. by exists m. }
  apply list_elem_of_fmap in Hin as (m' & Heq & Hm'). exists m'. split; [done|].
  by injection Heq.
Qed.

Lemma persisted_id n mid content r :
  store_ok n r → persisted mid content r → 1 <= mid < r.(next_msg_id).
Proof.
  intros [Hr _ _ _] (m & Hm & <- & _). rewrite (ok_next_msg _ Hr).
  assert (m_id m ∈ m_id <$> r.(messages)) as Hin by (apply list_elem_of_fmap; by exists m).
  rewrite (ok_msg_ids _ Hr), elem_of_seqZ in Hin. lia.
Qed.

(** The room named [name] is the one with id [rid]. *)
Definition named_room (name : string) (rid : Z) (r : Repositories) : Prop :=
  r.(room_name_idx) !! name = Some rid.

#[export] Instance named_room_stable name rid : Stable (named_room name rid).
Proof. intros r r' Hg Hn. by eapply lookup_weaken, gr_names. Qed.

(** ** The invariant *)

Record shared_ok (n : Z) (w : World) : Prop := {
  sk_store : store_ok n w.(w_repos);
  sk_loaded : ∀ rid, rid ∈ w.(w_rooms).(room_loaded) ↔ is_Some (w.(w_rooms).(room_cache) !! rid);
  sk_presence : presence_ok w.(w_presence);
  sk_sessions : ∀ tok info, w.(w_sessions).(session_cache) !! tok = Some info →
    known_user info.(si_user_id) w.(w_repos);
  sk_conns : ∀ cid c, w.(w_conns) !! cid = Some c → c.(user_id) ≠ 0 →
    known_user c.(user_id) w.(w_repos);
}.

Lemma world_shared n w : world_ok n w → shared_ok n w.
Proof.
  intros [Hs Hr Hp Hss Hc]. split; [done|apply (inv_loaded _ Hr)|done|done|].
  intros cid c Hl Hne. by destruct (Hc cid c Hl Hne).
Qed.

Lemma shared_ok_weaken n n' w : n <= n' → shared_ok n w → shared_ok n' w.
Proof. intros Hn []. split; eauto using store_ok_weaken. Qed.

(** ** Output buffers *)

Definition push_frame (c : Connection) (s : string) : Connection :=
  set_write (c.(wbuf) ++ be32 (u32 (Z.of_nat (String.length s))) ++ to_bytes s) c.(write_armed) c.

(** From [cs] to [cs'] whole frames of these payloads were appended to the output
    buffers, in order, and nothing else changed but owners. *)
Definition appended (tr : trace) (cs cs' : gmap Z Connection) : Prop :=
  ∀ cid, anon <$> cs' !! cid = (λ c, foldl push_frame c (payloads cid tr)) <$> (anon <$> cs !! cid).

Lemma appended_nil cs cs' : (∀ cid, anon <$> cs' !! cid = anon <$> cs !! cid) → appended [] cs cs'.
Proof. intros H cid. rewrite H. by destruct (cs !! cid). Qed.

Lemma appended_refl cs : appended [] cs cs.
Proof. by apply appended_nil. Qed.
#[export] Hint Resolve appended_refl : progs.

(** ** Programs under interference *)

Definition calls {B : Type} (x : effect B) : trace :=
  match x with Call cid s => [(cid, s)] | _ => [] end.
Definition writes {B : Type} (x : effect B) : trace :=
  match x with Append cid s => [(cid, s)] | _ => [] end.

(** [safe p Φ r]: from a store that has grown out of [r], with others acting before
    and between its accesses, [p] never throws, keeps the invariant at every access,
    and ends with a result, the payloads it gave to [send_frame], and a store that
    satisfy [Φ]. *)
Fixpoint safe {A : Type} (p : prog A) (Φ : A → trace → Repositories → Prop) (r : Repositories)
    : Prop :=
  match p with
  | Done a => ∀ r', grows r r' → Φ a [] r'
  | Fail _ => False
  | Act x k => ∀ n w, grows r w.(w_repos) → n <= u64_max - 2 → shared_ok n w →
      ∃ b w', perform x w = (Ret b, w') ∧ shared_ok (n + 1) w' ∧ grows w.(w_repos) w'.(w_repos) ∧
        appended (writes x) w.(w_conns) w'.(w_conns) ∧
        safe (k (Ret b)) (λ a tr, Φ a (calls x ++ tr)) w'.(w_repos)
  end.

Lemma safe_grows {A} (p : prog A) Φ r r' : grows r r' → safe p Φ r → safe p Φ r'.
Proof.
  intros Hg. destruct p as [a|e|B x k]; cbn [safe]; [|done|].
  - intros H r2 Hr2. apply H. by etransitivity.
  - intros H n w Hw. apply H. by etransitivity.
Qed.

Lemma safe_mono {A} (p : prog A) Φ Ψ r :
  (∀ a tr r, Φ a tr r → Ψ a tr r) → safe p Φ r → safe p Ψ r.
Proof.
  revert Φ Ψ r. induction p as [a|e|B x k IH]; intros Φ Ψ r HΦ; cbn [safe]; [by eauto|done|].
  intros H n w Hg Hn Hw. destruct (H n w Hg Hn Hw) as (b & w' & ? & ? & ? & ? & Hk).
  exists b, w'. split_and!; [done..|]. by eapply IH; [|exact Hk]; cbv beta; eauto.
Qed.

Lemma safe_bind {A B} (p : prog A) (f : A → prog B) Φ Ψ r :
  safe p Φ r → (∀ a tr r, Φ a tr r → safe (f a) (λ b tr', Ψ b (tr ++ tr')) r) →
  safe (p ≫= f) Ψ r.
Proof.
  revert Φ Ψ r. induction p as [a|e|C x k IH]; intros Φ Ψ r Hp Hf; [|done|].
  - apply (Hf a [] r), Hp. reflexivity.
  - intros n w Hg Hn Hw. destruct (Hp n w Hg Hn Hw) as (b & w' & ? & ? & ? & ? & Hk).
    exists b, w'. split_and!; [done..|]. eapply (IH (Ret b)); [exact Hk|]. cbv beta.
    intros a tr r' Ha. eapply safe_mono; [|by apply Hf]. cbv beta. intros b' tr' r2.
    by rewrite <-app_assoc.
Qed.

Lemma safe_catch {A} (p : prog A) h Φ r : safe p Φ r → safe (catch p h) Φ r.
Proof.
  revert Φ r. induction p as [a|e|C x k IH]; intros Φ r; cbn [safe catch]; [done|done|].
  intros H n w Hg Hn Hw. destruct (H n w Hg Hn Hw) as (b & w' & ? & ? & ? & ? & Hk).
  exists b, w'. split_and!; [done..|by apply IH].
Qed.

(** ** Triples *)

Definition tri {A : Type} (P : Repositories → Prop) (p : prog A)
    (Φ : A → trace → Repositories → Prop) : Prop := ∀ r, P r → safe p Φ r.

Lemma tri_ret {A} P (a : A) Φ : Stable P → (∀ r, P r → Φ a [] r) → tri P (mret a) Φ.
Proof. intros HP H r Hr r' Hg. apply H. by eapply HP. Qed.

Lemma tri_bind {A B} P (p : prog A) (f : A → prog B) Φ Ψ :
  tri P p Φ → (∀ a tr, tri (Φ a tr) (f a) (λ b tr', Ψ b (tr ++ tr'))) → tri P (p ≫= f) Ψ.
Proof. intros Hp Hf r Hr. eapply safe_bind; [by apply Hp|]. intros a tr r' Ha. by apply Hf. Qed.

Lemma tri_mono {A} (P P' : Repositories → Prop) (p : prog A) (Φ Φ' : A → trace → Repositories → Prop) :
  tri P p Φ → (∀ r, P' r → P r) → (∀ a tr r, Φ a tr r → Φ' a tr r) → tri P' p Φ'.
Proof. intros H HP HΦ r Hr. eapply safe_mono; [exact HΦ|]. by apply H, HP. Qed.

Lemma tri_pre {A} (P P' : Repositories → Prop) (p : prog A) Φ :
  (∀ r, P' r → P r) → tri P p Φ → tri P' p Φ.
Proof. intros HP H. by eapply tri_mono. Qed.

Lemma tri_pure {A} (φ : Prop) P (p : prog A) Φ : (∀ r, P r → φ) → (φ → tri P p Φ) → tri P p Φ.
Proof. intros H Hp r Hr. by apply Hp; [eapply H|]. Qed.

(** A step that sends nothing, followed by the rest. *)
Lemma tri_silent {A B} P (p : prog A) (f : A → prog B) Φ Ψ :
  tri P p (λ a tr r, tr = [] ∧ Φ a r) → (∀ a, tri (Φ a) (f a) Ψ) → tri P (p ≫= f) Ψ.
Proof. intros Hp Hf. eapply tri_bind; [exact Hp|]. intros a tr r [-> Hr]. by apply Hf. Qed.

Lemma tri_pure_of {A} P (a : A) o : Stable P → o = Ret a →
  tri P (pure_of o) (λ b tr r, tr = [] ∧ (b = a ∧ P r)).
Proof. intros HP ->. by apply tri_ret. Qed.

Lemma tri_for {A} P (l : list A) f Q : Stable P →
  (∀ x, x ∈ l → tri P (f x) (λ _ tr r, Forall Q tr ∧ P r)) →
  tri P (pfor l f) (λ _ tr r, Forall Q tr ∧ P r).
Proof.
  intros HP. induction l as [|x l IH]; intros Hf; cbn [pfor]; [by apply tri_ret|].
  eapply tri_bind; [apply Hf; by left|]. intros [] tr r [Htr Hr].
  eapply safe_mono; [|apply IH; [intros; apply Hf; by right|exact Hr]].
  intros _ tr' r' []. split; [by apply Forall_app|done].
Qed.

(** A step that sends only events, followed by the rest. *)
Lemma tri_events `{FloatText} {A B} P (p : prog A) (f : A → prog B) Φ Ψ :
  tri P p (λ a tr r, Forall is_event tr ∧ Φ a r) → (∀ a, tri (Φ a) (f a) Ψ) →
  (∀ b evs tr r, Forall is_event evs → Ψ b tr r → Ψ b (evs ++ tr) r) → tri P (p ≫= f) Ψ.
Proof.
  intros Hp Hf HΨ. eapply tri_bind; [exact Hp|]. intros a tr r [Htr Hr].
  eapply safe_mono; [|by apply Hf]. intros b tr' r'. by apply HΨ.
Qed.

Lemma tri_silent_events `{FloatText} {A} P (p : prog A) Φ :
  tri P p (λ a tr r, tr = [] ∧ Φ a r) → tri P p (λ a tr r, Forall is_event tr ∧ Φ a r).
Proof. intros Hp. eapply tri_mono; [exact Hp|done|]. by intros a tr r [-> ?]. Qed.

(** ** Accesses *)

(** An access that sends nothing, in any state the other threads may leave. *)
Definition atomic {B : Type} (P : Repositories → Prop) (m : M World B)
    (Φ : B → Repositories → Prop) : Prop :=
  ∀ n w, n <= u64_max - 2 → shared_ok n w → P w.(w_repos) → ∃ b w', m w = (Ret b, w') ∧
    shared_ok (n + 1) w' ∧ grows w.(w_repos) w'.(w_repos) ∧ appended [] w.(w_conns) w'.(w_conns) ∧
    Φ b w'.(w_repos).

(** An access, what it leaves known, and the rest. *)
Lemma tri_then {B C} P Q (m : M World B) (f : B → prog C) Φ Ψ :
  Stable P → atomic Q m Φ → (∀ b, Stable (Φ b)) → (∀ r, P r → Q r) → (∀ b, tri (λ r, P r ∧ Φ b r) (f b) Ψ) →
  tri P (act m ≫= f) Ψ.
Proof.
  intros HP Hm HΦ HQ Hf r Hr n w Hg Hn Hw.
  assert (P w.(w_repos)) as HPw by by eapply HP.
  destruct (Hm n w Hn Hw) as (b & w' & ? & ? & Hg' & ? & Hb); [by apply HQ|].
  exists b, w'. split_and!; [done..|]. apply (Hf b). split; [by eapply HP|done].
Qed.

(** The last access of a program. *)
Lemma tri_last {B} P Q (m : M World B) Φ Ψ :
  Stable P → atomic Q m Φ → (∀ b, Stable (Φ b)) → (∀ r, P r → Q r) →
  (∀ b r, P r → Φ b r → Ψ b [] r) → tri P (act m) Ψ.
Proof.
  intros HP Hm HΦ HQ HΨ r Hr n w Hg Hn Hw.
  assert (P w.(w_repos)) as HPw by by eapply HP.
  destruct (Hm n w Hn Hw) as (b & w' & ? & ? & Hg' & ? & Hb); [by apply HQ|].
  exists b, w'. split_and!; [done..|]. intros r' Hr'.
  apply HΨ; [eapply HP; [|exact HPw]; by etransitivity|by eapply HΦ].
Qed.

(** Take the next access of a program by its rule. *)
Tactic Notation "access" uconstr(l) :=
  eapply tri_then; [apply _|apply l; done|apply _|try (intros; first [exact I|tauto])|].
(** The same for the last one; what was known before is known after. *)
Tactic Notation "last_access" uconstr(l) :=
  eapply tri_last; [apply _|apply l; done|apply _|try (intros; first [exact I|tauto])|
    try (intros; tauto)].

(** An access that only reads. *)
Lemma atomic_read {B} P (m : M World B) (Φ : B → Repositories → Prop) :
  (∀ n w, shared_ok n w → P w.(w_repos) → ∃ b, m w = (Ret b, w) ∧ Φ b w.(w_repos)) → atomic P m Φ.
Proof.
  intros H n w _ Hw HP. destruct (H n w Hw HP) as (b & He & HΦ). exists b, w.
  split_and!; [done|by eapply shared_ok_weaken; [|done]; lia|done|auto with progs|done].
Qed.

(** Replacing the store by one that has grown. *)
Lemma shared_ok_set_repos n n' w r' :
  shared_ok n w → store_ok n' r' → grows w.(w_repos) r' → shared_ok n' (set_repos r' w).
Proof.
  intros [Hs Hl Hp Hss Hc] Hs' Hg. split; cbn; try done.
  - intros tok info Ht. eapply known_user_stable; [done|by eapply Hss].
  - intros cid c Hlk Hne. eapply known_user_stable; [done|by eapply Hc].
Qed.

Lemma atomic_repos {B} P (q : M Repositories B) Φ :
  (∀ n r, n <= u64_max - 2 → store_ok n r → P r → ∃ b r', q r = (Ret b, r') ∧
     store_ok (n + 1) r' ∧ grows r r' ∧ Φ b r') →
  atomic P (on_repos q) Φ.
Proof.
  intros H n w Hn Hw HP. destruct (H n (w_repos w) Hn (sk_store _ _ Hw) HP) as (b & r' & He & ? & ? & ?).
  exists b, (set_repos r' w). unfold on_repos. rewrite He.
  split_and!; [done|by eapply shared_ok_set_repos|done|auto with progs|done].
Qed.

(** A world with this store and nothing else. *)
Definition bare (r : Repositories) : World :=
  mkWorld r (sessions_init 1) presence_init rooms_init ∅ reactor_init 0 0.

Lemma bare_ok n r : store_ok n r → world_ok n (bare r).
Proof.
  intros Hs. split; [done|apply rooms_inv_init; by destruct Hs|apply presence_init_ok| |]; cbn;
    intros ??; by rewrite lookup_empty.
Qed.

(** A triple of [HandlerLogic] about an operation of the store. *)
Lemma atomic_of_spec {B} P (q : M Repositories B) Φ :
  (∀ n, n <= u64_max - 2 →
     spec (λ w, P w.(w_repos)) n (n + 1) (on_repos q) (λ b tr w, tr = [] ∧ Φ b w.(w_repos))) →
  (∀ r, repos_ok r → grows r (snd (q r))) → atomic P (on_repos q) Φ.
Proof.
  intros Hq Hg. apply atomic_repos. intros n r Hn Hr HP.
  destruct (Hq n Hn (bare r) (bare_ok _ _ Hr) HP) as (b & w' & tr & He & Hw' & _ & _ & HΦ).
  specialize (Hg r (so_repos _ _ Hr)). unfold on_repos in He. cbn in He.
  destruct (q r) as [o r']. injection He as -> <-. exists b, r'.
  split_and!; [done|apply (wk_store _ _ Hw')|done|exact HΦ].
Qed.

(** *** Reads, clock and random numbers *)

(** No knowledge of the store. *)
Definition any (r : Repositories) : Prop := True.
#[export] Instance any_stable : Stable any.
Proof. by intros r r'. Qed.

Section accesses.
Context `{Env, FloatText}.

Lemma shared_ok_env n w reads draws : shared_ok n w → shared_ok (n + 1) (set_env reads draws w).
Proof. intros Hw. apply (shared_ok_weaken n); [lia|]. by destruct Hw. Qed.

Lemma atomic_now : atomic any now_unix_ms (λ _ _, True).
Proof.
  intros n w _ Hw _. do 2 eexists. split; [reflexivity|].
  split_and!; [by apply shared_ok_env|done|auto with progs|done].
Qed.

Lemma atomic_random k : atomic any (random_bytes k) (λ _ _, True).
Proof.
  intros n w _ Hw _. do 2 eexists. split; [reflexivity|].
  split_and!; [by apply shared_ok_env|done|auto with progs|done].
Qed.

Lemma atomic_conns_of uid : atomic any (conns_of uid) (λ _ _, True).
Proof. apply atomic_read. by eauto. Qed.

Lemma atomic_conn_user c : atomic any (conn_user c) (λ uid r, uid ≠ 0 → known_user uid r).
Proof.
  apply atomic_read. intros n w Hw _. eexists. split; [done|]. intros Hne.
  destruct (w_conns w !! c) as [x|] eqn:Hc; [|done]. by apply (sk_conns _ _ Hw c x Hc).
Qed.

Lemma atomic_conn_token c : atomic any (conn_token c) (λ _ _, True).
Proof. apply atomic_read. by eauto. Qed.

Lemma atomic_ttl : atomic any session_ttl (λ _ _, True).
Proof. apply atomic_read. by eauto. Qed.

Lemma atomic_online uid : atomic any (online_step uid) (λ _ _, True).
Proof. apply atomic_read. by eauto. Qed.

(** *** The store *)

Lemma atomic_insert_dm s rcv content ts :
  utf8_valid content = true →
  atomic any (on_repos (insert_dm s rcv content ts))
    (λ o r, ∃ id, o = Some id ∧ persisted id content r).
Proof.
  intros Hc. apply atomic_repos. intros n r Hn Hs _.
  destruct (push_message_store n Hn (λ id, mkMessage id s (Some rcv) None content 0 ts) r Hs)
    as (r' & He & Hr' & _); [intros id; split_and!; [done|by left|done]|].
  exists (Some r.(next_msg_id)), r'. split_and!; [done|done| |].
  - pose proof (push_message_grows (λ id, mkMessage id s (Some rcv) None content 0 ts) r) as Hg.
    by rewrite He in Hg.
  - exists r.(next_msg_id). split; [done|]. injection He as <-. cbn.
    eexists. split; [apply elem_of_app; right; by left|done].
Qed.

Lemma atomic_insert_room_msg s room content ts :
  utf8_valid content = true →
  atomic any (on_repos (insert_room_msg s room content ts))
    (λ o r, ∃ id, o = Some id ∧ persisted id content r).
Proof.
  intros Hc. apply atomic_repos. intros n r Hn Hs _.
  destruct (push_message_store n Hn (λ id, mkMessage id s None (Some room) content 0 ts) r Hs)
    as (r' & He & Hr' & _); [intros id; split_and!; [done|by right|done]|].
  exists (Some r.(next_msg_id)), r'. split_and!; [done|done| |].
  - pose proof (push_message_grows (λ id, mkMessage id s None (Some room) content 0 ts) r) as Hg.
    by rewrite He in Hg.
  - exists r.(next_msg_id). split; [done|]. injection He as <-. cbn.
    eexists. split; [apply elem_of_app; right; by left|done].
Qed.

Lemma atomic_enqueue mid uid content :
  atomic (persisted mid content) (on_repos (enqueue_undelivered mid uid)) (λ _ _, True).
Proof.
  apply atomic_repos. intros n r Hn Hs Hp. do 2 eexists. split; [reflexivity|].
  pose proof (persisted_id _ _ _ _ Hs Hp) as Hmid. split; [|by split; [apply grows_same|]].
  apply (store_ok_weaken n); [lia|]. destruct Hs as [Hr Hc Ht Hm].
  apply (store_ok_frame n r); try done. by apply (enqueue_ok mid uid).
Qed.

(** The triples of [HandlerLogic], one by one. *)
Tactic Notation "from_spec" uconstr(l) :=
  apply atomic_of_spec; [intros ? ?; eapply spec_mono; [unshelve eapply l; done|by intros ? ?|lia|]|].

Lemma atomic_update_status id st : atomic any (on_repos (update_message_status id st)) (λ _ _, True).
Proof.
  from_spec (spec_update_status _ (λ _, True)); [by intros ? ? ? []|].
  intros. apply update_status_grows.
Qed.

Lemma atomic_create_user name h now : utf8_valid name = true →
  atomic any (on_repos (create_user name h now)) (λ _ _, True).
Proof.
  intros Hu. from_spec (spec_create_user _ _ (λ _, True)); [by intros ? ? ? []|].
  intros. by apply create_user_grows.
Qed.

Lemma atomic_find_user_by_username name :
  atomic any (on_repos (find_user_by_username name))
    (λ o r, ∀ u, o = Some u → known_user u.(u_id) r ∧ utf8_valid u.(u_username) = true).
Proof.
  from_spec (spec_find_user_by_username _ (λ _, True)).
  - intros o tr w [-> Ho]. split; [done|]. intros u Hu. destruct (Ho u Hu) as [Hl ?].
    split; [by eexists|done].
  - intros r _. unfold find_user_by_username. repeat case_match; reflexivity.
Qed.

Lemma atomic_find_user_by_id id :
  atomic any (on_repos (find_user_by_id id))
    (λ o r, ∀ u, o = Some u → utf8_valid u.(u_username) = true).
Proof. by from_spec (spec_find_user_by_id _ (λ _, True)). Qed.

Lemma atomic_create_room name now : utf8_valid name = true →
  atomic any (on_repos (create_room name now))
    (λ o r, ∃ rid, named_room name rid r ∧ (o = Some rid ∨ o = None)).
Proof.
  intros Hu. from_spec (spec_create_room _ _ (λ _, True)); [done|].
  intros. by apply create_room_grows.
Qed.

Lemma atomic_find_room_by_name name rid :
  atomic (named_room name rid) (on_repos (find_room_by_name name)) (λ o r, room_id <$> o = Some rid).
Proof.
  apply atomic_repos. intros n r Hn Hs Hl. destruct (Hs) as [Hr Hc Ht Hm].
  unfold find_room_by_name. unfold named_room in Hl. rewrite Hl.
  destruct (table_at _ _ _ _ _ _ _ (ok_rooms _ Hr) Hl) as (x & -> & Hx & _).
  destruct (tab_rows _ _ _ _ _ (ok_rooms _ Hr) _ _ Hx) as [Hid _].
  exists (Some x), r. split_and!; [done|by eapply store_ok_weaken; [|done]; lia|done|].
  cbn. by rewrite Hid.
Qed.

Lemma atomic_lookup_room name : atomic any (on_repos (find_room_by_name name)) (λ _ _, True).
Proof.
  from_spec (spec_find_room_by_name _ (λ _, True)); [by intros ? ? ? []|].
  intros r _. unfold find_room_by_name. repeat case_match; reflexivity.
Qed.

Lemma atomic_list_rooms uid :
  atomic any (on_repos (list_rooms_for_user uid))
    (λ o r, Forall (λ x, utf8_valid x.(room_name) = true) o).
Proof.
  from_spec (spec_list_rooms _ (λ _, True)); [done|].
  intros r _. unfold list_rooms_for_user. repeat case_match; reflexivity.
Qed.

Lemma atomic_history matches before lim (q : M Repositories (list Message)) :
  (∀ r, q r = (Ret (rev (history_loop matches before lim (rev r.(messages)) [])), r)) →
  atomic any (on_repos q) (λ o r, Forall (λ m, utf8_valid m.(m_content) = true) o).
Proof.
  intros Hq. from_spec (spec_history _ (λ _, True) matches before lim); [done|].
  intros r _. by rewrite Hq.
Qed.

Lemma atomic_drain uid :
  atomic any (on_repos (drain_undelivered uid))
    (λ ms r, Forall (λ m, utf8_valid m.(m_content) = true) ms).
Proof. from_spec (spec_drain _ (λ _, True)); [done|]. intros r _. apply drain_grows. Qed.

Lemma atomic_last_seen uid ts : atomic any (on_repos (update_last_seen uid ts)) (λ _ _, True).
Proof.
  apply atomic_repos. intros n r Hn Hs _. exists tt, (snd (update_last_seen uid ts r)).
  split_and!; [|by eapply store_ok_weaken; [|by apply update_last_seen_store]; lia
    |apply update_last_seen_grows|done].
  unfold update_last_seen. by case_match.
Qed.

(** Operations on sessions and on members keep the four tables. *)
Lemma atomic_frame {B} (q : M Repositories B) f :
  (∀ r, ∃ b, q r = (Ret b, f r)) → (∀ r, repos_ok r → repos_ok (f r)) →
  (∀ r, (f r).(next_user_id) = r.(next_user_id) ∧ (f r).(next_room_id) = r.(next_room_id) ∧
        (f r).(next_msg_id) = r.(next_msg_id) ∧ (f r).(messages) = r.(messages) ∧
        (f r).(users) = r.(users) ∧ (f r).(rooms) = r.(rooms) ∧
        (f r).(room_name_idx) = r.(room_name_idx)) →
  atomic any (on_repos q) (λ _ _, True).
Proof.
  intros Hq Hok Hf. apply atomic_repos. intros n r Hn Hs _. destruct (Hq r) as [b Hb].
  destruct (Hf r) as (? & ? & ? & Hm & ? & ? & ?). exists b, (f r).
  split_and!; [done| |by apply grows_same; rewrite ?Hm|done].
  apply (store_ok_weaken n); [lia|].
  apply (store_ok_frame n r); try done; [apply Hok|unfold texts_ok; rewrite Hm]; by destruct Hs.
Qed.

Lemma atomic_insert_session tok uid ts : atomic any (on_repos (insert_session tok uid ts)) (λ _ _, True).
Proof.
  apply (atomic_frame _ (λ r, snd (insert_session tok uid ts r))); [by eexists| |done].
  intros. by apply insert_session_ok.
Qed.

Lemma atomic_delete_session tok : atomic any (on_repos (delete_session tok)) (λ _ _, True).
Proof.
  apply (atomic_frame _ (λ r, snd (delete_session tok r))); [by eexists| |done].
  intros. by apply delete_session_ok.
Qed.

Lemma atomic_join_room rid uid : atomic any (on_repos (join_room rid uid)) (λ _ _, True).
Proof.
  apply (atomic_frame _ (λ r, snd (join_room rid uid r))); unfold join_room.
  - intros r. case_match; by eexists.
  - intros. by apply (join_room_ok rid uid).
  - intros r. by case_match.
Qed.

Lemma atomic_leave_room rid uid : atomic any (on_repos (leave_room rid uid)) (λ _ _, True).
Proof.
  apply (atomic_frame _ (λ r, snd (leave_room rid uid r))); unfold leave_room.
  - intros r. case_match; by eexists.
  - intros. by apply (leave_room_ok rid uid).
  - intros r. by case_match.
Qed.
End accesses.

(** *** The room cache *)

Section components.
Context `{Env}.

Lemma shared_ok_rooms n w rm :
  shared_ok n w → (∀ rid, rid ∈ rm.(room_loaded) ↔ is_Some (rm.(room_cache) !! rid)) →
  shared_ok (n + 1) (set_rooms rm w).
Proof. intros Hw Hl. apply (shared_ok_weaken n); [lia|]. by destruct Hw. Qed.

(** The rooms loaded are the rooms cached. *)
Definition loaded_ok (rm : RoomManager) : Prop :=
  ∀ rid, rid ∈ rm.(room_loaded) ↔ is_Some (rm.(room_cache) !! rid).

Lemma loaded_ok_insert rm rid s :
  loaded_ok rm → loaded_ok (mkRooms (<[rid := s]> rm.(room_cache)) ({[rid]} ∪ rm.(room_loaded))).
Proof.
  intros Hl x. cbn. destruct (decide (x = rid)) as [->|Hne].
  - rewrite lookup_insert_eq. split; [by eexists|set_solver].
  - rewrite lookup_insert_ne by done. rewrite <-(Hl x). set_solver.
Qed.

Lemma loaded_ok_update rm rid s :
  loaded_ok rm → is_Some (rm.(room_cache) !! rid) →
  loaded_ok (mkRooms (<[rid := s]> rm.(room_cache)) rm.(room_loaded)).
Proof.
  intros Hl Hs x. cbn. destruct (decide (x = rid)) as [->|Hne].
  - rewrite lookup_insert_eq, (Hl rid). split; [by eexists|done].
  - rewrite lookup_insert_ne by done. apply Hl.
Qed.

Lemma ensure_loaded_shared rid rm (r : Repositories) :
  loaded_ok rm → ∃ rm', ensure_loaded rid (rm, r) = (Ret tt, (rm', r)) ∧ loaded_ok rm' ∧
    is_Some (rm'.(room_cache) !! rid).
Proof.
  intros Hl. unfold ensure_loaded. case_bool_decide as Hin.
  - exists rm. split_and!; [done|done|by apply Hl].
  - assert (∃ l, rs_list_members rid r = (Ret l, r)) as [l ->].
    { cbn. unfold list_room_members. case_match; by eexists. }
    eexists. split; [done|]. split; [by apply loaded_ok_insert|].
    cbn. rewrite lookup_insert_eq. by eexists.
Qed.

Lemma atomic_rooms {B} (q : M (RoomManager * Repositories) B) :
  (∀ rm r, loaded_ok rm → ∃ b rm', q (rm, r) = (Ret b, (rm', r)) ∧ loaded_ok rm') →
  atomic any (on_rooms q) (λ _ _, True).
Proof.
  intros Hq n w _ Hw _. destruct (Hq (w_rooms w) (w_repos w) (sk_loaded _ _ Hw)) as (b & rm' & He & Hl).
  exists b, (set_rooms rm' w). unfold on_rooms. rewrite He. split; [by destruct w|].
  split_and!; [by apply shared_ok_rooms|done|auto with progs|done].
Qed.

Lemma atomic_is_member rid uid : atomic any (on_rooms (RoomManager.is_member rid uid)) (λ _ _, True).
Proof.
  apply atomic_rooms. intros rm r Hl. destruct (ensure_loaded_shared rid rm r Hl) as (rm' & He & Hl' & _).
  unfold RoomManager.is_member. erewrite M_bind_ret by exact He. by eauto.
Qed.

Lemma atomic_members_of rid : atomic any (on_rooms (members_of rid)) (λ _ _, True).
Proof.
  apply atomic_rooms. intros rm r Hl. destruct (ensure_loaded_shared rid rm r Hl) as (rm' & He & Hl' & _).
  unfold members_of. erewrite M_bind_ret by exact He. by eauto.
Qed.

Lemma atomic_on_join rid uid : atomic any (on_rooms (on_join rid uid)) (λ _ _, True).
Proof.
  apply atomic_rooms. intros rm r Hl. destruct (ensure_loaded_shared rid rm r Hl) as (rm' & He & Hl' & Hs).
  unfold on_join. erewrite M_bind_ret by exact He. do 2 eexists. split; [reflexivity|].
  by apply loaded_ok_update.
Qed.

Lemma atomic_on_leave rid uid : atomic any (on_rooms (on_leave rid uid)) (λ _ _, True).
Proof.
  apply atomic_rooms. intros rm r Hl. unfold on_leave.
  destruct (room_cache rm !! rid) as [s|] eqn:Hs; do 2 eexists; (split; [reflexivity|done || idtac]).
  apply loaded_ok_update; [done|by eexists].
Qed.

(** *** Presence *)

Lemma shared_ok_presence n w p : shared_ok n w → presence_ok p → shared_ok (n + 1) (set_presence p w).
Proof. intros Hw Hp. apply (shared_ok_weaken n); [lia|]. by destruct Hw. Qed.

Lemma atomic_bind uid c : atomic any (bind_step uid c) (λ _ _, True).
Proof.
  intros n w _ Hw _. do 2 eexists. split; [reflexivity|].
  split_and!; [|done|auto with progs|done].
  apply shared_ok_presence; [done|]. apply (bind_locked_ok uid c), (sk_presence _ _ Hw).
Qed.

Lemma atomic_unbind uid c : atomic any (unbind_step uid c) (λ _ _, True).
Proof.
  intros n w _ Hw _. unfold unbind_step.
  destruct (unbind_locked uid c (w_presence w)) as [[p b]|] eqn:Hu.
  - exists b, (set_presence p w). split_and!; [done| |done|auto with progs|done].
    apply shared_ok_presence; [done|]. by eapply unbind_locked_ok, Hu; apply (sk_presence _ _ Hw).
  - exists false, w. split_and!; [done|by eapply shared_ok_weaken; [|done]; lia|done|auto with progs|done].
Qed.

(** *** Sessions *)

Lemma shared_ok_sessions n w s :
  shared_ok n w → (∀ tok info, s.(session_cache) !! tok = Some info →
    known_user info.(si_user_id) w.(w_repos)) → shared_ok (n + 1) (set_sess s w).
Proof. intros Hw Hs. apply (shared_ok_weaken n); [lia|]. by destruct Hw. Qed.

Lemma atomic_cache_session tok uid now :
  atomic (known_user uid) (cache_session tok uid now) (λ _ _, True).
Proof.
  intros n w _ Hw Hu. do 2 eexists. split; [reflexivity|].
  split_and!; [|done|auto with progs|done]. apply shared_ok_sessions; [done|]. cbn.
  intros t info. rewrite lookup_insert_Some. intros [[_ <-]|[_ Hl]]; [done|].
  by eapply (sk_sessions _ _ Hw).
Qed.

Lemma atomic_uncache_session tok : atomic any (uncache_session tok) (λ _ _, True).
Proof.
  intros n w _ Hw _. do 2 eexists. split; [reflexivity|].
  split_and!; [|done|auto with progs|done]. apply shared_ok_sessions; [done|]. cbn.
  intros t info. rewrite lookup_delete_Some. intros [_ Hl]. by eapply (sk_sessions _ _ Hw).
Qed.

Lemma atomic_validate tok :
  atomic any (sessions_validate tok)
    (λ o r, ∀ info, o = Some info → known_user info.(si_user_id) r ∧ 1 <= info.(si_user_id)).
Proof.
  intros n w _ Hw _. unfold sessions_validate. erewrite M_bind_ret by reflexivity.
  pose proof (shared_ok_env n w (S (w_reads w)) (w_draws w) Hw) as Hw1.
  set (w1 := set_env _ _ _) in *. unfold on_sessions, validate.
  destruct (session_cache (w_sessions w1) !! tok) as [info|] eqn:Hl.
  - assert (known_user info.(si_user_id) w1.(w_repos)) as Hu by by eapply (sk_sessions _ _ Hw1).
    destruct (si_expires_at_ms info <=? _).
    + do 2 eexists. split; [reflexivity|]. split_and!; [|done|auto with progs|done].
      split; try apply Hw1. cbn. intros t i. rewrite lookup_delete_Some. intros [_ Hi].
      by eapply (sk_sessions _ _ Hw1).
    + do 2 eexists. split; [reflexivity|]. split_and!; [by destruct w|done|auto with progs|].
      intros ? [= <-]. split; [exact Hu|]. eapply user_id_pos; [apply (sk_store _ _ Hw1)|exact Hu].
  - do 2 eexists. split; [reflexivity|]. by split_and!; [destruct w| |auto with progs|].
Qed.

(** *** Connections *)

Lemma shared_ok_net n w cs re :
  shared_ok n w → (∀ cid c, cs !! cid = Some c → c.(user_id) ≠ 0 →
    known_user c.(user_id) w.(w_repos)) → shared_ok (n + 1) (set_net cs re w).
Proof. intros Hw Hc. apply (shared_ok_weaken n); [lia|]. by destruct Hw. Qed.

Lemma atomic_set_owner P c f :
  (∀ x, anon (f x) = anon x) →
  (∀ r x, P r → (x.(user_id) ≠ 0 → known_user x.(user_id) r) →
     (f x).(user_id) ≠ 0 → known_user (f x).(user_id) r) →
  atomic P (update_conn c f) (λ _ _, True).
Proof.
  intros Hf HP n w _ Hw Hp. rewrite update_conn_eq. do 2 eexists. split; [reflexivity|].
  split_and!; [|done| |done].
  - apply shared_ok_net; [done|]. intros cid x. destruct (decide (cid = c)) as [->|Hne].
    + rewrite lookup_alter_eq. destruct (w_conns w !! c) as [y|] eqn:Hy; [|done].
      intros [= <-]. apply HP; [done|]. by apply (sk_conns _ _ Hw c).
    + rewrite lookup_alter_ne by done. apply (sk_conns _ _ Hw).
  - apply appended_nil. intros x. cbn. destruct (decide (x = c)) as [->|Hne].
    + rewrite lookup_alter_eq. destruct (w_conns w !! c); [|done]. cbn. by rewrite Hf.
    + by rewrite lookup_alter_ne.
Qed.

Lemma atomic_set_user_id c uid :
  atomic (λ r, uid ≠ 0 → known_user uid r) (update_conn c (set_user_id uid)) (λ _ _, True).
Proof. apply atomic_set_owner; [done|]. by intros r x Hu _. Qed.

Lemma atomic_set_token c tok : atomic any (update_conn c (set_session_token tok)) (λ _ _, True).
Proof. apply atomic_set_owner; [done|]. by intros r x _ Hx. Qed.
End components.

(** ** Sending *)

Lemma shared_ok_append n w cid s :
  shared_ok n w → ∃ w', send_append cid s w = (Ret tt, w') ∧ shared_ok (n + 1) w' ∧
    w'.(w_repos) = w.(w_repos) ∧ appended [(cid, s)] w.(w_conns) w'.(w_conns).
Proof.
  intros Hw. unfold send_append. rewrite update_conn_eq. eexists. split; [reflexivity|].
  split_and!; [|done|].
  - apply shared_ok_net; [done|]. intros x c. destruct (decide (x = cid)) as [->|Hne].
    + rewrite lookup_alter_eq. destruct (w_conns w !! cid) as [y|] eqn:Hy; [|done].
      intros [= <-]. exact (sk_conns _ _ Hw cid y Hy).
    + rewrite lookup_alter_ne by done. apply (sk_conns _ _ Hw).
  - intros x. rewrite payloads_send. cbn [w_conns set_net]. destruct (decide (x = cid)) as [->|Hne].
    + rewrite lookup_alter_eq, Z.eqb_refl. by destruct (w_conns w !! cid).
    + rewrite lookup_alter_ne by done. rewrite (proj2 (Z.eqb_neq _ _)) by congruence.
      by destruct (w_conns w !! x).
Qed.

Lemma atomic_send_post cid : atomic any (send_post cid) (λ _ _, True).
Proof.
  intros n w _ Hw _. unfold send_post, on_conn. destruct (w_conns w !! cid) as [c|] eqn:Hc.
  - do 2 eexists. split; [reflexivity|]. rewrite insert_id by done.
    split_and!; [|done|auto with progs|done].
    apply shared_ok_net; [done|]. apply (sk_conns _ _ Hw).
  - do 2 eexists. split; [reflexivity|].
    split_and!; [by eapply shared_ok_weaken; [|done]; lia|done|auto with progs|done].
Qed.

Lemma tri_send_frame P cid s : Stable P →
  tri P (send_frame_p cid s) (λ _ tr r, tr = [(cid, s)] ∧ P r).
Proof.
  intros HP r Hr n w Hg Hn Hw. exists (match w.(w_conns) !! cid with
    Some c => accepts c s | None => false end), w. split; [reflexivity|].
  split; [by eapply shared_ok_weaken; [|done]; lia|]. split; [done|]. split; [auto with progs|].
  assert (P w.(w_repos)) as HPw by by eapply HP.
  cbn [pure_of calls]. destruct (match w_conns w !! cid with Some _ => _ | None => _ end).
  2:{ intros r' Hg'. split; [done|by eapply HP]. }
  intros n1 w1 Hg1 Hn1 Hw1. destruct (shared_ok_append n1 w1 cid s Hw1) as (w2 & Ha & Hw2 & Hr2 & Hap).
  exists tt, w2. split_and!; [done|done|by rewrite Hr2|done|]. rewrite Hr2. cbn [pure_of calls].
  apply (tri_last P any _ (λ _ _, True)); [done|apply atomic_send_post|apply _|done|done|].
  by eapply HP.
Qed.

(** ** Replies *)

(** A reply to the request with id [id]; a message id in it names a stored message
    whose text is [content], the request's. *)
Definition reply_ok `{FloatText} (id : option Z) (content : string) (s : string) (r : Repositories)
    : Prop :=
  ∃ j, dump j = Ret s ∧ json_find "id" j = JInt <$> id ∧
    (get_str j "type" = kAck ∨ get_str j "type" = kError ∨ get_str j "type" = kPong) ∧
    ∀ v, json_find "msg_id" j = Some v → ∃ mid, v = JUint mid ∧ persisted mid content r.

(** Message events, then one such reply to [c]. *)
Definition replied `{FloatText} (c : Z) (id : option Z) (content : string) (tr : trace)
    (r : Repositories) : Prop :=
  ∃ evs s, tr = evs ++ [(c, s)] ∧ Forall is_event evs ∧ reply_ok id content s r.

#[export] Instance reply_ok_stable `{FloatText} id content s : Stable (reply_ok id content s).
Proof.
  intros r r' Hg (j & Hd & Hid & Ht & Hm). exists j. split_and!; [done|done|done|].
  intros v Hv. destruct (Hm v Hv) as (mid & -> & Hp). exists mid. split; [done|].
  by eapply persisted_stable.
Qed.

#[export] Instance replied_stable `{FloatText} c id content tr : Stable (replied c id content tr).
Proof.
  intros r r' Hg (evs & s & ? & ? & Hs). exists evs, s. split_and!; [done|done|].
  by eapply reply_ok_stable.
Qed.

Lemma replied_app `{FloatText} c id content evs tr r :
  Forall is_event evs → replied c id content tr r → replied c id content (evs ++ tr) r.
Proof.
  intros He (evs' & s & -> & He' & Hs). exists (evs ++ evs'), s. rewrite app_assoc.
  split_and!; [done|by apply Forall_app|done].
Qed.

Section replies.
Context `{FloatText} (c : Z) (id : option Z) (content : string).
Implicit Types (P : Repositories → Prop).

Definition replies (u : unit) (tr : trace) (r : Repositories) : Prop := replied c id content tr r.

Lemma tri_reply P j : Stable P →
  json_utf8 j = true → json_find "id" j = JInt <$> id →
  (get_str j "type" = kAck ∨ get_str j "type" = kError ∨ get_str j "type" = kPong) →
  (∀ v r, json_find "msg_id" j = Some v → P r → ∃ mid, v = JUint mid ∧ persisted mid content r) →
  tri P (send_p c j) replies.
Proof.
  intros HP Hj Hid Ht Hm. destruct (dump_total j Hj) as [s Hs]. unfold send_p.
  eapply tri_silent; [by apply tri_pure_of|]. intros s'.
  eapply (tri_pure (s' = s)); [by intros r []|]. intros ->.
  eapply tri_mono; [by apply (tri_send_frame P)|by intros r []|].
  intros [] tr r [-> Hr]. exists [], s. split_and!; [done|constructor|].
  exists j. split_and!; [done|done|done|]. intros v Hv. by eapply Hm.
Qed.

Lemma tri_error P code message : Stable P →
  utf8_valid code = true → utf8_valid message = true →
  tri P (send_p c (make_error id code message)) replies.
Proof.
  intros HP Hc Hm. apply tri_reply; unfold get_str, make_error; rewrite ?json_find_of.
  - done.
  - apply json_of_utf8. destruct id; cbn; unfold member_utf8; cbn; by rewrite Hc, Hm.
  - by destruct id.
  - right; left. by destruct id.
  - intros v r. by destruct id.
Qed.

Lemma tri_ack P o : Stable P →
  forallb member_utf8 o = true → obj_find "id" o = None →
  (∀ v r, obj_find "msg_id" o = Some v → P r → ∃ mid, v = JUint mid ∧ persisted mid content r) →
  tri P (send_ack_p c id (JObj o)) replies.
Proof.
  intros HP Ho Hid Hm. set (j := match id with
    | Some i => JObj (obj_set "id" (JInt i) (obj_set "type" (JStr kAck) o))
    | None => JObj (obj_set "type" (JStr kAck) o) end).
  assert (forallb member_utf8 (obj_set "type" (JStr kAck) o) = true) as Ho' by by apply obj_set_utf8.
  unfold send_ack_p. eapply tri_silent; [apply (tri_pure_of P j); [done|by subst j; destruct id]|].
  intros a. eapply (tri_pure (a = j)); [by intros r []|]. intros ->.
  eapply tri_pre; [intros r [_ Hr]; exact Hr|]. apply tri_reply; [done|subst j..].
  - destruct id; [|exact Ho']. by apply (obj_set_utf8 "id").
  - destruct id; cbn [json_find]; [by rewrite obj_find_set_eq|]. by rewrite obj_find_set_ne.
  - left. unfold get_str. destruct id; cbn [json_find];
      [rewrite obj_find_set_ne by done|]; by rewrite obj_find_set_eq.
  - intros v r. destruct id; cbn [json_find]; rewrite !obj_find_set_ne by done; apply Hm.
Qed.

Lemma tri_ack_of P kvs : Stable P →
  forallb member_utf8 kvs = true → last_value "id" kvs None = None → kvs ≠ [] →
  last_value "msg_id" kvs None = None → tri P (send_ack_p c id (json_of kvs)) replies.
Proof.
  intros HP Hk Hid Hne Hm. pose proof (json_of_utf8 kvs Hk) as Hu.
  pose proof (json_find_of "id" kvs) as Hf. rewrite Hid in Hf.
  pose proof (json_find_of "msg_id" kvs) as Hf2. rewrite Hm in Hf2.
  destruct (json_of_object kvs Hne) as [o Ho]. rewrite Ho in *.
  apply tri_ack; [done|done|done|]. intros v r Hv. cbn in Hf2. congruence.
Qed.

Lemma tri_ack_message `{Env} P mid : Stable P →
  (∀ r, P r → persisted mid content r) → tri P (ack_message_p c id mid) replies.
Proof.
  intros HP Hmid. unfold ack_message_p. access atomic_now. intros t.
  pose proof (json_find_of "msg_id" [("msg_id", JUint mid); ("timestamp", JInt t)]) as Hf.
  apply tri_ack; [apply _|done|done|].
  intros v r Hv [Hr _]. exists mid. split; [|by apply Hmid].
  by injection Hv as <-.
Qed.
End replies.

(** ** The router *)

Section routing.
Context `{Env, FloatText}.
Implicit Types (P : Repositories → Prop).

Lemma tri_send_event P ev l : Stable P → (∀ cid, is_event (cid, ev)) →
  tri P (pfor l (λ c, send_frame_p c ev)) (λ _ tr r, Forall is_event tr ∧ P r).
Proof.
  intros HP Hev. apply tri_for; [done|]. intros x _.
  eapply tri_mono; [by apply (tri_send_frame P)|done|].
  intros _ tr r [-> Hr]. split; [|done]. apply Forall_singleton, Hev.
Qed.

Lemma tri_event P mid sid rcv room content ts : Stable P → utf8_valid content = true →
  tri P (pure_of (event_text mid sid rcv room content ts))
    (λ s tr r, tr = [] ∧ ((∀ cid, is_event (cid, s)) ∧ P r)).
Proof.
  intros HP Hc. destruct (dump_event_total (i64 mid) (i64 sid) (i64 <$> rcv) (i64 <$> room) content ts Hc)
    as [s Hs].
  eapply tri_mono; [apply (tri_pure_of P s); [done|exact Hs]|done|].
  intros a tr r (-> & -> & Hr). split; [done|]. split; [|done]. intros cid. by eapply event_is_event.
Qed.

Definition events_known {A : Type} (φ : A → Repositories → Prop) (a : A) (tr : trace)
    (r : Repositories) : Prop := Forall is_event tr ∧ φ a r.

Lemma events_known_app {A} (φ : A → Repositories → Prop) b evs tr r :
  Forall is_event evs → events_known φ b tr r → events_known φ b (evs ++ tr) r.
Proof. intros ? []. split; [by apply Forall_app|done]. Qed.

Lemma tri_send_dm sender receiver content : utf8_valid content = true →
  tri any (send_dm_p sender receiver content) (events_known (λ id r, persisted id content r)).
Proof.
  intros Hc. unfold send_dm_p. access atomic_now. intros ts.
  access atomic_insert_dm. intros o.
  eapply (tri_pure (∃ id, o = Some id)); [intros r (_ & id & -> & _); by exists id|]. intros [id ->].
  eapply (tri_pre (persisted id content)); [by intros r (_ & ? & [= <-] & ?)|].
  eapply tri_silent; [by apply (tri_event (persisted id content))|]. intros ev.
  eapply (tri_pure (∀ cid, is_event (cid, ev))); [by intros r []|]. intros Hev.
  eapply (tri_pre (persisted id content)); [by intros r []|].
  access atomic_conns_of. intros conns.
  eapply (tri_pre (persisted id content)); [by intros r []|].
  eapply (tri_events _ _ _ (λ _, persisted id content)); [| |apply events_known_app].
  - case_bool_decide.
    + apply tri_silent_events. last_access (atomic_enqueue id receiver content).
    + eapply (tri_events _ _ _ (λ _, persisted id content)); [by apply tri_send_event| |].
      * intros []. apply tri_silent_events. last_access (atomic_update_status id 1).
      * intros [] ? ? ? ? []. split; [by apply Forall_app|done].
  - intros []. access atomic_conns_of. intros own.
    eapply (tri_pre (persisted id content)); [by intros r []|].
    eapply (tri_events _ _ _ (λ _, persisted id content)); [by apply tri_send_event| |apply events_known_app].
    intros []. apply tri_ret; [apply _|]. intros r Hr. split; [constructor|done].
Qed.

Lemma tri_room_deliver id sender ev uid content : (∀ cid, is_event (cid, ev)) →
  tri (persisted id content) (room_deliver_p id sender ev uid)
    (λ _ tr r, Forall is_event tr ∧ persisted id content r).
Proof.
  intros Hev. unfold room_deliver_p. access atomic_conns_of. intros conns.
  eapply (tri_pre (persisted id content)); [by intros r []|]. case_bool_decide; [destruct (negb _)|].
  - apply tri_silent_events. last_access (atomic_enqueue id uid content).
  - by apply tri_ret; [apply _|].
  - by apply tri_send_event; [apply _|].
Qed.

Lemma tri_send_room sender room content : utf8_valid content = true →
  tri any (send_room_p sender room content)
    (events_known (λ id r, id ≠ 0 → persisted id content r)).
Proof.
  intros Hc. unfold send_room_p. access atomic_is_member.
  intros [|]; cbn [negb].
  2:{ apply tri_ret; [apply _|]. intros r _. by split; [constructor|]. }
  access atomic_now. intros ts.
  access atomic_insert_room_msg. intros o.
  eapply (tri_pure (∃ id, o = Some id)); [intros r (_ & id & -> & _); by exists id|]. intros [id ->].
  eapply (tri_pre (persisted id content)); [by intros r (_ & ? & [= <-] & ?)|].
  eapply tri_silent; [by apply (tri_event (persisted id content))|]. intros ev.
  eapply (tri_pure (∀ cid, is_event (cid, ev))); [by intros r []|]. intros Hev.
  eapply (tri_pre (persisted id content)); [by intros r []|].
  access atomic_members_of. intros members.
  eapply (tri_pre (persisted id content)); [by intros r []|].
  eapply (tri_events _ _ _ (λ _, persisted id content)); [| |apply events_known_app].
  - apply tri_for; [apply _|]. intros uid _. by apply tri_room_deliver.
  - intros []. apply tri_ret; [apply _|]. intros r Hr. by split; [constructor|].
Qed.

Lemma tri_replay P uid : Stable P →
  tri P (replay_offline_p uid) (λ _ tr r, Forall is_event tr ∧ P r).
Proof.
  intros HP. unfold replay_offline_p. access atomic_drain. intros ms.
  eapply (tri_pure (Forall (λ m, utf8_valid m.(m_content) = true) ms)); [by intros r []|]. intros Hms.
  eapply (tri_pre P); [by intros r []|]. case_bool_decide; [by apply tri_ret|].
  access atomic_conns_of. intros conns.
  eapply (tri_pre P); [by intros r []|]. case_bool_decide; [by apply tri_ret|].
  apply tri_for; [done|]. intros m Hm. pose proof (proj1 (Forall_forall _ _) Hms m Hm) as Hc.
  eapply tri_silent; [by apply (tri_event P)|]. intros s.
  eapply (tri_pure (∀ cid, is_event (cid, s))); [by intros r []|]. intros Hev.
  eapply (tri_pre P); [by intros r []|]. by apply tri_send_event.
Qed.

(** ** Presence and sessions *)

Lemma tri_transition P uid online : Stable P →
  tri P (on_transition_p uid online) (λ _ tr r, Forall is_event tr ∧ P r).
Proof.
  intros HP. unfold on_transition_p. destruct online; cbn [negb]; [by apply tri_replay|].
  access atomic_now. intros ts. apply tri_silent_events.
  last_access (atomic_last_seen uid ts).
Qed.

Lemma tri_notify P uid online (b : bool) : Stable P →
  tri P ((if b then on_transition_p uid online else mret tt) ;; mret b)
    (λ _ tr r, Forall is_event tr ∧ P r).
Proof.
  intros HP. eapply (tri_events _ _ _ (λ _, P)).
  - destruct b; [by apply tri_transition|]. by apply tri_ret.
  - intros []. by apply tri_ret.
  - intros _ evs tr r He []. split; [by apply Forall_app|done].
Qed.

Lemma tri_bind_presence P uid c : Stable P →
  tri P (bind_p uid c) (λ _ tr r, Forall is_event tr ∧ P r).
Proof.
  intros HP. access atomic_bind. intros b.
  eapply (tri_pre P); [by intros r []|]. by apply tri_notify.
Qed.

Lemma tri_unbind_presence P uid c : Stable P →
  tri P (unbind_p uid c) (λ _ tr r, Forall is_event tr ∧ P r).
Proof.
  intros HP. access atomic_unbind. intros b.
  eapply (tri_pre P); [by intros r []|]. by apply tri_notify.
Qed.

(** [unbind] when there is a user, as in [handle_logout] and [on_close]. *)
Lemma tri_unbind_if P uid c : Stable P →
  tri P (if negb (uid =? 0) then unbind_p uid c ;; mret tt else mret tt)
    (λ _ tr r, Forall is_event tr ∧ P r).
Proof.
  intros HP. destruct (negb _); [|by apply tri_ret].
  eapply (tri_events _ _ _ (λ _, P)); [by apply tri_unbind_presence|intros _; by apply tri_ret|].
  intros _ evs tr r He []. split; [by apply Forall_app|done].
Qed.

Lemma tri_on_close c : tri any (on_close_p c) (λ _ tr _, Forall is_event tr).
Proof.
  unfold on_close_p. access atomic_conn_user. intros uid.
  eapply tri_mono; [apply (tri_unbind_if any uid c _)|done|by intros ? ? ? []].
Qed.

Lemma tri_create uid :
  tri (known_user uid) (create_p uid)
    (λ tok tr r, tr = [] ∧ (utf8_valid tok = true ∧ known_user uid r)).
Proof.
  unfold create_p. access atomic_random. intros rand.
  access atomic_now. intros now.
  access atomic_cache_session. intros [].
  access atomic_insert_session. intros [].
  apply tri_ret; [apply _|]. intros r ((((Hu & _) & _) & _) & _).
  split; [done|]. split; [apply hex_encode_utf8|done].
Qed.

Lemma tri_authenticate P c uid tok : Stable P → (∀ r, P r → known_user uid r) →
  tri P (authenticate_p c uid tok) (λ _ tr r, Forall is_event tr ∧ P r).
Proof.
  intros HP Hu. unfold authenticate_p.
  access (atomic_set_user_id c uid); [by intros r Hr _; apply Hu|]. intros [].
  access atomic_set_token. intros [].
  eapply (tri_pre P); [by intros r [[] _]|].
  eapply (tri_events _ _ _ (λ _, P)); [by apply tri_bind_presence|intros _; by apply tri_ret|].
  intros _ evs tr r He []. split; [by apply Forall_app|done].
Qed.
End routing.

(** ** The handlers *)

Section handlers.
Context `{Env, FloatText, FloatCast, Settings}.
Context (c : Z) (req : json) (Hreq : json_utf8 req = true) (id : option Z).

Let content := get_str req "content".
Let handled (p : prog unit) : Prop := tri any p (replies c id content).

Lemma tri_require_auth :
  tri any (require_auth_p c req id)
    (λ uid tr r, (uid ≠ 0 ∧ Forall is_event tr) ∨ (uid = 0 ∧ replied c id content tr r)).
Proof.
  assert (∀ P code msg, Stable P → utf8_valid code = true → utf8_valid msg = true →
    tri P (send_p c (make_error id code msg) ;; mret 0)
      (λ uid tr r, (uid ≠ 0 ∧ Forall is_event tr) ∨ (uid = 0 ∧ replied c id content tr r))) as Herr.
  { intros P code msg HP Hc Hm. eapply tri_bind; [by apply (tri_error c id content P)|]. intros [] tr.
    unfold replies. apply tri_ret; [apply _|]. intros r Ha. right. by rewrite app_nil_r. }
  unfold require_auth_p. access atomic_conn_user.
  intros uid. destruct (uid =? 0) eqn:E; to_prop; cbn [negb].
  2:{ apply tri_ret; [apply _|]. intros. left. split; [done|constructor]. }
  cbv zeta. destruct (str_empty _); [by apply Herr|].
  access atomic_validate. intros [info|]; [|by apply Herr].
  eapply (tri_pure (1 <= si_user_id info)); [intros r [_ Hi]; by apply (Hi info)|]. intros Hpos.
  eapply (tri_events _ _ _ (λ _ _, True)); [|intros []; apply tri_ret; [apply _|]|].
  - eapply tri_mono; [apply (tri_authenticate (known_user (si_user_id info))); [done|by intros]| |by intros ? ? ? []].
    intros r [_ Hi]. by apply (Hi info).
  - intros r _. left. split; [lia|constructor].
  - intros uid' evs tr r He [[? ?]|[? ?]]; [left|right]; split; try done;
      [by apply Forall_app|by apply replied_app].
Qed.

(** The rest of a handler that starts with [require_auth]. *)
Lemma tri_with_auth (k : Z → prog unit) :
  (∀ uid, uid ≠ 0 → handled (k uid)) →
  handled (uid ← require_auth_p c req id; if uid =? 0 then mret tt else k uid).
Proof.
  intros Hk. eapply tri_bind; [apply tri_require_auth|]. intros uid tr.
  destruct (uid =? 0) eqn:E; to_prop.
  - eapply (tri_pre (replied c id content tr)); [by intros r [[? _]|[_ ?]]|].
    apply tri_ret; [apply _|]. intros r Ha. unfold replies. by rewrite app_nil_r.
  - intros r [[_ Hev]|[? _]]; [|done]. eapply safe_mono; [|by apply (Hk uid E)].
    intros [] tr' r'. by apply replied_app.
Qed.

Lemma handled_error P code message : Stable P →
  utf8_valid code = true → utf8_valid message = true →
  tri P (send_p c (make_error id code message)) (replies c id content).
Proof. intros. by apply tri_error. Qed.

Lemma handled_register : handled (handle_register_p c req id).
Proof using Hreq.
  unfold handled, handle_register_p. pose proof (get_str_utf8 req "username" Hreq) as Hu. cbv zeta.
  destruct (_ || _); [by apply handled_error|].
  access atomic_random. intros salt. access atomic_now. intros now.
  access atomic_create_user. intros [uid|]; [|by apply handled_error].
  apply tri_ack_of; [done|fields_utf8|done..].
Qed.

Lemma handled_login : handled (handle_login_p c req id).
Proof using Hreq.
  unfold handled, handle_login_p. access atomic_find_user_by_username.
  intros [u|]; [|by apply handled_error].
  destruct (verify_password_hash _ _); [|by apply handled_error].
  eapply (tri_pure (utf8_valid (u_username u) = true)); [intros r [_ Hu]; by apply Hu|]. intros Hname.
  eapply (tri_pre (known_user (u_id u))); [intros r [_ Hu]; by apply Hu|].
  eapply tri_silent; [apply tri_create|].
  intros tok. eapply (tri_pure (utf8_valid tok = true)); [by intros r []|]. intros Htok.
  eapply (tri_events _ _ _ (λ _ _, True)); [| |intros []; apply replied_app].
  - eapply tri_mono; [apply (tri_authenticate (known_user (u_id u))); [done|by intros]|by intros r []|by intros ? ? ? []].
  - intros []. access atomic_ttl. intros ttl. apply tri_ack_of; [done|fields_utf8|done..].
Qed.

Lemma handled_logout : handled (handle_logout_p c req id).
Proof.
  unfold handled, handle_logout_p. access atomic_conn_token. intros tok.
  eapply (tri_silent _ _ _ (λ _, any)).
  { destruct (negb _); [|by apply tri_ret]. unfold revoke_p. access atomic_uncache_session.
    intros []. by last_access atomic_delete_session. }
  intros []. access atomic_conn_user. intros uid.
  eapply (tri_events _ _ _ (λ _, any)); [| |intros []; apply replied_app].
  { eapply tri_mono; [apply (tri_unbind_if any uid c _)|done|done]. }
  intros []. access (atomic_set_user_id c 0); [by intros r _ []|]. intros [].
  access atomic_set_token. intros []. by apply tri_ack.
Qed.

Lemma handled_send_dm : handled (handle_send_dm_p c req id).
Proof using Hreq.
  apply tri_with_auth. intros sender Hs. pose proof (get_str_utf8 req "content" Hreq) as Hc.
  unfold handled. cbv zeta.
  destruct (_ || _); [by apply handled_error|]. destruct (max_message <? _); [by apply handled_error|].
  access atomic_find_user_by_id. intros [u|]; [|by apply handled_error].
  eapply (tri_events _ _ _ (λ mid, persisted mid content)); [| |intros []; apply replied_app].
  - eapply tri_mono; [by apply (tri_send_dm sender)|done|done].
  - intros mid. destruct (mid =? 0) eqn:E; [by apply handled_error|]. by apply tri_ack_message.
Qed.

Lemma handled_send_room : handled (handle_send_room_p c req id).
Proof using Hreq.
  apply tri_with_auth. intros sender Hs. pose proof (get_str_utf8 req "content" Hreq) as Hc.
  unfold handled. cbv zeta.
  destruct (_ || _); [by apply handled_error|]. destruct (max_message <? _); [by apply handled_error|].
  eapply (tri_events _ _ _ (λ mid r, mid ≠ 0 → persisted mid content r));
    [by apply (tri_send_room sender)| |intros []; apply replied_app].
  intros mid. destruct (mid =? 0) eqn:E; to_prop; [by apply handled_error|].
  apply tri_ack_message; [apply _|]. intros r Hm. by apply Hm.
Qed.

Lemma tri_room_id name created :
  tri (λ r, ∃ rid, named_room name rid r ∧ (created = Some rid ∨ created = None))
    (room_id_p name created) (λ o tr r, tr = [] ∧ ∃ rid, o = Some rid).
Proof.
  intros r (rid & Hr & [->| ->]); [by intros r' _; eauto|]. revert r Hr. cbn [room_id_p].
  change (tri (named_room name rid) (act (on_repos (find_room_by_name name)) ≫=
    λ existing, mret (option_map room_id existing)) (λ o tr r, tr = [] ∧ ∃ rid, o = Some rid)).
  access (atomic_find_room_by_name name rid). intros o. apply tri_ret; [apply _|].
  intros r [_ Ho]. split; [done|]. by exists rid.
Qed.

Lemma handled_create_room : handled (handle_create_room_p c req id).
Proof using Hreq.
  apply tri_with_auth. intros uid Hs. pose proof (get_str_utf8 req "name" Hreq) as Hname.
  unfold handled. cbv zeta. destruct (_ || _); [by apply handled_error|].
  access atomic_now. intros now. access atomic_create_room. intros created.
  eapply tri_silent; [eapply tri_pre; [|apply (tri_room_id (get_str req "name") created)]|].
  { by intros r [_ Hr]. }
  intros o. eapply (tri_pure (∃ rid, o = Some rid)); [done|]. intros [rid ->].
  access atomic_join_room. intros b. access atomic_on_join. intros [].
  apply tri_ack_of; [done|fields_utf8|done..].
Qed.

Lemma tri_join_target rid0 name :
  tri any (join_target_p rid0 name) (λ _ tr r, tr = [] ∧ any r).
Proof.
  unfold join_target_p. destruct (_ && _); [|by apply tri_ret].
  access atomic_lookup_room. intros o. by apply tri_ret.
Qed.

Lemma handled_join_room : handled (handle_join_room_p c req id).
Proof.
  apply tri_with_auth. intros uid Hs. eapply tri_silent; [apply tri_join_target|]. intros rid.
  destruct (rid =? 0); [by apply handled_error|]. access atomic_join_room. intros [|]; cbn [negb];
    [|by apply handled_error].
  access atomic_on_join. intros []. by apply tri_ack_of.
Qed.

Lemma handled_leave_room : handled (handle_leave_room_p c req id).
Proof.
  apply tri_with_auth. intros uid Hs. unfold handled. cbv zeta. destruct (_ =? 0); [by apply handled_error|].
  access atomic_leave_room. intros b. access atomic_on_leave. intros []. by apply tri_ack.
Qed.

Lemma handled_list_rooms : handled (handle_list_rooms_p c req id).
Proof.
  apply tri_with_auth. intros uid Hs. unfold handled. access atomic_list_rooms. intros rs.
  eapply tri_pure; [intros r [_ Hrs]; exact Hrs|]. intros Hrs%room_json_utf8.
  apply tri_ack_of; [done| |done..]. unfold member_utf8. cbn [forallb fst snd json_utf8].
  rewrite Hrs. by vm_compute.
Qed.

(** The answer to a history query. *)
Lemma tri_history P k target ms : Stable P → utf8_valid k = true →
  (∀ r, P r → Forall (λ m, utf8_valid m.(m_content) = true) ms) →
  tri P (send_ack_p c id (json_of [("messages", JArr ((λ m, history_json k (target m) m) <$> ms))]))
    (replies c id content).
Proof.
  intros HP Hk Hms. eapply tri_pure; [exact Hms|]. intros Hu%(history_json_utf8 k target); [|done].
  apply tri_ack_of; [done| |done..]. unfold member_utf8. cbn [forallb fst snd json_utf8].
  rewrite Hu. by vm_compute.
Qed.

Lemma handled_history_dm : handled (handle_history_dm_p c req id).
Proof.
  apply tri_with_auth. intros uid Hs. unfold handled. cbv zeta. destruct (_ =? 0); [by apply handled_error|].
  eapply tri_then; [apply _|by eapply atomic_history|apply _|done|]. intros ms.
  apply tri_history; [apply _|done|by intros r []].
Qed.

Lemma handled_history_room : handled (handle_history_room_p c req id).
Proof.
  apply tri_with_auth. intros uid Hs. unfold handled. cbv zeta. destruct (_ =? 0); [by apply handled_error|].
  access atomic_is_member. intros [|]; cbn [negb]; [|by apply handled_error].
  eapply tri_then; [apply _|by eapply atomic_history|apply _|done|]. intros ms.
  apply tri_history; [apply _|done|by intros r []].
Qed.

Lemma handled_presence : handled (handle_presence_p c req id).
Proof.
  apply tri_with_auth. intros uid Hs. unfold handled. cbv zeta. destruct (_ =? 0); [by apply handled_error|].
  access atomic_find_user_by_id. intros [u|]; [|by apply handled_error].
  eapply (tri_pure (utf8_valid (u_username u) = true)); [intros r [_ Hu]; by apply Hu|]. intros Hname.
  access atomic_online. intros b. apply tri_ack_of; [done|fields_utf8|done..].
Qed.

Lemma handled_ping : handled (handle_ping_p c req id).
Proof.
  unfold handled, handle_ping_p. access atomic_now. intros t.
  set (j := json_of ([("t", JInt t); ("type", JStr kAck)] ++ opt_field "id" id)).
  set (r := json_of ([("t", JInt t); ("type", JStr kAck)] ++ opt_field "id" id ++ [("type", JStr kPong)])).
  eapply tri_silent; [apply (tri_pure_of _ j); [done|by subst j; destruct id]|].
  intros a. eapply (tri_pure (a = j)); [by intros ? []|]. intros ->.
  eapply tri_silent; [apply (tri_pure_of _ r); [done|by subst j r; destruct id]|].
  intros a. eapply (tri_pure (a = r)); [by intros ? []|]. intros ->.
  apply tri_reply; [done|subst r; unfold get_str; rewrite ?json_find_of..].
  - apply json_of_utf8. destruct id; by vm_compute.
  - by destruct id.
  - right; right. by destruct id.
  - intros v r. by destruct id.
Qed.

Lemma find_program_handled t p : find_program t program_table = Some p → handled (p c req id).
Proof using Hreq.
  unfold program_table, find_program. intros Hf.
  repeat match type of Hf with
  | (if ?b then _ else _) = _ => destruct b; [injection Hf as <-|]
  end; [..|done].
  - apply handled_register.
  - apply handled_login.
  - apply handled_logout.
  - apply handled_send_dm.
  - apply handled_send_room.
  - apply handled_create_room.
  - apply handled_join_room.
  - apply handled_leave_room.
  - apply handled_list_rooms.
  - apply handled_history_dm.
  - apply handled_history_room.
  - apply handled_presence.
  - apply handled_ping.
Qed.
End handlers.

(** The text of the request in [payload]. *)
Definition payload_content `{FloatText} (payload : string) : string :=
  match parse payload with Some req => get_str req "content" | None => "" end.

Lemma dispatch_handled `{Env, FloatText, FloatCast, Settings} c payload :
  tri any (dispatch_p c payload) (replies c (payload_id payload) (payload_content payload)).
Proof.
  unfold dispatch_p, payload_id, payload_content. destruct (parse payload) as [req|] eqn:Hp.
  2:{ change (None ≫= request_id) with (@None Z). by apply tri_error. }
  change (Some req ≫= request_id) with (request_id req).
  apply parse_utf8 in Hp. cbv zeta. destruct (str_empty _); [by apply tri_error|].
  destruct (find_program _ _) as [p|] eqn:Hf.
  - intros r Hr. apply safe_catch. by eapply find_program_handled.
  - apply tri_error; [done|done|]. by apply utf8_valid_app_ascii, get_str_utf8.
Qed.
