(* ===== verification/Client.v ===== *)
(** * The command line client: [client/cli_client.cpp]

    The tokenizer, the commands and the requests they become, sending a frame and
    the reader loop.  Lines of input, the results of [send] and [recv] are
    arguments; the printed text of a received value ([j.dump(2)]) is kept as the
    value. *)
From S2P Require Import Prelude Util Framing Repositories Session Presence RoomManager.
From S2P Require Import Messages Json JsonProofs JsonRoundTrip Connection World Router Handlers.
From S2P Require Import HandlerLogic HandlerSpecs Server.

(** ** Tokens *)

(** [while (j < s.size() && !isspace(s[j])) ++j;]: the word and what follows. *)
Fixpoint take_word (s : string) : string * string :=
  match s with
  | EmptyString => ("", "")
  | String c s' => if isspace c then ("", s) else let '(w, r) := take_word s' in (String c w, r)
  end.

(** The first loop of [tokens] on the rest of the line; each round consumes a
    character. *)
Fixpoint tokens_loop (fuel : nat) (s : string) (max : nat) (out : list string) : list string * string :=
  match fuel with
  | O => (out, s)
  | S fuel =>
      if str_empty s || negb (length out + 1 <? max)%nat then (out, s)
      else
        let '(w, r) := take_word (skip_spaces s) in
        tokens_loop fuel r max (if str_empty w then out else out ++ [w])
  end.

Definition tokens (s : string) (max : nat) : list string :=
  let '(out, s) := tokens_loop (S (String.length s)) s max [] in
  let s := skip_spaces s in
  if str_empty s then out else out ++ [s].

(** ** Commands *)

Inductive action :=
| Ignore
| PrintHelp
| Quit
| Unknown
| Send (req : json).

(** [t[i]], for [i < t.size()]. *)
Definition tok (t : list string) (i : nat) : string := nth i t "".

(** [req[k] = std::stoll(t[i])]. *)
Definition int_field (k : string) (s : string) : outcome (list (string * json)) :=
  z ← stoll s; Ret [(k, JInt z)].

(** The [if] chain: [None] for an unknown command; [Ret] with the fields after
    ["id"] and ["type"]. *)
Definition command (t : list string) : outcome (option (string * list (string * json))) :=
  let cmd := tok t 0 in
  let n := length t in
  let cmd_is s := String.eqb cmd s in
  if cmd_is ":ping" then Ret (Some (kPing, []))
  else if cmd_is ":register" && (3 <=? n)%nat then
    Ret (Some (kRegister, [("username", JStr (tok t 1)); ("password", JStr (tok t 2))]))
  else if cmd_is ":login" && (3 <=? n)%nat then
    Ret (Some (kLogin, [("username", JStr (tok t 1)); ("password", JStr (tok t 2))]))
  else if cmd_is ":logout" then Ret (Some (kLogout, []))
  else if cmd_is ":dm" && (3 <=? n)%nat then
    f ← int_field "receiver_id" (tok t 1); Ret (Some (kSendDM, f ++ [("content", JStr (tok t 2))]))
  else if cmd_is ":create_room" && (2 <=? n)%nat then Ret (Some (kCreateRoom, [("name", JStr (tok t 1))]))
  else if cmd_is ":join" && (2 <=? n)%nat then
    Ret (Some (kJoinRoom, match int_field "room_id" (tok t 1) with
                          | Ret f => f
                          | Throw _ => [("name", JStr (tok t 1))]
                          end))
  else if cmd_is ":leave" && (2 <=? n)%nat then
    f ← int_field "room_id" (tok t 1); Ret (Some (kLeaveRoom, f))
  else if cmd_is ":rooms" then Ret (Some (kListRooms, []))
  else if cmd_is ":room" && (3 <=? n)%nat then
    f ← int_field "room_id" (tok t 1); Ret (Some (kSendRoom, f ++ [("content", JStr (tok t 2))]))
  else if cmd_is ":history_dm" && (2 <=? n)%nat then
    f ← int_field "user_id" (tok t 1);
    if (3 <=? n)%nat then z ← stoi (tok t 2); Ret (Some (kHistoryDM, f ++ [("limit", JInt z)]))
    else Ret (Some (kHistoryDM, f))
  else if cmd_is ":history_room" && (2 <=? n)%nat then
    f ← int_field "room_id" (tok t 1);
    if (3 <=? n)%nat then z ← stoi (tok t 2); Ret (Some (kHistoryRoom, f ++ [("limit", JInt z)]))
    else Ret (Some (kHistoryRoom, f))
  else if cmd_is ":presence" && (2 <=? n)%nat then
    f ← int_field "user_id" (tok t 1); Ret (Some (kPresence, f))
  else Ret None.

(** One line of input with the state of [g_seq]: the counter advances for every
    non-blank line. *)
Definition handle_line (line : string) : M Z action := λ seq,
  if str_empty line then (Ret Ignore, seq)
  else
    let t := tokens line 16 in
    match t with
    | [] => (Ret Ignore, seq)
    | cmd :: _ =>
        let seq' := i64 (seq + 1) in
        if String.eqb cmd ":help" then (Ret PrintHelp, seq')
        else if String.eqb cmd ":quit" then (Ret Quit, seq')
        else match command t with
             | Throw e => (Throw e, seq')
             | Ret None => (Ret Unknown, seq')
             | Ret (Some (type, fields)) =>
                 (Ret (Send (json_of (("id", JInt seq) :: ("type", JStr type) :: fields))), seq')
             end
    end.

(** ** Sending *)

(** The loop of [send_frame]: the script gives what each [send] accepts ([0] for
    an error or a closed connection); the bytes sent, and success. *)
Fixpoint send_loop (script : list nat) (rest : list Z) : list Z * bool :=
  match rest with
  | [] => ([], true)
  | _ =>
      match script with
      | [] | O :: _ => ([], false)
      | n :: script =>
          let '(sent, ok) := send_loop script (drop n rest) in (take n rest ++ sent, ok)
      end
  end.

Section client.
Context `{FloatText}.

Definition client_send_frame (script : list nat) (j : json) : outcome (list Z * bool) :=
  s ← dump j; Ret (send_loop script (to_bytes (frame s))).

(** ** Receiving *)

Inductive printed :=
| PrintValue (j : json)
| PrintNonJson
| PrintBadFrame (what : exn)
| PrintClosed.

Definition print_frame (f : string) : printed :=
  match parse f with Some j => PrintValue j | None => PrintNonJson end.

(** [reader_loop]: each element is what one [recv] returned, [None] for an error
    or the end; the loop stops by itself. *)
Fixpoint reader_loop (script : list (option string)) (d : FrameDecoder) : list printed :=
  match script with
  | [] => []
  | None :: _ => [PrintClosed]
  | Some data :: script =>
      match feed d data with
      | (Ret frames, d) => map print_frame frames ++ reader_loop script d
      | (Throw e, _) => [PrintBadFrame e]
      end
  end.
End client.

(** ** What a command becomes *)

Lemma sto_signed_range lo hi s z : sto_signed lo hi s = Ret z → lo <= z <= hi.
Proof.
  unfold sto_signed. destruct (scan_int s) as [[neg m]|]; [|done]. case_match eqn:E; [|done].
  intros [= <-]. to_prop. lia.
Qed.

Lemma int_field_inv k s f :
  int_field k s = Ret f → ∃ z, f = [(k, JInt z)] ∧ -9223372036854775808 <= z <= 9223372036854775807.
Proof.
  unfold int_field. destruct (stoll s) as [z|] eqn:E; [|done]. cbn. intros [= <-].
  exists z. split; [done|]. by apply sto_signed_range in E.
Qed.

(** The type is one of the server's table, the fields are ones the parser keeps
    and do not touch the id and the type. *)
Definition request_ok (type : string) (fields : list (string * json)) : Prop :=
  type ∈ [kRegister; kLogin; kLogout; kSendDM; kSendRoom; kCreateRoom; kJoinRoom; kLeaveRoom;
          kListRooms; kHistoryDM; kHistoryRoom; kPresence; kPing] ∧
  forallb (λ kv, canon kv.2) fields = true ∧
  forallb (λ kv, negb (String.eqb kv.1 "id" || String.eqb kv.1 "type")) fields = true.

(** Decide [request_ok] for explicit fields. *)
Ltac request_ok :=
  split; [set_solver|]; split; [|reflexivity]; cbn [forallb canon snd app];
  repeat (rewrite (proj2 (Z.leb_le _ _)) by lia); reflexivity.

Lemma command_ok t type fields : command t = Ret (Some (type, fields)) → request_ok type fields.
Proof.
  unfold command. intros Hc.
  repeat match type of Hc with
  | (if ?b then _ else _) = _ => destruct b
  end; try done;
  repeat match type of Hc with
  | (int_field ?k ?s ≫= _) = _ =>
      let E := fresh in destruct (int_field k s) as [f|] eqn:E; [|done];
      apply int_field_inv in E as (z & -> & Hz); cbn [mbind outcome_bind app] in Hc
  | (if ?b then _ else _) = _ => destruct b
  | (stoi ?s ≫= _) = _ =>
      let E := fresh in destruct (stoi s) as [z'|] eqn:E; [|done];
      apply sto_signed_range in E; cbn [mbind outcome_bind app] in Hc
  end; try (injection Hc as <- <-; request_ok).
  destruct (int_field "room_id" (tok t 1)) as [f|] eqn:E; injection Hc as <- <-; [|request_ok].
  apply int_field_inv in E as (z & -> & Hz). request_ok.
Qed.

(** The request of a line, when it sends one. *)
Lemma handle_line_send line seq req seq' :
  handle_line line seq = (Ret (Send req), seq') →
  ∃ type fields, command (tokens line 16) = Ret (Some (type, fields)) ∧
    req = json_of (("id", JInt seq) :: ("type", JStr type) :: fields).
Proof.
  unfold handle_line. destruct (str_empty line); [done|].
  destruct (tokens line 16) as [|cmd t]; [done|].
  destruct (String.eqb cmd ":help"); [done|]. destruct (String.eqb cmd ":quit"); [done|].
  destruct (command (cmd :: t)) as [[[type fields]|]|]; [|done|done]. intros [= <- _]. by eauto.
Qed.

(** Fields with other keys do not change a value. *)
Lemma last_value_keep k kvs d :
  forallb (λ kv, negb (String.eqb kv.1 k)) kvs = true → last_value k kvs d = d.
Proof.
  revert d. induction kvs as [|[k' v] kvs IH]; intros d Hk; [done|]. cbn [forallb fst] in Hk.
  apply andb_prop in Hk as [Hk Hks]. apply negb_true_iff in Hk. cbn [last_value]. rewrite Hk. by apply IH.
Qed.

Lemma client_request_fields type fields seq :
  request_ok type fields → let req := json_of (("id", JInt seq) :: ("type", JStr type) :: fields) in
  json_find "id" req = Some (JInt seq) ∧ get_str req "type" = type.
Proof.
  intros (_ & _ & Hk) req. unfold get_str, req. rewrite !json_find_of. cbn [last_value String.eqb Ascii.eqb Bool.eqb].
  rewrite !last_value_keep; [done|..];
    rewrite forallb_forall in *; intros kv Hkv; specialize (Hk kv Hkv);
    apply negb_true_iff, orb_false_elim in Hk as [H1 H2]; by rewrite ?H1, ?H2.
Qed.

(** ** Sending *)

Lemma send_loop_spec script rest :
  (send_loop script rest).1 `prefix_of` rest ∧
  ((send_loop script rest).2 = true → (send_loop script rest).1 = rest).
Proof.
  revert rest. induction script as [|n script IH]; intros [|b rest]; cbn [send_loop]; try done.
  { split; [apply prefix_nil|done]. }
  destruct n as [|n]; [split; [apply prefix_nil|done]|].
  destruct (IH (drop (S n) (b :: rest))) as [Hp Hok].
  destruct (send_loop script (drop (S n) (b :: rest))) as [sent ok]. cbn [fst snd] in *. split.
  - rewrite <-(take_drop (S n) (b :: rest)) at 2. by apply prefix_app.
  - intros ->. rewrite Hok by done. by rewrite take_drop.
Qed.

(** ** Tokens *)

Definition word (w : string) : Prop := w ≠ "" ∧ Forall (λ c, isspace c = false) (chars w).

Lemma take_word_app w c r :
  Forall (λ c, isspace c = false) (chars w) → isspace c = true →
  take_word (w +:+ String c r) = (w, String c r).
Proof.
  intros Hw Hc. induction w as [|x w IH]; cbn [chars] in Hw.
  - change (("" +:+ String c r)) with (String c r). cbn [take_word]. by rewrite Hc.
  - apply Forall_cons in Hw as [Hx Hw]. rewrite str_app_cons. cbn [take_word]. by rewrite Hx, IH.
Qed.

Lemma skip_spaces_word w r : word w → skip_spaces (w +:+ r) = w +:+ r.
Proof.
  intros [Hne Hw]. destruct w as [|x w]; [done|]. apply Forall_cons in Hw as [Hx _].
  rewrite str_app_cons. cbn [skip_spaces]. by rewrite Hx.
Qed.

(** One round reads one word. *)
Lemma tokens_loop_word fuel s w c r max out :
  skip_spaces s = w +:+ String c r → word w → isspace c = true → (length out + 1 < max)%nat →
  tokens_loop (S fuel) s max out = tokens_loop fuel (String c r) max (out ++ [w]).
Proof.
  intros Hs Hw Hc Hmax. cbn [tokens_loop].
  assert (str_empty s = false) as ->.
  { destruct s; [|done]. cbn in Hs. by destruct w. }
  rewrite (proj2 (Nat.ltb_lt _ _)) by done. cbn [orb negb].
  rewrite Hs, take_word_app by (done || apply Hw).
  assert (str_empty w = false) as ->; [|done]. destruct Hw as [Hne _]. by destruct w.
Qed.

Lemma tokens_loop_prefix fuel s max out : out `prefix_of` (tokens_loop fuel s max out).1.
Proof.
  revert s out. induction fuel as [|fuel IH]; intros s out; cbn [tokens_loop]; [done|].
  case_match; [done|]. destruct (take_word (skip_spaces s)) as [w r].
  etrans; [|apply IH]. destruct (str_empty w); [done|]. by apply prefix_app_r.
Qed.

Lemma tokens_three a b c rest :
  word a → word b → word c →
  ∃ more, tokens (a +:+ " " +:+ b +:+ " " +:+ c +:+ " " +:+ rest) 16 = [a; b; c] ++ more.
Proof.
  intros Ha Hb Hc. unfold tokens.
  set (line := a +:+ " " +:+ b +:+ " " +:+ c +:+ " " +:+ rest).
  assert (∃ k, S (String.length line) = S (S (S k))) as [k ->].
  { unfold line. rewrite !str_length_app. cbn [String.length].
    exists (String.length line - 2)%nat. unfold line. rewrite !str_length_app. cbn [String.length]. lia. }
  unfold line. rewrite (tokens_loop_word _ _ a " " (b +:+ " " +:+ c +:+ " " +:+ rest)) by
    (done || (cbn; lia) || by rewrite skip_spaces_word).
  rewrite (tokens_loop_word _ _ b " " (c +:+ " " +:+ rest)) by
    (done || (cbn; lia) || (cbn [skip_spaces isspace]; by rewrite skip_spaces_word)).
  rewrite (tokens_loop_word _ _ c " " rest) by
    (done || (cbn; lia) || (cbn [skip_spaces isspace]; by rewrite skip_spaces_word)).
  pose proof (tokens_loop_prefix k (String " " rest) 16 [a; b; c]) as [more Hm].
  cbn [app] in *. destruct (tokens_loop k (String " " rest) 16 [a; b; c]) as [out s]. cbn [fst] in Hm. subst out.
  destruct (str_empty _); eexists; reflexivity.
Qed.

(** ** Properties *)

(** C18: what a user types reaches the server's handler.  When a line becomes a
    request that can be serialized and fits the server's frame limit, the server's
    decoder gives back exactly its text, the parser a value with the same strings
    and integers, the id is the client's sequence number, and [dispatch] runs the
    handler of the command's type on it. *)
Theorem client_requests_arrive `{Env, FloatText, FloatCast, Settings} line seq req seq' s mx :
  handle_line line seq = (Ret (Send req), seq') →
  -9223372036854775808 <= seq <= 9223372036854775807 →
  dump req = Ret s → is_u32 mx → payload_ok mx s →
  feed (mkDecoder [] true 4 mx) (frame s) = (Ret [s], mkDecoder [] true 4 mx) ∧
  ∃ req' h, parse s = Some req' ∧ find_handler (get_str req "type") handler_table = Some h ∧
    (∀ c w, dispatch c s w = try_handler h c req' (Some seq) w) ∧
    (∀ k, get_str req' k = get_str req k) ∧ (∀ k d, get_i64 req' k d = get_i64 req k d).
Proof.
  intros Hl Hseq Hd Hmx Hs. apply handle_line_send in Hl as (type & fields & Hc & Hreq).
  apply command_ok in Hc as Hok. destruct (client_request_fields type fields seq Hok) as [Hid Hty].
  rewrite <-Hreq in Hid, Hty. destruct Hok as (Hin & Hcan & _). split.
  { unfold feed. cbn [buf reading_len want max_frame_bytes app].
    pose proof (feed_loop_frames [s] mx [] Hmx ltac:(by constructor)) as Hf.
    change (concat_str (frame <$> [s])) with (frame s +:+ "") in Hf. by rewrite str_app_nil_r in Hf. }
  assert (canon req = true) as Hcr.
  { rewrite Hreq. apply canon_json_of. cbn [forallb snd canon].
    by rewrite (proj2 (Z.leb_le _ _)), (proj2 (Z.leb_le _ _)), Hcan by lia. }
  assert (parse s = Some (norm req)) as Hp.
  { pose proof (value_reads req s Hcr Hd) as Hr. apply reads_parse; [done|by eapply reads_no_bom]. }
  assert (∃ h, find_handler type handler_table = Some h ∧ str_empty type = false) as (h & Hh & He).
  { clear -Hin. repeat (apply elem_of_cons in Hin as [->|Hin]; [by eexists|]). by apply not_elem_of_nil in Hin. }
  exists (norm req), h. rewrite Hty. split_and!; [done|done| |apply get_str_norm|intros; by apply get_i64_norm].
  intros c w. unfold dispatch. rewrite Hp, get_str_norm, Hty, He, Hh. do 2 f_equal.
  unfold request_id. rewrite json_find_norm, Hid. cbn [fmap option_fmap option_map].
  rewrite get_integer_norm; [done|]. cbn. by rewrite (proj2 (Z.leb_le _ _)), (proj2 (Z.leb_le _ _)) by lia.
Qed.

(** The help text announces a message of several words for [:dm]; the client
    sends the first word only, and drops the rest of the line. *)
Theorem client_dm_sends_one_word uid z w rest seq :
  word uid → stoll uid = Ret z → word w →
  fst (handle_line (":dm " +:+ uid +:+ " " +:+ w +:+ " " +:+ rest) seq) =
  Ret (Send (json_of [("id", JInt seq); ("type", JStr "send_dm"); ("receiver_id", JInt z);
                      ("content", JStr w)])).
Proof.
  intros Hu Hz Hw. unfold handle_line.
  change (":dm " +:+ uid +:+ " " +:+ w +:+ " " +:+ rest) with (":dm" +:+ " " +:+ uid +:+ " " +:+ w +:+ " " +:+ rest).
  destruct (tokens_three ":dm" uid w rest) as [more ->]; [|done|done|].
  { split; [done|]. repeat (constructor; [done|]). constructor. }
  cbn [app str_empty String.eqb]. cbn [String.eqb Ascii.eqb Bool.eqb].
  unfold command. cbn [tok nth length]. cbn [String.eqb Ascii.eqb Bool.eqb andb Nat.leb].
  unfold int_field. by rewrite Hz.
Qed.

(** A user name where a number is expected ends the client: the exception of
    [std::stoll] is not caught. *)
Lemma client_dm_name_throws :
  handle_line ":dm bob hello" 1 = (Throw InvalidArgument, 2).
Proof. by vm_compute. Qed.

(** *** Example lines *)

Definition typed (line : string) (seq : Z) : json :=
  match fst (handle_line line seq) with Ret (Send j) => j | _ => JNull end.
Definition typed_text (line : string) (seq : Z) : string :=
  match @dump test_float (typed line seq) with Ret s => s | Throw _ => "" end.

Lemma client_requests_arrive_witness :
  feed decoder_init (frame (typed_text ":join lobby" 3)) = (Ret [typed_text ":join lobby" 3], decoder_init).
Proof.
  apply (@client_requests_arrive test_env test_float test_cast test_settings ":join lobby" 3
    (typed ":join lobby" 3) 4 (typed_text ":join lobby" 3) 65536).
  - by vm_compute.
  - lia.
  - by vm_compute.
  - by vm_compute.
  - by vm_compute.
Defined.

Lemma client_dm_sends_one_word_witness :
  fst (handle_line ":dm 7 hello there" 5) =
  Ret (Send (json_of [("id", JInt 5); ("type", JStr "send_dm"); ("receiver_id", JInt 7); ("content", JStr "hello")])).
Proof.
  apply (client_dm_sends_one_word "7" 7 "hello" "there" 5).
  - split; [done|]. repeat constructor.
  - by vm_compute.
  - split; [done|]. repeat constructor.
Defined.
