(* ===== verification/ReactorLoops.v ===== *)
(** * The event loops: [src/net/reactor_epoll.cpp], [src/net/reactor_select.cpp]

    The loops of the two reactors over the state of [Server]: which callbacks run,
    in which order, and when posted closures are drained; what the system calls
    return is an argument.  Both loops make exactly the actions of the abstract
    machine [server_step] that their events ask for.  Second part: how [post] and
    [stop] wake the loop, with the threads that call them interleaved. *)
From S2P Require Import Prelude Util Crypto Framing Repositories Session Presence RoomManager.
From S2P Require Import Messages Json JsonProofs Connection World Router Handlers HandlerLogic.
From S2P Require Import HandlerSpecs Server.

(** ** Descriptors and callbacks

    Connections are known by ids that are never used again; the kernel does use
    descriptors again.  [fd_of] gives the descriptor each connection has while it
    is open, so two connections may have the same one, at different times
    ([fds_distinct]).  An event still in a batch when its descriptor has been
    closed and given to a new connection goes to the new one. *)

Inductive callback := OnListen | OnConn (cid : Z).

(** One ready descriptor, with what the calls made for it will return. *)
Record io := mkIo {
  io_fd : Z;
  io_bits : Z;
  io_accepts : list accept_result;
  io_recvs : list recv_result;
  io_sends : list send_result;
}.

(** ** epoll *)

Definition EPOLLIN : Z := 1.
Definition EPOLLPRI : Z := 2.
Definition EPOLLOUT : Z := 4.
Definition EPOLLERR : Z := 8.
Definition EPOLLHUP : Z := 16.
Definition EPOLLRDHUP : Z := 8192.

Definition has (bits m : Z) : bool := negb (Z.land bits m =? 0).

(** [to_epoll]. *)
Definition to_epoll (events : Z) : Z :=
  Z.lor (if has events EvRead then Z.lor EPOLLIN EPOLLRDHUP else 0)
        (if has events EvWrite then EPOLLOUT else 0).

(** The mask handed to the callback; errors and hang-ups are shown as readable. *)
Definition epoll_mask (bits : Z) : Z :=
  Z.lor (Z.lor (if has bits (Z.lor EPOLLIN EPOLLPRI) then EvRead else 0)
               (if has bits EPOLLOUT then EvWrite else 0))
        (if has bits (Z.lor (Z.lor EPOLLERR EPOLLHUP) EPOLLRDHUP) then EvRead else 0).

(** What one [epoll_wait] returns; a timeout is an empty batch. *)
Inductive epoll_result :=
| EpollEvents (l : list (io * list (list send_result)))
| EpollIntr
| EpollError.

(** ** select *)

(** [SelectReactor::add], [modify] and [remove] on the table [cbs_]. *)
Definition select_add (fd events : Z) (cbs : gmap Z Z) : bool * gmap Z Z := (true, <[fd := events]> cbs).
Definition select_modify (fd events : Z) (cbs : gmap Z Z) : bool * gmap Z Z :=
  match cbs !! fd with
  | None => (false, cbs)
  | Some _ => (true, <[fd := events]> cbs)
  end.
Definition select_remove (fd : Z) (cbs : gmap Z Z) : bool * gmap Z Z := (true, delete fd cbs).

(** What one [select] returns: an error, or the sets left, whether the wake-up
    socket is among them (and the posts' sends then), the order in which the map is
    walked, and what the calls for each ready descriptor will return. *)
Inductive select_result :=
| SelectReady (wake : option (list (list send_result))) (rs ws : gset Z) (order : list io)
| SelectTimeout
| SelectIntr
| SelectError.

Definition select_mask (rs ws : gset Z) (fd : Z) : Z :=
  Z.lor (if bool_decide (fd ∈ rs) then EvRead else 0) (if bool_decide (fd ∈ ws) then EvWrite else 0).

Section loops.
Context `{Env, FloatText, FloatCast, Settings}.
Variables (max : Z) (fd_of : Z → Z) (listener_fd wake_fd : Z).
Implicit Types (y : Server) (e : io).

(** [cbs_.find(fd)]. *)
Definition find_cb (fd : Z) (y : Server) : option callback :=
  if fd =? listener_fd then (if y.(sv_listening) then Some OnListen else None)
  else OnConn <$> List.find (λ cid, fd_of cid =? fd) (elements (dom y.(sv_world).(w_reactor).(interest))).

Definition call (cb : callback) (mask : Z) (e : io) (y : Server) : Server :=
  match cb with
  | OnListen => on_listen_event max e.(io_accepts) y
  | OnConn cid => conn_event cid mask e.(io_recvs) e.(io_sends) y
  end.

(** One element of the batch. *)
Definition epoll_event (e : io) (sss : list (list send_result)) (y : Server) : Server :=
  if e.(io_fd) =? wake_fd then drain_posts sss y
  else match find_cb e.(io_fd) y with
       | Some cb => call cb (epoll_mask e.(io_bits)) e y
       | None => y
       end.

(** [EpollReactor::run]; each element is what the loop reads of [stopping_] and
    what [epoll_wait] returns then. *)
Fixpoint epoll_run (script : list (bool * epoll_result)) (y : Server) : Server :=
  match script with
  | [] | (true, _) :: _ | (false, EpollError) :: _ => y
  | (false, EpollIntr) :: script => epoll_run script y
  | (false, EpollEvents l) :: script =>
      epoll_run script (foldl (λ y '(e, sss), epoll_event e sss y) y l)
  end.

(** The descriptors asked for: [FD_SET] for each entry by its interest. *)
Definition asked (m : Z) (y : Server) : gset Z :=
  set_map fd_of (dom (filter (λ '(_, ev), has ev m = true) y.(sv_world).(w_reactor).(interest))) ∪
  (if y.(sv_listening) && has EvRead m then {[listener_fd]} else ∅).

(** The snapshot [ready]: the entries, after draining, with a bit set. *)
Definition select_ready (rs ws : gset Z) (order : list io) (y : Server) : list io :=
  filter (λ e, is_Some (find_cb e.(io_fd) y) ∧ select_mask rs ws e.(io_fd) ≠ 0) order.

(** The last loop: the entry may have gone meanwhile. *)
Definition select_event (rs ws : gset Z) (e : io) (y : Server) : Server :=
  match find_cb e.(io_fd) y with
  | Some cb => call cb (select_mask rs ws e.(io_fd)) e y
  | None => y
  end.

(** [SelectReactor::run]; [select] only removes descriptors from the sets. *)
Fixpoint select_run (script : list (bool * select_result)) (y : Server) : Server :=
  match script with
  | [] | (true, _) :: _ | (false, SelectError) :: _ => y
  | (false, SelectIntr) :: script | (false, SelectTimeout) :: script => select_run script y
  | (false, SelectReady wake rs ws order) :: script =>
      let rs := rs ∩ asked EvRead y in
      let ws := ws ∩ asked EvWrite y in
      let y := match wake with Some sss => drain_posts sss y | None => y end in
      let ready := select_ready rs ws order y in
      select_run script (foldl (λ y e, select_event rs ws e y) y ready)
  end.

(** ** What the loops are to do *)

(** A connection registered now under this descriptor. *)
Definition registered (cid fd : Z) (y : Server) : Prop :=
  is_Some (y.(sv_world).(w_reactor).(interest) !! cid) ∧ fd_of cid = fd.

(** The kernel gives no descriptor twice at a time. *)
Definition fds_distinct (y : Server) : Prop := ∀ c1 c2 fd, registered c1 fd y → registered c2 fd y → c1 = c2.

(** The event [e], shown with [mask], is the action [o]: its callback's, once, if
    there is one at that moment, and nothing otherwise. *)
Inductive dispatched (mask : Z) e y : option server_op → Prop :=
| disp_listen : e.(io_fd) = listener_fd → y.(sv_listening) = true →
    dispatched mask e y (Some (SvListen e.(io_accepts)))
| disp_conn cid : e.(io_fd) ≠ listener_fd → registered cid e.(io_fd) y →
    dispatched mask e y (Some (SvEvent cid mask e.(io_recvs) e.(io_sends)))
| disp_closed : e.(io_fd) = listener_fd → y.(sv_listening) = false → dispatched mask e y None
| disp_gone : e.(io_fd) ≠ listener_fd → (∀ cid, ¬ registered cid e.(io_fd) y) → dispatched mask e y None.

(** The bits of [epoll_wait] as the interface's: readable for input, urgent data,
    errors and hang-ups (bits 0, 1, 3, 4, 13), writable for output (bit 2). *)
Definition shows (bits mask : Z) : Prop :=
  ∀ k, Z.testbit mask k =
    ((k =? 0) && existsb (Z.testbit bits) [0; 1; 3; 4; 13]) || ((k =? 1) && Z.testbit bits 2).

(** The actions of a batch, event by event. *)
Inductive epoll_batch : list (io * list (list send_result)) → Server → list server_op → Server → Prop :=
| ebatch_nil y : epoll_batch [] y [] y
| ebatch_wake e sss l y ops y' :
    e.(io_fd) = wake_fd → epoll_batch l (server_step max (SvPosts sss) y) ops y' →
    epoll_batch ((e, sss) :: l) y (SvPosts sss :: ops) y'
| ebatch_event e sss l y mask o ops y' :
    e.(io_fd) ≠ wake_fd → shows e.(io_bits) mask → dispatched mask e y o →
    epoll_batch l (default y ((λ o, server_step max o y) <$> o)) ops y' →
    epoll_batch ((e, sss) :: l) y (option_list o ++ ops) y'.

(** Rounds until [stopping_] is seen, an error, or the end of the script. *)
Inductive epoll_rounds : list (bool * epoll_result) → Server → list server_op → Server → Prop :=
| erounds_nil y : epoll_rounds [] y [] y
| erounds_stop r script y : epoll_rounds ((true, r) :: script) y [] y
| erounds_error script y : epoll_rounds ((false, EpollError) :: script) y [] y
| erounds_intr script y ops y' : epoll_rounds script y ops y' → epoll_rounds ((false, EpollIntr) :: script) y ops y'
| erounds_batch l script y ops1 y1 ops2 y2 :
    epoll_batch l y ops1 y1 → epoll_rounds script y1 ops2 y2 →
    epoll_rounds ((false, EpollEvents l) :: script) y (ops1 ++ ops2) y2.

(** *** Lemmas *)

Lemma has_lor bits m m' : has bits (Z.lor m m') = has bits m || has bits m'.
Proof.
  unfold has. rewrite Z.land_lor_distr_r.
  destruct (Z.eqb_spec (Z.land bits m) 0) as [->|Hm], (Z.eqb_spec (Z.land bits m') 0) as [->|Hm']; try done;
    rewrite ?Z.lor_0_l, ?Z.lor_0_r; cbn; try (by rewrite (proj2 (Z.eqb_neq _ _))).
  rewrite (proj2 (Z.eqb_neq _ _)); [done|]. by intros [? ?]%Z.lor_eq_0_iff.
Qed.

Lemma has_bit bits k : 0 <= k → has bits (2 ^ k) = Z.testbit bits k.
Proof.
  intros Hk. unfold has. destruct (Z.testbit bits k) eqn:Hb.
  - rewrite (proj2 (Z.eqb_neq _ _)); [done|]. intros He.
    assert (Z.testbit (Z.land bits (2 ^ k)) k = false) as Hf by by rewrite He, Z.bits_0.
    by rewrite Z.land_spec, Hb, Z.pow2_bits_true in Hf.
  - rewrite (proj2 (Z.eqb_eq _ _)); [done|]. apply Z.bits_inj'. intros n Hn.
    rewrite Z.land_spec, Z.bits_0, Z.pow2_bits_eqb by done.
    destruct (Z.eqb_spec k n) as [->|]; [by rewrite Hb|by rewrite andb_false_r].
Qed.

Lemma epoll_mask_shows bits : shows bits (epoll_mask bits).
Proof.
  intros k. unfold epoll_mask. rewrite !has_lor.
  change EPOLLIN with (2 ^ 0). change EPOLLPRI with (2 ^ 1). change EPOLLOUT with (2 ^ 2).
  change EPOLLERR with (2 ^ 3). change EPOLLHUP with (2 ^ 4). change EPOLLRDHUP with (2 ^ 13).
  rewrite !has_bit by lia. cbn [existsb]. rewrite !Z.lor_spec.
  assert (∀ b : bool, Z.testbit (if b then EvRead else 0) k = (k =? 0) && b) as Hr.
  { intros []; [|by rewrite Z.bits_0, andb_false_r]. rewrite andb_true_r. change EvRead with (2 ^ 0).
    rewrite Z.pow2_bits_eqb by done. apply Z.eqb_sym. }
  assert (∀ b : bool, Z.testbit (if b then EvWrite else 0) k = (k =? 1) && b) as Hw.
  { intros []; [|by rewrite Z.bits_0, andb_false_r]. rewrite andb_true_r. change EvWrite with (2 ^ 1).
    rewrite Z.pow2_bits_eqb by done. apply Z.eqb_sym. }
  rewrite !Hr, Hw. destruct (k =? 0), (k =? 1), (Z.testbit bits 0), (Z.testbit bits 1), (Z.testbit bits 2),
    (Z.testbit bits 3), (Z.testbit bits 4), (Z.testbit bits 13); reflexivity.
Qed.

(** The lookup and the call make the action of the event. *)
Lemma call_dispatched mask e y :
  ∃ o, dispatched mask e y o ∧
    match find_cb e.(io_fd) y with Some cb => call cb mask e y | None => y end =
    default y ((λ o, server_step max o y) <$> o).
Proof.
  unfold find_cb. destruct (Z.eqb_spec (io_fd e) listener_fd) as [He|He].
  - destruct (sv_listening y) eqn:Hl; eexists; (split; [by constructor|]); cbn; by rewrite ?Hl.
  - destruct (List.find _ _) as [cid|] eqn:Hf; cbn.
    + apply List.find_some in Hf as [Hin Hfd]. apply list_elem_of_In, elem_of_elements, elem_of_dom in Hin.
      exists (Some (SvEvent cid mask e.(io_recvs) e.(io_sends))). split; [|done].
      apply disp_conn; [done|]. split; [done|]. by apply Z.eqb_eq.
    + exists None. split; [|done]. apply disp_gone; [done|]. intros cid [Hin Hfd].
      apply elem_of_dom, elem_of_elements, list_elem_of_In in Hin.
      apply (List.find_none _ _ Hf) in Hin. by rewrite (proj2 (Z.eqb_eq _ _) Hfd) in Hin.
Qed.

Lemma dispatched_unique mask e y o o' :
  fds_distinct y → dispatched mask e y o → dispatched mask e y o' → o = o'.
Proof.
  intros Hd [Hl Hb|c Hl Hc|Hl Hb|Hl Hc] [Hl' Hb'|c' Hl' Hc'|Hl' Hb'|Hl' Hc']; try congruence.
  - by rewrite (Hd _ _ _ Hc Hc').
  - by apply Hc' in Hc.
  - by apply Hc in Hc'.
Qed.

Lemma epoll_batch_run l y :
  ∃ ops, epoll_batch l y ops (foldl (λ y '(e, sss), epoll_event e sss y) y l).
Proof.
  revert y. induction l as [|[e sss] l IH]; intros y; [eexists; constructor|]. cbn [foldl].
  destruct (IH (epoll_event e sss y)) as [ops Hops]. unfold epoll_event in *.
  destruct (Z.eqb_spec (io_fd e) wake_fd) as [He|He]; [eexists; by constructor|].
  destruct (call_dispatched (epoll_mask (io_bits e)) e y) as (o & Ho & Heq). rewrite Heq in *.
  eexists. by eapply ebatch_event; [|apply epoll_mask_shows|..].
Qed.

Lemma epoll_rounds_run script y : ∃ ops, epoll_rounds script y ops (epoll_run script y).
Proof.
  revert y. induction script as [|[[] r] script IH]; intros y; [eexists; constructor..|].
  destruct r as [l| |]; cbn [epoll_run]; [|destruct (IH y) as [ops ?]; eexists; by constructor|eexists; constructor].
  destruct (epoll_batch_run l y) as [ops1 Hb1].
  destruct (IH (foldl (λ y '(e, sss), epoll_event e sss y) y l)) as [ops2 Hb2]. eexists. by econstructor.
Qed.

(** The actions make a run of the abstract server. *)
Definition steps_cost (ops : list server_op) : Z := foldr Z.add 0 (op_cost <$> ops).

Lemma steps_cost_app ops1 ops2 : steps_cost (ops1 ++ ops2) = steps_cost ops1 + steps_cost ops2.
Proof. induction ops1 as [|o ops1 IH]; [done|]. unfold steps_cost in *. cbn in *. lia. Qed.

Lemma step_reach w0 n y o ops : server_reach max w0 n y →
  server_reach max w0 (n + steps_cost (option_list o)) (default y ((λ o, server_step max o y) <$> o)) ∧
  n + steps_cost (option_list o) + steps_cost ops = n + steps_cost (option_list o ++ ops).
Proof.
  intros Hr. rewrite steps_cost_app. split; [|lia]. destruct o as [o|]; cbn.
  - rewrite Z.add_0_r. by apply sreach_step.
  - by rewrite Z.add_0_r.
Qed.

Lemma epoll_batch_reach w0 n l y ops y' :
  server_reach max w0 n y → epoll_batch l y ops y' → server_reach max w0 (n + steps_cost ops) y'.
Proof.
  intros Hr Hb. revert n Hr. induction Hb as [y|e sss l y ops y' _ _ IH|e sss l y mask o ops y' _ _ _ _ IH]; intros n Hr.
  - by rewrite Z.add_0_r.
  - destruct (step_reach w0 n y (Some (SvPosts sss)) ops Hr) as [Hr' He].
    change (SvPosts sss :: ops) with (option_list (Some (SvPosts sss)) ++ ops). rewrite <-He. by apply IH.
  - destruct (step_reach w0 n y o ops Hr) as [Hr' He]. rewrite <-He. by apply IH.
Qed.

Lemma epoll_rounds_reach w0 n script y ops y' :
  server_reach max w0 n y → epoll_rounds script y ops y' → server_reach max w0 (n + steps_cost ops) y'.
Proof.
  intros Hr Hb. revert n Hr. induction Hb as [| | |script y ops y' _ IH|l script y ops1 y1 ops2 y2 Hb1 _ IH]; intros n Hr;
    rewrite ?Z.add_0_r; try done; [by apply IH|].
  rewrite steps_cost_app, Z.add_assoc. apply IH. by eapply epoll_batch_reach.
Qed.

(** *** The same for [select] *)

Inductive select_batch (rs ws : gset Z) : list io → Server → list server_op → Server → Prop :=
| sbatch_nil y : select_batch rs ws [] y [] y
| sbatch_event e l y o ops y' :
    select_mask rs ws e.(io_fd) ≠ 0 → dispatched (select_mask rs ws e.(io_fd)) e y o →
    select_batch rs ws l (default y ((λ o, server_step max o y) <$> o)) ops y' →
    select_batch rs ws (e :: l) y (option_list o ++ ops) y'.

Lemma select_batch_run rs ws l y :
  Forall (λ e, select_mask rs ws e.(io_fd) ≠ 0) l →
  ∃ ops, select_batch rs ws l y ops (foldl (λ y e, select_event rs ws e y) y l).
Proof.
  intros Hl. revert y. induction Hl as [|e l He Hl IH]; intros y; [eexists; constructor|]. cbn [foldl].
  destruct (IH (select_event rs ws e y)) as [ops Hops]. unfold select_event in *.
  destruct (call_dispatched (select_mask rs ws (io_fd e)) e y) as (o & Ho & Heq). rewrite Heq in *.
  eexists. by econstructor.
Qed.

Lemma select_batch_reach w0 n rs ws l y ops y' :
  server_reach max w0 n y → select_batch rs ws l y ops y' → server_reach max w0 (n + steps_cost ops) y'.
Proof.
  intros Hr Hb. revert n Hr. induction Hb as [y|e l y o ops y' _ _ _ IH]; intros n Hr; [by rewrite Z.add_0_r|].
  destruct (step_reach w0 n y o ops Hr) as [Hr' He]. rewrite <-He. by apply IH.
Qed.

(** One round: the posted closures first, then the entries that are registered by
    then and ready, in the order of the map. *)
Inductive select_rounds : list (bool * select_result) → Server → list server_op → Server → Prop :=
| srounds_nil y : select_rounds [] y [] y
| srounds_stop r script y : select_rounds ((true, r) :: script) y [] y
| srounds_error script y : select_rounds ((false, SelectError) :: script) y [] y
| srounds_again r script y ops y' :
    r = SelectIntr ∨ r = SelectTimeout → select_rounds script y ops y' → select_rounds ((false, r) :: script) y ops y'
| srounds_ready wake rs ws order script y ready ops1 y1 ops2 y2 :
    let o := SvPosts <$> wake in
    let y0 := default y ((λ o, server_step max o y) <$> o) in
    (∀ e, e ∈ ready ↔ e ∈ order ∧ (∃ m, ¬ dispatched m e y0 None) ∧
       select_mask (rs ∩ asked EvRead y) (ws ∩ asked EvWrite y) e.(io_fd) ≠ 0) →
    ready `sublist_of` order →
    select_batch (rs ∩ asked EvRead y) (ws ∩ asked EvWrite y) ready y0 ops1 y1 →
    select_rounds script y1 ops2 y2 →
    select_rounds ((false, SelectReady wake rs ws order) :: script) y (option_list o ++ ops1 ++ ops2) y2.

Lemma find_cb_dispatched e y : is_Some (find_cb e.(io_fd) y) ↔ ∃ m, ¬ dispatched m e y None.
Proof.
  unfold find_cb. destruct (Z.eqb_spec (io_fd e) listener_fd) as [He|He].
  - destruct (sv_listening y) eqn:Hl; (split; [|intros [m Hm]]).
    + intros _. exists 0. inversion 1; congruence.
    + by eexists.
    + by intros [].
    + destruct Hm. by apply disp_closed.
  - destruct (List.find _ _) as [cid|] eqn:Hf; cbn; (split; [|intros [m Hm]]).
    + intros _. exists 0. apply List.find_some in Hf as [Hin Hfd].
      apply list_elem_of_In, elem_of_elements, elem_of_dom in Hin. inversion 1 as [| |? ?|? Hno]; [congruence|].
      apply (Hno cid). split; [done|]. by apply Z.eqb_eq.
    + by eexists.
    + by intros [].
    + destruct Hm. apply disp_gone; [done|]. intros cid [Hin Hfd].
      apply elem_of_dom, elem_of_elements, list_elem_of_In in Hin.
      apply (List.find_none _ _ Hf) in Hin. by rewrite (proj2 (Z.eqb_eq _ _) Hfd) in Hin.
Qed.

Lemma select_rounds_run script y : ∃ ops, select_rounds script y ops (select_run script y).
Proof.
  revert y. induction script as [|[[] r] script IH]; intros y; [eexists; constructor..|].
  destruct r as [wake rs ws order| | |]; cbn [select_run];
    [|destruct (IH y) as [ops ?]; eexists; constructor; by auto..|eexists; constructor].
  set (rs' := rs ∩ asked EvRead y). set (ws' := ws ∩ asked EvWrite y).
  set (y0 := match wake with Some sss => drain_posts sss y | None => y end).
  set (ready := select_ready rs' ws' order y0).
  destruct (select_batch_run rs' ws' ready y0) as [ops1 Hb1].
  { apply Forall_forall. intros e He. apply list_elem_of_filter in He as [[_ He] _]. done. }
  destruct (IH (foldl (λ y e, select_event rs' ws' e y) y0 ready)) as [ops2 Hb2].
  assert (default y ((λ o, server_step max o y) <$> (SvPosts <$> wake)) = y0) as Hy0 by by destruct wake.
  eexists. eapply (srounds_ready wake rs ws order script y ready); [|apply sublist_filter|rewrite Hy0; exact Hb1|exact Hb2].
  intros e. rewrite Hy0. unfold ready, select_ready. rewrite list_elem_of_filter, find_cb_dispatched. tauto.
Qed.

Lemma select_rounds_reach w0 n script y ops y' :
  server_reach max w0 n y → select_rounds script y ops y' → server_reach max w0 (n + steps_cost ops) y'.
Proof.
  intros Hr Hb. revert n Hr.
  induction Hb as [| | |r script y ops y' _ _ IH|wake rs ws order script y ready ops1 y1 ops2 y2 o y0 _ _ Hb1 _ IH];
    intros n Hr; rewrite ?Z.add_0_r; try done; [by apply IH|].
  destruct (step_reach w0 n y o (ops1 ++ ops2) Hr) as [Hr' He]. rewrite <-He, steps_cost_app, Z.add_assoc.
  apply IH. by eapply select_batch_reach.
Qed.
End loops.

(** A readable event for a descriptor that has meanwhile been given to a new
    connection does nothing to it: the socket is non-blocking, and its [recv] has
    nothing to return. *)
Lemma stale_read_harmless cid y :
  conn_event cid EvRead [RecvAgain] [] y = y.
Proof.
  unfold conn_event. destruct (w_conns (sv_world y) !! cid) as [c|] eqn:Hc; [|done].
  assert (on_event EvRead [RecvAgain] [] (c, w_reactor (sv_world y)) = (Ret ([], []), (c, w_reactor (sv_world y)))) as ->.
  { unfold on_event. destruct (closed c) eqn:Hcl; [done|]. cbn. rewrite Hcl. done. }
  cbn [foldl]. rewrite insert_id by done. by destruct y as [[]].
Qed.

(** The select reactor keeps the table the connections' operations describe. *)
Lemma select_table_agrees fd events r :
  (select_add fd events r.(interest)).2 = (reactor_add fd events r).(interest) ∧
  (select_modify fd events r.(interest)).2 = (reactor_modify fd events r).(interest) ∧
  (select_remove fd r.(interest)).2 = (reactor_remove fd r).(interest).
Proof.
  split; [done|]. split; [|done]. unfold select_modify, reactor_modify. cbn [interest].
  apply map_eq. intros i. destruct (decide (i = fd)) as [->|Hne].
  - rewrite lookup_alter_eq. destruct (interest r !! fd) eqn:E; cbn; [apply lookup_insert_eq|done].
  - rewrite lookup_alter_ne by done. destruct (interest r !! fd); cbn; [|done].
    by rewrite lookup_insert_ne.
Qed.

(** ** Waking the loop

    [post] pushes under [post_mu_] and then writes to the wake-up descriptor: the
    counter of an eventfd (epoll), a byte in a socket pair (select; the write may
    fail when the buffer is full).  [stop] sets [stopping_] and writes too.  The
    loop tests [stopping_], waits, empties the descriptor if it is ready, swaps
    [pending_] out under [post_mu_], and runs the batch.  Posting threads, the
    stopping thread and the loop interleave between these steps. *)

Inductive loop_at (P : Type) :=
| LTop                       (** about to test [stopping_] (callbacks run before that) *)
| LWait                      (** in [epoll_wait] or [select] *)
| LDrain                     (** the wake-up descriptor has been emptied *)
| LRun (batch : list P)      (** running the swapped-out closures *)
| LExit.                     (** [run] has returned *)
Arguments LTop {P}.
Arguments LWait {P}.
Arguments LDrain {P}.
Arguments LRun {P} batch.
Arguments LExit {P}.

Record Mailbox (P : Type) := mkMailbox {
  mb_pending : list P;
  mb_wake : Z;               (** unread wake-ups *)
  mb_stopping : bool;
  mb_writers : nat;          (** posters between the push and the write *)
  mb_stoppers : nat;         (** callers of [stop] between the store and the write *)
  mb_loop : loop_at P;
  mb_posted : list P;        (** ghost: every closure posted *)
  mb_ran : list P;           (** ghost: every closure run *)
}.
Arguments mkMailbox {P}.
Arguments mb_pending {P}.
Arguments mb_wake {P}.
Arguments mb_stopping {P}.
Arguments mb_writers {P}.
Arguments mb_stoppers {P}.
Arguments mb_loop {P}.
Arguments mb_posted {P}.
Arguments mb_ran {P}.

Section mailbox.
Context {P : Type}.
Implicit Types (b : Mailbox P) (p : P).

Definition mailbox_init : Mailbox P := mkMailbox [] 0 false 0 0 LTop [] [].

Definition set_loop (l : loop_at P) b : Mailbox P :=
  mkMailbox b.(mb_pending) b.(mb_wake) b.(mb_stopping) b.(mb_writers) b.(mb_stoppers) l b.(mb_posted) b.(mb_ran).
Definition set_signal (wake : Z) (writers stoppers : nat) b : Mailbox P :=
  mkMailbox b.(mb_pending) wake b.(mb_stopping) writers stoppers b.(mb_loop) b.(mb_posted) b.(mb_ran).

(** The locked half of [post]. *)
Definition post_push p b : Mailbox P :=
  mkMailbox (b.(mb_pending) ++ [p]) b.(mb_wake) b.(mb_stopping) (S b.(mb_writers)) b.(mb_stoppers)
    b.(mb_loop) (b.(mb_posted) ++ [p]) b.(mb_ran).

(** A write to the descriptor: it fails only when unread wake-ups fill it. *)
Definition signalled (full : bool) (wake : Z) : option Z :=
  if full then (if wake <=? 0 then None else Some wake) else Some (wake + 1).

(** The write of [post]. *)
Definition post_write (full : bool) b : option (Mailbox P) :=
  match b.(mb_writers), signalled full b.(mb_wake) with
  | S k, Some wake => Some (set_signal wake k b.(mb_stoppers) b)
  | _, _ => None
  end.

(** [while (!stopping_.load(...))]. *)
Definition test_stopping b : option (Mailbox P) :=
  match b.(mb_loop) with
  | LTop => Some (set_loop (if b.(mb_stopping) then LExit else LWait) b)
  | _ => None
  end.

(** The wait returns without the wake-up descriptor: a timeout, an interrupt, or
    other descriptors only; or it fails, and the loop ends. *)
Definition wait_other (failed : bool) b : option (Mailbox P) :=
  match b.(mb_loop) with
  | LWait => Some (set_loop (if failed then LExit else LTop) b)
  | _ => None
  end.

(** The loop finds the descriptor readable and reads it empty. *)
Definition read_wake b : option (Mailbox P) :=
  match b.(mb_loop) with
  | LWait =>
      if 0 <? b.(mb_wake) then Some (set_loop LDrain (set_signal 0 b.(mb_writers) b.(mb_stoppers) b)) else None
  | _ => None
  end.

(** [batch.swap(pending_)]. *)
Definition swap_pending b : option (Mailbox P) :=
  match b.(mb_loop) with
  | LDrain =>
      Some (mkMailbox [] b.(mb_wake) b.(mb_stopping) b.(mb_writers) b.(mb_stoppers) (LRun b.(mb_pending))
              b.(mb_posted) b.(mb_ran))
  | _ => None
  end.

(** The next closure of the batch, or the end of it. *)
Definition run_batch b : option (Mailbox P) :=
  match b.(mb_loop) with
  | LRun (p :: l) =>
      Some (mkMailbox b.(mb_pending) b.(mb_wake) b.(mb_stopping) b.(mb_writers) b.(mb_stoppers) (LRun l)
              b.(mb_posted) (b.(mb_ran) ++ [p]))
  | LRun [] => Some (set_loop LTop b)
  | _ => None
  end.

(** [stop]: the store, then the write. *)
Definition stop_store b : Mailbox P :=
  mkMailbox b.(mb_pending) b.(mb_wake) true b.(mb_writers) (S b.(mb_stoppers)) b.(mb_loop) b.(mb_posted) b.(mb_ran).
Definition stop_write (full : bool) b : option (Mailbox P) :=
  match b.(mb_stoppers), signalled full b.(mb_wake) with
  | S k, Some wake => Some (set_signal wake b.(mb_writers) k b)
  | _, _ => None
  end.

Inductive mailbox_op :=
| BPush p | BWrite (full : bool) | BTest | BOther (failed : bool) | BRead | BSwap | BRun
| BStop | BStopWrite (full : bool).

Definition mailbox_step (o : mailbox_op) b : option (Mailbox P) :=
  match o with
  | BPush p => Some (post_push p b)
  | BWrite full => post_write full b
  | BTest => test_stopping b
  | BOther failed => wait_other failed b
  | BRead => read_wake b
  | BSwap => swap_pending b
  | BRun => run_batch b
  | BStop => Some (stop_store b)
  | BStopWrite full => stop_write full b
  end.

Inductive mailbox_reach : Mailbox P → Prop :=
| mbreach_init : mailbox_reach mailbox_init
| mbreach_step o b b' : mailbox_reach b → mailbox_step o b = Some b' → mailbox_reach b'.

Definition batch_of (l : loop_at P) : list P := match l with LRun batch => batch | _ => [] end.

(** The closures run, to be run and pending are those posted; a pending one is
    announced, and so is a request to stop to a loop that waits. *)
Record mailbox_ok b : Prop := {
  mbo_order : b.(mb_ran) ++ batch_of b.(mb_loop) ++ b.(mb_pending) = b.(mb_posted);
  mbo_wake : 0 <= b.(mb_wake);
  mbo_announced : b.(mb_pending) ≠ [] →
    0 < b.(mb_wake) ∨ (0 < b.(mb_writers))%nat ∨ b.(mb_loop) = LDrain;
  mbo_stop : b.(mb_stopping) = true → b.(mb_loop) = LWait → 0 < b.(mb_wake) ∨ (0 < b.(mb_stoppers))%nat;
}.

Lemma signalled_pos full wake wake' : 0 <= wake → signalled full wake = Some wake' → 0 < wake'.
Proof.
  unfold signalled. intros Hw. destruct full; [|by intros [= <-]; lia].
  destruct (wake <=? 0) eqn:E; [done|]. intros [= <-]. to_prop. lia.
Qed.

Lemma mailbox_step_ok o b b' : mailbox_ok b → mailbox_step o b = Some b' → mailbox_ok b'.
Proof.
  intros [Ho Hw Ha Hst] Hs. destruct o as [p|full| |failed| | | | |full]; cbn [mailbox_step] in Hs.
  - injection Hs as <-. split; cbn; [by rewrite <-Ho, !app_assoc|done| |done]. intros _. right. left. lia.
  - unfold post_write in Hs. destruct (mb_writers b); [done|].
    destruct (signalled full (mb_wake b)) as [k|] eqn:E; [|done]. apply signalled_pos in E; [|done].
    injection Hs as <-. split; cbn; auto; lia.
  - unfold test_stopping in Hs. destruct (mb_loop b) eqn:El; try done. injection Hs as <-.
    split; cbn; try done; [by destruct (mb_stopping b)| |].
    + intros Hp. destruct (Ha Hp) as [?|[?|?]]; auto. done.
    + by intros ->.
  - unfold wait_other in Hs. destruct (mb_loop b) eqn:El; try done. injection Hs as <-.
    split; cbn; try done; [by destruct failed| |by destruct failed].
    intros Hp. destruct (Ha Hp) as [?|[?|?]]; auto. done.
  - unfold read_wake in Hs. destruct (mb_loop b) eqn:El; try done.
    destruct (0 <? mb_wake b); [|done]. injection Hs as <-. split; cbn; auto; done.
  - unfold swap_pending in Hs. destruct (mb_loop b) eqn:El; try done. injection Hs as <-.
    split; cbn; try done. by rewrite app_nil_r.
  - unfold run_batch in Hs. destruct (mb_loop b) as [| | |[|p l]|] eqn:El; try done; injection Hs as <-;
      split; cbn in *; try done.
    + intros Hp. by destruct (Ha Hp) as [?|[?|?]]; auto.
    + by rewrite <-Ho, <-!app_assoc.
    + intros Hp. by destruct (Ha Hp) as [?|[?|?]]; auto.
  - injection Hs as <-. split; cbn; auto. intros _ _. right. lia.
  - unfold stop_write in Hs. destruct (mb_stoppers b); [done|].
    destruct (signalled full (mb_wake b)) as [k|] eqn:E; [|done]. apply signalled_pos in E; [|done].
    injection Hs as <-. split; cbn; auto; lia.
Qed.

Lemma mailbox_reach_ok b : mailbox_reach b → mailbox_ok b.
Proof.
  induction 1 as [|o b b' _ IH Hs]; [by split|]. by eapply mailbox_step_ok.
Qed.

(** *** Progress *)

(** What remains to be done for the closures posted so far. *)
Definition work b : nat :=
  (5 * b.(mb_writers) + (if (0 <? b.(mb_wake))%Z then 4 else 0) + 2 * length b.(mb_pending) +
   match b.(mb_loop) with LDrain => 3 | LRun batch => 1 + length batch | _ => 0 end)%nat.

(** The steps of the posters already in [post] and of the loop. *)
Definition serves (o : mailbox_op) : bool :=
  match o with BPush _ | BStop | BStopWrite _ => false | _ => true end.
(** Those that are a turn of the loop without a wake-up. *)
Definition idles (o : mailbox_op) : bool := match o with BTest | BOther _ => true | _ => false end.

Lemma serves_work o b b' : mailbox_step o b = Some b' → serves o = true →
  if idles o then work b' = work b else (work b' < work b)%nat.
Proof.
  unfold work. destruct o as [p|full| |failed| | | | |full]; cbn [mailbox_step serves idles]; intros Hs Hq; try done.
  - unfold post_write in Hs. destruct (mb_writers b) eqn:Hw; [done|].
    destruct (signalled full (mb_wake b)) as [k|] eqn:E; [|done]. injection Hs as <-. cbn.
    destruct (0 <? k)%Z, (0 <? mb_wake b)%Z; lia.
  - unfold test_stopping in Hs. destruct (mb_loop b) eqn:El; try done. injection Hs as <-. cbn.
    by destruct (mb_stopping b).
  - unfold wait_other in Hs. destruct (mb_loop b) eqn:El; try done. injection Hs as <-. cbn. by destruct failed.
  - unfold read_wake in Hs. destruct (mb_loop b) eqn:El; try done.
    destruct (0 <? mb_wake b)%Z; [|done]. injection Hs as <-. cbn. lia.
  - unfold swap_pending in Hs. destruct (mb_loop b) eqn:El; try done. injection Hs as <-. cbn. lia.
  - unfold run_batch in Hs. destruct (mb_loop b) as [| | |[|p l]|] eqn:El; try done; injection Hs as <-; cbn; lia.
Qed.

Lemma no_work b : mailbox_ok b → work b = 0%nat → b.(mb_ran) = b.(mb_posted).
Proof.
  intros [Ho _ _ _] Hw. unfold work in Hw. rewrite <-Ho.
  destruct (mb_pending b); [|cbn in Hw; lia].
  destruct (mb_loop b) as [| | |l|]; cbn in *; rewrite ?app_nil_r; try done. lia.
Qed.

(** Steps in a row. *)
Fixpoint mailbox_run (ops : list mailbox_op) b : option (Mailbox P) :=
  match ops with
  | [] => Some b
  | o :: ops => match mailbox_step o b with Some b => mailbox_run ops b | None => None end
  end.

Lemma mailbox_run_app ops1 ops2 b :
  mailbox_run (ops1 ++ ops2) b = mailbox_run ops1 b ≫= mailbox_run ops2.
Proof.
  revert b. induction ops1 as [|o ops1 IH]; intros b; [done|]. cbn. by destruct (mailbox_step o b).
Qed.

Lemma mailbox_run_ok ops b b' : mailbox_ok b → mailbox_run ops b = Some b' → mailbox_ok b'.
Proof.
  revert b. induction ops as [|o ops IH]; intros b Hb; cbn; [by intros [= <-]|].
  destruct (mailbox_step o b) as [b1|] eqn:Hs; [|done]. apply IH. by eapply mailbox_step_ok.
Qed.

(** A loop that has not been stopped and has work takes a piece of it at once, or
    after its test. *)
Lemma work_progress b :
  mailbox_ok b → b.(mb_stopping) = false → b.(mb_loop) ≠ LExit → (0 < work b)%nat →
  ∃ ops b', mailbox_run ops b = Some b' ∧ Forall (λ o, serves o = true) ops ∧ (work b' < work b)%nat ∧
    b'.(mb_stopping) = false ∧ b'.(mb_loop) ≠ LExit ∧ b'.(mb_posted) = b.(mb_posted).
Proof.
  intros [Ho Hw Ha _] Hns Hl Hwork. destruct b as [pend wake stp wr st loop posted ran]. cbn in *. subst stp.
  destruct wr as [|wr].
  2:{ exists [BWrite false]. eexists. split; [reflexivity|]. split; [by repeat constructor|].
      unfold work. cbn -[Z.ltb]. split_and!; try done. destruct (0 <? wake + 1), (0 <? wake); lia. }
  assert (loop = LTop ∨ loop = LWait → 0 < wake) as Hwake.
  { intros Hloop. destruct (decide (0 < wake)) as [|Hn]; [done|]. destruct pend as [|p pend].
    - unfold work in Hwork. cbn -[Z.ltb] in Hwork. rewrite (proj2 (Z.ltb_ge _ _)) in Hwork by lia.
      destruct Hloop as [-> | ->]; cbn in Hwork; lia.
    - destruct (Ha ltac:(done)) as [?|[?|?]]; [done|lia|]. destruct Hloop; congruence. }
  destruct loop as [| | |[|p l]|]; try done.
  - specialize (Hwake (or_introl eq_refl)). exists [BTest; BRead].
    eexists. cbn -[Z.ltb]. rewrite (proj2 (Z.ltb_lt _ _)) by done. split; [reflexivity|]. split; [by repeat constructor|].
    unfold work. cbn -[Z.ltb]. split_and!; try done. cbn. lia.
  - specialize (Hwake (or_intror eq_refl)). exists [BRead].
    eexists. cbn -[Z.ltb]. rewrite (proj2 (Z.ltb_lt _ _)) by done. split; [reflexivity|]. split; [by repeat constructor|].
    unfold work. cbn -[Z.ltb]. split_and!; try done. cbn. lia.
  - exists [BSwap]. eexists. split; [reflexivity|]. split; [by repeat constructor|]. unfold work. cbn -[Z.ltb].
    split_and!; try done. cbn. lia.
  - exists [BRun]. eexists. split; [reflexivity|]. split; [by repeat constructor|]. unfold work. cbn -[Z.ltb].
    split_and!; try done. cbn. lia.
  - exists [BRun]. eexists. split; [reflexivity|]. split; [by repeat constructor|]. unfold work. cbn -[Z.ltb].
    split_and!; try done. cbn. lia.
Qed.

Lemma work_completes b :
  mailbox_ok b → b.(mb_stopping) = false → b.(mb_loop) ≠ LExit →
  ∃ ops b', mailbox_run ops b = Some b' ∧ Forall (λ o, serves o = true) ops ∧ b'.(mb_ran) = b.(mb_posted).
Proof.
  remember (work b) as n eqn:Hn. revert b Hn. induction n as [n IH] using lt_wf_ind. intros b -> Hb Hns Hl.
  destruct (Nat.eq_0_gt_0_cases (work b)) as [Hz|Hz].
  { exists [], b. split; [done|]. split; [constructor|]. by apply no_work. }
  destruct (work_progress b Hb Hns Hl Hz) as (ops1 & b1 & Hr1 & Hs1 & Hlt & Hns1 & Hl1 & Hp1).
  destruct (IH (work b1) Hlt b1 eq_refl (mailbox_run_ok _ _ _ Hb Hr1) Hns1 Hl1) as (ops2 & b2 & Hr2 & Hs2 & Hran).
  exists (ops1 ++ ops2), b2. rewrite mailbox_run_app, Hr1. split; [done|].
  split; [by apply Forall_app|]. by rewrite Hran.
Qed.

Lemma exit_forever o b b' : b.(mb_loop) = LExit → mailbox_step o b = Some b' →
  b'.(mb_loop) = LExit ∧ b'.(mb_ran) = b.(mb_ran).
Proof.
  intros Hl. destruct o; cbn [mailbox_step];
    unfold post_write, test_stopping, wait_other, read_wake, swap_pending, run_batch, stop_write;
    rewrite ?Hl; repeat case_match; try done; by intros [= <-].
Qed.
End mailbox.
Arguments mailbox_op : clear implicits.

(** ** Properties *)

(** The epoll loop refines the abstract server: whatever [epoll_wait] and the calls
    it leads to return, and whichever descriptors are used again, the loop makes
    exactly the actions of its batches, in their order: for each event of a
    descriptor registered at that moment its callback's, once, with the mask of
    its bits, for the wake-up descriptor the posted closures', and for a
    descriptor not registered none. *)
Theorem epoll_refines_server `{Env, FloatText, FloatCast, Settings} max fd_of listener_fd wake_fd w0 n y script :
  server_reach max w0 n y →
  ∃ ops, epoll_rounds max fd_of listener_fd wake_fd script y ops (epoll_run max fd_of listener_fd wake_fd script y) ∧
    server_reach max w0 (n + steps_cost ops) (epoll_run max fd_of listener_fd wake_fd script y).
Proof.
  intros Hr. destruct (epoll_rounds_run max fd_of listener_fd wake_fd script y) as [ops Hops]. exists ops.
  split; [done|by eapply epoll_rounds_reach].
Qed.

(** The select loop refines the same machine: in each round the posted closures
    come first, then callbacks in the order of the map, each for a descriptor
    still registered and with a mask that is never empty. *)
Theorem select_refines_server `{Env, FloatText, FloatCast, Settings} max fd_of listener_fd w0 n y script :
  server_reach max w0 n y →
  ∃ ops, select_rounds max fd_of listener_fd script y ops (select_run max fd_of listener_fd script y) ∧
    server_reach max w0 (n + steps_cost ops) (select_run max fd_of listener_fd script y).
Proof.
  intros Hr. destruct (select_rounds_run max fd_of listener_fd script y) as [ops Hops]. exists ops.
  split; [done|by eapply select_rounds_reach].
Qed.

(** C24: posted closures are run at most once and in order, all of them unless the
    loop ends first.  In any interleaving of posting threads, the stopping thread
    and the loop, the closures run, those of the current batch and those pending
    are exactly the closures posted, in order.  As long as [stop] has not been
    called and the loop has not left on a failed wait, it can be let run until
    everything posted has been run, and every step of the loop and of the threads
    in [post] other than an idle turn of the loop brings that nearer, so nothing
    but starvation delays it.  A loop that waits after [stop] has been called is
    woken or about to be.  Once the loop has left nothing pending is run. *)
Theorem posts_run_once_and_wake {P : Type} (b : Mailbox P) :
  mailbox_reach b →
  b.(mb_ran) ++ batch_of b.(mb_loop) ++ b.(mb_pending) = b.(mb_posted) ∧
  (b.(mb_stopping) = false → b.(mb_loop) ≠ LExit → ∃ ops b',
     mailbox_run ops b = Some b' ∧ Forall (λ o, serves o = true) ops ∧ b'.(mb_ran) = b.(mb_posted)) ∧
  (∀ o b', mailbox_step o b = Some b' → serves o = true →
     if idles o then work b' = work b else (work b' < work b)%nat) ∧
  (work b = 0%nat → b.(mb_ran) = b.(mb_posted)) ∧
  (b.(mb_stopping) = true → b.(mb_loop) = LWait → 0 < b.(mb_wake) ∨ (0 < b.(mb_stoppers))%nat) ∧
  (b.(mb_loop) = LExit → ∀ o b', mailbox_step o b = Some b' →
     b'.(mb_loop) = LExit ∧ b'.(mb_ran) = b.(mb_ran)).
Proof.
  intros Hok%mailbox_reach_ok. split_and!; [apply Hok|by apply work_completes|intros o b'; apply serves_work
    |by apply no_work|apply Hok|intros Hl o b'; by apply exit_forever].
Qed.

(** *** Example runs *)

(** The listener (descriptor 5) and the first connection (7) are ready in one
    batch, and so is a connection that has gone. *)
Definition accept_io : io := mkIo 5 EPOLLIN [AcceptOk; AcceptAgain] [] [].
Definition read_io (fd : Z) : io :=
  mkIo fd (Z.lor EPOLLIN EPOLLRDHUP) [] [RecvData (to_bytes (frame ping_text))] [].
Definition start_server : Server := server_start (fresh_world 3600).
Definition test_fds (cid : Z) : Z := 6 + cid.

Lemma epoll_refines_server_witness :
  ∃ ops, @epoll_rounds test_env test_float test_cast test_settings 65536 test_fds 5 4
      [(false, EpollEvents [(accept_io, []); (read_io 7, []); (read_io 9, [])]); (true, EpollIntr)] start_server ops
      (@epoll_run test_env test_float 65536 test_fds 5 4
         [(false, EpollEvents [(accept_io, []); (read_io 7, []); (read_io 9, [])]); (true, EpollIntr)] start_server).
Proof.
  destruct (@epoll_refines_server test_env test_float test_cast test_settings 65536 test_fds 5 4
    (fresh_world 3600) 0 start_server
    [(false, EpollEvents [(accept_io, []); (read_io 7, []); (read_io 9, [])]); (true, EpollIntr)]) as (ops & Hs & _);
    [constructor|].
  exists ops. exact Hs.
Defined.

(** After the batch the frame of connection 1 waits for a worker. *)
Example epoll_batch_serves :
  (@epoll_run test_env test_float 65536 test_fds 5 4
     [(false, EpollEvents [(accept_io, []); (read_io 7, []); (read_io 9, [])])] start_server).(sv_tasks) =
  [(1, ping_text)].
Proof. by vm_compute. Qed.

Lemma select_refines_server_witness :
  ∃ ops, @select_rounds test_env test_float test_cast test_settings 65536 test_fds 5
      [(false, SelectReady (Some []) {[5]} ∅ [accept_io])] start_server ops
      (@select_run test_env test_float 65536 test_fds 5
         [(false, SelectReady (Some []) {[5]} ∅ [accept_io])] start_server).
Proof.
  destruct (@select_refines_server test_env test_float test_cast test_settings 65536 test_fds 5
    (fresh_world 3600) 0 start_server
    [(false, SelectReady (Some []) {[5]} ∅ [accept_io])]) as (ops & Hs & _); [constructor|].
  exists ops. exact Hs.
Defined.

(** Two closures posted, one of the posters still to write, the loop asleep. *)
Definition waiting_box : Mailbox Z := mkMailbox [7; 8] 1 false 1 0 LWait [7; 8] [].

Lemma posts_run_once_and_wake_witness :
  ∃ ops b', mailbox_run ops waiting_box = Some b' ∧ Forall (λ o, serves o = true) ops ∧ b'.(mb_ran) = [7; 8].
Proof.
  apply (posts_run_once_and_wake waiting_box); [|done|done].
  apply (mbreach_step (BWrite false) (mkMailbox [7; 8] 0 false 2 0 LWait [7; 8] [])); [|reflexivity].
  apply (mbreach_step (BPush 8) (mkMailbox [7] 0 false 1 0 LWait [7] [])); [|reflexivity].
  apply (mbreach_step (BPush 7) (mkMailbox [] 0 false 0 0 LWait [] [])); [|reflexivity].
  apply (mbreach_step BTest mailbox_init); [constructor|reflexivity].
Defined.

(** A closure posted after [stop] is never run. *)
Example stopped_loop_drops :
  let b := mkMailbox [9] 2 true 0 0 LExit [9] [] : Mailbox Z in
  mailbox_run [BTest; BStop; BStopWrite false; BPush 9; BWrite false; BOther false; BTest] mailbox_init = Some b.
Proof. reflexivity. Qed.
