(* ===== verification/Socket.v ===== *)
(** * Sockets: [include/net/socket.h], [src/net/socket.cpp], and the descriptors the
      reactors open ([src/net/reactor_epoll.cpp], [src/net/reactor_select.cpp])

    The descriptor table of the process is the state; which system calls succeed is
    a script, one result per call, and a call that opens a descriptor returns the
    lowest free number, as POSIX prescribes.  [bad] records a call on a descriptor
    that is not open.  POSIX half of [include/common/platform.h]. *)
From S2P Require Import Prelude Util.

(** An open descriptor: its status flags, the options set, the address it is bound
    to, its backlog once it listens, the address it is connected to, and for an
    epoll instance the descriptors registered with it. *)
Record fd_state := mkFd {
  fd_flags : Z;
  fd_opts : gmap (Z * Z) Z;
  fd_addr : option (list Z * Z);
  fd_backlog : option Z;
  fd_peer : option (list Z * Z);
  fd_watch : gmap Z Z;
}.
Definition new_fd : fd_state := mkFd 0 ∅ None None None ∅.

Record OS := mkOS {
  fds : gmap Z fd_state;
  infos : nat;                (** [addrinfo] lists not yet freed *)
  script : list bool;
  bad : bool;
}.

Definition set_fds (m : gmap Z fd_state) (o : OS) : OS := mkOS m o.(infos) o.(script) o.(bad).

(** ** System calls *)

(** Whether the next call succeeds. *)
Definition next_result : M OS bool := λ o,
  (Ret (hd false o.(script)), mkOS o.(fds) o.(infos) (tl o.(script)) o.(bad)).

(** The lowest number that is not open. *)
Definition lowest_free (m : gmap Z fd_state) : Z :=
  match list_find (λ fd, m !! fd = None) (seqZ 0 (Z.of_nat (S (size m)))) with
  | Some (_, fd) => fd
  | None => 0
  end.

Definition CHAT_SOCKET_INVALID : Z := -1.
Definition socket_valid (s : Z) : bool := 0 <=? s.

(** A call that opens a descriptor. *)
Definition open_fd (st : fd_state) : M OS Z := λ o,
  match next_result o with
  | (Ret true, o) => let fd := lowest_free o.(fds) in (Ret fd, set_fds (<[fd := st]> o.(fds)) o)
  | (_, o) => (Ret CHAT_SOCKET_INVALID, o)
  end.
Definition sys_socket : M OS Z := open_fd new_fd.

(** [close]: the number is free again, also when the call reports an error. *)
Definition socket_close (fd : Z) : M OS unit := λ o,
  match o.(fds) !! fd with
  | Some _ => (Ret tt, set_fds (delete fd o.(fds)) o)
  | None => (Ret tt, mkOS o.(fds) o.(infos) o.(script) true)
  end.

(** A call on an open descriptor that changes its state when it succeeds. *)
Definition sys_on (fd : Z) (f : fd_state → fd_state) : M OS bool := λ o,
  match o.(fds) !! fd with
  | Some st =>
      let '(r, o) := next_result o in
      (r, match r with Ret true => set_fds (<[fd := f st]> o.(fds)) o | _ => o end)
  | None => (Ret false, mkOS o.(fds) o.(infos) (tl o.(script)) true)
  end.

Definition sys_setsockopt (fd level opt v : Z) : M OS bool :=
  sys_on fd (λ st, mkFd st.(fd_flags) (<[(level, opt) := v]> st.(fd_opts)) st.(fd_addr)
                     st.(fd_backlog) st.(fd_peer) st.(fd_watch)).
Definition sys_bind (fd : Z) (a : list Z * Z) : M OS bool :=
  sys_on fd (λ st, mkFd st.(fd_flags) st.(fd_opts) (Some a) st.(fd_backlog) st.(fd_peer) st.(fd_watch)).
Definition sys_listen (fd n : Z) : M OS bool :=
  sys_on fd (λ st, mkFd st.(fd_flags) st.(fd_opts) st.(fd_addr) (Some n) st.(fd_peer) st.(fd_watch)).
Definition sys_connect (fd : Z) (a : list Z * Z) : M OS bool :=
  sys_on fd (λ st, mkFd st.(fd_flags) st.(fd_opts) st.(fd_addr) st.(fd_backlog) (Some a) st.(fd_watch)).
Definition sys_getsockname (fd : Z) : M OS bool := sys_on fd id.
Definition epoll_ctl_add (epfd fd ev : Z) : M OS bool :=
  sys_on epfd (λ st, mkFd st.(fd_flags) st.(fd_opts) st.(fd_addr) st.(fd_backlog) st.(fd_peer)
                       (<[fd := ev]> st.(fd_watch))).

(** [fcntl(fd, F_GETFL)]: the flags, or -1. *)
Definition fcntl_get (fd : Z) : M OS Z := λ o,
  match sys_on fd id o with
  | (Ret true, o) => (Ret (default 0 (fd_flags <$> o.(fds) !! fd)), o)
  | (_, o) => (Ret (-1), o)
  end.
Definition fcntl_set (fd flags : Z) : M OS bool :=
  sys_on fd (λ st, mkFd flags st.(fd_opts) st.(fd_addr) st.(fd_backlog) st.(fd_peer) st.(fd_watch)).

(** ** Options *)

Definition O_NONBLOCK : Z := 2048.
Definition IPPROTO_TCP : Z := 6.
Definition TCP_NODELAY : Z := 1.
Definition SOL_SOCKET : Z := 1.
Definition SO_REUSEADDR : Z := 2.
Definition SO_KEEPALIVE : Z := 9.

Definition set_non_blocking (s : Z) (nb : bool) : M OS bool :=
  flags ← fcntl_get s;
  if flags <? 0 then mret false
  else fcntl_set s (if nb then Z.lor flags O_NONBLOCK else Z.ldiff flags O_NONBLOCK).

Definition set_no_delay (s : Z) (on : bool) : M OS bool :=
  sys_setsockopt s IPPROTO_TCP TCP_NODELAY (if on then 1 else 0).
Definition set_reuse_addr (s : Z) (on : bool) : M OS bool :=
  sys_setsockopt s SOL_SOCKET SO_REUSEADDR (if on then 1 else 0).
Definition set_keepalive (s : Z) (on : bool) : M OS bool :=
  sys_setsockopt s SOL_SOCKET SO_KEEPALIVE (if on then 1 else 0).

(** ** Opening *)

(** A part of a dotted quad: up to three digits without a leading zero, below 256. *)
Definition octet (s : string) : option Z :=
  match scan_digits s None with
  | Some n =>
      if forallb isdigit (chars s) && (String.length s <=? 3)%nat && (n <=? 255) &&
         (String.eqb s "0" || negb (Ascii.eqb (default "0"%char (head (chars s))) "0"))
      then Some n else None
  | None => None
  end.

(** [inet_pton(AF_INET, ...) == 1] and the address. *)
Definition inet_pton (s : string) : option (list Z) :=
  match split s "." with
  | [_; _; _; _] as l => mapM octet l
  | _ => None
  end.

Example inet_pton_samples :
  inet_pton "127.0.0.1" = Some [127; 0; 0; 1] ∧ inet_pton "256.0.0.1" = None ∧
  inet_pton "1.2.3" = None ∧ inet_pton "1.02.3.4" = None ∧ inet_pton "localhost" = None.
Proof. vm_compute. done. Qed.

(** The address [listen_tcp] binds to. *)
Definition listen_addr (host : string) : option (list Z) :=
  if str_empty host || String.eqb host "0.0.0.0" then Some [0; 0; 0; 0] else inet_pton (cstr host).

(** [socket_close(s); return Socket{}]. *)
Definition give_back (s : Z) : M OS Z := socket_close s ;; mret CHAT_SOCKET_INVALID.

Definition listen_tcp (host : string) (port backlog : Z) : M OS Z :=
  s ← sys_socket;
  if negb (socket_valid s) then mret CHAT_SOCKET_INVALID
  else
    _ ← set_reuse_addr s true;
    match listen_addr host with
    | None => give_back s
    | Some a =>
        ok ← sys_bind s (a, port);
        if negb ok then give_back s
        else
          ok ← sys_listen s backlog;
          if negb ok then give_back s
          else _ ← set_non_blocking s true; mret s
    end.

(** [getaddrinfo] with the address it finds, if any, and [freeaddrinfo]. *)
Definition getaddrinfo (found : option (list Z)) : M OS (option (list Z)) := λ o,
  (Ret found, mkOS o.(fds) (match found with Some _ => S o.(infos) | None => o.(infos) end)
                o.(script) o.(bad)).
Definition freeaddrinfo : M OS unit := λ o, (Ret tt, mkOS o.(fds) (pred o.(infos)) o.(script) o.(bad)).

Definition connect_tcp (found : option (list Z)) (port : Z) : M OS Z :=
  r ← getaddrinfo found;
  match r with
  | None => mret CHAT_SOCKET_INVALID
  | Some a =>
      s ← sys_socket;
      if negb (socket_valid s) then freeaddrinfo ;; mret CHAT_SOCKET_INVALID
      else
        ok ← sys_connect s (a, port);
        if negb ok then socket_close s ;; freeaddrinfo ;; mret CHAT_SOCKET_INVALID
        else freeaddrinfo ;; _ ← set_no_delay s true; mret s
  end.

(** ** The wake-up descriptors of the reactors *)

Definition INADDR_LOOPBACK : list Z := [127; 0; 0; 1].

Definition sys_accept : M OS Z := open_fd new_fd.

(** [SelectReactor::make_wake_pair]: [wake_w_] and [wake_r_]; [port] is the port
    the kernel chose, which [getsockname] reports. *)
Definition make_wake_pair (port : Z) : M OS (option (Z * Z)) :=
  l ← sys_socket;
  if negb (socket_valid l) then mret None
  else
    _ ← set_reuse_addr l true;
    ok ← sys_bind l (INADDR_LOOPBACK, 0);
    if negb ok then socket_close l ;; mret None
    else
      ok ← sys_getsockname l;
      if negb ok then socket_close l ;; mret None
      else
        ok ← sys_listen l 1;
        if negb ok then socket_close l ;; mret None
        else
          c ← sys_socket;
          if negb (socket_valid c) then socket_close l ;; mret None
          else
            ok ← sys_connect c (INADDR_LOOPBACK, port);
            if negb ok then socket_close l ;; socket_close c ;; mret None
            else
              s ← sys_accept;
              socket_close l ;;
              if negb (socket_valid s) then socket_close c ;; mret None
              else _ ← set_non_blocking c true; _ ← set_non_blocking s true; mret (Some (c, s)).

(** [SelectReactor::init] and [shutdown]; [platform::init] succeeds on POSIX. *)
Definition select_init (port : Z) : M OS (option (Z * Z)) := make_wake_pair port.
Definition select_shutdown (w : Z * Z) : M OS unit :=
  (if socket_valid w.2 then socket_close w.2 else mret tt) ;;
  (if socket_valid w.1 then socket_close w.1 else mret tt).

(** The events the eventfd is registered for. *)
Definition EPOLLIN_bit : Z := 1.

(** [EpollReactor::init]: the result, and the members [epfd_] and [wake_fd_]. *)
Definition epoll_init : M OS (bool * (Z * Z)) :=
  epfd ← open_fd new_fd;
  if epfd <? 0 then mret (false, (epfd, -1))
  else
    wake ← open_fd (mkFd O_NONBLOCK ∅ None None None ∅);
    if wake <? 0 then mret (false, (epfd, wake))
    else ok ← epoll_ctl_add epfd wake EPOLLIN_bit; mret (ok, (epfd, wake)).

Definition epoll_shutdown (m : Z * Z) : M OS (Z * Z) :=
  (if 0 <=? m.1 then socket_close m.1 else mret tt) ;;
  (if 0 <=? m.2 then socket_close m.2 else mret tt) ;;
  mret (-1, -1).

(** ** What the calls leave *)

(** The parts of the state the theorems speak about. *)
Definition os_has (o : OS) (m : gmap Z fd_state) (i : nat) (b : bool) : Prop :=
  o.(fds) = m ∧ o.(infos) = i ∧ o.(bad) = b.

Lemma lowest_free_spec m : 0 <= lowest_free m ∧ m !! lowest_free m = None.
Proof.
  unfold lowest_free. destruct (list_find _ _) as [[k fd]|] eqn:E.
  - apply list_find_Some in E as (Hk & Hf & _). split; [|done].
    apply lookup_seqZ in Hk. lia.
  - exfalso. apply list_find_None in E. rewrite Forall_forall in E.
    assert (list_to_set (seqZ 0 (Z.of_nat (S (size m)))) ⊆ (dom m : gset Z)) as Hsub.
    { intros fd Hfd%elem_of_list_to_set. apply E in Hfd. by apply elem_of_dom, not_eq_None_Some. }
    apply subseteq_size in Hsub. rewrite size_list_to_set, length_seqZ, size_dom in Hsub; [lia|].
    apply NoDup_seqZ.
Qed.

(** [wp p o Q]: [p] run in [o] returns, and [Q] holds of what it returns and leaves. *)
Definition wp {A : Type} (p : M OS A) (o : OS) (Q : A → OS → Prop) : Prop :=
  ∃ a o', p o = (Ret a, o') ∧ Q a o'.

Lemma wp_ret {A} (a : A) o (Q : A → OS → Prop) : Q a o → wp (mret a) o Q.
Proof. intros HQ. by exists a, o. Qed.

Lemma wp_bind {A B} (p : M OS A) (k : A → M OS B) o Q :
  wp p o (λ a o', wp (k a) o' Q) → wp (p ≫= k) o Q.
Proof.
  intros (a & o1 & E & c & o2 & Ec & HQ). exists c, o2. split; [|done].
  by rewrite (M_bind_ret _ _ _ _ _ E).
Qed.

Lemma wp_open st o m i b (Q : Z → OS → Prop) :
  os_has o m i b →
  (∀ o', os_has o' m i b → Q (-1) o') →
  (∀ fd o', 0 <= fd → m !! fd = None → os_has o' (<[fd := st]> m) i b → Q fd o') →
  wp (open_fd st) o Q.
Proof.
  intros (<- & <- & <-) Hfail Hok. unfold wp, open_fd, next_result.
  destruct (lowest_free_spec o.(fds)) as [Hp Hf].
  destruct (hd false _); cbn; do 2 eexists; (split; [done|]); [by apply Hok|by apply Hfail].
Qed.

Lemma wp_on fd f st o m i b (Q : bool → OS → Prop) :
  os_has o m i b → m !! fd = Some st →
  (∀ (ok : bool) o', os_has o' (<[fd := if ok then f st else st]> m) i b → Q ok o') →
  wp (sys_on fd f) o Q.
Proof.
  intros (<- & <- & <-) Hst HQ. unfold wp, sys_on, next_result. rewrite Hst. cbn.
  do 2 eexists. split; [done|]. apply HQ. destruct (hd false _); [done|]. by rewrite insert_id.
Qed.

Lemma wp_close fd st o m i b (Q : unit → OS → Prop) :
  os_has o m i b → m !! fd = Some st → (∀ o', os_has o' (delete fd m) i b → Q tt o') →
  wp (socket_close fd) o Q.
Proof.
  intros (<- & <- & <-) Hst HQ. unfold wp, socket_close. rewrite Hst.
  do 2 eexists. split; [done|]. by apply HQ.
Qed.

(** What [set_non_blocking] makes of a descriptor. *)
Definition non_blocking (st : fd_state) : fd_state :=
  mkFd (Z.lor st.(fd_flags) O_NONBLOCK) st.(fd_opts) st.(fd_addr) st.(fd_backlog) st.(fd_peer)
    st.(fd_watch).

Lemma wp_non_blocking fd st o m i b (Q : bool → OS → Prop) :
  os_has o m i b → m !! fd = Some st → 0 <= st.(fd_flags) →
  (∀ (ok : bool) o', os_has o' (<[fd := if ok then non_blocking st else st]> m) i b → Q ok o') →
  wp (set_non_blocking fd true) o Q.
Proof.
  intros Hh Hst Hfl HQ. unfold set_non_blocking. apply wp_bind. unfold fcntl_get, wp at 1.
  destruct (wp_on fd id st o m i b (λ ok o', os_has o' (<[fd := if ok then id st else st]> m) i b) Hh Hst)
    as (ok & o1 & -> & Hh1); [done|].
  assert (os_has o1 m i b) as Hm by (destruct ok; cbn in Hh1; by rewrite insert_id in Hh1).
  destruct ok.
  - do 2 eexists. split; [done|]. rewrite (proj1 Hm), Hst.
    cbn [default from_option fmap option_fmap option_map id].
    rewrite (proj2 (Z.ltb_ge (fd_flags st) 0)) by lia. by eapply wp_on.
  - do 2 eexists. split; [done|]. apply wp_ret, HQ. by rewrite insert_id.
Qed.

(** A listening socket as [listen_tcp] makes it: [ra] is whether [setsockopt]
    succeeded and [nb] whether [fcntl] did. *)
Definition listening_fd (ra nb : bool) (a : list Z * Z) (backlog : Z) : fd_state :=
  mkFd (if nb then O_NONBLOCK else 0) (if ra then {[(SOL_SOCKET, SO_REUSEADDR) := 1]} else ∅)
    (Some a) (Some backlog) None ∅.

(** Opening one descriptor: none is left, or exactly the one returned, in a state
    that satisfies [P]. *)
Definition opened (m : gmap Z fd_state) (i : nat) (b : bool) (P : fd_state → Prop)
    (s : Z) (o' : OS) : Prop :=
  (s = -1 ∧ os_has o' m i b) ∨
  (0 <= s ∧ m !! s = None ∧ ∃ st, P st ∧ os_has o' (<[s := st]> m) i b).

Lemma wp_give_back fd st o m i b P :
  os_has o (<[fd := st]> m) i b → m !! fd = None → wp (give_back fd) o (opened m i b P).
Proof.
  intros Hh Hf. apply wp_bind. eapply wp_close; [done|apply lookup_insert_eq|]. intros o' Ho'.
  apply wp_ret. left. split; [done|]. by rewrite delete_insert_id in Ho'.
Qed.

(** The next call is on the descriptor inserted last. *)
Ltac on_last ok o Hh :=
  apply wp_bind; eapply wp_on; [eassumption|apply lookup_insert_eq|]; intros ok o Hh;
  rewrite insert_insert_eq in Hh.

Lemma wp_listen host port backlog o m i b :
  os_has o m i b →
  wp (listen_tcp host port backlog) o
    (opened m i b (λ st, ∃ a ra nb, listen_addr host = Some a ∧ st = listening_fd ra nb (a, port) backlog)).
Proof.
  intros Hh. unfold listen_tcp. apply wp_bind. eapply wp_open; [done| |].
  { intros o' Ho'. by apply wp_ret; left. }
  intros s o1 Hs Hf Hh1. unfold socket_valid. rewrite (proj2 (Z.leb_le 0 s) Hs). cbn [negb].
  on_last ra o2 Hh2. destruct (listen_addr host) as [a|] eqn:Ea; [|by eapply wp_give_back].
  on_last ok o3 Hh3. destruct ok; [|by eapply wp_give_back]. cbn [negb].
  on_last ok o4 Hh4. destruct ok; [|by eapply wp_give_back]. cbn [negb].
  apply wp_bind. eapply wp_non_blocking; [done|apply lookup_insert_eq|by destruct ra|].
  intros nb o5 Hh5. rewrite insert_insert_eq in Hh5. apply wp_ret. right. split; [done|]. split; [done|].
  eexists. split; [|exact Hh5]. exists a, ra, nb. split; [done|]. by destruct ra, nb.
Qed.

Lemma wp_free o m i b (Q : unit → OS → Prop) :
  os_has o m (S i) b → (∀ o', os_has o' m i b → Q tt o') → wp freeaddrinfo o Q.
Proof.
  intros (<- & Hi & <-) HQ. do 2 eexists. split; [done|]. apply HQ. by rewrite Hi.
Qed.

Lemma wp_connect found port o m i b :
  os_has o m i b →
  wp (connect_tcp found port) o
    (opened m i b (λ st, ∃ a, found = Some a ∧ st.(fd_peer) = Some (a, port))).
Proof.
  intros Hh. unfold connect_tcp. apply wp_bind. destruct found as [a|].
  2:{ do 2 eexists. split; [done|]. apply wp_ret. left. by destruct Hh as (<- & <- & <-). }
  do 2 eexists. split; [done|]. destruct Hh as (<- & <- & <-).
  apply wp_bind. eapply wp_open; [done| |].
  { intros o1 Hh1. apply wp_bind. eapply wp_free; [done|]. intros o2 Hh2. by apply wp_ret; left. }
  intros s o1 Hs Hf Hh1. unfold socket_valid. rewrite (proj2 (Z.leb_le 0 s) Hs). cbn [negb].
  on_last ok o2 Hh2. destruct ok; cbn [negb]; apply wp_bind.
  - eapply wp_free; [done|]. intros o3 Hh3. on_last ok o4 Hh4. apply wp_ret. right.
    split; [done|]. split; [done|]. eexists. split; [|done]. exists a. by destruct ok.
  - eapply wp_close; [done|apply lookup_insert_eq|]. intros o3 Hh3.
    rewrite delete_insert_id in Hh3 by done. apply wp_bind. eapply wp_free; [done|].
    intros o4 Hh4. by apply wp_ret; left.
Qed.

(** ** Descriptors of the reactors *)

(** No descriptor is left, or exactly the two ends of a loopback connection. *)
Definition wake_result (port : Z) (m : gmap Z fd_state) (i : nat) (b : bool)
    (r : option (Z * Z)) (o' : OS) : Prop :=
  match r with
  | None => os_has o' m i b
  | Some (w, r) => ∃ sw sr, 0 <= w ∧ 0 <= r ∧ w ≠ r ∧ m !! w = None ∧ m !! r = None ∧
      sw.(fd_peer) = Some (INADDR_LOOPBACK, port) ∧ os_has o' (<[r := sr]> (<[w := sw]> m)) i b
  end.

Lemma wp_drop {A} fd st o m i b (k : M OS A) Q :
  os_has o (<[fd := st]> m) i b → m !! fd = None →
  (∀ o', os_has o' m i b → wp k o' Q) → wp (socket_close fd ;; k) o Q.
Proof.
  intros Hh Hf Hk. apply wp_bind. eapply wp_close; [done|apply lookup_insert_eq|]. intros o' Ho'.
  apply Hk. by rewrite delete_insert_id in Ho'.
Qed.

Lemma wp_drop_none fd st o m i b port :
  os_has o (<[fd := st]> m) i b → m !! fd = None →
  wp (socket_close fd ;; mret None) o (wake_result port m i b).
Proof. intros Hh Hf. eapply wp_drop; [done|done|]. intros o' Ho'. by apply wp_ret. Qed.

Lemma wp_wake_pair port o m i b :
  os_has o m i b → wp (make_wake_pair port) o (wake_result port m i b).
Proof.
  intros Hh. unfold make_wake_pair. apply wp_bind. eapply wp_open; [done| |].
  { intros o' Ho'. by apply wp_ret. }
  intros l o1 Hl Hfl Hh1. unfold socket_valid. rewrite (proj2 (Z.leb_le 0 l) Hl). cbn [negb].
  on_last ra o2 Hh2. on_last ok o3 Hh3. destruct ok; [|by eapply wp_drop_none]. cbn [negb].
  on_last ok o4 Hh4. destruct ok; [|by eapply wp_drop_none]. cbn [negb].
  on_last ok o5 Hh5. destruct ok; [|by eapply wp_drop_none]. cbn [negb].
  match type of Hh5 with os_has _ (<[l := ?st]> m) _ _ => set (sl := st) in * end. clearbody sl.
  apply wp_bind. eapply wp_open; [done|by intros; cbn; eapply wp_drop_none|].
  intros c o6 Hc [Hfc Hne]%lookup_insert_None Hh6. rewrite (proj2 (Z.leb_le 0 c) Hc). cbn [negb].
  on_last ok o7 Hh7. rewrite insert_insert_ne in Hh7 by done. destruct ok; cbn [negb].
  2:{ eapply wp_drop; [done|by rewrite lookup_insert_ne|]. intros. by eapply wp_drop_none. }
  match type of Hh7 with os_has _ (<[l := sl]> (<[c := ?st]> _)) _ _ => set (sc := st) in * end.
  assert (fd_peer sc = Some (INADDR_LOOPBACK, port) ∧ fd_flags sc = 0) as [Hpeer Hflags] by done.
  clearbody sc. apply wp_bind. eapply wp_open; [done| |].
  { intros o8 Hh8. eapply wp_drop; [done|by rewrite lookup_insert_ne|]. intros.
    cbn [negb Z.leb]. by eapply wp_drop_none. }
  intros s o8 Hs [[Hfs Hcs]%lookup_insert_None Hls]%lookup_insert_None Hh8.
  rewrite (insert_insert_ne _ s l) in Hh8 by done.
  eapply wp_drop; [done|by rewrite !lookup_insert_ne by done|]. intros o9 Hh9.
  rewrite (proj2 (Z.leb_le 0 s) Hs). cbn [negb]. rewrite (insert_insert_ne _ s c) in Hh9 by done.
  apply wp_bind. eapply wp_non_blocking; [done|apply lookup_insert_eq|by rewrite Hflags|].
  intros ok o10 Hh10. rewrite insert_insert_eq, (insert_insert_ne _ c s) in Hh10 by done. apply wp_bind.
  eapply wp_non_blocking; [done|apply lookup_insert_eq|done|]. intros ok' o11 Hh11.
  rewrite insert_insert_eq in Hh11. apply wp_ret. do 2 eexists.
  split_and!; [done|done|done|done|done| |exact Hh11]. by destruct ok.
Qed.

(** After [EpollReactor::init]: what it opened stays open also when it fails. *)
Definition epoll_opened (m : gmap Z fd_state) (i : nat) (b : bool) (r : bool * (Z * Z)) (o' : OS) : Prop :=
  let '(ok, (epfd, wake)) := r in
  (ok = false ∧ epfd = -1 ∧ wake = -1 ∧ os_has o' m i b) ∨
  (0 <= epfd ∧ m !! epfd = None ∧
   ((ok = false ∧ wake = -1 ∧ ∃ se, os_has o' (<[epfd := se]> m) i b) ∨
    (0 <= wake ∧ wake ≠ epfd ∧ m !! wake = None ∧ ∃ se sw,
       se.(fd_watch) = (if ok then {[wake := EPOLLIN_bit]} else ∅) ∧
       os_has o' (<[epfd := se]> (<[wake := sw]> m)) i b))).

Lemma wp_epoll_init o m i b : os_has o m i b → wp epoll_init o (epoll_opened m i b).
Proof.
  intros Hh. unfold epoll_init. apply wp_bind. eapply wp_open; [done| |].
  { intros o' Ho'. apply wp_ret. by left. }
  intros e o1 He Hfe Hh1. rewrite (proj2 (Z.ltb_ge e 0)) by lia.
  apply wp_bind. eapply wp_open; [done| |].
  { intros o' Ho'. apply wp_ret. right. split; [done|]. split; [done|]. left. by eauto. }
  intros w o2 Hw [Hfw Hne]%lookup_insert_None Hh2. rewrite (proj2 (Z.ltb_ge w 0)) by lia.
  rewrite insert_insert_ne in Hh2 by done. on_last ok o3 Hh3. apply wp_ret.
  right. split; [done|]. split; [done|]. right. split; [done|]. split; [done|]. split; [done|].
  do 2 eexists. split; [|exact Hh3]. by destruct ok.
Qed.

Lemma wp_epoll_shutdown m i b r o :
  epoll_opened m i b r o → wp (epoll_shutdown r.2) o (λ w o', w = (-1, -1) ∧ os_has o' m i b).
Proof.
  destruct r as [ok [e w]]. unfold epoll_shutdown. cbn [fst snd].
  intros [(_ & -> & -> & Hh)|(He & Hfe & [(_ & -> & se & Hh)|(Hw & Hne & Hfw & se & sw & _ & Hh)])].
  - apply wp_bind, wp_ret, wp_bind, wp_ret, wp_ret. done.
  - rewrite (proj2 (Z.leb_le 0 e) He). eapply wp_drop; [done|done|]. intros o' Ho'.
    apply wp_bind, wp_ret, wp_ret. done.
  - rewrite (proj2 (Z.leb_le 0 e) He), (proj2 (Z.leb_le 0 w) Hw).
    eapply wp_drop; [done|by rewrite lookup_insert_ne|]. intros o' Ho'.
    eapply wp_drop; [done|done|]. intros o2 Ho2. by apply wp_ret.
Qed.

Lemma wp_select_shutdown port m i b w o :
  wake_result port m i b (Some w) o → wp (select_shutdown w) o (λ _ o', os_has o' m i b).
Proof.
  destruct w as [w r]. unfold select_shutdown, socket_valid. cbn [fst snd].
  intros (sw & sr & Hw & Hr & Hne & Hfw & Hfr & _ & Hh).
  rewrite (proj2 (Z.leb_le 0 w) Hw), (proj2 (Z.leb_le 0 r) Hr).
  eapply wp_drop; [done|by rewrite lookup_insert_ne|]. intros o' Ho'.
  eapply wp_close; [done|apply lookup_insert_eq|]. intros o2 Ho2.
  by rewrite delete_insert_id in Ho2.
Qed.

(** ** Socket objects *)

(** An object of class [Socket] is its [s_]. *)
Definition close (s : Z) : M OS Z :=
  if socket_valid s then socket_close s ;; mret CHAT_SOCKET_INVALID else mret s.

(** The move constructor: the new object and what is left of [o]. *)
Definition move_construct (o : Z) : Z * Z := (o, CHAT_SOCKET_INVALID).

(** [operator=(Socket&& o)] on another object. *)
Definition move_assign (s o : Z) : M OS (Z * Z) := close s ;; mret (o, CHAT_SOCKET_INVALID).

(** [release]: the descriptor handed out and the object. *)
Definition release_socket (s : Z) : Z * Z := (s, CHAT_SOCKET_INVALID).

(** A program's sockets: the objects alive, by name, and the descriptors no
    [Socket] owns. *)
Record owners := mkOwners { sk_os : OS; sk_objs : gmap Z Z; sk_raw : gset Z }.

Inductive sock_op :=
| SkListen (x : Z) (host : string) (port backlog : Z)
| SkConnect (x : Z) (found : option (list Z)) (port : Z)
| SkAdopt (x fd : Z)                     (** [Socket x(fd)] for a descriptor nobody owns *)
| SkMove (x y : Z)                       (** [Socket x(std::move(y))] *)
| SkAssign (x y : Z)                     (** [x = std::move(y)] *)
| SkRelease (x : Z)                      (** [x.release()] *)
| SkClose (x : Z)                        (** [x.close()] *)
| SkDestroy (x : Z).                     (** the end of [x]'s life *)

(** Run a call and store what it returns in [x]. *)
Definition store (x : Z) (p : M OS Z) (y : owners) : owners :=
  match p y.(sk_os) with
  | (Ret s, o) => mkOwners o (<[x := s]> y.(sk_objs)) y.(sk_raw)
  | (Throw _, o) => mkOwners o y.(sk_objs) y.(sk_raw)
  end.

Definition hand_out (fd : Z) (raw : gset Z) : gset Z := if socket_valid fd then {[fd]} ∪ raw else raw.

(** Objects are created under new names and used while they live. *)
Definition sock_step (y : owners) (op : sock_op) : owners :=
  let '(mkOwners o objs raw) := y in
  match op with
  | SkListen x host port backlog =>
      match objs !! x with None => store x (listen_tcp host port backlog) y | Some _ => y end
  | SkConnect x found port =>
      match objs !! x with None => store x (connect_tcp found port) y | Some _ => y end
  | SkAdopt x fd =>
      match objs !! x with
      | None => if decide (fd ∈ raw) then mkOwners o (<[x := fd]> objs) (raw ∖ {[fd]}) else y
      | Some _ => y
      end
  | SkMove x z =>
      match objs !! x, objs !! z with
      | None, Some s =>
          let '(new, old) := move_construct s in mkOwners o (<[x := new]> (<[z := old]> objs)) raw
      | _, _ => y
      end
  | SkAssign x z =>
      match objs !! x, objs !! z with
      | Some sx, Some sz =>
          if decide (x = z) then y
          else match move_assign sx sz o with
               | (Ret (new, old), o) => mkOwners o (<[x := new]> (<[z := old]> objs)) raw
               | (Throw _, o) => mkOwners o objs raw
               end
      | _, _ => y
      end
  | SkRelease x =>
      match objs !! x with
      | Some s => let '(fd, s) := release_socket s in mkOwners o (<[x := s]> objs) (hand_out fd raw)
      | None => y
      end
  | SkClose x => match objs !! x with Some s => store x (close s) y | None => y end
  | SkDestroy x =>
      match objs !! x with
      | Some s =>
          let y := store x (close s) y in mkOwners y.(sk_os) (delete x y.(sk_objs)) y.(sk_raw)
      | None => y
      end
  end.

(** Every open descriptor has exactly one owner, or none and is raw. *)
Record owns (m : gmap Z fd_state) (objs : gmap Z Z) (raw : gset Z) : Prop := {
  ow_open : ∀ x s, objs !! x = Some s → 0 <= s → is_Some (m !! s) ∧ s ∉ raw;
  ow_inj : ∀ x x' s, objs !! x = Some s → objs !! x' = Some s → 0 <= s → x = x';
  ow_owned : ∀ fd, is_Some (m !! fd) → fd ∈ raw ∨ ∃ x, objs !! x = Some fd ∧ 0 <= fd;
  ow_raw : ∀ fd, fd ∈ raw → is_Some (m !! fd) ∧ 0 <= fd;
}.

(** The elementary moves: a descriptor is opened or closed while nobody owns it,
    an object takes or gives up one, an empty object appears or disappears. *)
Lemma owns_open m objs raw fd st :
  owns m objs raw → m !! fd = None → 0 <= fd → owns (<[fd := st]> m) objs ({[fd]} ∪ raw).
Proof.
  intros [H1 H2 H3 H4] Hf Hp. split.
  - intros x s Hx Hs. destruct (H1 x s Hx Hs) as [Ho Hr].
    assert (s ≠ fd) by (intros ->; rewrite Hf in Ho; by destruct Ho).
    rewrite lookup_insert_ne by done. set_solver.
  - done.
  - intros s Hs. destruct (decide (s = fd)) as [->|Hne]; [set_solver|].
    rewrite lookup_insert_ne in Hs by done. destruct (H3 s Hs); [set_solver|by right].
  - intros s Hs. apply elem_of_union in Hs as [Hs|Hs].
    { apply elem_of_singleton in Hs as ->. by rewrite lookup_insert_eq. }
    destruct (H4 s Hs) as [Ho Hs']. split; [|done].
    destruct (decide (s = fd)) as [->|Hne]; [by rewrite lookup_insert_eq|].
    by rewrite lookup_insert_ne.
Qed.

Lemma owns_close m objs raw fd :
  owns m objs raw → fd ∈ raw → owns (delete fd m) objs (raw ∖ {[fd]}).
Proof.
  intros [H1 H2 H3 H4] Hf. split.
  - intros x s Hx Hs. destruct (H1 x s Hx Hs) as [Ho Hr].
    rewrite lookup_delete_ne by set_solver. set_solver.
  - done.
  - intros s [Hne Hs]%lookup_delete_is_Some. destruct (H3 s Hs); [set_solver|by right].
  - intros s [Hs Hne]%elem_of_difference. rewrite lookup_delete_ne by set_solver. by apply H4.
Qed.

Lemma owns_give m objs raw x s :
  owns m objs raw → objs !! x = Some s → 0 <= s → owns m (<[x := -1]> objs) ({[s]} ∪ raw).
Proof.
  intros [H1 H2 H3 H4] Hx Hs. split.
  - intros z t Hz Ht. apply lookup_insert_Some in Hz as [[_ <-]|[Hne Hz]]; [lia|].
    destruct (H1 z t Hz Ht) as [Ho Hr]. split; [done|].
    assert (t ≠ s) by (intros ->; by apply Hne, (H2 x z s)). set_solver.
  - intros z z' t Hz Hz' Ht. apply lookup_insert_Some in Hz as [[_ <-]|[_ Hz]]; [lia|].
    apply lookup_insert_Some in Hz' as [[_ <-]|[_ Hz']]; [lia|]. by apply (H2 _ _ t).
  - intros fd Hfd. destruct (decide (fd = s)) as [->|Hne]; [set_solver|].
    destruct (H3 fd Hfd) as [|(z & Hz & ?)]; [set_solver|]. right. exists z. split; [|done].
    rewrite lookup_insert_ne; [done|]. by intros ->; simplify_eq.
  - intros fd Hfd. apply elem_of_union in Hfd as [Hfd|Hfd]; [|by apply H4].
    apply elem_of_singleton in Hfd as ->. split; [|done]. by apply (H1 x s).
Qed.

(** An object without a descriptor. *)
Definition empty_obj (objs : gmap Z Z) (x : Z) : Prop := ∀ s, objs !! x = Some s → s < 0.

Lemma owns_take m objs raw x fd :
  owns m objs raw → empty_obj objs x → fd ∈ raw → owns m (<[x := fd]> objs) (raw ∖ {[fd]}).
Proof.
  intros [H1 H2 H3 H4] Hx Hf. destruct (H4 fd Hf) as [Ho Hp]. split.
  - intros z t Hz Ht. apply lookup_insert_Some in Hz as [[_ <-]|[_ Hz]]; [set_solver|].
    destruct (H1 z t Hz Ht). set_solver.
  - intros z z' t Hz Hz' Ht.
    apply lookup_insert_Some in Hz as [[Hxz Hft]|[_ Hz]], Hz' as [[Hxz' Hft']|[_ Hz']]; subst; try done.
    + by destruct (H1 _ _ Hz' Ht).
    + by destruct (H1 _ _ Hz Ht).
    + by apply (H2 _ _ t).
  - intros t Ht. destruct (decide (t = fd)) as [->|Hne].
    + right. exists x. by rewrite lookup_insert_eq.
    + destruct (H3 t Ht) as [|(z & Hz & ?)]; [set_solver|]. right. exists z. split; [|done].
      rewrite lookup_insert_ne; [done|]. intros ->. specialize (Hx _ Hz). lia.
  - intros t [Ht _]%elem_of_difference. by apply H4.
Qed.

Lemma owns_empty m objs raw x s :
  owns m objs raw → empty_obj objs x → s < 0 → owns m (<[x := s]> objs) raw ∧ owns m (delete x objs) raw.
Proof.
  intros [H1 H2 H3 H4] Hx Hs. split; split; try done.
  - intros z t Hz Ht. apply lookup_insert_Some in Hz as [[_ <-]|[_ Hz]]; [lia|by apply (H1 z)].
  - intros z z' t Hz Hz' Ht. apply lookup_insert_Some in Hz as [[_ Hz]|[_ Hz]]; [lia|].
    apply lookup_insert_Some in Hz' as [[_ Hz']|[_ Hz']]; [lia|]. by apply (H2 _ _ t).
  - intros fd Hfd. destruct (H3 fd Hfd) as [|(z & Hz & ?)]; [by left|]. right. exists z. split; [|done].
    rewrite lookup_insert_ne; [done|]. intros ->. specialize (Hx _ Hz). lia.
  - intros z t Hz Ht. apply lookup_delete_Some in Hz as [_ Hz]. by apply (H1 z).
  - intros z z' t Hz Hz' Ht. apply lookup_delete_Some in Hz as [_ Hz], Hz' as [_ Hz'].
    by apply (H2 _ _ t).
  - intros fd Hfd. destruct (H3 fd Hfd) as [|(z & Hz & ?)]; [by left|]. right. exists z. split; [|done].
    rewrite lookup_delete_ne; [done|]. intros ->. specialize (Hx _ Hz). lia.
Qed.

(** What the elementary moves give for [Socket]'s operations. *)
Definition sound (i : nat) (y : owners) : Prop :=
  os_has y.(sk_os) y.(sk_os).(fds) i false ∧ owns y.(sk_os).(fds) y.(sk_objs) y.(sk_raw).

Lemma store_opened i x p o objs raw P :
  sound i (mkOwners o objs raw) → empty_obj objs x →
  wp p o (opened o.(fds) i false P) → sound i (store x p (mkOwners o objs raw)).
Proof.
  intros [Hh Ho] Hx (s & o' & E & Hs). unfold store. cbn [sk_os sk_objs sk_raw] in *. rewrite E.
  destruct Hs as [[-> (Hm & Hi & Hb)]|(Hp & Hf & st & _ & (Hm & Hi & Hb))];
    unfold sound; cbn [sk_os sk_objs sk_raw]; rewrite Hm; (split; [done|]).
  - apply owns_empty; [done|done|lia].
  - replace raw with (({[s]} ∪ raw) ∖ {[s]}).
    + apply owns_take; [by apply owns_open|done|set_solver].
    + assert (s ∉ raw) by (intros Hr; destruct (ow_raw _ _ _ Ho s Hr) as [[? Hs] _]; by rewrite Hf in Hs).
      set_solver.
Qed.

(** [x.close()], for a live object. *)
Lemma close_sound i x s o objs raw :
  sound i (mkOwners o objs raw) → objs !! x = Some s →
  ∃ s' o', close s o = (Ret s', o') ∧ s' < 0 ∧ sound i (mkOwners o' (<[x := s']> objs) raw).
Proof.
  intros [(_ & Hi & Hb) Ho] Hx. cbn [sk_os sk_objs sk_raw] in *. unfold close, socket_valid.
  destruct (Z.leb_spec 0 s) as [Hs|Hs].
  - destruct (ow_open _ _ _ Ho x s Hx Hs) as [[st Hst] Hr].
    destruct (wp_close s st o o.(fds) i false (λ _ o', os_has o' (delete s o.(fds)) i false))
      as ([] & o' & E & Hh'); [done|done|done|].
    exists (-1), o'. rewrite (M_bind_ret _ _ _ _ _ E). split; [done|]. split; [lia|].
    unfold sound. cbn [sk_os sk_objs sk_raw]. rewrite (proj1 Hh'). split; [exact Hh'|].
    replace raw with (({[s]} ∪ raw) ∖ {[s]}) by set_solver.
    apply owns_close; [by apply owns_give|set_solver].
  - exists s, o. split; [done|]. split; [done|]. split; [done|]. cbn. by rewrite insert_id.
Qed.

(** Moving what [z] holds into the empty object [x]. *)
Lemma move_sound i x z s o objs raw :
  sound i (mkOwners o objs raw) → empty_obj objs x → objs !! z = Some s → x ≠ z →
  sound i (mkOwners o (<[x := s]> (<[z := -1]> objs)) raw).
Proof.
  intros [Hh Ho] Hx Hz Hne. split; [done|]. cbn [sk_os sk_objs sk_raw] in *.
  assert (empty_obj (<[z := -1]> objs) x) as Hx' by (intros t; rewrite lookup_insert_ne by done; apply Hx).
  destruct (Z.le_gt_cases 0 s) as [Hs|Hs].
  - destruct (ow_open _ _ _ Ho z s Hz Hs) as [_ Hr].
    replace raw with (({[s]} ∪ raw) ∖ {[s]}) by set_solver.
    apply owns_take; [by apply owns_give|done|set_solver].
  - apply owns_empty; [|done|lia]. apply owns_empty; [done| |lia].
    intros t Ht. by simplify_eq.
Qed.

Lemma sock_step_sound i y op : sound i y → sound i (sock_step y op).
Proof.
  intros Hy. destruct y as [o objs raw]. pose proof Hy as [(_ & Hi & Hb) Ho].
  cbn [sk_os sk_objs sk_raw] in *. destruct op as [x host port bl|x f port|x fd|x z|x z|x|x|x]; cbn [sock_step].
  - destruct (objs !! x) eqn:Hx; [done|]. eapply store_opened; [done|by intros t; rewrite Hx|].
    by apply wp_listen.
  - destruct (objs !! x) eqn:Hx; [done|]. eapply store_opened; [done|by intros t; rewrite Hx|].
    by apply wp_connect.
  - destruct (objs !! x) eqn:Hx; [done|]. case_decide; [|done]. split; [done|].
    apply owns_take; [done|by intros t; rewrite Hx|done].
  - destruct (objs !! x) eqn:Hx; [done|]. destruct (objs !! z) as [s|] eqn:Hz; [|done].
    apply move_sound; [done|by intros t; rewrite Hx|done|by intros ->; simplify_eq].
  - destruct (objs !! x) as [sx|] eqn:Hx; [|done]. destruct (objs !! z) as [sz|] eqn:Hz; [|done].
    case_decide as Hne; [done|]. unfold move_assign.
    destruct (close_sound i x sx o objs raw Hy Hx) as (s' & o' & E & Hs' & Hy').
    rewrite (M_bind_ret _ _ _ _ _ E). cbn.
    eapply (move_sound i x z sz) in Hy'; [|by intros t; rewrite lookup_insert_eq; intros [= <-]
      |by rewrite lookup_insert_ne|done].
    by rewrite (insert_insert_ne _ z x), insert_insert_eq in Hy' by done.
  - destruct (objs !! x) as [s|] eqn:Hx; [|done]. cbn. split; [done|]. cbn [sk_os sk_objs sk_raw].
    unfold hand_out, socket_valid. destruct (Z.leb_spec 0 s); [by apply owns_give|].
    apply owns_empty; [done|by intros t Ht; simplify_eq|done].
  - destruct (objs !! x) as [s|] eqn:Hx; [|done]. unfold store. cbn [sk_os].
    destruct (close_sound i x s o objs raw Hy Hx) as (s' & o' & -> & Hs' & Hy'). done.
  - destruct (objs !! x) as [s|] eqn:Hx; [|done]. unfold store. cbn [sk_os].
    destruct (close_sound i x s o objs raw Hy Hx) as (s' & o' & -> & Hs' & [Hh' Ho']).
    split; [done|]. cbn [sk_os sk_objs sk_raw] in *.
    apply (owns_empty _ _ _ x (-1) Ho'); [|lia]. intros t. rewrite lookup_insert_eq. by intros [= <-].
Qed.

(** C19: whatever a program does with [Socket] objects (listen, connect, wrap a raw
    descriptor, move, assign, release, close, destroy, in any order) and whichever
    system calls fail, no descriptor is used or closed after it was closed, every
    [addrinfo] list is freed, two objects never hold the same descriptor, the
    descriptor of a live object is open, and once the objects are gone the open
    descriptors are exactly those no [Socket] owns. *)
Theorem socket_ownership ops o :
  o.(bad) = false → (∀ fd, is_Some (o.(fds) !! fd) → 0 <= fd) →
  let y := foldl sock_step (mkOwners o ∅ (dom o.(fds))) ops in
  y.(sk_os).(bad) = false ∧ y.(sk_os).(infos) = o.(infos) ∧
  (∀ x s, y.(sk_objs) !! x = Some s → 0 <= s → is_Some (y.(sk_os).(fds) !! s)) ∧
  (∀ x x' s, y.(sk_objs) !! x = Some s → y.(sk_objs) !! x' = Some s → 0 <= s → x = x') ∧
  (y.(sk_objs) = ∅ → dom y.(sk_os).(fds) = y.(sk_raw)).
Proof.
  intros Hb Hp y.
  assert (sound o.(infos) y) as [(_ & Hi & Hbad) [H1 H2 H3 H4]].
  { unfold y. clear y. assert (sound o.(infos) (mkOwners o ∅ (dom o.(fds)))) as Hs.
    { split; [done|]. split; cbn [sk_objs sk_raw sk_os].
      - by intros x s; rewrite lookup_empty.
      - by intros x x' s; rewrite lookup_empty.
      - intros fd Hfd. left. by apply elem_of_dom.
      - intros fd Hfd%elem_of_dom. by auto. }
    revert Hs. generalize (mkOwners o ∅ (dom o.(fds))). clear.
    induction ops as [|op ops IH]; intros y Hs; [done|]. apply IH. by apply sock_step_sound. }
  split_and!; [done|done| |done|].
  - intros x s Hx Hs. by destruct (H1 x s Hx Hs).
  - intros He. apply set_eq. intros fd. rewrite elem_of_dom. split; [|by intros [Hfd _]%H4].
    intros [|(x & Hx & _)]%H3; [done|]. by rewrite He in Hx.
Qed.

(** A listener moved into a member, a failed second one, and the end of both. *)
Definition sample_os : OS := mkOS {[0 := new_fd; 1 := new_fd; 2 := new_fd]} 0 (repeat true 6 ++ [true; true; false]) false.
Definition sample_ops : list sock_op :=
  [SkListen 1 "127.0.0.1" 9000 1024; SkMove 2 1; SkListen 3 "0.0.0.0" 80 1024; SkAssign 2 3;
   SkDestroy 1; SkDestroy 2; SkDestroy 3].

Lemma socket_ownership_witness :
  let y := foldl sock_step (mkOwners sample_os ∅ (dom sample_os.(fds))) sample_ops in
  y.(sk_os).(bad) = false ∧ dom y.(sk_os).(fds) = y.(sk_raw).
Proof.
  destruct (socket_ownership sample_ops sample_os) as (H1 & _ & _ & _ & H2).
  - reflexivity.
  - intros fd [st Hst]. unfold sample_os in Hst. cbn [fds] in Hst.
    rewrite !lookup_insert_Some, lookup_singleton_Some in Hst. lia.
  - split; [exact H1|]. apply H2. vm_compute. reflexivity.
Defined.

(** Calls that succeed. *)
Lemma open_fd_ok st m i sc b :
  open_fd st (mkOS m i (true :: sc) b) = (Ret (lowest_free m), mkOS (<[lowest_free m := st]> m) i sc b).
Proof. done. Qed.

Lemma sys_on_true fd f st m i sc b :
  m !! fd = Some st →
  sys_on fd f (mkOS m i (true :: sc) b) = (Ret true, mkOS (<[fd := f st]> m) i sc b).
Proof. intros Hst. unfold sys_on. cbn [fds]. by rewrite Hst. Qed.

Lemma sys_on_ok fd f st m i sc b :
  sys_on fd f (mkOS (<[fd := st]> m) i (true :: sc) b) = (Ret true, mkOS (<[fd := f st]> m) i sc b).
Proof. rewrite (sys_on_true _ _ st) by apply lookup_insert_eq. by rewrite insert_insert_eq. Qed.

Lemma set_non_blocking_ok fd st m i sc b :
  0 <= st.(fd_flags) →
  set_non_blocking fd true (mkOS (<[fd := st]> m) i (true :: true :: sc) b) =
    (Ret true, mkOS (<[fd := non_blocking st]> m) i sc b).
Proof.
  intros Hfl. unfold set_non_blocking.
  erewrite (M_bind_ret _ _ _ st.(fd_flags)).
  2:{ unfold fcntl_get. rewrite sys_on_ok. cbn [fds]. by rewrite lookup_insert_eq. }
  rewrite (proj2 (Z.ltb_ge _ _)) by lia. unfold fcntl_set. by rewrite sys_on_ok.
Qed.

Lemma listen_tcp_ok host port backlog a m i sc b :
  listen_addr host = Some a →
  listen_tcp host port backlog (mkOS m i (repeat true 6 ++ sc) b) =
    (Ret (lowest_free m),
     mkOS (<[lowest_free m := listening_fd true true (a, port) backlog]> m) i sc b).
Proof.
  intros Ha. destruct (lowest_free_spec m) as [Hp _]. unfold listen_tcp.
  erewrite M_bind_ret; [|apply open_fd_ok]. unfold socket_valid.
  rewrite (proj2 (Z.leb_le 0 _) Hp). cbn [negb].
  erewrite M_bind_ret; [|apply sys_on_ok]. rewrite Ha.
  erewrite M_bind_ret; [|apply sys_on_ok]. cbn [negb].
  erewrite M_bind_ret; [|apply sys_on_ok]. cbn [negb].
  erewrite M_bind_ret; [|by apply set_non_blocking_ok]. done.
Qed.

(** [listen_tcp] and [connect_tcp] leave the descriptor table as it was or with
    exactly one more descriptor, the one they return, never a leak on any failing
    call.  The listener is bound to the address of [host] ([0.0.0.0] when it is
    empty) and [port] and has the given backlog; the connected socket's peer is the
    address found.  When every call succeeds the listener is open, non-blocking and
    has [SO_REUSEADDR]. *)
Theorem open_tcp_correct o :
  (∀ host port backlog, wp (listen_tcp host port backlog) o
     (opened o.(fds) o.(infos) o.(bad)
        (λ st, ∃ a ra nb, listen_addr host = Some a ∧ st = listening_fd ra nb (a, port) backlog))) ∧
  (∀ found port, wp (connect_tcp found port) o
     (opened o.(fds) o.(infos) o.(bad) (λ st, ∃ a, found = Some a ∧ st.(fd_peer) = Some (a, port)))) ∧
  (∀ host port backlog a, listen_addr host = Some a → take 6 o.(script) = repeat true 6 →
     let s := lowest_free o.(fds) in
     listen_tcp host port backlog o =
       (Ret s, mkOS (<[s := listening_fd true true (a, port) backlog]> o.(fds)) o.(infos)
                 (drop 6 o.(script)) o.(bad))).
Proof.
  split; [|split].
  - intros. by apply wp_listen.
  - intros. by apply wp_connect.
  - intros host port backlog a Ha Hs s. destruct o as [m i sc b]. cbn [script fds infos bad] in *.
    rewrite <-(take_drop 6 sc) at 1. rewrite Hs. by apply listen_tcp_ok.
Qed.

(** The wake-up descriptors of the reactors.  [SelectReactor::init] leaves no
    descriptor behind when any of its calls fails, and when it succeeds exactly the
    two ends of a loopback connection, which [shutdown] closes.  [EpollReactor::init]
    on success opens exactly the epoll instance and the eventfd registered with it;
    when it fails, what it had opened stays open.  [EpollReactor::shutdown] gives all
    of it back in every case, but no code calls it: with a failing [eventfd], say,
    the epoll instance is left. *)
Theorem reactor_descriptors o port :
  wp (select_init port) o (λ r o1,
    wake_result port o.(fds) o.(infos) o.(bad) r o1 ∧
    match r with
    | Some w => wp (select_shutdown w) o1 (λ _ o2, os_has o2 o.(fds) o.(infos) o.(bad))
    | None => True
    end) ∧
  wp epoll_init o (λ r o1,
    epoll_opened o.(fds) o.(infos) o.(bad) r o1 ∧
    wp (epoll_shutdown r.2) o1 (λ w o2, w = (-1, -1) ∧ os_has o2 o.(fds) o.(infos) o.(bad))) ∧
  (∃ o1, epoll_init (mkOS ∅ 0 [true; false] false) = (Ret (false, (0, -1)), o1) ∧
     dom o1.(fds) = {[0]}).
Proof.
  assert (os_has o o.(fds) o.(infos) o.(bad)) as Hh by done. split; [|split].
  - destruct (wp_wake_pair port _ _ _ _ Hh) as (r & o1 & E & Hr). exists r, o1.
    split; [done|]. split; [done|]. destruct r as [w|]; [|done]. by eapply wp_select_shutdown.
  - destruct (wp_epoll_init _ _ _ _ Hh) as (r & o1 & E & Hr). exists r, o1.
    split; [done|]. split; [done|]. by apply wp_epoll_shutdown.
  - eexists. split; [vm_compute; reflexivity|]. vm_compute. reflexivity.
Qed.
