(* ===== verification/ClientMain.v ===== *)
(** * The client's threads: [main] and [reader_loop] of [client/cli_client.cpp]

    [Client.v] has what one line of input, one [send] loop and one received chunk do.
    Here the whole program runs: [main] connects, starts the reader thread, reads
    lines until the input ends, [:quit] or a failed send, then closes the socket and
    joins the reader; both threads print under [g_out].  A step of the machine is
    one access to shared state ([g_running], the socket, the screen) or the
    return of one blocking call; the user and the server choose what those return. *)
From S2P Require Import Prelude Util Framing Repositories Session Presence RoomManager.
From S2P Require Import Messages Json JsonProofs JsonRoundTrip Connection World Router Handlers.
From S2P Require Import HandlerLogic HandlerSpecs Server Client Socket.

(** ** Connecting *)

(** [main] up to the start of the reader: the descriptor, or the exit status 1.  What
    [getaddrinfo] and [socket] gave is not given back on the error paths. *)
Definition client_connect (argc : Z) (found : option (list Z)) (port : Z) : M OS (Z + Z) :=
  if argc <? 3 then mret (inr 1)
  else
    r ← getaddrinfo found;
    match r with
    | None => mret (inr 1)
    | Some a =>
        s ← sys_socket;
        if negb (socket_valid s) then mret (inr 1)
        else
          ok ← sys_connect s (a, port);
          if negb ok then mret (inr 1)
          else freeaddrinfo ;; mret (inl s)
    end.

(** ** Printing a value *)

Definition newline : string := String (ascii_of_byte 10) "".
Definition spaces (n : nat) : string := of_chars (replicate n " "%char).

(** [serializer::dump] with [pretty_print]. *)
Fixpoint dump_pretty `{FloatText} (step cur : nat) (j : json) : outcome string :=
  match j with
  | JArr ((_ :: _) as l) =>
      t ← (fix dump_elems l :=
             match l with
             | [] => Ret ""
             | [x] => s ← dump_pretty step (cur + step) x; Ret (spaces (cur + step) +:+ s)
             | x :: l => s ← dump_pretty step (cur + step) x; t ← dump_elems l;
                         Ret (spaces (cur + step) +:+ s +:+ "," +:+ newline +:+ t)
             end) l;
      Ret ("[" +:+ newline +:+ t +:+ newline +:+ spaces cur +:+ "]")
  | JObj ((_ :: _) as o) =>
      t ← (fix dump_members o :=
             match o with
             | [] => Ret ""
             | [(k, v)] => q ← quoted k; s ← dump_pretty step (cur + step) v;
                           Ret (spaces (cur + step) +:+ q +:+ ": " +:+ s)
             | (k, v) :: o =>
                 q ← quoted k; s ← dump_pretty step (cur + step) v; t ← dump_members o;
                 Ret (spaces (cur + step) +:+ q +:+ ": " +:+ s +:+ "," +:+ newline +:+ t)
             end) o;
      Ret ("{" +:+ newline +:+ t +:+ newline +:+ spaces cur +:+ "}")
  | _ => dump j
  end.

(** What the reader prints for a frame; the inner [catch (...)] covers both calls. *)
Definition frame_text `{FloatText} (f : string) : string :=
  match parse f with
  | Some j => match dump_pretty 2 0 j with Ret s => s | Throw _ => "[non-json frame]" end
  | None => "[non-json frame]"
  end.

(** [e.what()]; [feed] throws only runtime errors. *)
Definition what_of (e : exn) : string :=
  match e with RuntimeError what => what | _ => "" end.

Definition closed_text : string := "[server closed connection]".
Definition bad_frame_text (e : exn) : string := "[bad frame] " +:+ what_of e.

Definition help_text : list string :=
  ["Commands:"; "  :help                          show this help";
   "  :register <user> <pass>"; "  :login    <user> <pass>"; "  :logout";
   "  :dm <user_id> <content...>     send a direct message"; "  :create_room <name>";
   "  :join <room_id|name>"; "  :leave <room_id>";
   "  :rooms                         list rooms you're in";
   "  :room <room_id> <content...>   send to a room"; "  :history_dm <user_id> [limit]";
   "  :history_room <room_id> [limit]"; "  :presence <user_id>"; "  :ping"; "  :quit"].

(** ** The two threads *)

(** Where [main] is. *)
Inductive main_pc :=
| MTop                       (** at the loop's test *)
| MGetline                   (** in [std::getline] *)
| MPrint (l : list string)   (** printing, then back to the top *)
| MSend (rest : list Z)      (** in the loop of [send_frame] *)
| MFailed                    (** about to print "[send failed]" *)
| MQuit                      (** [g_running.store(false); break] *)
| MStop                      (** [g_running.store(false)] after the loop *)
| MClose                     (** [socket_close] *)
| MJoin                      (** [reader.join()] *)
| MExit                      (** returned 0 *)
| MCrash (e : exn).          (** an exception left [main] *)

(** Where the reader is. *)
Inductive reader_pc :=
| RTop
| RCall                      (** about to call [recv] *)
| RBlocked                   (** in [recv] *)
| RPrint (l : list string)
| RFinish (text : string)    (** about to print the last line *)
| RStore                     (** [g_running.store(false)] *)
| RDone.

Record client := mkClient {
  cl_running : bool;
  cl_seq : Z;
  cl_open : bool;
  cl_wire : list Z;                 (** what the kernel has accepted *)
  cl_screen : list (bool * string); (** lines printed, [true] by the reader *)
  cl_dec : FrameDecoder;
  cl_main : main_pc;
  cl_reader : reader_pc;
  cl_typed : list string;           (** lines read so far *)
  cl_received : list string;        (** chunks received so far *)
}.

Definition set_main (p : main_pc) (s : client) : client :=
  mkClient s.(cl_running) s.(cl_seq) s.(cl_open) s.(cl_wire) s.(cl_screen) s.(cl_dec) p
    s.(cl_reader) s.(cl_typed) s.(cl_received).
Definition set_reader (p : reader_pc) (s : client) : client :=
  mkClient s.(cl_running) s.(cl_seq) s.(cl_open) s.(cl_wire) s.(cl_screen) s.(cl_dec) s.(cl_main)
    p s.(cl_typed) s.(cl_received).
Definition set_running (b : bool) (s : client) : client :=
  mkClient b s.(cl_seq) s.(cl_open) s.(cl_wire) s.(cl_screen) s.(cl_dec) s.(cl_main)
    s.(cl_reader) s.(cl_typed) s.(cl_received).
Definition out (reader : bool) (line : string) (s : client) : client :=
  mkClient s.(cl_running) s.(cl_seq) s.(cl_open) s.(cl_wire) (s.(cl_screen) ++ [(reader, line)])
    s.(cl_dec) s.(cl_main) s.(cl_reader) s.(cl_typed) s.(cl_received).

Inductive client_op :=
| ClMain                        (** a step of [main] that does not block *)
| ClLine (line : option string) (** [getline] returns a line, or the input has ended *)
| ClSend (n : nat)              (** [send] accepts [n] bytes; 0 for an error *)
| ClReader                      (** a step of the reader that does not block *)
| ClRecv (data : option string). (** [recv] returns bytes; [None] for the end or an error *)

Section threads.
Context `{FloatText}.

(** The body of the loop on one line. *)
Definition on_line (line : string) (s : client) : client :=
  let '(o, seq) := handle_line line s.(cl_seq) in
  let s := mkClient s.(cl_running) seq s.(cl_open) s.(cl_wire) s.(cl_screen) s.(cl_dec) s.(cl_main)
             s.(cl_reader) (s.(cl_typed) ++ [line]) s.(cl_received) in
  match o with
  | Throw e => set_main (MCrash e) s
  | Ret Ignore => set_main MTop s
  | Ret PrintHelp => set_main (MPrint help_text) s
  | Ret Unknown => set_main (MPrint ["unknown command; :help"]) s
  | Ret Quit => set_main MQuit s
  | Ret (Send req) =>
      match dump req with
      | Ret text => set_main (MSend (to_bytes (frame text))) s
      | Throw e => set_main (MCrash e) s
      end
  end.

Definition main_step (s : client) : option client :=
  match s.(cl_main) with
  | MTop => Some (set_main (if s.(cl_running) then MGetline else MStop) s)
  | MPrint [] => Some (set_main MTop s)
  | MPrint (l :: ls) => Some (set_main (MPrint ls) (out false l s))
  | MSend [] => Some (set_main MTop s)
  | MFailed => Some (set_main MQuit (out false "[send failed]" s))
  | MQuit => Some (set_main MStop (set_running false s))
  | MStop => Some (set_main MClose (set_running false s))
  | MClose =>
      Some (mkClient s.(cl_running) s.(cl_seq) false s.(cl_wire) s.(cl_screen) s.(cl_dec) MJoin
              s.(cl_reader) s.(cl_typed) s.(cl_received))
  | MJoin => match s.(cl_reader) with RDone => Some (set_main MExit s) | _ => None end
  | _ => None
  end.

Definition reader_step (s : client) : option client :=
  match s.(cl_reader) with
  | RTop => Some (set_reader (if s.(cl_running) then RCall else RDone) s)
  | RCall => Some (set_reader (if s.(cl_open) then RBlocked else RFinish closed_text) s)
  | RPrint [] => Some (set_reader RTop s)
  | RPrint (l :: ls) => Some (set_reader (RPrint ls) (out true l s))
  | RFinish text => Some (set_reader RStore (out true text s))
  | RStore => Some (set_reader RDone (set_running false s))
  | _ => None
  end.

(** [recv] returned. *)
Definition on_recv (data : option string) (s : client) : client :=
  match data with
  | None => set_reader (RFinish closed_text) s
  | Some chunk =>
      let '(o, d) := feed s.(cl_dec) chunk in
      mkClient s.(cl_running) s.(cl_seq) s.(cl_open) s.(cl_wire) s.(cl_screen) d s.(cl_main)
        match o with
        | Ret frames => RPrint (map frame_text frames)
        | Throw e => RFinish (bad_frame_text e)
        end s.(cl_typed) (s.(cl_received) ++ [chunk])
  end.

Definition client_step (o : client_op) (s : client) : option client :=
  match o with
  | ClMain => main_step s
  | ClLine (Some line) => match s.(cl_main) with MGetline => Some (on_line line s) | _ => None end
  | ClLine None => match s.(cl_main) with MGetline => Some (set_main MStop s) | _ => None end
  | ClSend n =>
      match s.(cl_main), n with
      | MSend (_ :: _), O => Some (set_main MFailed s)
      | MSend (b :: rest), n =>
          Some (mkClient s.(cl_running) s.(cl_seq) s.(cl_open) (s.(cl_wire) ++ take n (b :: rest))
                  s.(cl_screen) s.(cl_dec) (MSend (drop n (b :: rest))) s.(cl_reader) s.(cl_typed)
                  s.(cl_received))
      | _, _ => None
      end
  | ClReader => reader_step s
  | ClRecv data => match s.(cl_reader) with RBlocked => Some (on_recv data s) | _ => None end
  end.

(** After the connection is made and announced. *)
Definition client_start (host port : string) : client :=
  mkClient true 1 true []
    [(false, "connected to " +:+ host +:+ ":" +:+ port); (false, "type :help for commands")]
    decoder_init MTop RTop [] [].

Inductive client_reach (host port : string) : client → Prop :=
| clreach_start : client_reach host port (client_start host port)
| clreach_step s o s' :
    client_reach host port s → client_step o s = Some s' → client_reach host port s'.
End threads.

(** ** Printing and connecting *)

Lemma dump_pretty_total `{FloatText} step j : json_utf8 j = true → ∀ cur, ∃ s, dump_pretty step cur j = Ret s.
Proof.
  induction j as [|b|z|z|f|s|l IH|o IH] using json_nested_ind; intros Hj cur;
    try (by apply (dump_total _ Hj)).
  - destruct l as [|x l]; [by eexists|].
    assert (∀ l, Forall (λ j, json_utf8 j = true → ∀ cur, ∃ s, dump_pretty step cur j = Ret s) l →
      forallb json_utf8 l = true → ∃ t, (fix dump_elems l := match l with
        | [] => Ret ""
        | [x] => s ← dump_pretty step (cur + step) x; Ret (spaces (cur + step) +:+ s)
        | x :: l => s ← dump_pretty step (cur + step) x; t ← dump_elems l;
                    Ret (spaces (cur + step) +:+ s +:+ "," +:+ newline +:+ t) end) l = Ret t) as Hgo.
    { clear. induction 1 as [|x l Hx Hl IH]; intros Hf; [by eexists|]. cbn [forallb] in Hf. to_prop.
      destruct (Hx ltac:(done) (cur + step)%nat) as [s Hs]. destruct (IH ltac:(done)) as [t Ht].
      destruct l; rewrite Hs; [by eexists|]. cbn [mbind outcome_bind]. rewrite Ht. by eexists. }
    destruct (Hgo _ IH Hj) as [t Ht]. eexists. etransitivity; [|reflexivity].
    exact (f_equal (mbind (M := outcome) (λ t,
      Ret ("[" +:+ newline +:+ t +:+ newline +:+ spaces cur +:+ "]"))) Ht).
  - destruct o as [|kv o]; [by eexists|].
    assert (∀ o, Forall (λ kv, json_utf8 kv.2 = true → ∀ cur, ∃ s, dump_pretty step cur kv.2 = Ret s) o →
      forallb (λ kv, utf8_valid kv.1 && json_utf8 kv.2) o = true → ∃ t, (fix dump_members o := match o with
        | [] => Ret ""
        | [(k, v)] => q ← quoted k; s ← dump_pretty step (cur + step) v;
                      Ret (spaces (cur + step) +:+ q +:+ ": " +:+ s)
        | (k, v) :: o => q ← quoted k; s ← dump_pretty step (cur + step) v; t ← dump_members o;
            Ret (spaces (cur + step) +:+ q +:+ ": " +:+ s +:+ "," +:+ newline +:+ t) end) o = Ret t) as Hgo.
    { clear. induction 1 as [|[k v] o Hx Hl IH]; intros Hf; [by eexists|]. cbn [forallb fst snd] in Hf.
      to_prop. destruct (Hx ltac:(done) (cur + step)%nat) as [s Hs]. destruct (IH ltac:(done)) as [t Ht].
      destruct (quoted_ok k) as [q Hq]; [done|]. cbn [snd] in Hs.
      destruct o; rewrite Hq; cbn [mbind outcome_bind]; rewrite Hs; [by eexists|].
      cbn [mbind outcome_bind]. rewrite Ht. by eexists. }
    destruct (Hgo _ IH Hj) as [t Ht]. eexists. etransitivity; [|reflexivity].
    exact (f_equal (mbind (M := outcome) (λ t,
      Ret ("{" +:+ newline +:+ t +:+ newline +:+ spaces cur +:+ "}"))) Ht).
Qed.

(** A frame that is JSON is printed as such. *)
Lemma frame_text_json `{FloatText} f j :
  parse f = Some j → ∃ s, dump_pretty 2 0 j = Ret s ∧ frame_text f = s.
Proof.
  intros Hp. destruct (dump_pretty_total 2 j (parse_utf8 _ _ Hp) 0%nat) as [s Hs].
  exists s. unfold frame_text. by rewrite Hp, Hs.
Qed.

(** Connecting gives one descriptor, connected to the address found, and gives back the
    address list; any failure ends the program with status 1. *)
Lemma client_connect_spec argc found port o m i b :
  os_has o m i b →
  wp (client_connect argc found port) o (λ r o', match r with
    | inl s => 0 <= s ∧ m !! s = None ∧ ∃ a st, found = Some a ∧ st.(fd_peer) = Some (a, port) ∧
        os_has o' (<[s := st]> m) i b
    | inr status => status = 1
    end).
Proof.
  intros Hh. unfold client_connect. destruct (argc <? 3); [by apply wp_ret|]. apply wp_bind.
  destruct found as [a|]; (do 2 eexists; split; [done|]); [|by apply wp_ret].
  destruct Hh as (<- & <- & <-). apply wp_bind. eapply wp_open; [done|by intros; apply wp_ret|].
  intros s o1 Hs Hf Hh1. unfold socket_valid. rewrite (proj2 (Z.leb_le 0 s) Hs). cbn [negb].
  on_last ok o2 Hh2. destruct ok; cbn [negb]; [|by apply wp_ret].
  apply wp_bind. eapply wp_free; [done|]. intros o3 Hh3. apply wp_ret.
  split; [done|]. split; [done|]. do 2 eexists. split; [done|]. split; [|exact Hh3]. done.
Qed.

Example pretty_sample :
  @dump_pretty test_float 2 0 (json_of [("id", JInt 1); ("rooms", JArr [JStr "a"])]) =
  Ret ("{" +:+ newline +:+ "  " +:+ String quote ("id" +:+ String quote (": 1," +:+ newline +:+
       "  " +:+ String quote ("rooms" +:+ String quote (": [" +:+ newline +:+ "    " +:+
       String quote ("a" +:+ String quote (newline +:+ "  ]" +:+ newline +:+ "}"))))))).
Proof. vm_compute. reflexivity. Qed.

(** ** What [main] sends *)

Section sending.
Context `{FloatText}.

(** The texts of the requests that lines become, and the sequence number after them. *)
Fixpoint requests_of (lines : list string) (seq : Z) : list string :=
  match lines with
  | [] => []
  | l :: ls =>
      match handle_line l seq with
      | (Ret (Send req), seq') =>
          match dump req with Ret t => t :: requests_of ls seq' | Throw _ => requests_of ls seq' end
      | (_, seq') => requests_of ls seq'
      end
  end.
Definition seq_after (lines : list string) (seq : Z) : Z :=
  foldl (λ q l, (handle_line l q).2) seq lines.

Lemma requests_of_app l1 l2 seq :
  requests_of (l1 ++ l2) seq = requests_of l1 seq ++ requests_of l2 (seq_after l1 seq).
Proof.
  revert seq. induction l1 as [|l l1 IH]; intros seq; [done|]. cbn [app requests_of].
  unfold seq_after. cbn [foldl]. fold (seq_after l1 (handle_line l seq).2).
  destruct (handle_line l seq) as [[[| | | |req]|e] q]; cbn [snd]; try apply IH.
  destruct (dump req); [|apply IH]. cbn [app]. by rewrite IH.
Qed.

Lemma seq_after_snoc ls l seq : seq_after (ls ++ [l]) seq = (handle_line l (seq_after ls seq)).2.
Proof. unfold seq_after. by rewrite foldl_app. Qed.

(** The bytes of the requests typed so far. *)
Definition typed_bytes (s : client) : list Z :=
  concat ((λ t, to_bytes (frame t)) <$> requests_of s.(cl_typed) 1).

(** What the socket has against what was typed: all of it between requests, all but
    the rest of the last one while it is being sent, a prefix after a failure. *)
Definition wire_ok (s : client) : Prop :=
  s.(cl_wire) `prefix_of` typed_bytes s ∧
  match s.(cl_main) with
  | MTop | MGetline | MPrint _ => s.(cl_wire) = typed_bytes s
  | MSend rest => s.(cl_wire) ++ rest = typed_bytes s
  | _ => True
  end.

Record main_ok (s : client) : Prop := {
  mo_seq : s.(cl_seq) = seq_after s.(cl_typed) 1;
  mo_wire : wire_ok s;
}.

(** Moving [main] without touching what was typed and sent. *)
Lemma main_ok_move s s' :
  main_ok s → s'.(cl_seq) = s.(cl_seq) → s'.(cl_typed) = s.(cl_typed) → s'.(cl_wire) = s.(cl_wire) →
  match s'.(cl_main) with
  | MTop | MGetline | MPrint _ => s.(cl_wire) = typed_bytes s
  | MSend rest => s.(cl_wire) ++ rest = typed_bytes s
  | _ => True
  end → main_ok s'.
Proof.
  intros [Hq [Hp Hw]] Hseq Htyped Hwire Hm. split; [congruence|].
  unfold wire_ok, typed_bytes in *. rewrite Hwire, Htyped. by split.
Qed.

Lemma on_line_ok line s : main_ok s → s.(cl_main) = MGetline → main_ok (on_line line s).
Proof.
  intros [Hq [_ Hw]] Hm. rewrite Hm in Hw. unfold on_line.
  destruct (handle_line line (cl_seq s)) as [o seq'] eqn:Hl.
  assert (seq' = seq_after (cl_typed s ++ [line]) 1) as Hseq.
  { rewrite seq_after_snoc, <-Hq. by rewrite Hl. }
  assert (requests_of (cl_typed s ++ [line]) 1 = requests_of (cl_typed s) 1 ++
    match o with
    | Ret (Send req) => match dump req with Ret t => [t] | Throw _ => [] end
    | _ => []
    end) as Hreq.
  { rewrite requests_of_app, <-Hq. cbn [requests_of]. rewrite Hl.
    destruct o as [[| | | |req]|e]; done. }
  assert (∀ p, (∀ rest, p ≠ MSend rest) →
    match o with Ret (Send req) => ∃ e, dump req = Throw e | _ => True end →
    main_ok (set_main p (mkClient s.(cl_running) seq' s.(cl_open) s.(cl_wire) s.(cl_screen) s.(cl_dec)
      s.(cl_main) s.(cl_reader) (s.(cl_typed) ++ [line]) s.(cl_received)))) as Hquiet.
  { intros p Hp Ho. split; [done|]. unfold wire_ok, typed_bytes. cbn. rewrite Hreq, fmap_app, concat_app.
    assert (concat ((λ t, to_bytes (frame t)) <$> match o with
      | Ret (Send req) => match dump req with Ret t => [t] | Throw _ => [] end | _ => [] end) = []) as ->.
    { destruct o as [[| | | |req]|e]; try done. by destruct Ho as [e ->]. }
    rewrite app_nil_r. unfold typed_bytes in Hw. rewrite <-Hw. split; [done|].
    destruct p as [| | |rest| | | | | | |]; try done. by destruct (Hp rest). }
  destruct o as [[| | | |req]|e]; try (by apply Hquiet).
  destruct (dump req) as [t|e] eqn:Hd; [|apply Hquiet; [done|by exists e]].
  split; [done|]. unfold wire_ok, typed_bytes. cbn. rewrite Hreq, fmap_app, concat_app. cbn.
  rewrite app_nil_r. unfold typed_bytes in Hw. rewrite <-Hw. split; [by apply prefix_app_r|done].
Qed.

Lemma client_step_main o s s' : main_ok s → client_step o s = Some s' → main_ok s'.
Proof.
  intros Hs. pose proof Hs as [Hq [Hp Hw]].
  destruct o as [|[line|]|n| |data]; cbn [client_step].
  - unfold main_step. destruct (cl_main s) as [| |[|l ls]|[|b rest]| | | | | | |e]; try done;
      try (intros [= <-]; apply (main_ok_move s); try done; cbn; by rewrite ?app_nil_r in Hw).
    + intros [= <-]. apply (main_ok_move s); try done. cbn. by destruct (cl_running s).
    + destruct (cl_reader s); [done..|]. intros [= <-]. by apply (main_ok_move s).
  - destruct (cl_main s) eqn:Hm; try done. intros [= <-]. by apply on_line_ok.
  - destruct (cl_main s) eqn:Hm; try done. intros [= <-]. by apply (main_ok_move s).
  - destruct (cl_main s) as [| | |[|b rest]| | | | | | |] eqn:Hm; try done; destruct n as [|n]; try done;
      intros [= <-]; [by apply (main_ok_move s)|].
    split; [done|]. unfold wire_ok, typed_bytes in *. cbn [cl_wire cl_main cl_typed].
    pose proof (take_drop (S n) (b :: rest)) as Htd. rewrite <-Hw. split; [apply prefix_app; exists (drop (S n) (b :: rest)); exact (eq_sym Htd)|].
    rewrite <-app_assoc. exact (f_equal (app (cl_wire s)) Htd).
  - unfold reader_step. destruct (cl_reader s) as [| | |[|l ls]| | |]; try done;
      intros [= <-]; by apply (main_ok_move s).
  - destruct (cl_reader s); try done. intros [= <-]. unfold on_recv.
    destruct data as [chunk|]; [|by apply (main_ok_move s)].
    destruct (feed (cl_dec s) chunk) as [o d]. by apply (main_ok_move s).
Qed.
End sending.

(** ** What the reader prints *)

Section reading.
Context `{FloatText}.

Definition reader_lines (s : client) : list string := snd <$> List.filter fst s.(cl_screen).

Lemma feed_all_snoc d cs c :
  feed_all d (cs ++ [c]) =
  match feed_all d cs with
  | (Ret fs, d') =>
      match feed d' c with
      | (Ret gs, d'') => (Ret (fs ++ gs), d'')
      | (Throw e, d'') => (Throw e, d'')
      end
  | (Throw e, d') => (Throw e, d')
  end.
Proof.
  revert d. induction cs as [|x cs IH]; intros d; cbn [app feed_all].
  - destruct (feed d c) as [[gs|e] d']; [|done]. by rewrite app_nil_r.
  - destruct (feed d x) as [[fs|e] d1]; [|done]. rewrite IH.
    destruct (feed_all d1 cs) as [[fs'|e] d2]; [|done].
    destruct (feed d2 c) as [[gs|e] d3]; [|done]. by rewrite app_assoc.
Qed.

(** The lines printed and those about to be are the texts of the frames received. *)
Definition reader_ok (s : client) : Prop :=
  let printed l := ∃ fs, feed_all decoder_init s.(cl_received) = (Ret fs, s.(cl_dec)) ∧
    reader_lines s ++ l = map frame_text fs in
  match s.(cl_reader) with
  | RTop | RCall | RBlocked => printed []
  | RPrint l => printed l
  | _ => True
  end.

Lemma reader_lines_out b l s : reader_lines (out b l s) = reader_lines s ++ (if b then [l] else []).
Proof.
  unfold reader_lines, out. cbn. rewrite List.filter_app, fmap_app. by destruct b.
Qed.

(** A step that leaves the reader and what it has received alone. *)
Lemma reader_ok_frame s s' :
  reader_ok s → s'.(cl_reader) = s.(cl_reader) → s'.(cl_received) = s.(cl_received) →
  s'.(cl_dec) = s.(cl_dec) → reader_lines s' = reader_lines s → reader_ok s'.
Proof. unfold reader_ok. by intros ? -> -> -> ->. Qed.

Lemma on_recv_ok data s : reader_ok s → s.(cl_reader) = RBlocked → reader_ok (on_recv data s).
Proof.
  unfold reader_ok at 1. intros Hs Hr. rewrite Hr in Hs. cbv zeta in Hs. destruct Hs as (fs & Hf & Hl).
  rewrite app_nil_r in Hl. unfold on_recv. destruct data as [chunk|]; [|done].
  destruct (feed (cl_dec s) chunk) as [[gs|e] d] eqn:Hc; [|done].
  exists (fs ++ gs). cbn. rewrite feed_all_snoc, Hf, Hc. split; [done|]. rewrite map_app.
  by f_equal.
Qed.

Lemma reader_step_ok s s' : reader_ok s → reader_step s = Some s' → reader_ok s'.
Proof.
  unfold reader_step. intros Hs. pose proof Hs as Hs'. unfold reader_ok in Hs'.
  destruct (cl_reader s) as [| | |[|l ls]|text| |] eqn:Hr; try done; intros [= <-]; try done.
  - destruct (cl_running s); [|done]. exact Hs'.
  - destruct (cl_open s); [|done]. exact Hs'.
  - destruct Hs' as (fs & Hf & Hl). exists fs. split; [exact Hf|]. cbn.
    rewrite <-Hl. change (l :: ls) with ([l] ++ ls). rewrite app_assoc. f_equal.
    exact (reader_lines_out true l s).
Qed.

Lemma client_step_reader o s s' : reader_ok s → client_step o s = Some s' → reader_ok s'.
Proof.
  intros Hs. assert (∀ p l, reader_ok (set_main p (out false l s))) as Hout.
  { intros p l. apply (reader_ok_frame s); try done.
    etransitivity; [exact (reader_lines_out false l s)|]. apply app_nil_r. }
  destruct o as [|[line|]|n| |data]; cbn [client_step].
  - unfold main_step. destruct (cl_main s) as [| |[|l ls]|[|b rest]| | | | | | |e]; try done;
      try (intros [= <-]; first [by apply (reader_ok_frame s)|exact (Hout _ _)]).
    destruct (cl_reader s) eqn:Hr; try done. intros [= <-]. by apply (reader_ok_frame s).
  - destruct (cl_main s); try done. intros [= <-]. unfold on_line.
    destruct (handle_line line (cl_seq s)) as [[[| | | |req]|e] q]; try by apply (reader_ok_frame s).
    destruct (dump req); by apply (reader_ok_frame s).
  - destruct (cl_main s); try done. intros [= <-]. by apply (reader_ok_frame s).
  - destruct (cl_main s) as [| | |[|b rest]| | | | | | |]; try done; destruct n as [|n]; try done;
      intros [= <-]; by apply (reader_ok_frame s).
  - by apply reader_step_ok.
  - destruct (cl_reader s) eqn:Hr; try done. intros [= <-]. by apply on_recv_ok.
Qed.

(** ** Leaving *)

(** Once [main] is past its loop [g_running] is false, and once it joins the socket
    is closed. *)
Definition leaving_ok (s : client) : Prop :=
  match s.(cl_main) with
  | MClose => s.(cl_running) = false
  | MJoin | MExit => s.(cl_running) = false ∧ s.(cl_open) = false
  | _ => True
  end.

Lemma client_step_leaving o s s' : leaving_ok s → client_step o s = Some s' → leaving_ok s'.
Proof.
  unfold leaving_ok. intros Hs. destruct o as [|[line|]|n| |data]; cbn [client_step].
  - unfold main_step. destruct (cl_main s) as [| |[|l ls]|[|b rest]| | | | | | |e]; try done;
      try (by intros [= <-]).
    + intros [= <-]. cbn. by destruct (cl_running s).
    + destruct (cl_reader s); try done. by intros [= <-].
  - destruct (cl_main s); try done. intros [= <-]. unfold on_line.
    destruct (handle_line line (cl_seq s)) as [[[| | | |req]|e] q]; try done. by destruct (dump req).
  - destruct (cl_main s); try done. by intros [= <-].
  - destruct (cl_main s) as [| | |[|b rest]| | | | | | |]; try done; destruct n as [|n]; try done;
      by intros [= <-].
  - unfold reader_step. destruct (cl_reader s) as [| | |[|l ls]|text| |]; try done; intros [= <-]; try done.
    cbn. by destruct (cl_main s); try destruct Hs.
  - destruct (cl_reader s); try done. intros [= <-]. unfold on_recv. destruct data; [|done].
    by destruct (feed _ _).
Qed.

Lemma client_reach_ok host port s :
  client_reach host port s → main_ok s ∧ reader_ok s ∧ leaving_ok s.
Proof.
  induction 1 as [|s o s' Hr (H1 & H2 & H3) Hs].
  - split_and!; [by split|by exists []|done].
  - split_and!; [by eapply client_step_main|by eapply client_step_reader|by eapply client_step_leaving].
Qed.

(** Steps in a row. *)
Fixpoint client_run (ops : list client_op) (s : client) : option client :=
  match ops with
  | [] => Some s
  | o :: ops => match client_step o s with Some s' => client_run ops s' | None => None end
  end.

(** The reader ends by itself once [g_running] is false and it is not in [recv]. *)
Lemma reader_ends s :
  s.(cl_main) = MJoin → s.(cl_running) = false → s.(cl_open) = false → s.(cl_reader) ≠ RBlocked →
  ∃ k s', client_run (replicate k ClReader ++ [ClMain]) s = Some s' ∧ s'.(cl_main) = MExit.
Proof.
  assert (∀ s, cl_main s = MJoin → cl_reader s = RDone →
    ∃ k s', client_run (replicate k ClReader ++ [ClMain]) s = Some s' ∧ cl_main s' = MExit) as Hdone.
  { intros x Hm Hr. exists 0%nat, (set_main MExit x). cbn. unfold main_step. by rewrite Hm, Hr. }
  assert (∀ s s', reader_step s = Some s' → (∃ k s2, client_run (replicate k ClReader ++ [ClMain]) s' = Some s2 ∧
    cl_main s2 = MExit) → ∃ k s2, client_run (replicate k ClReader ++ [ClMain]) s = Some s2 ∧
    cl_main s2 = MExit) as Hstep.
  { intros x x' Hx (k & s2 & Hk & Hs2). exists (S k), s2. split; [|done]. cbn [replicate app client_run client_step].
    by rewrite Hx. }
  assert (∀ s, cl_main s = MJoin → cl_running s = false → cl_reader s = RTop →
    ∃ k s', client_run (replicate k ClReader ++ [ClMain]) s = Some s' ∧ cl_main s' = MExit) as Htop.
  { intros x Hm Hf Hr. eapply Hstep; [unfold reader_step; by rewrite Hr, Hf|]. by apply Hdone. }
  intros Hm Hf Ho Hnb. destruct (cl_reader s) as [| | |l|text| |] eqn:Hr; [..|by apply Hdone].
  - by apply Htop.
  - eapply Hstep; [unfold reader_step; by rewrite Hr, Ho|].
    eapply Hstep; [reflexivity|]. eapply Hstep; [reflexivity|]. by apply Hdone.
  - done.
  - clear Hnb. revert s Hm Hf Ho Hr. induction l as [|x l IH]; intros s Hm Hf Ho Hr.
    + eapply Hstep; [unfold reader_step; by rewrite Hr|]. by apply Htop.
    + eapply Hstep; [unfold reader_step; by rewrite Hr|]. by apply IH.
  - eapply Hstep; [unfold reader_step; by rewrite Hr|]. eapply Hstep; [reflexivity|]. by apply Hdone.
  - eapply Hstep; [unfold reader_step; by rewrite Hr|]. by apply Hdone.
Qed.
End reading.

(** ** Properties *)

(** C21: what the client exchanges with the server.  The bytes it has sent are the
    frames of the requests of the lines typed, in order and each whole, up to the part
    of the last one not accepted yet or lost to an error; and whenever its reader waits
    for the server, it has printed exactly one line for each complete frame
    received, in order, however the transport cut the stream. *)
Theorem client_exchange `{FloatText} host port s :
  client_reach host port s →
  s.(cl_wire) `prefix_of` concat ((λ t, to_bytes (frame t)) <$> requests_of s.(cl_typed) 1) ∧
  (s.(cl_main) = MGetline →
     s.(cl_wire) = concat ((λ t, to_bytes (frame t)) <$> requests_of s.(cl_typed) 1)) ∧
  (s.(cl_reader) = RBlocked → ∃ fs,
     feed_all decoder_init s.(cl_received) = (Ret fs, s.(cl_dec)) ∧
     reader_lines s = map frame_text fs).
Proof.
  intros Hr. destruct (client_reach_ok _ _ _ Hr) as ([_ [Hp Hw]] & Hrd & _).
  split; [exact Hp|]. split; [intros Hm; by rewrite Hm in Hw|]. intros Hb. unfold reader_ok in Hrd.
  rewrite Hb in Hrd. destruct Hrd as (fs & Hf & Hl). exists fs. split; [done|].
  by rewrite app_nil_r in Hl.
Qed.

(** C22: leaving the client.  When [main] has closed the socket and joins the
    reader, a reader that is not inside [recv] ends by itself and the client exits;
    one that is inside [recv] waits for the server: nothing but the return of
    [recv] can happen, and when it returns, with data or without, the client exits. *)
Theorem client_quit_waits `{FloatText} host port s :
  client_reach host port s → s.(cl_main) = MJoin →
  (s.(cl_reader) ≠ RBlocked →
     ∃ k s', client_run (replicate k ClReader ++ [ClMain]) s = Some s' ∧ s'.(cl_main) = MExit) ∧
  (s.(cl_reader) = RBlocked →
     (∀ o s', client_step o s = Some s' → ∃ data, o = ClRecv data) ∧
     ∀ data, ∃ k s', client_run (ClRecv data :: replicate k ClReader ++ [ClMain]) s = Some s' ∧
       s'.(cl_main) = MExit).
Proof.
  intros Hr Hm. destruct (client_reach_ok _ _ _ Hr) as (_ & _ & Hl). unfold leaving_ok in Hl.
  rewrite Hm in Hl. destruct Hl as [Hf Ho]. split; [by apply reader_ends|]. intros Hb. split.
  - intros [|[line|]|n| |data] s'; cbn [client_step]; unfold main_step, reader_step; rewrite ?Hm, ?Hb;
      try done. by exists data.
  - intros data. cbn [client_run client_step]. rewrite Hb. apply reader_ends; unfold on_recv;
      destruct data as [chunk|]; try done; by destruct (feed (cl_dec s) chunk) as [[|] ?].
Qed.

(** *** Example: the user quits while the server is silent *)

Definition quit_ops : list client_op :=
  [ClReader; ClReader; ClMain; ClLine (Some ":quit"); ClMain; ClMain; ClMain].
Definition test_client_run (ops : list client_op) : option client :=
  @client_run test_float ops (client_start "localhost" "9000").
Definition quitting : client := default (client_start "" "") (test_client_run quit_ops).

Lemma client_run_reach `{FloatText} host port ops s s' :
  client_reach host port s → client_run ops s = Some s' → client_reach host port s'.
Proof.
  revert s. induction ops as [|o ops IH]; intros s Hr; cbn [client_run]; [by intros [= <-]|].
  destruct (client_step o s) as [s1|] eqn:Hs; [|done]. apply IH. by eapply clreach_step.
Qed.

Lemma quitting_reach : @client_reach test_float "localhost" "9000" quitting.
Proof.
  apply (client_run_reach _ _ quit_ops (client_start "localhost" "9000")); [constructor|].
  vm_compute. reflexivity.
Qed.

(** [:quit] leaves the client hanging until the server sends something or closes. *)
Lemma client_quit_waits_witness :
  quitting.(cl_main) = MJoin ∧ quitting.(cl_reader) = RBlocked ∧
  ∀ o s', @client_step test_float o quitting = Some s' → ∃ data, o = ClRecv data.
Proof.
  split; [vm_compute; reflexivity|]. split; [vm_compute; reflexivity|].
  destruct (@client_quit_waits test_float "localhost" "9000" quitting quitting_reach) as [_ Hb];
    [vm_compute; reflexivity|]. apply Hb. vm_compute. reflexivity.
Defined.

(** A ping is typed and sent in two pieces; the answer comes back in two. *)
Definition pong_text : string := text_of [("id", JInt 1); ("t", JInt 5); ("type", JStr "pong")].
Definition pong_frame : string := frame pong_text.
Definition ping_client_ops : list client_op :=
  [ClReader; ClReader; ClMain; ClLine (Some ":ping"); ClSend 3; ClSend 100; ClMain; ClMain;
   ClRecv (Some (String.substring 0 6 pong_frame)); ClReader; ClReader; ClReader;
   ClRecv (Some (String.substring 6 100 pong_frame)); ClReader; ClReader; ClReader; ClReader].
Definition ping_client : client := default (client_start "" "") (test_client_run ping_client_ops).

Lemma client_exchange_witness :
  ping_client.(cl_wire) = to_bytes (frame (typed_text ":ping" 1)) ∧
  reader_lines ping_client = [@frame_text test_float pong_text].
Proof.
  assert (@client_reach test_float "localhost" "9000" ping_client) as Hr.
  { apply (client_run_reach _ _ ping_client_ops (client_start "localhost" "9000")); [constructor|].
    vm_compute. reflexivity. }
  destruct (@client_exchange test_float "localhost" "9000" ping_client Hr) as (_ & Hw & Hl).
  split.
  - etransitivity; [apply Hw|]; vm_compute; reflexivity.
  - destruct Hl as (fs & Hf & ->); [vm_compute; reflexivity|].
    assert (fs = [pong_text]) as ->; [|reflexivity].
    assert (fst (feed_all decoder_init (cl_received ping_client)) = Ret [pong_text]) as He
      by (vm_compute; reflexivity).
    rewrite Hf in He. by injection He.
Defined.
