(* ===== verification/Startup.v ===== *)
(** * Starting and stopping: [src/main.cpp], [ChatServer::init] and
      [ChatServer::stop] of [src/chat/chat_server.cpp], [Server::listen]

    The command line, the configuration it builds, and the initialisation of the
    server up to the state [Server] runs from, in the build with the in-memory store
    (whose [MysqlPool::init] always succeeds) and the epoll reactor.  The files the
    process can read, its environment, the number of processors, the clock and the
    results of system calls are arguments; log lines are left out. *)
From S2P Require Import Prelude Util Framing Repositories Session Presence RoomManager MysqlPool.
From S2P Require Import Messages Json JsonProofs Connection Config Logger World Router Handlers.
From S2P Require Import HandlerLogic HandlerSpecs Server ReactorLoops Socket.

(** ** The command line *)

(** [atoi]: [strtol], which saturates at 64 bits, converted to [int]. *)
Definition i32 (z : Z) : Z := (z + 2147483648) mod 4294967296 - 2147483648.
Definition atoi (s : string) : Z :=
  match scan_int s with
  | None => 0
  | Some (neg, m) =>
      i32 (if neg then Z.max (- m) (-9223372036854775808) else Z.min m 9223372036854775807)
  end.

Inductive options :=
| Usage
| Options (config_path override_host : string) (override_port : Z).

(** The loop over [argv[1..]]; an option that is last has no value and is ignored,
    as is everything unknown. *)
Fixpoint parse_args (args : list string) (config_path override_host : string) (override_port : Z)
    : options :=
  match args with
  | [] => Options config_path override_host override_port
  | a :: rest =>
      if String.eqb a "--help" || String.eqb a "-h" then Usage
      else
        match rest with
        | [] => Options config_path override_host override_port
        | v :: rest' =>
            if String.eqb a "--config" then parse_args rest' v override_host override_port
            else if String.eqb a "--listen" then parse_args rest' config_path v override_port
            else if String.eqb a "--port" then parse_args rest' config_path override_host (atoi v)
            else parse_args rest config_path override_host override_port
        end
  end.

(** The configuration [main] builds: the file, the environment, the options. *)
Definition main_config (read getenv : string → option string)
    (config_path override_host : string) (override_port : Z) : Config :=
  let cfg := if str_empty config_path then ∅ else snd (load_file (read config_path) ∅) in
  let cfg := overlay_env getenv cfg in
  let cfg := if str_empty override_host then cfg else config_set "listen_host" override_host cfg in
  if 0 <? override_port then config_set "listen_port" (to_string override_port) cfg else cfg.

(** ** The server object *)

Record ChatServer := mkChat {
  cs_cfg : Config;
  cs_max_frame : Z;
  cs_max_message : Z;
  cs_pbkdf2_iter : Z;
  cs_mysql : option MysqlConfig;        (** [db_pool_] *)
  cs_world : option World;              (** [repos_] to [router_] *)
  cs_reactor : option (Z * Z);          (** [reactor_]: [epfd_] and [wake_fd_] *)
  cs_workers : option Z;                (** [pool_] *)
  cs_server : option (Z * bool);        (** [server_]: the listener, and whether it is registered *)
}.

Definition chat_server (cfg : Config) : ChatServer :=
  mkChat cfg 65536 4096 120000 None None None None None.

(** The process: descriptors, and the logger with the calls it made. *)
Record Machine := mkMachine { mc_os : OS; mc_logger : Logger; mc_calls : list io_call }.

Definition u16 (z : Z) : Z := z mod 65536.

(** [epoll_ctl] with [EPOLL_CTL_MOD]: it cannot succeed for a descriptor that is
    not in the interest list. *)
Definition epoll_ctl_mod (epfd fd ev : Z) : M OS bool := λ o,
  match o.(fds) !! epfd ≫= λ st, st.(fd_watch) !! fd with
  | Some _ => epoll_ctl_add epfd fd ev o
  | None => let '(_, o) := sys_on epfd id o in (Ret false, o)
  end.

(** [EpollReactor::add]: [EPOLL_CTL_ADD], else [EPOLL_CTL_MOD]. *)
Definition EPOLLET : Z := 2147483648.
Definition epoll_add (epfd fd events : Z) : M OS bool :=
  let ev := Z.lor (to_epoll events) EPOLLET in
  ok ← epoll_ctl_add epfd fd ev;
  if ok : bool then mret true else epoll_ctl_mod epfd fd ev.

(** [Server::listen]: the result, [listener_], and whether the callback is in place. *)
Definition server_listen (epfd listener : Z) (host : string) (port : Z) : M OS (bool * (Z * bool)) :=
  s ← listen_tcp host port 1024;
  moved ← move_assign listener s;
  let listener : Z := moved.1 in
  if negb (socket_valid listener) then mret (false, (listener, false))
  else ok ← epoll_add epfd listener EvRead; mret (true, (listener, ok)).

(** The settings read before the store is opened. *)
Definition mysql_config (cfg : Config) : MysqlConfig :=
  mkMysqlConfig (get cfg "mysql_host" "127.0.0.1") (u16 (get_int cfg "mysql_port" 3306))
    (get cfg "mysql_user" "root") (get cfg "mysql_password" "") (get cfg "mysql_database" "chat_system")
    (get_u32 cfg "mysql_pool_size" 4).

(** The components over the store, [warm] included. *)
Definition open_world (cfg : Config) (now : Z) : World :=
  let '(_, (s, r)) := warm now (sessions_init (get_int cfg "session_ttl_seconds" 604800), repos_init) in
  mkWorld r s presence_init rooms_init ∅ reactor_init 0 0.

Definition worker_count (cfg : Config) (hw : Z) : Z :=
  let n := get_u32 cfg "worker_threads" 0 in if n =? 0 then Z.max 2 hw else n.

(** The level and the file of the log. *)
Definition init_logger (cfg : Config) (f : option Z) (mc : Machine) : Machine :=
  let g := set_level (parse_level (get cfg "log_level" "info")) mc.(mc_logger) in
  let lf := get cfg "log_file" "" in
  if str_empty lf then mkMachine mc.(mc_os) g mc.(mc_calls)
  else let '(cs, g) := set_file lf f g in mkMachine mc.(mc_os) g (mc.(mc_calls) ++ cs).

(** [ChatServer::init] after the settings: reactor, workers, listener. *)
Definition open_network (cfg : Config) (hw : Z) (cs : ChatServer) : M OS (bool * ChatServer) :=
  r ← epoll_init;
  let '(ok, members) := r in
  let with_net workers server :=
    mkChat cs.(cs_cfg) cs.(cs_max_frame) cs.(cs_max_message) cs.(cs_pbkdf2_iter) cs.(cs_mysql)
      cs.(cs_world) (Some members) workers server in
  if negb ok then mret (false, with_net None None)
  else
    let workers := Some (worker_count cfg hw) in
    l ← server_listen members.1 CHAT_SOCKET_INVALID (get cfg "listen_host" "0.0.0.0")
          (u16 (get_int cfg "listen_port" 9000));
    mret (l.1, with_net workers (Some l.2)).

(** [ChatServer::init]; [f] is what [fopen] of the log file returns. *)
Definition chat_init (hw now : Z) (f : option Z) (cs : ChatServer) (mc : Machine)
    : bool * (ChatServer * Machine) :=
  let cfg := cs.(cs_cfg) in
  let mc := init_logger cfg f mc in
  let cs := mkChat cfg (get_u32 cfg "max_frame_bytes" 65536) (get_u32 cfg "max_message_bytes" 4096)
              (get_u32 cfg "pbkdf2_iterations" 120000) (Some (mysql_config cfg))
              (Some (open_world cfg now)) None None None in
  match open_network cfg hw cs mc.(mc_os) with
  | (Ret (ok, cs), o) => (ok, (cs, mkMachine o mc.(mc_logger) mc.(mc_calls)))
  | (Throw _, o) => (false, (cs, mkMachine o mc.(mc_logger) mc.(mc_calls)))
  end.

(** [Server::stop], the listener's part: [EPOLL_CTL_DEL], which may fail, and
    [close]. *)
Definition epoll_remove (epfd fd : Z) : M OS bool :=
  sys_on epfd (λ st, mkFd st.(fd_flags) st.(fd_opts) st.(fd_addr) st.(fd_backlog) st.(fd_peer)
                       (delete fd st.(fd_watch))).
Definition stop_listener (epfd : Z) (l : Z * bool) : M OS (Z * bool) :=
  if socket_valid l.1 then _ ← epoll_remove epfd l.1; s ← Socket.close l.1; mret (s, false)
  else mret l.

(** [ChatServer::stop]: each part only when [init] got that far.  [reactor_->stop()]
    and [pool_->shutdown()] open and close no descriptor. *)
Definition chat_stop (cs : ChatServer) : M OS ChatServer :=
  match cs.(cs_server), cs.(cs_reactor) with
  | Some l, Some (epfd, _) =>
      l ← stop_listener epfd l;
      mret (mkChat cs.(cs_cfg) cs.(cs_max_frame) cs.(cs_max_message) cs.(cs_pbkdf2_iter) cs.(cs_mysql)
              cs.(cs_world) cs.(cs_reactor) cs.(cs_workers) (Some l))
  | _, _ => mret cs
  end.

(** How [main] goes on: usage, a failed [init] (after the destructors, with exit
    code 1), or the running server. *)
Inductive process :=
| ExitUsage
| ExitFailed (cs : ChatServer) (mc : Machine)
| Running (cs : ChatServer) (mc : Machine).

Definition main (args : list string) (read getenv : string → option string) (hw now : Z)
    (f : option Z) (mc : Machine) : process :=
  match parse_args args "" "" (-1) with
  | Usage => ExitUsage
  | Options config_path override_host override_port =>
      let cfg := main_config read getenv config_path override_host override_port in
      match chat_init hw now f (chat_server cfg) mc with
      | (true, (cs, mc)) => Running cs mc
      | (false, (cs, mc)) =>
          match chat_stop cs mc.(mc_os) with
          | (Ret cs, o) => ExitFailed cs (mkMachine o mc.(mc_logger) mc.(mc_calls))
          | (Throw _, o) => ExitFailed cs (mkMachine o mc.(mc_logger) mc.(mc_calls))
          end
      end
  end.

(** ** Command line and configuration *)









(** A port on the command line over a file and an environment that set others. *)
Definition sample_args : list string := ["--config"; "server.conf"; "--verbose"; "--port"; "9100"].
Definition sample_read (path : string) : option string :=
  if String.eqb path "server.conf" then Some ("listen_port = 9000" +:+ String "010" "log_level = warn") else None.
Definition sample_getenv (name : string) : option string :=
  if String.eqb name "LISTEN_PORT" then Some "9050" else if String.eqb name "LOG_LEVEL" then Some "debug" else None.


(** ** Opening the network *)

Definition set_watch (w : gmap Z Z) (st : fd_state) : fd_state :=
  mkFd st.(fd_flags) st.(fd_opts) st.(fd_addr) st.(fd_backlog) st.(fd_peer) w.

Definition listen_events : Z := Z.lor (to_epoll EvRead) EPOLLET.

Lemma set_watch_same st : set_watch st.(fd_watch) st = st.
Proof. by destruct st. Qed.

(** Registering: the interest is in the epoll instance when [add] reports success. *)
Lemma wp_epoll_add e fd se o m i b (Q : bool → OS → Prop) :
  os_has o m i b → m !! e = Some se →
  (∀ ok o', os_has o' (<[e := if ok : bool then set_watch (<[fd := listen_events]> se.(fd_watch)) se
                             else se]> m) i b → Q ok o') →
  wp (epoll_add e fd EvRead) o Q.
Proof.
  intros Hh He HQ. unfold epoll_add. apply wp_bind. eapply wp_on; [done|done|]. intros ok o1 Hh1.
  destruct ok; [by apply wp_ret, (HQ true)|]. rewrite insert_id in Hh1 by done.
  unfold epoll_ctl_mod, wp. destruct (fds o1 !! e ≫= _) as [k|].
  - eapply (wp_on e); [done|done|]. intros ok o2 Hh2. by apply HQ.
  - destruct (wp_on e id se o1 m i b (λ _ o2, os_has o2 m i b) Hh1 He) as (ok & o2 & -> & Hh2).
    { intros [] o2 Hh2; by rewrite insert_id in Hh2. }
    exists false, o2. split; [done|]. apply (HQ false). by rewrite insert_id.
Qed.

(** What [Server::listen] leaves of the table [m], with [se] the epoll instance. *)
Definition listen_result (host : string) (port e : Z) (se : fd_state) (m : gmap Z fd_state)
    (i : nat) (b : bool) (r : bool * (Z * bool)) (o' : OS) : Prop :=
  (r = (false, (-1, false)) ∧ os_has o' m i b) ∨
  (∃ l reg a ra nb, r = (true, (l, reg)) ∧ 0 <= l ∧ m !! l = None ∧ listen_addr host = Some a ∧
     os_has o' (<[e := if reg then set_watch (<[l := listen_events]> se.(fd_watch)) se else se]>
                 (<[l := listening_fd ra nb (a, port) 1024]> m)) i b).

Lemma wp_server_listen host port e se o m i b :
  os_has o m i b → m !! e = Some se →
  wp (server_listen e (-1) host port) o (listen_result host port e se m i b).
Proof.
  intros Hh He. unfold server_listen. apply wp_bind.
  destruct (wp_listen host port 1024 o m i b Hh) as (s & o1 & E & Hs). exists s, o1. split; [done|].
  apply wp_bind. exists (s, -1), o1. split; [done|]. cbn [fst].
  destruct Hs as [[-> Hh1]|(Hp & Hf & st & (a & ra & nb & Ha & ->) & Hh1)].
  - by apply wp_ret; left.
  - unfold socket_valid. rewrite (proj2 (Z.leb_le 0 s) Hp). cbn [negb].
    assert (s ≠ e) by (intros ->; by rewrite Hf in He).
    apply wp_bind. eapply wp_epoll_add; [done|by rewrite lookup_insert_ne|]. intros reg o2 Hh2.
    apply wp_ret. right. by exists s, reg, a, ra, nb.
Qed.

(** The network is open: three new descriptors, the epoll instance watching the
    eventfd and, when it could be registered, the listener. *)
Definition net_open (cfg : Config) (hw : Z) (m : gmap Z fd_state) (cs : ChatServer)
    (m' : gmap Z fd_state) : Prop :=
  cs.(cs_workers) = Some (worker_count cfg hw) ∧
  ∃ e w l reg, cs.(cs_reactor) = Some (e, w) ∧ cs.(cs_server) = Some (l, reg) ∧
    e ≠ w ∧ l ≠ e ∧ l ≠ w ∧ Forall (λ fd, 0 <= fd ∧ m !! fd = None) [e; w; l] ∧
    (∀ fd, fd ∉ [e; w; l] → m' !! fd = m !! fd) ∧ is_Some (m' !! w) ∧
    (∃ a ra nb, listen_addr (get cfg "listen_host" "0.0.0.0") = Some a ∧
       m' !! l = Some (listening_fd ra nb (a, u16 (get_int cfg "listen_port" 9000)) 1024)) ∧
    (∃ se, m' !! e = Some se ∧
       se.(fd_watch) = (if reg then <[l := listen_events]> {[w := EPOLLIN_bit]} else {[w := EPOLLIN_bit]})).

(** It is not: there is no listener, and only descriptors of the reactor are new. *)
Definition net_failed (m : gmap Z fd_state) (cs : ChatServer) (m' : gmap Z fd_state) : Prop :=
  (cs.(cs_server) = None ∨ cs.(cs_server) = Some (-1, false)) ∧
  ∃ e w, cs.(cs_reactor) = Some (e, w) ∧ ∀ fd, fd ≠ e → fd ≠ w → m' !! fd = m !! fd.

(** The parts of the object the network does not touch. *)
Definition same_settings (cs cs' : ChatServer) : Prop :=
  cs'.(cs_cfg) = cs.(cs_cfg) ∧ cs'.(cs_max_frame) = cs.(cs_max_frame) ∧
  cs'.(cs_max_message) = cs.(cs_max_message) ∧ cs'.(cs_pbkdf2_iter) = cs.(cs_pbkdf2_iter) ∧
  cs'.(cs_mysql) = cs.(cs_mysql) ∧ cs'.(cs_world) = cs.(cs_world).

Lemma wp_open_network cfg hw cs0 o m i b :
  os_has o m i b →
  wp (open_network cfg hw cs0) o (λ r o', same_settings cs0 r.2 ∧ o'.(infos) = i ∧ o'.(bad) = b ∧
    (if r.1 : bool then net_open cfg hw m r.2 o'.(fds) else net_failed m r.2 o'.(fds))).
Proof.
  intros Hh. unfold open_network. apply wp_bind.
  destruct (wp_epoll_init o m i b Hh) as ([ok [e w]] & o1 & E & Hr). exists (ok, (e, w)), o1.
  split; [done|]. clear E.
  destruct Hr as [(-> & -> & -> & Hm & ? & ?)|(He & Hfe & [(-> & -> & se & Hm & ? & ?)|Hr])].
  - apply wp_ret. split_and!; [done|done|done|]. split; [by left|]. exists (-1), (-1). by rewrite Hm.
  - apply wp_ret. split_and!; [done|done|done|]. split; [by left|]. exists e, (-1).
    split; [done|]. intros fd Hne _. by rewrite Hm, lookup_insert_ne.
  - destruct Hr as (Hw & Hne & Hfw & se & sw & Hse & Hh1). destruct ok; cbn [negb fst].
    2:{ apply wp_ret. destruct Hh1 as (Hm & ? & ?). split_and!; [done|done|done|]. split; [by left|].
        exists e, w. split; [done|]. intros fd ??. by rewrite Hm, !lookup_insert_ne by done. }
    apply wp_bind. edestruct (wp_server_listen (get cfg "listen_host" "0.0.0.0")
      (u16 (get_int cfg "listen_port" 9000)) e se) as (r & o2 & E & Hr); [exact Hh1|apply lookup_insert_eq|].
    exists r, o2. split; [done|]. apply wp_ret. cbn [fst snd].
    destruct Hr as [[-> (Hm & ? & ?)]|(l & reg & a & ra & nb & -> & Hl & Hfl & Ha & (Hm & ? & ?))];
      (split_and!; [done|done|done|]); cbn [fst snd].
    + split; [by right|]. exists e, w. split; [done|]. intros fd ??. by rewrite Hm, !lookup_insert_ne by done.
    + apply lookup_insert_None in Hfl as [[Hfl Hwl]%lookup_insert_None Hel].
      split; [done|]. exists e, w, l, reg. rewrite Hm. split_and!; try done.
      * by rewrite !Forall_cons.
      * intros fd Hfd. by rewrite !lookup_insert_ne by set_solver.
      * rewrite !lookup_insert_ne, lookup_insert_eq by done. by eexists.
      * exists a, ra, nb. by rewrite lookup_insert_ne, lookup_insert_eq by done.
      * eexists. rewrite lookup_insert_eq. split; [done|]. destruct reg; cbn; by rewrite Hse.
Qed.

(** The destructors of a server whose [init] failed change no descriptor. *)
Lemma failed_stop m cs m' o : net_failed m cs m' → chat_stop cs o = (Ret cs, o).
Proof.
  intros [Hs (e & w & Hr & _)]. unfold chat_stop. destruct cs. cbn in *. subst.
  by destruct Hs as [->| ->].
Qed.

Lemma open_world_fresh cfg now :
  open_world cfg now = fresh_world (get_int cfg "session_ttl_seconds" 604800).
Proof. reflexivity. Qed.

(** When every call succeeds and the address is good, the listener is registered. *)
Lemma open_network_ok cfg hw cs0 a m i sc b :
  listen_addr (get cfg "listen_host" "0.0.0.0") = Some a →
  ∃ cs o' l, open_network cfg hw cs0 (mkOS m i (repeat true 10 ++ sc) b) = (Ret (true, cs), o') ∧
    cs.(cs_server) = Some (l, true).
Proof.
  intros Ha. unfold open_network, epoll_init.
  destruct (lowest_free_spec m) as [He _].
  set (e := lowest_free m) in *. set (m1 := <[e := new_fd]> m).
  destruct (lowest_free_spec m1) as [Hw Hfw]. set (w := lowest_free m1) in *.
  assert (w ≠ e) as Hne by (intros Hw'; unfold m1 in Hfw; by rewrite Hw', lookup_insert_eq in Hfw).
  set (m2 := <[w := mkFd O_NONBLOCK ∅ None None None ∅]> m1).
  set (m3 := <[e := mkFd 0 ∅ None None None (<[w := EPOLLIN_bit]> ∅)]> m2).
  erewrite M_bind_ret with (a := (true, (e, w))) (s' := mkOS m3 i (repeat true 7 ++ sc) b).
  2:{ erewrite M_bind_ret; [|apply open_fd_ok]. fold e m1. rewrite (proj2 (Z.ltb_ge e 0)) by lia.
      erewrite M_bind_ret; [|apply open_fd_ok]. fold w m2. rewrite (proj2 (Z.ltb_ge w 0)) by lia.
      erewrite M_bind_ret.
      2:{ apply (sys_on_true e _ new_fd). unfold m2, m1. by rewrite lookup_insert_ne, lookup_insert_eq by done. }
      done. }
  cbn [negb fst]. unfold server_listen. set (l := lowest_free m3).
  destruct (lowest_free_spec m3) as [Hl Hfl]. fold l in Hl, Hfl.
  set (m4 := <[l := listening_fd true true (a, u16 (get_int cfg "listen_port" 9000)) 1024]> m3).
  erewrite M_bind_ret with (a := (true, (l, true)))
    (s' := mkOS (<[e := mkFd 0 ∅ None None None (<[l := listen_events]> (<[w := EPOLLIN_bit]> ∅))]> m4) i sc b);
    [by do 3 eexists|].
  erewrite M_bind_ret; [|by apply (listen_tcp_ok _ _ _ a m3 i (true :: sc))]. fold l m4.
  erewrite M_bind_ret; [|done]. cbn [fst]. unfold socket_valid.
  rewrite (proj2 (Z.leb_le 0 l) Hl). cbn [negb].
  assert (l ≠ e) by (intros Hle; unfold m3 in Hfl; by rewrite Hle, lookup_insert_eq in Hfl).
  erewrite (M_bind_ret (epoll_add e l EvRead)); [done|]. unfold epoll_add.
  erewrite M_bind_ret; [|apply (sys_on_true e _ (mkFd 0 ∅ None None None (<[w := EPOLLIN_bit]> ∅)))]; [done|].
  unfold m4, m3. by rewrite lookup_insert_ne, lookup_insert_eq by done.
Qed.

Lemma worker_count_pos cfg hw : 1 <= worker_count cfg hw.
Proof.
  unfold worker_count. destruct (Z.eqb_spec (get_u32 cfg "worker_threads" 0) 0) as [|Hne]; [lia|].
  assert (0 <= get_u32 cfg "worker_threads" 0); [|lia]. unfold get_u32.
  case_match; [lia|]. case_match; [|lia]. unfold u32. pose proof (Z.mod_pos_bound a 4294967296). lia.
Qed.

(** C13: what [main] comes to.  With options that are not a request for help it
    either runs the server or fails.  Running: the epoll instance, the eventfd and
    the listener are new, open and distinct, the listener is bound to the configured
    address and port (modulo 65536) and watched when it could be registered, every
    other descriptor is as before, there is at least one worker, and every state
    the server reaches from there, with the limits of the configuration, satisfies
    its invariant.  Failing: there is no listener and only descriptors of the
    reactor are left.  With a valid address and no failing call it runs and the
    listener is watched. *)
Theorem startup_serves args read getenv hw now f mc cp oh op :
  parse_args args "" "" (-1) = Options cp oh op →
  let cfg := main_config read getenv cp oh op in
  match main args read getenv hw now f mc with
  | ExitUsage => False
  | ExitFailed cs mc' =>
      mc'.(mc_os).(bad) = mc.(mc_os).(bad) ∧ net_failed mc.(mc_os).(fds) cs mc'.(mc_os).(fds)
  | Running cs mc' =>
      mc'.(mc_os).(bad) = mc.(mc_os).(bad) ∧ net_open cfg hw mc.(mc_os).(fds) cs mc'.(mc_os).(fds) ∧
      1 <= worker_count cfg hw ∧
      ∃ w, cs.(cs_world) = Some w ∧
        ∀ (E : Env) (F : FloatText) (C : FloatCast) n y,
          @server_reach E F C {| max_message := cs.(cs_max_message); pbkdf2_iter := cs.(cs_pbkdf2_iter) |}
            cs.(cs_max_frame) w n y → n <= u64_max - 1 → server_ok n y
  end ∧
  (∀ a, listen_addr (get cfg "listen_host" "0.0.0.0") = Some a →
     take 10 mc.(mc_os).(script) = repeat true 10 →
     ∃ cs mc' l, main args read getenv hw now f mc = Running cs mc' ∧ cs.(cs_server) = Some (l, true)).
Proof.
  intros Hp cfg. unfold main. rewrite Hp. fold cfg. unfold chat_init. cbn [chat_server cs_cfg].
  set (mc1 := init_logger cfg f mc).
  assert (mc1.(mc_os) = mc.(mc_os)) as Hos.
  { unfold mc1, init_logger. case_match; [done|]. by destruct (set_file _ _ _). }
  rewrite Hos. set (cs0 := mkChat cfg _ _ _ _ _ _ _ _).
  destruct (wp_open_network cfg hw cs0 mc.(mc_os) mc.(mc_os).(fds) mc.(mc_os).(infos) mc.(mc_os).(bad))
    as ([ok cs] & o' & E & Hset & Hi & Hb & Hnet); [done|]. cbn [fst snd] in *. split.
  - rewrite E. destruct ok.
    + split; [done|]. split; [done|]. split; [apply worker_count_pos|].
      destruct Hset as (_ & Hf & Hm & Hk & _ & ->). exists (open_world cfg now). split; [done|].
      intros EE FF CC n y Hr Hn. rewrite open_world_fresh in Hr.
      unshelve eapply (server_reach_ok _ _ 0 n y _ _ _ Hr); [apply fresh_world_ok|done|done|lia].
    + cbn [mc_os]. by rewrite (failed_stop _ _ _ _ Hnet).
  - intros a Ha Hs. destruct (mc_os mc) as [m i sc b]. cbn [script] in Hs.
    destruct (open_network_ok cfg hw cs0 a m i (drop 10 sc) b Ha) as (cs' & o2 & l & E' & Hl).
    rewrite <-Hs, take_drop in E'. rewrite E'. by do 3 eexists.
Qed.

Definition sample_machine : Machine :=
  mkMachine (mkOS {[0 := new_fd; 1 := new_fd; 2 := new_fd]} 0 (repeat true 10) false) logger_init [].

Lemma startup_serves_witness :
  ∃ cs mc l, main sample_args sample_read sample_getenv 8 0 None sample_machine = Running cs mc ∧
    cs.(cs_server) = Some (l, true).
Proof.
  destruct (startup_serves sample_args sample_read sample_getenv 8 0 None sample_machine "server.conf" "" 9100)
    as [_ H]; [reflexivity|].
  apply (H [0; 0; 0; 0]); vm_compute; reflexivity.
Defined.

(** The port is cut to 16 bits: a [--port] above 65535 listens elsewhere. *)
Lemma port_wraps :
  parse_args ["--port"; "70000"] "" "" (-1) = Options "" "" 70000 ∧
  u16 (get_int (main_config (λ _, None) (λ _, None) "" "" 70000) "listen_port" 9000) = 4464.
Proof. split; vm_compute; reflexivity. Qed.
