(* ===== verification/HandlerProps.v ===== *)
(** * What the requests mean

    End-to-end properties of [dispatch], from the payload to the store and the
    connections: who is let in, what a login gives, where a message goes. *)
From S2P Require Import Prelude Util Crypto Framing Repositories Session Presence RoomManager.
From S2P Require Import Messages Json JsonProofs Connection World Router Handlers HandlerLogic.
From S2P Require Import HandlerSpecs Server.

Section props.
Context `{Env, FloatText, FloatCast, Settings}.
Implicit Types (w : World) (req : json).

(** ** From the payload to the handler *)

Lemma dispatch_eq payload req h c w :
  parse payload = Some req → str_empty (get_str req "type") = false →
  find_handler (get_str req "type") handler_table = Some h →
  dispatch c payload w = try_handler h c req (request_id req) w.
Proof. intros Hp Ht Hf. unfold dispatch. by rewrite Hp, Ht, Hf. Qed.

(** A handler that returns is not caught. *)
Lemma try_handler_ret h c req id w a w' :
  h c req id w = (Ret a, w') → try_handler h c req id w = (Ret a, w').
Proof. intros Hh. unfold try_handler. by rewrite Hh. Qed.

(** The request [payload] of type [t] is handled by [h]. *)
Definition request (payload : string) (req : json) (t : string) : Prop :=
  parse payload = Some req ∧ get_str req "type" = t.

Lemma dispatch_request payload req t h c w a w' :
  request payload req t → str_empty t = false → find_handler t handler_table = Some h →
  h c req (request_id req) w = (Ret a, w') → dispatch c payload w = (Ret a, w').
Proof.
  intros [Hp <-] He Hf Hh. erewrite dispatch_eq by done. by apply try_handler_ret.
Qed.

(** ** Sending to one connection *)

(** The reactor after [send_frame]: a flush is posted when the frame is accepted. *)
Definition flush_posted (s : string) (c0 : Connection) (r : Reactor) : Reactor :=
  if accepts c0 s then reactor_post (PFlush c0.(conn_id)) r else r.

Lemma send_json_net c (c0 : Connection) j s w :
  w.(w_conns) !! c = Some c0 → dump j = Ret s →
  send c j w = (Ret tt, set_net (<[c := pushed s c0]> w.(w_conns)) (flush_posted s c0 w.(w_reactor)) w).
Proof.
  intros Hc Hj. unfold send.
  erewrite M_bind_ret by exact (f_equal (λ o, (o, w)) Hj). unfold on_conn. rewrite Hc.
  unfold send_frame, flush_posted, pushed, accepts. destruct (closing c0 || closed c0); [done|].
  cbn [negb andb]. by destruct (max_frame c0 <? _).
Qed.

Lemma send_json_eq c (c0 : Connection) j s w :
  w.(w_conns) !! c = Some c0 → dump j = Ret s →
  ∃ re, send c j w = (Ret tt, set_net (<[c := pushed s c0]> w.(w_conns)) re w).
Proof. intros Hc Hj. eexists. by apply send_json_net. Qed.

Lemma error_text id code message :
  utf8_valid code = true → utf8_valid message = true →
  ∃ s, dump (make_error id code message) = Ret s.
Proof.
  intros Hc Hm. apply dump_total, json_of_utf8.
  destruct id; cbn; unfold member_utf8; cbn; by rewrite Hc, Hm.
Qed.

Lemma conn_user_eq c (c0 : Connection) w :
  w.(w_conns) !! c = Some c0 → conn_user c w = (Ret c0.(user_id), w).
Proof. intros Hc. unfold conn_user. by rewrite Hc. Qed.

Lemma conn_token_eq c (c0 : Connection) w :
  w.(w_conns) !! c = Some c0 → conn_token c w = (Ret c0.(token), w).
Proof. intros Hc. unfold conn_token. by rewrite Hc. Qed.

(** ** Requests without a session *)

(** The types whose handlers start with [require_auth]. *)
Definition protected : list string :=
  [kSendDM; kSendRoom; kCreateRoom; kJoinRoom; kLeaveRoom; kListRooms; kHistoryDM; kHistoryRoom;
   kPresence].

(** The request carries no token, or one that does not validate now. *)
Definition no_session (req : json) (w : World) : Prop :=
  get_str req "token" = "" ∨
  fst (validate (get_str req "token") (env_clock w.(w_reads)) (w.(w_sessions), w.(w_repos))) = Ret None.

(** The session of this token is dropped if it is cached and has expired. *)
Definition forget_expired (tok : string) (now : Z) (s : SessionManager) : SessionManager :=
  match s.(session_cache) !! tok with
  | Some info => if info.(si_expires_at_ms) <=? now then set_cache (delete tok) s else s
  | None => s
  end.

(** The reply [s] to [c] is all that happens, except that a token is looked up at
    the next reading of the clock and forgotten if it has expired. *)
Definition only_reply (tok : string) (c : Z) (s : string) (c0 : Connection) (w : World) : World :=
  set_net (<[c := pushed s c0]> w.(w_conns)) (flush_posted s c0 w.(w_reactor))
    (if str_empty tok then w
     else set_sess (forget_expired tok (env_clock w.(w_reads)) w.(w_sessions))
            (set_env (S w.(w_reads)) w.(w_draws) w)).

Definition unauthorized_text (tok : string) : string :=
  if str_empty tok then "missing session token" else "invalid or expired token".

Lemma validate_rejects tok w :
  fst (validate tok (env_clock w.(w_reads)) (w.(w_sessions), w.(w_repos))) = Ret None →
  sessions_validate tok w =
    (Ret None, set_sess (forget_expired tok (env_clock w.(w_reads)) w.(w_sessions))
                 (set_env (S w.(w_reads)) w.(w_draws) w)).
Proof.
  intros Hno. unfold sessions_validate. erewrite M_bind_ret by reflexivity.
  unfold on_sessions, validate, forget_expired in *.
  change (w_sessions (set_env (S (w_reads w)) (w_draws w) w)) with (w_sessions w).
  destruct (session_cache (w_sessions w) !! tok) as [info|]; [|by destruct w].
  by destruct (si_expires_at_ms info <=? env_clock (w_reads w)).
Qed.

Lemma require_auth_rejects c c0 req id w :
  w.(w_conns) !! c = Some c0 → c0.(user_id) = 0 → no_session req w →
  let tok := get_str req "token" in
  ∃ s, dump (make_error id kUnauthorized (unauthorized_text tok)) = Ret s ∧
    require_auth c req id w = (Ret 0, only_reply tok c s c0 w).
Proof.
  intros Hc Hu Hno tok.
  destruct (error_text id kUnauthorized (unauthorized_text tok)) as [s Hs];
    [done|unfold unauthorized_text; by case_match|].
  exists s. split; [done|]. unfold require_auth.
  erewrite M_bind_ret by (by apply conn_user_eq). rewrite Hu. cbn [Z.eqb negb]. fold tok.
  unfold unauthorized_text, only_reply in *. destruct (str_empty tok) eqn:He.
  - by erewrite M_bind_ret by (by apply send_json_net).
  - destruct Hno as [Hno|Hno]; [by subst tok; rewrite Hno in He|].
    erewrite M_bind_ret by (by apply validate_rejects). cbv beta iota.
    by erewrite M_bind_ret by (by apply send_json_net).
Qed.

(** Every protected handler stops when [require_auth] returns 0. *)
Lemma protected_stops t h c req id w w' :
  t ∈ protected → find_handler t handler_table = Some h →
  require_auth c req id w = (Ret 0, w') → h c req id w = (Ret tt, w').
Proof.
  intros Ht Hf Hr. unfold protected in Ht.
  repeat (apply elem_of_cons in Ht as [->|Ht]; [injection Hf as <-|]); [..|by apply elem_of_nil in Ht].
  all: unfold handle_send_dm, handle_send_room, handle_create_room, handle_join_room,
    handle_leave_room, handle_list_rooms, handle_history_dm, handle_history_room, handle_presence;
    by erewrite M_bind_ret by exact Hr.
Qed.

Lemma protected_handler t :
  t ∈ protected → str_empty t = false ∧ ∃ h, find_handler t handler_table = Some h.
Proof.
  intros Ht. unfold protected in Ht.
  repeat (apply elem_of_cons in Ht as [->|Ht]; [split; [done|by eexists]|]). by apply elem_of_nil in Ht.
Qed.
End props.

(** C4: a request that needs authentication, on a connection that is not logged in
    and without a token that validates now, is answered with one unauthorized
    error carrying the request id, and that is all: the resulting state is the old
    one with that reply in the connection's buffer and its flush posted, and, when
    a token was given, a clock reading later and with that token's session, if it
    has expired, dropped from the cache.  The store, presence, rooms, every other
    session and every other connection are as before. *)
Theorem unauthenticated_requests_rejected `{Env, FloatText, FloatCast, Settings}
    c c0 payload req t w :
  request payload req t → t ∈ protected →
  w.(w_conns) !! c = Some c0 → c0.(user_id) = 0 → no_session req w →
  let tok := get_str req "token" in
  ∃ s, dump (make_error (request_id req) kUnauthorized (unauthorized_text tok)) = Ret s ∧
    dispatch c payload w = (Ret tt, only_reply tok c s c0 w).
Proof.
  intros Hreq Ht Hc Hu Hno tok.
  destruct (require_auth_rejects c c0 req (request_id req) w Hc Hu Hno) as (s & Hs & Hr).
  exists s. split; [done|]. destruct (protected_handler t Ht) as [He [h Hh]].
  eapply dispatch_request; [exact Hreq|exact He|exact Hh|]. by eapply protected_stops.
Qed.

(** Connection 2 of [two_users] is not logged in; the token is unknown. *)
Definition dm_text : string :=
  text_of [("type", JStr "send_dm"); ("token", JStr "nope"); ("receiver_id", JInt 2);
           ("content", JStr "hi"); ("id", JInt 3)].

Definition dm_req : json :=
  json_of [("type", JStr "send_dm"); ("token", JStr "nope"); ("receiver_id", JUint 2);
           ("content", JStr "hi"); ("id", JUint 3)].

Lemma dm_request : @request test_float dm_text dm_req kSendDM.
Proof. split; by vm_compute. Qed.

Lemma unauthenticated_requests_rejected_witness :
  ∃ s, @dispatch test_env test_float test_cast test_settings 2 dm_text two_users =
    (Ret tt, @only_reply test_env "nope" 2 s (conn_init 2 65536) two_users).
Proof.
  destruct (@unauthenticated_requests_rejected test_env test_float test_cast test_settings
    2 (conn_init 2 65536) dm_text dm_req kSendDM two_users dm_request) as (s & _ & Hd).
  - by left.
  - by vm_compute.
  - done.
  - right. by vm_compute.
  - exists s. exact Hd.
Defined.

(** ** Acks *)

(** [s] is the ack of request [id] with the fields [kvs]. *)
Definition is_ack `{FloatText} (id : option Z) (kvs : list (string * json)) (s : string) : Prop :=
  ∃ j, dump j = Ret s ∧ get_str j "type" = kAck ∧ json_find "id" j = JInt <$> id ∧
    ∀ k, k ≠ "type" → k ≠ "id" → json_find k j = last_value k kvs None.

Section acks.
Context `{Env, FloatText, FloatCast, Settings}.
Implicit Types (w : World) (req : json).

Lemma send_ack_obj c (c0 : Connection) id o kvs w :
  forallb member_utf8 o = true → (∀ k, obj_find k o = last_value k kvs None) →
  last_value "id" kvs None = None → w.(w_conns) !! c = Some c0 →
  ∃ s re, send_ack c id (JObj o) w = (Ret tt, set_net (<[c := pushed s c0]> w.(w_conns)) re w) ∧
    is_ack id kvs s.
Proof.
  intros Hu Hf Hid Hc.
  assert (forallb member_utf8 (obj_set "type" (JStr kAck) o) = true) as Ho' by by apply obj_set_utf8.
  set (o2 := match id with
    | Some i => obj_set "id" (JInt i) (obj_set "type" (JStr kAck) o)
    | None => obj_set "type" (JStr kAck) o end).
  assert (forallb member_utf8 o2 = true) as Ho2.
  { subst o2. destruct id; [|exact Ho']. by apply obj_set_utf8. }
  destruct (dump_total (JObj o2) Ho2) as [s Hs].
  assert (make_ack id (JObj o) = Ret (JObj o2)) as Hack by (subst o2; by destruct id).
  destruct (send_json_eq c c0 (JObj o2) s w Hc Hs) as [re Hsend].
  exists s, re. split.
  { unfold send_ack. erewrite M_bind_ret by exact (f_equal (λ o, (o, w)) Hack). exact Hsend. }
  exists (JObj o2). split; [exact Hs|]. unfold get_str. cbn [json_find]. subst o2. split_and!.
  - destruct id; [rewrite obj_find_set_ne by done|]; by rewrite obj_find_set_eq.
  - destruct id; [by rewrite obj_find_set_eq|]. by rewrite obj_find_set_ne, Hf.
  - intros k Ht Hi. rewrite <-Hf. destruct id; rewrite !obj_find_set_ne by congruence; done.
Qed.

Lemma send_ack_eq c (c0 : Connection) id kvs w :
  forallb member_utf8 kvs = true → last_value "id" kvs None = None → kvs ≠ [] →
  w.(w_conns) !! c = Some c0 →
  ∃ s re, send_ack c id (json_of kvs) w = (Ret tt, set_net (<[c := pushed s c0]> w.(w_conns)) re w) ∧
    is_ack id kvs s.
Proof.
  intros Hk Hid Hne Hc. pose proof (json_of_utf8 kvs Hk) as Hu.
  pose proof (λ k, json_find_of k kvs) as Hf. destruct (json_of_object kvs Hne) as [o Ho].
  rewrite Ho in *. by apply send_ack_obj.
Qed.

Lemma sent_one c (c0 : Connection) s (cs : gmap Z Connection) :
  cs !! c = Some c0 → sent [(c, s)] cs (<[c := pushed s c0]> cs).
Proof.
  intros Hc x. rewrite payloads_send. destruct (c =? x) eqn:E; to_prop.
  - subst. rewrite lookup_insert_eq, Hc. cbn. f_equal. symmetry. apply pushed_anon.
  - rewrite lookup_insert_ne by done. by destruct (cs !! x).
Qed.

(** ** Logging in *)

(** The state in which [authenticate] runs: the session is cached and stored. *)
Definition logged (uid : Z) (w : World) : World :=
  let tok := make_session_token (env_random w.(w_draws) 32) in
  let now := env_clock w.(w_reads) in
  set_repos (snd (insert_session tok uid now w.(w_repos)))
    (set_sess (set_cache (<[tok := mkSessionInfo uid (now + w.(w_sessions).(ttl_seconds) * 1000)]>)
                 w.(w_sessions))
       (set_env (S w.(w_reads)) (S w.(w_draws)) w)).

Lemma sessions_create_eq uid w :
  sessions_create uid w = (Ret (make_session_token (env_random w.(w_draws) 32)), logged uid w).
Proof. reflexivity. Qed.

Lemma logged_ok n uid w :
  world_ok n w → is_Some (w.(w_repos).(users) !! uid) → world_ok n (logged uid w).
Proof.
  intros Hw Hu. destruct (spec_sessions_create n uid w Hw Hu) as (a & w' & tr & He & Hw' & _).
  rewrite sessions_create_eq in He. by injection He as _ <-.
Qed.

Lemma payloads_one x c evs :
  payloads x ((λ ev, (c, ev)) <$> evs) = if c =? x then evs else [].
Proof.
  induction evs as [|ev evs IH]; [by destruct (c =? x)|].
  change ((λ ev, (c, ev)) <$> (ev :: evs)) with ([(c, ev)] ++ ((λ ev, (c, ev)) <$> evs)).
  rewrite payloads_app, payloads_send, IH. by destruct (c =? x).
Qed.

(** The replay that [authenticate] makes for a user who was offline: [c] gets the
    queue in order. *)
Lemma authenticate_spec n c (c0 : Connection) uid tok w :
  world_ok n w → is_Some (w.(w_repos).(users) !! uid) → w.(w_conns) !! c = Some c0 →
  let offline := bool_decide (connections_of w.(w_presence) uid = []) in
  ∃ ms evs c' cs re r,
    authenticate c uid tok w = (Ret tt, set_net cs re (set_repos r
      (set_presence (bind_locked uid c w.(w_presence)).1 w))) ∧
    m_id <$> ms = (if offline then queue_of w.(w_repos) uid else []) ∧
    Forall (λ m, m ∈ w.(w_repos).(messages)) ms ∧
    Forall2 (λ m ev, message_text m = Ret ev) ms evs ∧
    sent ((λ ev, (c, ev)) <$> evs) w.(w_conns) cs ∧
    cs !! c = Some c' ∧ c'.(user_id) = uid ∧ c'.(token) = tok ∧
    r = (if offline then set_undelivered (delete uid) w.(w_repos) else w.(w_repos)).
Proof.
  intros Hw Hu Hc offline. rewrite authenticate_eq.
  set (p := (bind_locked uid c w.(w_presence)).1).
  pose proof (world_ok_bound n c uid tok w Hw Hu) as Hw2. fold p in Hw2.
  set (w2 := set_presence p (set_owner c uid tok w)) in *.
  assert (w2.(w_conns) !! c = Some (set_auth uid tok c0)) as Hc2.
  { cbn. by rewrite lookup_alter_eq, Hc. }
  assert (offline = bool_decide (slot_of w.(w_presence) uid = ∅)) as Hoff.
  { subst offline. apply bool_decide_ext, connections_nil. }
  rewrite <-Hoff. clearbody offline. destruct offline.
  - symmetry in Hoff. apply bool_decide_eq_true in Hoff.
    assert (connections_of p uid = [c]) as Hconn.
    { subst p. unfold bind_locked, connections_of. cbn. rewrite lookup_insert_eq, Hoff.
      rewrite union_empty_r_L. apply elements_singleton. }
    destruct (replay_offline_spec uid w2) as (ms & evs & w' & cs & -> & Hids & Hall & Hf & Hd & Hq & re & ->).
    { by destruct Hw2 as [[] _ _ _ _]. } { by destruct Hw2 as [[] _ _ _ _]. }
    { change (w_presence w2) with p. by rewrite Hconn. }
    assert (cs !! c = Some (push_all evs (set_auth uid tok c0))) as Hcs.
    { rewrite Hd, Hc2. change (w_presence w2) with p. rewrite Hconn. unfold to_conns. by rewrite bool_decide_eq_true_2 by set_solver. }
    exists ms, evs, (push_all evs (set_auth uid tok c0)), cs, re, (set_undelivered (delete uid) w.(w_repos)).
    destruct (push_all_owner evs (set_auth uid tok c0)) as (Hu1 & Ht1 & _).
    assert (sent ((λ ev, (c, ev)) <$> evs) w.(w_conns) cs) as Hsent; [|by split_and!].
    eapply sent_after_silent; [apply (set_owner_sent c uid tok w)|].
    eapply delivered_sent; [exact Hd|]. intros x. change (w_presence w2) with p. rewrite Hconn.
    rewrite payloads_one. unfold to_conns.
    destruct (c =? x) eqn:E; to_prop; case_bool_decide; set_solver.
  - exists [], [], (set_auth uid tok c0), w2.(w_conns), w2.(w_reactor), w.(w_repos).
    pose proof (set_owner_sent c uid tok w) as Hsent.
    split_and!; [by destruct w|done|constructor|constructor|exact Hsent|exact Hc2|done|done|done].
Qed.
End acks.

(** What a successful login of user [u] on connection [c] does. *)
Definition logged_in `{Env, FloatText} (c : Z) (u : User) (id : option Z) (w w' : World) : Prop :=
  let uid := u.(u_id) in
  let tok := make_session_token (env_random w.(w_draws) 32) in
  let ttl := w.(w_sessions).(ttl_seconds) in
  let offline := bool_decide (connections_of w.(w_presence) uid = []) in
  ∃ ms evs reply c',
    m_id <$> ms = (if offline then queue_of w.(w_repos) uid else []) ∧
    Forall (λ m, m ∈ w.(w_repos).(messages)) ms ∧
    Forall2 (λ m ev, message_text m = Ret ev) ms evs ∧
    is_ack id [("user_id", JUint uid); ("username", JStr u.(u_username)); ("token", JStr tok);
               ("ttl_s", JInt ttl)] reply ∧
    sent (((λ ev, (c, ev)) <$> evs) ++ [(c, reply)]) w.(w_conns) w'.(w_conns) ∧
    w'.(w_conns) !! c = Some c' ∧ c'.(user_id) = uid ∧ c'.(token) = tok ∧
    (∀ x, slot_of w'.(w_presence) x =
       if x =? uid then {[c]} ∪ slot_of w.(w_presence) x else slot_of w.(w_presence) x) ∧
    w'.(w_sessions).(session_cache) !! tok =
      Some (mkSessionInfo uid (env_clock w.(w_reads) + ttl * 1000)) ∧
    queue_of w'.(w_repos) uid = (if offline then [] else queue_of w.(w_repos) uid) ∧
    w'.(w_repos).(messages) = w.(w_repos).(messages).

Section login.
Context `{Env, FloatText, FloatCast, Settings}.
Implicit Types (w : World) (req : json).

Lemma find_user_eq n name u w :
  world_ok n w → w.(w_repos).(username_idx) !! name = Some u.(u_id) →
  w.(w_repos).(users) !! u.(u_id) = Some u →
  on_repos (find_user_by_username name) w = (Ret (Some u), w).
Proof.
  intros Hw Hn Hu. unfold on_repos, find_user_by_username, map_at. rewrite Hn, Hu. by destruct w.
Qed.

Lemma queue_after_login uid r b :
  queue_of (if (b : bool) then set_undelivered (delete uid) r else r) uid
  = if b then [] else queue_of r uid.
Proof. destruct b; [|done]. unfold queue_of. cbn. by rewrite lookup_delete_eq. Qed.

Lemma handle_login_accepts n c (c0 : Connection) req id u w :
  world_ok n w → w.(w_conns) !! c = Some c0 →
  w.(w_repos).(username_idx) !! get_str req "username" = Some u.(u_id) →
  w.(w_repos).(users) !! u.(u_id) = Some u →
  verify_password_hash (get_str req "password") u.(u_password_hash) = true →
  ∃ w', handle_login c req id w = (Ret tt, w') ∧ logged_in c u id w w'.
Proof.
  intros Hw Hc Hn Hu Hv.
  assert (is_Some (users (w_repos w) !! u_id u)) as Hex by (rewrite Hu; by eexists).
  pose proof (logged_ok n (u_id u) w Hw Hex) as Hw1.
  destruct (authenticate_spec n c c0 (u_id u) (make_session_token (env_random (w_draws w) 32)) (logged (u_id u) w)
    Hw1 Hex Hc) as (ms & evs & c' & cs & re & r & Ha & Hids & Hall & Hf & Hs & Hc' & Hu' & Ht' & Hr).
  set (w3 := set_net cs re _) in Ha.
  assert (utf8_valid (u_username u) = true) as Hname
    by by eapply (proj1 (so_names _ _ (wk_store _ _ Hw))).
  assert (utf8_valid (make_session_token (env_random (w_draws w) 32)) = true) as Htok
    by apply hex_encode_utf8.
  destruct (send_ack_eq c c' id [("user_id", JUint (u_id u)); ("username", JStr (u_username u));
    ("token", JStr (make_session_token (env_random (w_draws w) 32)));
    ("ttl_s", JInt (ttl_seconds (w_sessions w3)))] w3) as (reply & re' & Hsend & Hack);
    [fields_utf8|done|done|exact Hc'|].
  exists (set_net (<[c := pushed reply c']> (w_conns w3)) re' w3). split.
  { unfold handle_login. erewrite M_bind_ret by by eapply find_user_eq. cbv beta iota. rewrite Hv.
    erewrite M_bind_ret by apply sessions_create_eq. erewrite M_bind_ret by exact Ha.
    erewrite M_bind_ret by reflexivity. exact Hsend. }
  exists ms, evs, reply, (pushed reply c').
  assert (sent [(c, reply)] cs (<[c := pushed reply c']> cs)) as Hs2 by by apply sent_one.
  pose proof (sent_trans _ _ _ _ _ Hs Hs2) as Hs3.
  destruct (push_all_owner [reply] c') as (Hu2 & Ht2 & _). cbn [push_all foldl] in Hu2, Ht2.
  split_and!; [exact Hids|exact Hall|exact Hf|exact Hack|exact Hs3|apply lookup_insert_eq|
    by rewrite <-Hu'|by rewrite <-Ht'|apply slot_of_bind|apply lookup_insert_eq| |].
  - change (queue_of r (u_id u) = if bool_decide (connections_of (w_presence w) (u_id u) = [])
      then [] else queue_of (w_repos (logged (u_id u) w)) (u_id u)).
    rewrite Hr. apply queue_after_login.
  - change (messages r = messages (w_repos (logged (u_id u) w))). rewrite Hr. by case_match.
Qed.

(** The two ways a login fails. *)
Lemma handle_login_rejects n c (c0 : Connection) req id w :
  world_ok n w → w.(w_conns) !! c = Some c0 →
  (∀ u, w.(w_repos).(username_idx) !! get_str req "username" = Some u.(u_id) →
        w.(w_repos).(users) !! u.(u_id) = Some u →
        verify_password_hash (get_str req "password") u.(u_password_hash) = false) →
  ∃ s re, dump (make_error id kUnauthorized "bad credentials") = Ret s ∧
    handle_login c req id w = (Ret tt, set_net (<[c := pushed s c0]> w.(w_conns)) re w).
Proof.
  intros Hw Hc Hno. destruct (error_text id kUnauthorized "bad credentials") as [s Hs]; [done..|].
  destruct (send_json_eq c c0 _ s w Hc Hs) as [re Hsend]. exists s, re. split; [done|].
  unfold handle_login. destruct (username_idx (w_repos w) !! get_str req "username") as [uid|] eqn:Hn.
  - pose proof (ok_users _ (so_repos _ _ (wk_store _ _ Hw))) as Ht.
    destruct (table_at _ _ _ _ _ _ _ Ht Hn) as (u & _ & Hu & _).
    destruct (tab_rows _ _ _ _ _ Ht _ _ Hu) as [Hid _]. rewrite <-Hid in Hn, Hu.
    erewrite M_bind_ret by by eapply find_user_eq. cbv beta iota. rewrite (Hno u (f_equal Some (eq_sym Hid)) Hu).
    exact Hsend.
  - rewrite (M_bind_ret _ _ _ None w); [exact Hsend|].
    unfold on_repos, find_user_by_username. rewrite Hn. by destruct w.
Qed.
End login.

(** ** Registering *)

Section register.
Context `{Env, FloatText, FloatCast, Settings}.
Implicit Types (w : World) (req : json).

(** The guard of [handle_register]. *)
Definition credentials_ok (req : json) : bool :=
  negb (str_empty (get_str req "username") || str_empty (get_str req "password")
        || (64 <? Z.of_nat (String.length (get_str req "username")))
        || (Z.of_nat (String.length (get_str req "password")) <? 4)).

(** The row a registration makes. *)
Definition new_user (req : json) (w : World) : User :=
  mkUser w.(w_repos).(next_user_id) (get_str req "username")
    (make_password_hash (get_str req "password") pbkdf2_iter (env_random w.(w_draws) 16))
    (env_clock w.(w_reads)) 0.

Lemma handle_register_accepts c (c0 : Connection) req id w :
  json_utf8 req = true → w.(w_conns) !! c = Some c0 → credentials_ok req = true →
  w.(w_repos).(username_idx) !! get_str req "username" = None →
  ∃ s re r, handle_register c req id w = (Ret tt,
      set_net (<[c := pushed s c0]> w.(w_conns)) re (set_repos r
        (set_env (S w.(w_reads)) (S w.(w_draws)) w))) ∧
    is_ack id [("user_id", JUint w.(w_repos).(next_user_id));
               ("username", JStr (get_str req "username"))] s ∧
    r.(users) = <[w.(w_repos).(next_user_id) := new_user req w]> w.(w_repos).(users) ∧
    r.(username_idx) = <[get_str req "username" := w.(w_repos).(next_user_id)]> w.(w_repos).(username_idx).
Proof.
  intros Hreq Hc Hok Hn. pose proof (get_str_utf8 req "username" Hreq) as Hu.
  unfold credentials_ok in Hok. apply negb_true_iff in Hok.
  set (now := env_clock (w_reads w)). set (hash := make_password_hash (get_str req "password") pbkdf2_iter
    (env_random (w_draws w) 16)).
  destruct (create_user (get_str req "username") hash now (w_repos w)) as [o r] eqn:Hcr.
  assert (o = Ret (Some (next_user_id (w_repos w))) ∧
    r.(users) = <[w.(w_repos).(next_user_id) := new_user req w]> w.(w_repos).(users) ∧
    r.(username_idx) = <[get_str req "username" := w.(w_repos).(next_user_id)]> w.(w_repos).(username_idx))
    as (-> & Hru & Hri).
  { unfold create_user in Hcr. rewrite Hn in Hcr. by injection Hcr as <- <-. }
  set (w1 := set_repos r (set_env (S (w_reads w)) (S (w_draws w)) w)).
  destruct (send_ack_eq c c0 id [("user_id", JUint (next_user_id (w_repos w)));
    ("username", JStr (get_str req "username"))] w1) as (s & re & Hsend & Hack);
    [fields_utf8|done|done|exact Hc|].
  exists s, re, r. split_and!; [|exact Hack|done|done]. unfold handle_register. rewrite Hok.
  erewrite M_bind_ret by reflexivity. erewrite M_bind_ret by reflexivity. fold now hash.
  rewrite (M_bind_ret _ _ _ (Some (next_user_id (w_repos w))) w1); [exact Hsend|].
  unfold on_repos. change (create_user _ _ _ _) with
    (create_user (get_str req "username") hash now (w_repos w)). by rewrite Hcr.
Qed.
End register.

(** ** Properties *)

(** C5: a login with the name and password of a registered user succeeds: the
    connection belongs to the user, is added to its connections and to no one
    else's, and a fresh session of the configured lifetime is stored; if the user
    was offline, the connection first gets every queued message in order and the
    queue is emptied; last comes the ack with the token.  A login with an unknown
    name or a wrong password is answered with an error and changes nothing. *)
Theorem login_correct `{Env, FloatText, FloatCast, Settings} n c (c0 : Connection) payload req w :
  world_ok n w → request payload req kLogin → w.(w_conns) !! c = Some c0 →
  let known u := w.(w_repos).(username_idx) !! get_str req "username" = Some u.(u_id) ∧
                 w.(w_repos).(users) !! u.(u_id) = Some u in
  let good u := verify_password_hash (get_str req "password") u.(u_password_hash) in
  (∀ u, known u → good u = true →
     ∃ w', dispatch c payload w = (Ret tt, w') ∧ logged_in c u (request_id req) w w') ∧
  ((∀ u, known u → good u = false) →
     ∃ s re, dump (make_error (request_id req) kUnauthorized "bad credentials") = Ret s ∧
       dispatch c payload w = (Ret tt, set_net (<[c := pushed s c0]> w.(w_conns)) re w)).
Proof.
  intros Hw Hreq Hc known good. split.
  - intros u [Hn Hu] Hv.
    destruct (handle_login_accepts n c c0 req (request_id req) u w Hw Hc Hn Hu Hv) as (w' & He & Hl).
    exists w'. split; [|done]. by eapply dispatch_request.
  - intros Hno. destruct (handle_login_rejects n c c0 req (request_id req) w Hw Hc) as (s & re & Hs & He).
    { intros u Hn Hu. by apply Hno. }
    exists s, re. split; [done|]. by eapply dispatch_request.
Qed.

(** C6: after a registration with a valid, unused name is acknowledged, a login on
    any connection under that name succeeds, as the new user, exactly when its
    password has the same derived key as the registered one. *)
Theorem register_then_login `{Env, FloatText, FloatCast, Settings}
    n c1 c2 (k1 k2 : Connection) payload1 payload2 req1 req2 w :
  world_ok n w → n <= u64_max - 2 → w.(w_conns) !! c1 = Some k1 → w.(w_conns) !! c2 = Some k2 →
  request payload1 req1 kRegister → request payload2 req2 kLogin →
  get_str req2 "username" = get_str req1 "username" → credentials_ok req1 = true →
  w.(w_repos).(username_idx) !! get_str req1 "username" = None →
  let salt := env_random w.(w_draws) 16 in
  is_u32 pbkdf2_iter → bytes_ok salt → salt ≠ [] →
  let key pw := pbkdf2_hmac_sha256 pw salt pbkdf2_iter 32 in
  ∃ s1 w1 w2,
    dispatch c1 payload1 w = (Ret tt, w1) ∧
    is_ack (request_id req1) [("user_id", JUint w.(w_repos).(next_user_id));
                              ("username", JStr (get_str req1 "username"))] s1 ∧
    w1.(w_conns) = <[c1 := pushed s1 k1]> w.(w_conns) ∧
    dispatch c2 payload2 w1 = (Ret tt, w2) ∧
    if bool_decide (key (get_str req2 "password") = key (get_str req1 "password"))
    then logged_in c2 (new_user req1 w) (request_id req2) w1 w2
    else w2.(w_repos) = w1.(w_repos) ∧ w2.(w_presence) = w1.(w_presence) ∧
         w2.(w_sessions) = w1.(w_sessions) ∧
         ∀ cid, user_id <$> w2.(w_conns) !! cid = user_id <$> w1.(w_conns) !! cid.
Proof.
  intros Hw Hn Hc1 Hc2 Hr1 Hr2 Hname Hok Hfree salt Hit Hsb Hsn key.
  destruct (handle_register_accepts c1 k1 req1 (request_id req1) w) as (s1 & re & r & He1 & Hack & Hu & Hi);
    [by eapply parse_utf8, Hr1|done..|].
  set (w1 := set_net _ _ _) in He1.
  assert (dispatch c1 payload1 w = (Ret tt, w1)) as Hd1 by by eapply dispatch_request.
  assert (world_ok (n + 1) w1) as Hw1.
  { destruct (dispatch_handles n c1 payload1 Hn w Hw I) as (a & w' & tr & He & Hw' & _).
    rewrite Hd1 in He. by injection He as _ <-. }
  assert (∃ k, w1.(w_conns) !! c2 = Some k) as [k Hk].
  { cbn. destruct (decide (c2 = c1)) as [->|]; [by rewrite lookup_insert_eq; eexists|].
    rewrite lookup_insert_ne by done. by eexists. }
  assert (w1.(w_repos).(username_idx) !! get_str req2 "username" = Some (u_id (new_user req1 w))) as Hidx.
  { cbn. rewrite Hi, Hname. apply lookup_insert_eq. }
  assert (w1.(w_repos).(users) !! u_id (new_user req1 w) = Some (new_user req1 w)) as Hus.
  { cbn. rewrite Hu. apply lookup_insert_eq. }
  assert (verify_password_hash (get_str req2 "password") (u_password_hash (new_user req1 w))
    = bool_decide (key (get_str req2 "password") = key (get_str req1 "password"))) as Hv
    by by apply verify_made.
  exists s1, w1. destruct (bool_decide _).
  - destruct (handle_login_accepts (n + 1) c2 k req2 (request_id req2) _ w1 Hw1 Hk Hidx Hus Hv) as (w2 & He2 & Hl).
    exists w2. split_and!; [done|done|done|by eapply dispatch_request|done].
  - destruct (handle_login_rejects (n + 1) c2 k req2 (request_id req2) w1 Hw1 Hk) as (s2 & re2 & _ & He2).
    { intros u Hn' Hu'. assert (u_id (new_user req1 w) = u_id u) as Hid by congruence.
      assert (new_user req1 w = u) as <-; [|exact Hv].
      rewrite Hid, Hu' in Hus. by injection Hus. }
    eexists. split_and!; [done|done|done|by eapply dispatch_request|done..|].
    intros cid. cbn. destruct (decide (cid = c2)) as [->|].
    + rewrite lookup_insert_eq. change (w_conns w1 !! c2) with (<[c1:=pushed s1 k1]> (w_conns w) !! c2) in Hk.
      rewrite Hk. cbn. f_equal. apply (push_all_owner [s2] k).
    + by rewrite lookup_insert_ne.
Qed.

(** *** Examples *)

Lemma two_users_world : world_ok 2 two_users.
Proof.
  split.
  - split; [apply two_users_ok|by vm_compute|constructor|]. split.
    + change (map_Forall (λ _ u, utf8_valid (u_username u) = true) (users (w_repos two_users))).
      refine (bool_decide_unpack _ _). by vm_compute.
    + intros id x Hx. by vm_compute in Hx.
  - apply rooms_inv_init, two_users_ok.
  - apply bind_locked_ok, presence_init_ok.
  - intros tok info. cbn. by rewrite lookup_empty.
  - intros cid c Hc H0. unfold two_users in Hc. cbn [w_conns] in Hc.
    apply lookup_insert_Some in Hc as [[<- <-]|[_ Hc]].
    + split; [by vm_compute; eexists|]. intros _. apply elem_connections_of.
      change (1 ∈ connections_of (w_presence two_users) 1).
      assert (connections_of (w_presence two_users) 1 = [1]) as -> by by vm_compute. by left.
    + apply lookup_singleton_Some in Hc as [<- <-]. by destruct H0.
Qed.

Definition register_text : string :=
  text_of [("type", JStr "register"); ("username", JStr "eve"); ("password", JStr "pass1")].
Definition register_req : json :=
  json_of [("type", JStr "register"); ("username", JStr "eve"); ("password", JStr "pass1")].
Definition login_text : string :=
  text_of [("type", JStr "login"); ("username", JStr "eve"); ("password", JStr "pass1")].
Definition login_req : json :=
  json_of [("type", JStr "login"); ("username", JStr "eve"); ("password", JStr "pass1")].

Lemma register_request : @request test_float register_text register_req kRegister.
Proof. split; by vm_compute. Qed.
Lemma login_request : @request test_float login_text login_req kLogin.
Proof. split; by vm_compute. Qed.

(** Ada's connection registers eve, who then logs in on connection 2. *)
Lemma register_then_login_witness :
  ∃ w1 w2 c', @dispatch test_env test_float test_cast test_settings 1 register_text two_users = (Ret tt, w1) ∧
    @dispatch test_env test_float test_cast test_settings 2 login_text w1 = (Ret tt, w2) ∧
    w2.(w_conns) !! 2 = Some c' ∧ c'.(user_id) = 3.
Proof.
  destruct (@register_then_login test_env test_float test_cast test_settings 2 1 2
    (set_auth 1 "t1" (conn_init 1 65536)) (conn_init 2 65536) register_text login_text register_req
    login_req two_users) as (s1 & w1 & w2 & Hd1 & _ & _ & Hd2 & Hl).
  - apply two_users_world.
  - by vm_compute.
  - by vm_compute.
  - by vm_compute.
  - apply register_request.
  - apply login_request.
  - by vm_compute.
  - by vm_compute.
  - by vm_compute.
  - by vm_compute.
  - repeat constructor; by vm_compute.
  - by vm_compute.
  - exists w1, w2. rewrite bool_decide_eq_true_2 in Hl by reflexivity.
    destruct Hl as (ms & evs & reply & c' & _ & _ & _ & _ & _ & Hc & Hu & _).
    exists c'. split; [exact Hd1|]. split; [exact Hd2|]. split; [exact Hc|exact Hu].
Defined.

(** Eve's account exists. *)
Definition with_eve : World :=
  snd (@dispatch test_env test_float test_cast test_settings 1 register_text two_users).

Lemma with_eve_ok : world_ok 3 with_eve.
Proof.
  destruct (@dispatch_handles test_env test_float test_cast test_settings 2 1 register_text
    ltac:(by vm_compute) two_users two_users_world I) as (a & w' & tr & He & Hw & _).
  unfold with_eve. by rewrite He.
Qed.

Lemma login_correct_witness :
  ∃ w' u, @dispatch test_env test_float test_cast test_settings 2 login_text with_eve = (Ret tt, w') ∧
    @logged_in test_env test_float 2 u None with_eve w'.
Proof.
  destruct (@login_correct test_env test_float test_cast test_settings 3 2 (conn_init 2 65536) login_text
    login_req with_eve with_eve_ok login_request) as [Hyes _]; [by vm_compute|].
  set (u := @new_user test_env test_settings register_req two_users).
  destruct (Hyes u) as (w' & Hd & Hl).
  - split; by vm_compute.
  - by vm_compute.
  - exists w', u. split; [exact Hd|exact Hl].
Defined.
