(* ===== verification/MessageProps.v ===== *)
(** * Where messages go

    End-to-end properties of the requests that send messages, of logout, and of
    what a second login on the same connection leaves behind. *)
From S2P Require Import Prelude Util Crypto Framing Repositories Session Presence RoomManager.
From S2P Require Import Messages Json JsonProofs Connection World Router Handlers HandlerLogic.
From S2P Require Import HandlerSpecs Server HandlerProps.

(** [ev] to each connection of [l], in order. *)
Definition broadcast (ev : string) (l : list Z) : trace := (λ cid, (cid, ev)) <$> l.

Lemma payloads_broadcast x ev l : NoDup l → payloads x (broadcast ev l) = to_conns [ev] l x.
Proof.
  unfold to_conns, broadcast. induction 1 as [|cid l Hn Hl IH]; [done|].
  change ((λ cid, (cid, ev)) <$> (cid :: l)) with ([(cid, ev)] ++ ((λ cid, (cid, ev)) <$> l)).
  rewrite payloads_app, payloads_send, IH. destruct (cid =? x) eqn:E; to_prop.
  - subst. rewrite bool_decide_eq_false_2, bool_decide_eq_true_2 by set_solver. done.
  - rewrite (bool_decide_ext (x ∈ cid :: l) (x ∈ l)) by set_solver. done.
Qed.

Section send.
Context `{Env, FloatText, FloatCast, Settings}.
Implicit Types (w : World) (req : json).

(** A logged-in connection passes [require_auth] unchanged. *)
Lemma require_auth_passes c (c0 : Connection) req id w :
  w.(w_conns) !! c = Some c0 → c0.(user_id) ≠ 0 →
  require_auth c req id w = (Ret c0.(user_id), w).
Proof.
  intros Hc Hu. unfold require_auth. erewrite M_bind_ret by by apply conn_user_eq.
  by rewrite (proj2 (Z.eqb_neq _ _)).
Qed.

(** A connection that was handed payloads is still the same user's. *)
Lemma delivered_conn f (cs cs' : gmap Z Connection) c (c0 : Connection) :
  delivered f cs cs' → cs !! c = Some c0 → ∃ c1, cs' !! c = Some c1.
Proof. intros Hd Hc. rewrite Hd, Hc. by eexists. Qed.

Lemma ack_message_eq c (c0 : Connection) id mid w :
  w.(w_conns) !! c = Some c0 →
  ∃ s re, ack_message c id mid w = (Ret tt, set_net (<[c := pushed s c0]> w.(w_conns)) re
      (set_env (S w.(w_reads)) w.(w_draws) w)) ∧
    is_ack id [("msg_id", JUint mid); ("timestamp", JInt (env_clock w.(w_reads)))] s.
Proof.
  intros Hc. destruct (send_ack_eq c c0 id [("msg_id", JUint mid);
    ("timestamp", JInt (env_clock w.(w_reads)))] (set_env (S w.(w_reads)) w.(w_draws) w))
    as (s & re & Hsend & Hack); [done|done|done|exact Hc|].
  exists s, re. split; [|done]. unfold ack_message. erewrite M_bind_ret by reflexivity. exact Hsend.
Qed.

Lemma str_nonempty s : s ≠ "" → str_empty s = false.
Proof. by destruct s. Qed.

(** What routing has done before the ack. *)
Lemma deliver_then_ack f tr c cs s (cs0 : gmap Z Connection) c1 :
  delivered f cs0 cs → (∀ x, f x = payloads x tr) → cs !! c = Some c1 →
  sent (tr ++ [(c, s)]) cs0 (<[c := pushed s c1]> cs).
Proof.
  intros Hd Hf Hc. eapply sent_trans; [by eapply delivered_sent|by apply sent_one].
Qed.
End send.

(** ** Properties *)

(** C7: an accepted [send_dm] request stores the message once, under the next id,
    from the connection's user.  If the receiver is online, each of its connections
    gets the event and the message is marked delivered; if not, the id goes to the
    end of the receiver's offline queue and to no other queue.  Then each
    connection of the sender gets the event, the requesting one included, then the
    requesting connection the ack with the id; no one else is sent anything, no
    other table changes.  (The comment in [send_dm] and docs/api.md speak of the
    other sessions of the sender only; the code makes no exception for the
    requesting one, and a user who writes to herself gets the event twice.) *)
Theorem dm_request_delivers `{Env, FloatText, FloatCast, Settings} n c (c0 : Connection) payload req w :
  world_ok n w → request payload req kSendDM → w.(w_conns) !! c = Some c0 → c0.(user_id) ≠ 0 →
  let sender := c0.(user_id) in
  let receiver := u64 (get_i64 req "receiver_id" 0) in
  let content := get_str req "content" in
  is_Some (w.(w_repos).(users) !! receiver) → content ≠ "" →
  Z.of_nat (String.length content) <= max_message →
  let id := w.(w_repos).(next_msg_id) in
  let ts := env_clock w.(w_reads) in
  let conns u := connections_of w.(w_presence) u in
  let online := negb (bool_decide (conns receiver = [])) in
  ∃ ev ack w',
    dispatch c payload w = (Ret tt, w') ∧
    event_text id sender (Some receiver) None content ts = Ret ev ∧
    is_ack (request_id req) [("msg_id", JUint id); ("timestamp", JInt (env_clock (S w.(w_reads))))] ack ∧
    w'.(w_repos).(messages) = w.(w_repos).(messages) ++
      [mkMessage id sender (Some receiver) None content (if online then 1 else 0) ts] ∧
    (∀ u, queue_of w'.(w_repos) u = queue_of w.(w_repos) u ++
       (if (u =? receiver) && negb online then [id] else [])) ∧
    same_tables w.(w_repos) w'.(w_repos) ∧ w'.(w_presence) = w.(w_presence) ∧
    sent (broadcast ev (conns receiver) ++ broadcast ev (conns sender) ++ [(c, ack)])
      w.(w_conns) w'.(w_conns).
Proof.
  intros Hw Hreq Hc Hu sender receiver content Hrcv Hne Hlen id ts conns online.
  assert (utf8_valid content = true) as Hutf by by eapply get_str_utf8, parse_utf8, Hreq.
  pose proof (so_repos _ _ (wk_store _ _ Hw)) as Hr.
  destruct (send_dm_spec sender receiver content w Hr Hutf)
    as (ev & w1 & r & cs & Hev & Hsend & [re ->] & Htab & Hmsg & Hq & Hd).
  fold id ts online in Hev, Hsend, Hmsg, Hq.
  destruct (delivered_conn _ _ _ _ _ Hd Hc) as [c1 Hc1].
  set (w1 := set_net cs re _) in Hsend.
  destruct (ack_message_eq c c1 (request_id req) id w1 Hc1) as (ack & re' & Hack & Hisack).
  exists ev, ack, (set_net (<[c := pushed ack c1]> cs) re' (set_env (S (w_reads w1)) (w_draws w1) w1)).
  split_and!; [|exact Hev|exact Hisack|exact Hmsg|exact Hq|exact Htab|done|].
  - eapply dispatch_request; [exact Hreq|done|reflexivity|].
    unfold handle_send_dm. erewrite M_bind_ret by by apply require_auth_passes.
    rewrite (proj2 (Z.eqb_neq _ _) Hu). fold sender receiver content.
    pose proof (user_id_pos _ _ _ (wk_store _ _ Hw) Hrcv) as Hpos.
    rewrite (proj2 (Z.eqb_neq receiver 0)) by lia. rewrite (str_nonempty content Hne).
    cbn [orb]. rewrite (proj2 (Z.ltb_ge _ _) Hlen).
    destruct Hrcv as [u Hrcv].
    rewrite (M_bind_ret _ _ _ (Some u) w) by (unfold on_repos, find_user_by_id; rewrite Hrcv; by destruct w).
    erewrite M_bind_ret by exact Hsend. pose proof (ok_next_msg _ Hr) as Hnx.
    rewrite (proj2 (Z.eqb_neq id 0)) by (subst id; lia). exact Hack.
  - rewrite app_assoc. eapply deliver_then_ack; [exact Hd| |exact Hc1].
    intros x. rewrite payloads_app, !payloads_broadcast by apply NoDup_connections_of. reflexivity.
Qed.

Lemma dm_request_delivers_witness :
  ∃ w', @dispatch test_env test_float test_cast test_settings 1 dm_text two_users = (Ret tt, w') ∧
    queue_of w'.(w_repos) 2 = [1].
Proof.
  destruct (@dm_request_delivers test_env test_float test_cast test_settings 2 1
    (set_auth 1 "t1" (conn_init 1 65536)) dm_text dm_req two_users two_users_world dm_request)
    as (ev & ack & w' & Hd & _ & _ & _ & Hq & _).
  - by vm_compute.
  - done.
  - by vm_compute; eexists.
  - by vm_compute.
  - by vm_compute.
  - exists w'. split; [exact Hd|]. rewrite Hq. by vm_compute.
Defined.

Section send_room.
Context `{Env, FloatText, FloatCast, Settings}.
Implicit Types (w : World) (req : json).

(** [ev] to every connection of every member. *)
Definition room_trace (ev : string) (p : Presence) (members : gset Z) : trace :=
  concat ((λ uid, broadcast ev (connections_of p uid)) <$> elements members).

Lemma payloads_room_trace x ev p members :
  payloads x (room_trace ev p members) =
  concat ((λ uid, to_conns [ev] (connections_of p uid) x) <$> elements members).
Proof.
  unfold room_trace. induction (elements members) as [|uid l IH]; [done|].
  rewrite !fmap_cons. cbn [concat]. by rewrite payloads_app, payloads_broadcast, IH by apply NoDup_connections_of.
Qed.
End send_room.

(** C8: a [send_room] request from a member of the room stores the message once,
    puts its id at the end of the offline queue of every offline member except the
    sender and of no one else, hands the event to every connection of every member
    (the sender's included), and then acks with the id.  From a user who is not a
    member it is answered with an error, and no message, queue or other connection
    changes. *)
Theorem room_request_delivers `{Env, FloatText, FloatCast, Settings} n c (c0 : Connection) payload req w :
  world_ok n w → request payload req kSendRoom → w.(w_conns) !! c = Some c0 → c0.(user_id) ≠ 0 →
  let sender := c0.(user_id) in
  let room := u64 (get_i64 req "room_id" 0) in
  let content := get_str req "content" in
  room ≠ 0 → content ≠ "" → Z.of_nat (String.length content) <= max_message →
  let id := w.(w_repos).(next_msg_id) in
  let ts := env_clock w.(w_reads) in
  let members := members_slot w.(w_repos) room in
  if bool_decide (sender ∈ members) then
    ∃ ev ack w',
      dispatch c payload w = (Ret tt, w') ∧
      event_text id sender None (Some room) content ts = Ret ev ∧
      is_ack (request_id req) [("msg_id", JUint id); ("timestamp", JInt (env_clock (S w.(w_reads))))] ack ∧
      w'.(w_repos).(messages) = w.(w_repos).(messages) ++ [mkMessage id sender None (Some room) content 0 ts] ∧
      (∀ u, queue_of w'.(w_repos) u = queue_of w.(w_repos) u ++
         (if bool_decide (u ∈ members) && must_queue w.(w_presence) sender u then [id] else [])) ∧
      same_tables w.(w_repos) w'.(w_repos) ∧ w'.(w_presence) = w.(w_presence) ∧
      sent (room_trace ev w.(w_presence) members ++ [(c, ack)]) w.(w_conns) w'.(w_conns)
  else
    ∃ s w', dispatch c payload w = (Ret tt, w') ∧
      dump (make_error (request_id req) kBadRequest "not a member of room or room missing") = Ret s ∧
      w'.(w_repos) = w.(w_repos) ∧ w'.(w_presence) = w.(w_presence) ∧
      w'.(w_conns) = <[c := pushed s c0]> w.(w_conns).
Proof.
  intros Hw Hreq Hc Hu sender room content Hroom Hne Hlen id ts members.
  assert (utf8_valid content = true) as Hutf by by eapply get_str_utf8, parse_utf8, Hreq.
  assert (∀ a w', (msg_id ← send_room sender room content;
      if msg_id =? 0 then send c (make_error (request_id req) kBadRequest "not a member of room or room missing")
      else ack_message c (request_id req) msg_id) w = (Ret a, w') →
    dispatch c payload w = (Ret a, w')) as Hdisp.
  { intros a w' He. eapply dispatch_request; [exact Hreq|done|reflexivity|].
    unfold handle_send_room. erewrite M_bind_ret by by apply require_auth_passes.
    rewrite (proj2 (Z.eqb_neq _ _) Hu). fold sender room content.
    rewrite (proj2 (Z.eqb_neq room 0) Hroom), (str_nonempty content Hne). cbn [orb].
    rewrite (proj2 (Z.ltb_ge _ _) Hlen). exact He. }
  pose proof (send_room_spec sender room content w (wk_rooms _ _ Hw) Hutf) as Hspec.
  fold members id ts in Hspec. cbv zeta in Hspec. destruct (bool_decide (sender ∈ members)).
  - destruct Hspec as (ev & w1 & rm & r & cs & Hev & Hsend & [re Hw1] & Htab & Hmsg & Hq & Hd).
    subst w1. set (w1 := set_net cs re _) in Hsend.
    destruct (delivered_conn _ _ _ _ _ Hd Hc) as [c1 Hc1].
    destruct (ack_message_eq c c1 (request_id req) id w1 Hc1) as (ack & re' & Hack & Hisack).
    exists ev, ack, (set_net (<[c := pushed ack c1]> cs) re' (set_env (S (w_reads w1)) (w_draws w1) w1)).
    split_and!; [|exact Hev|exact Hisack|exact Hmsg|exact Hq|exact Htab|reflexivity|].
    + apply Hdisp. erewrite M_bind_ret by exact Hsend.
      pose proof (ok_next_msg _ (so_repos _ _ (wk_store _ _ Hw))) as Hnx.
      rewrite (proj2 (Z.eqb_neq id 0)) by (subst id; lia). exact Hack.
    + eapply deliver_then_ack; [exact Hd| |exact Hc1]. intros x. by rewrite payloads_room_trace.
  - destruct Hspec as [rm Hsend].
    destruct (error_text (request_id req) kBadRequest "not a member of room or room missing")
      as [s Hs]; [reflexivity..|].
    destruct (send_json_eq c c0 _ s (set_rooms rm w) Hc Hs) as [re Herr].
    exists s, (set_net (<[c := pushed s c0]> (w_conns w)) re (set_rooms rm w)).
    split_and!; [|exact Hs|reflexivity..]. apply Hdisp. erewrite M_bind_ret by exact Hsend. exact Herr.
Qed.

Lemma lobby_world : world_ok 2 lobby.
Proof.
  destruct two_users_world as [Hs Hr Hp Hss Hc]. split; try done.
  - split; [apply lobby_ok|by vm_compute|constructor|]. split; [by destruct Hs as [_ _ _ []]|].
    change (map_Forall (λ _ x, utf8_valid (room_name x) = true) (rooms (w_repos lobby))).
    refine (bool_decide_unpack _ _). by vm_compute.
  - apply rooms_inv_init, lobby_ok.
Qed.

Definition room_text : string :=
  text_of [("type", JStr "send_room"); ("room_id", JInt 1); ("content", JStr "hi all")].
Definition room_req : json :=
  json_of [("type", JStr "send_room"); ("room_id", JUint 1); ("content", JStr "hi all")].

Lemma room_request : @request test_float room_text room_req kSendRoom.
Proof. split; by vm_compute. Qed.

Lemma room_request_delivers_witness :
  ∃ w', @dispatch test_env test_float test_cast test_settings 1 room_text lobby = (Ret tt, w') ∧
    queue_of w'.(w_repos) 2 = [1] ∧ queue_of w'.(w_repos) 1 = [].
Proof.
  pose proof (@room_request_delivers test_env test_float test_cast test_settings 2 1
    (set_auth 1 "t1" (conn_init 1 65536)) room_text room_req lobby lobby_world room_request) as Hthm.
  cbv zeta in Hthm. rewrite bool_decide_eq_true_2 in Hthm by (refine (bool_decide_unpack _ _); by vm_compute).
  destruct Hthm as (ev & ack & w' & Hd & _ & _ & _ & Hq & _).
  - by vm_compute.
  - done.
  - by vm_compute.
  - by vm_compute.
  - by vm_compute.
  - exists w'. split; [exact Hd|]. rewrite !Hq. split; by vm_compute.
Defined.

(** ** Logout *)

(** C9: logout unbinds the connection from its user (and no other binding),
    clears its owner and token, deletes the session from the cache and from the
    store, so that the token is not accepted now, later or after a restart, leaves
    every other session alone, and acks. *)
Theorem logout_revokes `{Env, FloatText, FloatCast, Settings} n c (c0 : Connection) payload req w :
  world_ok n w → request payload req kLogout → w.(w_conns) !! c = Some c0 →
  c0.(user_id) ≠ 0 → c0.(token) ≠ "" →
  let tok := c0.(token) in
  ∃ ack w', dispatch c payload w = (Ret tt, w') ∧
    is_ack (request_id req) [] ack ∧
    w'.(w_conns) = <[c := pushed ack (set_auth 0 "" c0)]> w.(w_conns) ∧
    (∀ u, slot_of w'.(w_presence) u = if u =? c0.(user_id) then slot_of w.(w_presence) u ∖ {[c]}
                                      else slot_of w.(w_presence) u) ∧
    (∀ now, fst (validate tok now (w'.(w_sessions), w'.(w_repos))) = Ret None) ∧
    session_view w'.(w_repos) = delete tok (session_view w.(w_repos)) ∧
    (∀ t, t ≠ tok →
       w'.(w_sessions).(session_cache) !! t = w.(w_sessions).(session_cache) !! t).
Proof.
  intros Hw Hreq Hc Hu Ht tok.
  pose proof (revoke_spec (R := Repositories) tok w.(w_sessions) w.(w_repos)) as Hrs.
  destruct (Hrs (so_repos _ _ (wk_store _ _ Hw)) I) as (r1 & Hrev & Hr1 & Hview). clear Hrs.
  set (w1 := set_repos r1 (set_sess (set_cache (delete tok) w.(w_sessions)) w)).
  assert (on_sessions (revoke tok) w = (Ret tt, w1)) as Hrevw by (unfold on_sessions; by rewrite Hrev).
  assert (world_ok n w1) as Hw1.
  { destruct (spec_revoke n tok w Hw I) as (a & w' & tr & He & Hw' & _).
    rewrite Hrevw in He. by injection He as _ <-. }
  destruct (unbind_step c n c0.(user_id) w1 Hw1) as (p & r & reads & Hub & _ & _ & _ & Hslot & Hrows).
  set (w2 := set_env _ _ _) in Hub.
  pose proof (update_owner_eq c 0 "" w2) as Hupd. erewrite M_bind_ret in Hupd by apply update_conn_eq.
  assert (w_conns (set_owner c 0 "" w2) !! c = Some (set_auth 0 "" c0)) as Hc2.
  { cbn. by rewrite lookup_alter_eq, Hc. }
  destruct (send_ack_obj c (set_auth 0 "" c0) (request_id req) [] [] (set_owner c 0 "" w2) eq_refl
    (λ _, eq_refl) eq_refl Hc2) as (ack & re & Hack & Hisack).
  exists ack, (set_net (<[c := pushed ack (set_auth 0 "" c0)]> (w_conns (set_owner c 0 "" w2))) re
                 (set_owner c 0 "" w2)).
  split_and!; [|exact Hisack| | | | |].
  - eapply dispatch_request; [exact Hreq|done|reflexivity|]. unfold handle_logout.
    erewrite M_bind_ret by by apply conn_token_eq. fold tok.
    rewrite (str_nonempty tok Ht). cbn [negb]. erewrite M_bind_ret by exact Hrevw.
    erewrite M_bind_ret by (apply (conn_user_eq c c0 w1); exact Hc). erewrite M_bind_ret by exact Hub.
    erewrite M_bind_ret by apply update_conn_eq. erewrite M_bind_ret by exact Hupd. exact Hack.
  - cbn. apply map_eq. intros x. destruct (decide (x = c)) as [->|].
    + by rewrite !lookup_insert_eq.
    + by rewrite !lookup_insert_ne, lookup_alter_ne.
  - intros u. cbn. rewrite Hslot, (proj2 (Z.eqb_neq _ _) Hu). done.
  - intros now. unfold validate. cbn. by rewrite lookup_delete_eq.
  - cbn. unfold session_view. rewrite Hrows. exact Hview.
  - intros t Hne. cbn. by rewrite lookup_delete_ne.
Qed.

Definition logout_text : string := text_of [("type", JStr "logout"); ("id", JInt 9)].
Definition logout_req : json := json_of [("type", JStr "logout"); ("id", JUint 9)].

Lemma logout_request : @request test_float logout_text logout_req kLogout.
Proof. split; by vm_compute. Qed.

Lemma logout_revokes_witness :
  ∃ w', @dispatch test_env test_float test_cast test_settings 1 logout_text two_users = (Ret tt, w') ∧
    ∀ now, fst (validate "t1" now (w'.(w_sessions), w'.(w_repos))) = Ret None.
Proof.
  destruct (@logout_revokes test_env test_float test_cast test_settings 2 1
    (set_auth 1 "t1" (conn_init 1 65536)) logout_text logout_req two_users two_users_world logout_request)
    as (ack & w' & Hd & _ & _ & _ & Hv & _).
  - by vm_compute.
  - done.
  - done.
  - exists w'. split; [exact Hd|exact Hv].
Defined.

(** ** A second login on the same connection *)

Definition login_as (name : string) : string :=
  text_of [("type", JStr "login"); ("username", JStr name); ("password", JStr "pass1")].
Definition register_as (name : string) : string :=
  text_of [("type", JStr "register"); ("username", JStr name); ("password", JStr "pass1")].

(** One connection; eve and fay register; eve logs in, then fay logs in on the
    same connection; then the connection is closed. *)
Definition two_logins : World :=
  let run payload w := snd (@dispatch test_env test_float test_cast test_settings 1 payload w) in
  run (login_as "fay") (run (login_as "eve") (run (register_as "fay") (run (register_as "eve")
    (set_net {[ 1 := conn_init 1 65536 ]} (reactor_add 1 EvRead reactor_init) (fresh_world 3600))))).

Definition after_close : World := snd (@on_close test_env test_float 1 two_logins).

(** [handle_login] does not unbind the previous user of the connection: after
    fay's login on eve's connection both are online through it, although the
    connection is fay's; closing it takes only fay offline and eve stays online
    with a dead connection. *)
Theorem second_login_leaves_first_online :
  user_id <$> two_logins.(w_conns) !! 1 = Some 2 ∧
  connections_of two_logins.(w_presence) 1 = [1] ∧ connections_of two_logins.(w_presence) 2 = [1] ∧
  is_online after_close.(w_presence) 2 = false ∧ is_online after_close.(w_presence) 1 = true.
Proof. by vm_compute. Qed.
