(* ===== verification/Interleaving.v ===== *)
(** * The server with its threads interleaved access by access

    [Server.v] and [Workers.v] run a request as one action.  Here the workers, the
    reactor thread and the thread that calls [stop] take turns at every access to
    shared state: a worker makes one access of its request's program
    ([Programs.v]), the reactor handles one event or one posted closure, or makes one
    access of [on_close].  Any number of workers may be at work.  Events and closures
    of the reactor touch a connection's read state, which only the reactor thread uses,
    its output buffer under [mu_] and its atomic flags, so each is one action. *)
From S2P Require Import Prelude Util Crypto Framing Repositories Session Presence RoomManager.
From S2P Require Import Messages Json JsonProofs Connection World Router Handlers HandlerLogic.
From S2P Require Import HandlerSpecs Server Programs Concurrency HandlerProps.

(** A worker with the request it runs: what it has given to [send_frame] so far and
    the rest of its program. *)
Record thread := mkThread {
  th_conn : Z;
  th_payload : string;
  th_calls : trace;
  th_prog : prog unit;
}.

Record Concurrent := mkConc {
  cc_server : Server;
  cc_threads : list thread;
  cc_batch : list post;                 (** what [drain_posts] has yet to run *)
  cc_closer : option (Z * prog unit);   (** the close handler the reactor is in *)
  cc_snap : list Z;                     (** what [Server::stop] has yet to close *)
}.

Definition with_world (w : World) (d : Concurrent) : Concurrent :=
  mkConc (set_world w d.(cc_server)) d.(cc_threads) d.(cc_batch) d.(cc_closer) d.(cc_snap).
Definition cc_world (d : Concurrent) : World := d.(cc_server).(sv_world).

Inductive conc_op :=
| CoListen (script : list accept_result)
| CoEvent (cid events : Z) (rs : list recv_result) (ss : list send_result)
| CoSwap
| CoPost (ss : list send_result)
| CoClose
| CoTake (i : nat)
| CoWork (j : nat)
| CoStop
| CoStopClose
| CoPoolStop.

(** One access of a program. *)
Definition advance {A : Type} (p : prog A) (w : World) : option (trace * prog A * World) :=
  match p with
  | Act x k => let '(o, w') := perform x w in Some (calls x, k o, w')
  | _ => None
  end.

(** The reactor thread is not inside [drain_posts]. *)
Definition reactor_idle (d : Concurrent) : bool :=
  match d.(cc_batch), d.(cc_closer) with [], None => true | _, _ => false end.

Section machine.
Context `{Env, FloatText, FloatCast, Settings} (max : Z).

Definition on_server (f : Server → Server) (d : Concurrent) : Concurrent :=
  mkConc (f d.(cc_server)) d.(cc_threads) d.(cc_batch) d.(cc_closer) d.(cc_snap).

(** [drain_posts] takes the queue under its mutex. *)
Definition swap_posts (d : Concurrent) : Concurrent :=
  let w := cc_world d in
  mkConc (set_world (set_net w.(w_conns) (mkReactor [] w.(w_reactor).(interest)) w) d.(cc_server))
    d.(cc_threads) w.(w_reactor).(posts) d.(cc_closer) d.(cc_snap).

(** One closure of the batch; [deliver_close] ends by calling the close handler. *)
Definition post_step (p : post) (rest : list post) (ss : list send_result) (d : Concurrent)
    : Concurrent :=
  let w := cc_world d in
  let d := mkConc d.(cc_server) d.(cc_threads) rest d.(cc_closer) d.(cc_snap) in
  match w.(w_conns) !! post_cid p with
  | None => d
  | Some c =>
      let '(o, (c, r)) := run_post p ss (c, w.(w_reactor)) in
      let d := with_world (set_net (<[post_cid p := c]> w.(w_conns)) r w) d in
      match o with
      | Ret (_, true) =>
          mkConc d.(cc_server) d.(cc_threads) d.(cc_batch)
            (Some (post_cid p, on_close_p (post_cid p))) d.(cc_snap)
      | _ => d
      end
  end.

(** One access of the close handler, or its end: [unregister_connection]. *)
Definition close_step (cid : Z) (p : prog unit) (d : Concurrent) : Concurrent :=
  match advance p (cc_world d) with
  | Some (_, p', w') =>
      mkConc (set_world w' d.(cc_server)) d.(cc_threads) d.(cc_batch) (Some (cid, p')) d.(cc_snap)
  | None =>
      mkConc (match p with Done _ => unregister_connection cid d.(cc_server) | _ => d.(cc_server) end)
        d.(cc_threads) d.(cc_batch) None d.(cc_snap)
  end.

(** A worker takes the [i]-th waiting task. *)
Definition take_task (i : nat) (d : Concurrent) : option Concurrent :=
  match d.(cc_server).(sv_tasks) !! i with
  | None => None
  | Some (cid, payload) =>
      Some (mkConc (set_tasks (delete i d.(cc_server).(sv_tasks)) d.(cc_server))
        (d.(cc_threads) ++ [mkThread cid payload [] (dispatch_p cid payload)])
        d.(cc_batch) d.(cc_closer) d.(cc_snap))
  end.

(** Worker [j] makes one access. *)
Definition work_step (j : nat) (d : Concurrent) : option Concurrent :=
  match d.(cc_threads) !! j with
  | None => None
  | Some t =>
      match advance t.(th_prog) (cc_world d) with
      | None => None
      | Some (tr, p', w') =>
          Some (mkConc (set_world w' d.(cc_server))
            (<[j := mkThread t.(th_conn) t.(th_payload) (t.(th_calls) ++ tr) p']> d.(cc_threads))
            d.(cc_batch) d.(cc_closer) d.(cc_snap))
      end
  end.

(** [Server::stop] up to its loop, and one turn of the loop. *)
Definition stop_snapshot (d : Concurrent) : Concurrent :=
  let y := d.(cc_server) in
  mkConc (mkServer y.(sv_world) ∅ false y.(sv_next_id) y.(sv_tasks) y.(sv_stopping))
    d.(cc_threads) d.(cc_batch) d.(cc_closer) (d.(cc_snap) ++ elements y.(sv_conns)).
Definition stop_close (cid : Z) (rest : list Z) (d : Concurrent) : Concurrent :=
  let w := snd (on_conn cid Connection.close (cc_world d)) in
  mkConc (set_world w d.(cc_server)) d.(cc_threads) d.(cc_batch) d.(cc_closer) rest.

Definition conc_step (o : conc_op) (d : Concurrent) : option Concurrent :=
  match o with
  | CoListen script =>
      if reactor_idle d && d.(cc_server).(sv_listening)
      then Some (on_server (on_listen_event max script) d) else None
  | CoEvent cid ev rs ss =>
      if reactor_idle d then Some (on_server (conn_event cid ev rs ss) d) else None
  | CoSwap => if reactor_idle d then Some (swap_posts d) else None
  | CoPost ss =>
      match d.(cc_batch), d.(cc_closer) with
      | p :: rest, None => Some (post_step p rest ss d)
      | _, _ => None
      end
  | CoClose =>
      match d.(cc_closer) with
      | Some (cid, p) => Some (close_step cid p d)
      | None => None
      end
  | CoTake i => take_task i d
  | CoWork j => work_step j d
  | CoStop => Some (stop_snapshot d)
  | CoStopClose =>
      match d.(cc_snap) with
      | cid :: rest => Some (stop_close cid rest d)
      | [] => None
      end
  | CoPoolStop => Some (on_server pool_stop d)
  end.

Definition conc_start (w : World) : Concurrent := mkConc (server_start w) [] [] None [].

(** The states that [n] actions of the threads can reach. *)
Inductive conc_reach (w0 : World) : Z → Concurrent → Prop :=
| creach_refl : conc_reach w0 0 (conc_start w0)
| creach_step n d o d' :
    conc_reach w0 n d → conc_step o d = Some d' → conc_reach w0 (n + 1) d'.
End machine.

(** ** The invariant *)

Section invariant.
Context `{Env, FloatText, FloatCast, Settings} (max : Z).

(** The rest of a request's program ends with the one reply it owes. *)
Definition thread_ok (r : Repositories) (t : thread) : Prop :=
  safe t.(th_prog) (λ _ tr, replied t.(th_conn) (payload_id t.(th_payload))
    (payload_content t.(th_payload)) (t.(th_calls) ++ tr)) r.

Definition closer_ok (r : Repositories) (x : Z * prog unit) : Prop :=
  safe x.2 (λ _ _ _, True) r.

Record conc_ok (n : Z) (d : Concurrent) : Prop := {
  co_world : shared_ok n (cc_world d);
  co_threads : Forall (thread_ok (cc_world d).(w_repos)) d.(cc_threads);
  co_closer : ∀ x, d.(cc_closer) = Some x → closer_ok (cc_world d).(w_repos) x;
}.

(** What every action keeps. *)
Definition conc_next (n : Z) (d d' : Concurrent) : Prop :=
  conc_ok (n + 1) d' ∧ grows (cc_world d).(w_repos) (cc_world d').(w_repos).

(** A step that grows the store and touches no program. *)
Lemma conc_ok_quiet n d d' :
  conc_ok n d → shared_ok (n + 1) (cc_world d') →
  grows (cc_world d).(w_repos) (cc_world d').(w_repos) →
  d'.(cc_threads) = d.(cc_threads) → (∀ x, d'.(cc_closer) = Some x →
    d.(cc_closer) = Some x ∨ closer_ok (cc_world d').(w_repos) x) →
  conc_next n d d'.
Proof.
  intros [Hw Ht Hc] Hw' Hg Hth Hcl. split; [|done]. split; [done| |].
  - rewrite Hth. eapply Forall_impl; [exact Ht|]. intros t. by apply safe_grows.
  - intros x Hx. destruct (Hcl x Hx) as [Hx'|]; [|done].
    eapply safe_grows; [exact Hg|]. by apply (Hc x).
Qed.

(** The reactor changes connections and keeps their owners. *)
Lemma shared_ok_conn n cid c c' re w :
  shared_ok n w → w.(w_conns) !! cid = Some c → same_owner c c' →
  shared_ok (n + 1) (set_net (<[cid := c']> w.(w_conns)) re w).
Proof.
  intros Hw Hl (Hu & _). apply shared_ok_net; [done|]. intros x cx.
  destruct (decide (x = cid)) as [->|Hne].
  - rewrite lookup_insert_eq. intros [= <-]. rewrite Hu. by apply (sk_conns _ _ Hw cid).
  - rewrite lookup_insert_ne by done. apply (sk_conns _ _ Hw).
Qed.

Lemma on_listen_shared n script y :
  shared_ok n y.(sv_world) →
  shared_ok n (on_listen_event max script y).(sv_world) ∧
  (on_listen_event max script y).(sv_world).(w_repos) = y.(sv_world).(w_repos).
Proof.
  revert y. induction script as [|[] script IH]; intros y Hy; cbn [on_listen_event]; try done.
  destruct (IH (accept_connection max y)) as [H1' H2']; [|by split].
  destruct Hy as [Hs Hl Hp Hss Hc]. split; cbn; try done.
  intros x cx. rewrite lookup_insert_Some. intros [[<- <-]|[_ Hx]]; [by intros []|by eapply Hc].
Qed.

Lemma on_frames_world cid fs y :
  (foldl (λ y p, on_frame cid p y) y fs).(sv_world) = y.(sv_world).
Proof.
  revert y. induction fs as [|f fs IH]; intros y; cbn [foldl]; [done|]. rewrite IH.
  unfold on_frame. by case_match.
Qed.

Lemma conn_event_shared n cid ev rs ss y :
  shared_ok n y.(sv_world) →
  shared_ok (n + 1) (conn_event cid ev rs ss y).(sv_world) ∧
  (conn_event cid ev rs ss y).(sv_world).(w_repos) = y.(sv_world).(w_repos).
Proof.
  intros Hy. unfold conn_event. destruct (w_conns (sv_world y) !! cid) as [c|] eqn:Hc.
  - destruct (on_event_owner ev rs ss c (w_reactor (sv_world y))) as ([fs l] & c' & r' & -> & Ho & _).
    rewrite on_frames_world. split; [by eapply shared_ok_conn|done].
  - split; [by eapply shared_ok_weaken; [|done]; lia|done].
Qed.

Lemma post_step_ok n p rest ss d :
  conc_ok n d → d.(cc_closer) = None → conc_next n d (post_step p rest ss d).
Proof.
  intros Hd Hcl. pose proof (co_world _ _ Hd) as Hw. unfold post_step. cbv zeta.
  destruct (w_conns (cc_world d) !! post_cid p) as [c|] eqn:Hc.
  2:{ apply (conc_ok_quiet n d); [done| |reflexivity|done|by left].
      by eapply shared_ok_weaken; [|done]; lia. }
  destruct (run_post_owner p ss c (w_reactor (cc_world d))) as (l & b & c' & r' & -> & Ho & _).
  pose proof (shared_ok_conn n (post_cid p) c c' r' (cc_world d) Hw Hc Ho) as Hw'.
  destruct b; (apply (conc_ok_quiet n d); [done|exact Hw'|reflexivity|done|]); cbn [cc_closer with_world].
  - intros x [= <-]. right. unfold closer_ok. cbn [snd].
    eapply safe_mono; [|by apply (tri_on_close (post_cid p))]. done.
  - intros x Hx. by left.
Qed.

(** What one access of a safe program does. *)
Lemma advance_safe {A} (p : prog A) Φ n w :
  safe p Φ w.(w_repos) → n <= u64_max - 2 → shared_ok n w →
  match advance p w with
  | Some (tr, p', w') => shared_ok (n + 1) w' ∧ grows w.(w_repos) w'.(w_repos) ∧
      (∃ out, appended out w.(w_conns) w'.(w_conns)) ∧
      safe p' (λ a tr', Φ a (tr ++ tr')) w'.(w_repos)
  | None => ∃ a, p = Done a
  end.
Proof.
  destruct p as [a|e|B x k]; cbn [safe advance]; [by eauto|done|].
  intros Hp Hn Hw. destruct (Hp n w) as (b & w' & -> & Hw' & Hg & Ha & Hk); [reflexivity|done|done|].
  split_and!; [done|done|by eauto|done].
Qed.

Lemma close_step_ok n cid p d :
  conc_ok n d → n <= u64_max - 2 → d.(cc_closer) = Some (cid, p) →
  conc_next n d (close_step cid p d).
Proof.
  intros Hd Hn Hcl. pose proof (co_world _ _ Hd) as Hw.
  pose proof (advance_safe p _ n (cc_world d) (co_closer _ _ Hd _ Hcl) Hn Hw) as Hadv.
  unfold close_step. destruct (advance p (cc_world d)) as [[[tr p'] w']|].
  - destruct Hadv as (Hw' & Hg & _ & Hp'). apply (conc_ok_quiet n d); [done|exact Hw'|exact Hg|done|].
    cbn. intros x [= <-]. right. exact Hp'.
  - destruct Hadv as [a ->]. apply (conc_ok_quiet n d); [done| |reflexivity|done|done].
    by eapply shared_ok_weaken; [|exact Hw]; lia.
Qed.

Lemma take_task_ok n i d d' :
  conc_ok n d → take_task i d = Some d' → conc_next n d d'.
Proof.
  intros [Hw Ht Hc]. unfold take_task. destruct (_ !! i) as [[cid payload]|]; [|done].
  intros [= <-]. split; [|reflexivity].
  split; [by eapply shared_ok_weaken; [|exact Hw]; lia| |exact Hc].
  apply Forall_app. split; [exact Ht|]. apply Forall_singleton. unfold thread_ok. cbn [th_prog th_conn th_payload th_calls app].
  by apply (dispatch_handled cid payload).
Qed.

Lemma work_step_ok n j d d' :
  conc_ok n d → n <= u64_max - 2 → work_step j d = Some d' → conc_next n d d'.
Proof.
  intros [Hw Ht Hc] Hn. unfold work_step. destruct (cc_threads d !! j) as [t|] eqn:Hj; [|done].
  pose proof (Forall_lookup_1 _ _ _ _ Ht Hj) as Hok.
  pose proof (advance_safe _ _ n (cc_world d) Hok Hn Hw) as Hadv.
  destruct (advance _ _) as [[[tr p'] w']|]; [|done]. intros [= <-].
  destruct Hadv as (Hw' & Hg & _ & Hp'). split; [|exact Hg]. split; cbn; [done| |].
  - apply Forall_insert.
    + eapply Forall_impl; [exact Ht|]. intros x. by apply safe_grows.
    + unfold thread_ok. cbn [th_prog th_conn th_payload th_calls]. eapply safe_mono; [|exact Hp']. cbv beta. intros [] tr' r.
      by rewrite app_assoc.
  - intros x Hx. eapply safe_grows; [exact Hg|]. by apply (Hc x).
Qed.

Lemma stop_close_ok n cid rest d : conc_ok n d → conc_next n d (stop_close cid rest d).
Proof.
  intros Hd. pose proof (co_world _ _ Hd) as Hw. unfold stop_close, on_conn.
  destruct (w_conns (cc_world d) !! cid) as [c|] eqn:Hc.
  - destruct (schedule_close_owner c (w_reactor (cc_world d))) as [Ho _].
    change Connection.close with schedule_close.
    destruct (schedule_close (c, w_reactor (cc_world d))) as [o [c' r']].
    apply (conc_ok_quiet n d); [done|by eapply shared_ok_conn|reflexivity|done|by left].
  - apply (conc_ok_quiet n d); [done| |reflexivity|done|by left].
    by eapply shared_ok_weaken; [|exact Hw]; lia.
Qed.

Lemma conc_step_ok n o d d' :
  conc_ok n d → n <= u64_max - 2 → conc_step max o d = Some d' → conc_next n d d'.
Proof.
  intros Hd Hn. pose proof (co_world _ _ Hd) as Hw.
  assert (shared_ok (n + 1) (cc_world d)) as Hw1 by (eapply shared_ok_weaken; [|exact Hw]; lia).
  destruct o as [script|cid ev rs ss| |ss| |i|j| | |]; cbn [conc_step].
  - destruct (_ && _); [|done]. intros [= <-].
    destruct (on_listen_shared n script (cc_server d) Hw) as [H1' H2'].
    apply (conc_ok_quiet n d); [done| | |done|by left]; unfold cc_world, on_server; cbn.
    + eapply shared_ok_weaken; [|exact H1']. lia.
    + rewrite H2'. reflexivity.
  - destruct (reactor_idle d); [|done]. intros [= <-].
    destruct (conn_event_shared n cid ev rs ss (cc_server d) Hw) as [H1' H2'].
    apply (conc_ok_quiet n d); [done|exact H1'| |done|by left]. unfold cc_world, on_server. cbn.
    rewrite H2'. reflexivity.
  - destruct (reactor_idle d); [|done]. intros [= <-].
    apply (conc_ok_quiet n d); [done| |reflexivity|done|by left].
    apply shared_ok_net; [done|]. apply (sk_conns _ _ Hw).
  - destruct (cc_batch d) as [|p rest]; [done|]. destruct (cc_closer d) eqn:Hcl; [done|].
    intros [= <-]. by apply post_step_ok.
  - destruct (cc_closer d) as [[cid p]|] eqn:Hcl; [|done]. intros [= <-]. by apply close_step_ok.
  - by apply take_task_ok.
  - by apply work_step_ok.
  - intros [= <-]. by apply (conc_ok_quiet n d); [|exact Hw1|reflexivity| |left].
  - destruct (cc_snap d) as [|cid rest]; [done|]. intros [= <-]. by apply stop_close_ok.
  - intros [= <-]. by apply (conc_ok_quiet n d); [|exact Hw1|reflexivity| |left].
Qed.

Lemma conc_reach_ok w0 n d :
  world_ok 0 w0 → conc_reach max w0 n d → n <= u64_max - 2 → conc_ok n d ∧ 0 <= n.
Proof.
  intros Hw0 Hr Hn. induction Hr as [|n d o d' Hr IH Hs].
  - split; [|done]. split; [by apply world_shared|constructor|done].
  - destruct IH as [Hd Hn0]; [lia|]. split; [|lia]. by apply (conc_step_ok n o d d' Hd ltac:(lia)).
Qed.
End invariant.

(** A worker is done and has replied, or can make its next access. *)
Lemma thread_progress `{Env, FloatText, FloatCast, Settings} n d j t :
  conc_ok n d → n <= u64_max - 2 → d.(cc_threads) !! j = Some t →
  (t.(th_prog) = Done tt ∧
     replied t.(th_conn) (payload_id t.(th_payload)) (payload_content t.(th_payload))
       t.(th_calls) (cc_world d).(w_repos)) ∨
  (∃ d' out, work_step j d = Some d' ∧
     appended out (cc_world d).(w_conns) (cc_world d').(w_conns)).
Proof.
  intros [Hw Ht Hc] Hn Hj. pose proof (Forall_lookup_1 _ _ _ _ Ht Hj) as Hok.
  pose proof (advance_safe _ _ n (cc_world d) Hok Hn Hw) as Hadv. unfold work_step. rewrite Hj.
  destruct (advance (th_prog t) (cc_world d)) as [[[tr p'] w']|] eqn:He.
  - right. destruct Hadv as (_ & _ & [out Ha] & _). by do 2 eexists.
  - left. destruct Hadv as [[] Hp]. split; [done|]. unfold thread_ok in Hok. rewrite Hp in Hok.
    cbn [safe] in Hok. specialize (Hok _ (reflexivity _)). by rewrite app_nil_r in Hok.
Qed.

(** ** What concurrent requests get *)

(** C3: under every interleaving of the threads' accesses to shared state, with any
    number of requests at work at once, the store stays consistent (ids and names
    unique, every queued and acknowledged message present) and its accounts, rooms,
    room names and messages are never lost or changed but for a message's status and
    a user's last-seen time (memberships, sessions and queues do shrink); a worker
    never ends with an exception and can always go on until it is done; its accesses
    change the connections' output only by appending whole frames; and a worker that
    is done has sent message events and then exactly one reply, to its connection and
    with its id.  A message id in that reply names a stored message with the text of
    the request. *)
Theorem concurrent_requests_answered `{Env, FloatText, FloatCast, Settings} max ttl n d :
  conc_reach max (fresh_world ttl) n d → n <= u64_max - 2 →
  shared_ok n (cc_world d) ∧
  (∀ o d', conc_step max o d = Some d' →
     grows (cc_world d).(w_repos) (cc_world d').(w_repos)) ∧
  (∀ j t, d.(cc_threads) !! j = Some t →
     (t.(th_prog) = Done tt ∧
        replied t.(th_conn) (payload_id t.(th_payload)) (payload_content t.(th_payload))
          t.(th_calls) (cc_world d).(w_repos)) ∨
     (∃ d' out, work_step j d = Some d' ∧
        appended out (cc_world d).(w_conns) (cc_world d').(w_conns))).
Proof.
  intros Hr Hn. destruct (conc_reach_ok max _ _ _ (fresh_world_ok ttl) Hr Hn) as [Hd _].
  split; [apply Hd|]. split; [intros o d' Hs; by eapply (conc_step_ok max n o)|].
  intros j t. by apply (thread_progress n).
Qed.

(** *** Runs for the examples *)

Definition test_conc_step : conc_op → Concurrent → option Concurrent :=
  @conc_step test_env test_float test_cast test_settings 65536.
Definition test_conc_reach : Z → Concurrent → Prop :=
  @conc_reach test_env test_float test_cast test_settings 65536 (fresh_world 3600).

(** The actions of a list, those that are possible when their turn comes. *)
Fixpoint conc_run (ops : list conc_op) (n : Z) (d : Concurrent) : Z * Concurrent :=
  match ops with
  | [] => (n, d)
  | o :: ops =>
      match test_conc_step o d with
      | Some d' => conc_run ops (n + 1) d'
      | None => conc_run ops n d
      end
  end.

Lemma conc_run_reach ops n d :
  test_conc_reach n d → test_conc_reach (conc_run ops n d).1 (conc_run ops n d).2.
Proof.
  revert n d. induction ops as [|o ops IH]; intros n d Hr; cbn [conc_run]; [done|].
  destruct (test_conc_step o d) as [d'|] eqn:Hs; [|by apply IH]. apply IH.
  by apply (creach_step _ _ n d o).
Qed.

Definition run_from_start (ops : list conc_op) : Z * Concurrent :=
  conc_run ops 0 (conc_start (fresh_world 3600)).

Lemma run_from_start_reach ops :
  test_conc_reach (run_from_start ops).1 (run_from_start ops).2.
Proof. apply conc_run_reach. constructor. Qed.

Definition arrives (cid : Z) (text : string) : conc_op :=
  CoEvent cid EvRead [RecvData (to_bytes (frame text))] [].
Definition work (j k : nat) : list conc_op := replicate k (CoWork j).

(** Two clients register eve at once; the accesses of their workers alternate. *)
Definition two_registrations : Z * Concurrent :=
  run_from_start ([CoListen [AcceptOk; AcceptOk; AcceptAgain];
    arrives 1 register_text; arrives 2 register_text; CoTake 0; CoTake 0] ++
    concat (replicate 12 [CoWork 0; CoWork 1])).

Lemma concurrent_requests_answered_witness :
  ∃ t, two_registrations.2.(cc_threads) !! 1%nat = Some t ∧
    @replied test_float 2 None "" t.(th_calls) (cc_world two_registrations.2).(w_repos).
Proof.
  destruct (@concurrent_requests_answered test_env test_float test_cast test_settings 65536 3600
    two_registrations.1 two_registrations.2 (run_from_start_reach _)) as (_ & _ & Ht);
    [vm_compute; discriminate|].
  destruct (two_registrations.2.(cc_threads) !! 1%nat) as [t|] eqn:Hj;
    [|apply (f_equal (λ o, bool_decide (is_Some o))) in Hj; vm_compute in Hj; discriminate].
  exists t. split; [done|].
  assert (th_conn <$> two_registrations.2.(cc_threads) !! 1%nat = Some 2) as Hc by (vm_compute; reflexivity).
  assert (th_payload <$> two_registrations.2.(cc_threads) !! 1%nat = Some register_text) as Hp
    by (vm_compute; reflexivity).
  rewrite Hj in Hc, Hp. apply (inj Some) in Hc, Hp.
  destruct (Ht 1%nat t Hj) as [[_ Hr]|(d' & out & Hs & _)].
  - rewrite Hc, Hp in Hr.
    assert (@payload_id test_float register_text = None) as Hid by (vm_compute; reflexivity).
    assert (@payload_content test_float register_text = "") as Hcon by (vm_compute; reflexivity).
    rewrite Hid, Hcon in Hr. exact Hr.
  - apply (f_equal (λ o, bool_decide (is_Some o))) in Hs. vm_compute in Hs. discriminate.
Defined.

(** ** A race between login and close *)

(** A whole request on connection [cid], by worker [j]. *)
Definition request_run (cid : Z) (j : nat) (text : string) : list conc_op :=
  [arrives cid text; CoTake 0] ++ work j 30.

Definition register_bob : string :=
  text_of [("type", JStr "register"); ("username", JStr "bob"); ("password", JStr "pass2")].
Definition login_bob : string :=
  text_of [("type", JStr "login"); ("username", JStr "bob"); ("password", JStr "pass2")].
Definition dm_to_eve : string :=
  text_of [("type", JStr "send_dm"); ("receiver_id", JInt 1); ("content", JStr "hi")].

(** Eve registers on connection 1 and logs in; her worker has set the owner of the
    connection and not bound it yet when the peer disconnects and the reactor
    runs the close handler to its end.  Bob logs in on connection 2 and
    writes to eve. *)
Definition login_and_close : list conc_op :=
  [CoListen [AcceptOk; AcceptOk; AcceptOk; AcceptAgain]] ++ request_run 1 0 register_text ++
  [CoSwap; CoPost []; arrives 1 login_text; CoTake 0] ++ work 1 6 ++
  [CoEvent 1 EvRead [RecvEof] []; CoSwap; CoPost []] ++ replicate 6 CoClose ++ work 1 30 ++
  request_run 2 2 register_bob ++ request_run 2 3 login_bob ++ request_run 2 4 dm_to_eve.

(** Then eve logs in again, on connection 3. *)
Definition login_again : list conc_op := login_and_close ++ request_run 3 5 login_text.

Definition finished (t : thread) : bool :=
  match t.(th_prog) with Done _ => true | _ => false end.

(** What a run leaves of eve (user 1): her connections; whether connection 1 is closed;
    the connections of the server; the messages with their status; her queue. *)
Definition eve_seen (d : Concurrent) :=
  let w := cc_world d in
  (connections_of w.(w_presence) 1, closed <$> w.(w_conns) !! 1, elements d.(cc_server).(sv_conns),
   (λ m, (m.(m_receiver_id), m.(m_status))) <$> w.(w_repos).(messages), queue_of w.(w_repos) 1).

(** A schedule in which a login races with the end of its connection.  At its end
    every request is answered and connection 1 is closed and forgotten by the
    server, yet it is still eve's connection: a message to her is marked delivered
    and not queued, and when she logs in next nothing is replayed to her, because
    she was not taken to be offline. *)
Theorem login_races_with_close :
  let d := (run_from_start login_and_close).2 in
  let d' := (run_from_start login_again).2 in
  test_conc_reach (run_from_start login_and_close).1 d ∧
  test_conc_reach (run_from_start login_again).1 d' ∧
  forallb finished d.(cc_threads) = true ∧ forallb finished d'.(cc_threads) = true ∧
  eve_seen d = ([1], Some true, [3; 2], [(Some 1, 1)], []) ∧
  (λ t, (t.(th_conn), length t.(th_calls))) <$> d'.(cc_threads) !! 5%nat = Some (3, 1%nat).
Proof.
  cbv zeta. split; [apply run_from_start_reach|]. split; [apply run_from_start_reach|].
  split_and!; vm_compute; reflexivity.
Qed.

(** ** Requests without interruption *)

(** Worker [j] makes [k] accesses in a row. *)
Fixpoint work_n `{Env, FloatText, FloatCast, Settings} (j k : nat) (d : Concurrent) : option Concurrent :=
  match k with
  | 0%nat => Some d
  | S k => match work_step j d with Some d' => work_n j k d' | None => None end
  end.

(** A worker that is never interrupted runs its program. *)
Lemma solo_run `{Env, FloatText, FloatCast, Settings} j d t :
  d.(cc_threads) !! j = Some t → ∃ k d' t',
    work_n j k d = Some d' ∧ cc_world d' = (run t.(th_prog) (cc_world d)).2 ∧
    d'.(cc_threads) !! j = Some t' ∧ t'.(th_prog) = pure_of (run t.(th_prog) (cc_world d)).1.
Proof.
  destruct t as [c payload tr p]. revert d tr.
  induction p as [a|e|B x k IH]; intros d tr Hj; cbn [th_prog run] in *.
  - by exists 0%nat, d, (mkThread c payload tr (Done a)).
  - by exists 0%nat, d, (mkThread c payload tr (Fail e)).
  - destruct (perform x (cc_world d)) as [o w'] eqn:Hx.
    set (d1 := mkConc (set_world w' d.(cc_server))
      (<[j := mkThread c payload (tr ++ calls x) (k o)]> d.(cc_threads))
      d.(cc_batch) d.(cc_closer) d.(cc_snap)).
    destruct (IH o d1 (tr ++ calls x)) as (m & d' & t' & Hm & Hrest).
    { apply list_lookup_insert_eq. by eapply lookup_lt_Some. }
    exists (S m), d', t'. split; [|exact Hrest]. cbn [work_n]. unfold work_step. rewrite Hj.
    cbn [th_prog advance]. by rewrite Hx.
Qed.

(** The handlers as single transitions are the uninterrupted runs of the
    interleaved ones: a worker that takes a waiting request and is not interrupted
    ends, without an exception escaping, in the world [run_task] computes; and
    the close handler run through is [on_close]. *)
Theorem atomic_requests_are_schedules `{Env, FloatText, FloatCast, Settings} n d i cid payload :
  world_ok n (cc_world d) → n <= u64_max - 2 →
  d.(cc_server).(sv_tasks) !! i = Some (cid, payload) →
  (∃ d1 k d' t, take_task i d = Some d1 ∧ work_n (length d.(cc_threads)) k d1 = Some d' ∧
     cc_world d' = (run_task i d.(cc_server)).(sv_world) ∧
     d'.(cc_threads) !! length d.(cc_threads) = Some t ∧ t.(th_prog) = Done tt) ∧
  ∀ c, run (on_close_p c) (cc_world d) = on_close c (cc_world d).
Proof.
  intros Hw Hn Hi. split; [|intros c; apply impl_on_close].
  unfold take_task. rewrite Hi. set (d1 := mkConc _ _ _ _ _).
  destruct (solo_run (length (cc_threads d)) d1 (mkThread cid payload [] (dispatch_p cid payload)))
    as (k & d' & t & Hk & Hworld & Ht & Hp).
  { cbn. by rewrite lookup_app_r, Nat.sub_diag by done. }
  exists d1, k, d', t. cbn [th_prog] in Hworld, Hp. rewrite impl_dispatch in Hworld, Hp.
  destruct (dispatch_handles n cid payload Hn (cc_world d) Hw I) as ([] & w' & tr & Hd & _).
  change (cc_world d1) with (cc_world d) in *. split_and!; [done|done| |done|].
  - rewrite Hworld. unfold run_task. by rewrite Hi.
  - by rewrite Hp, Hd.
Qed.

(** The request that waits after a client's ping has arrived. *)
Definition ping_waiting : Concurrent := mkConc pinged [] [] None [].

Lemma atomic_requests_are_schedules_witness :
  ∃ d1 k d', @take_task test_env test_float test_cast test_settings 0 ping_waiting = Some d1 ∧
    @work_n test_env test_float test_cast test_settings 0 k d1 = Some d' ∧
    cc_world d' = (test_step (SvTask 0) pinged).(sv_world).
Proof.
  destruct (@atomic_requests_are_schedules test_env test_float test_cast test_settings 2 ping_waiting
    0 1 ping_text) as [(d1 & k & d' & t & Ht & Hk & Hw & _) _].
  - apply (@server_reach_ok test_env test_float test_cast test_settings 65536 (fresh_world 3600) 0 2
      pinged); [apply fresh_world_ok|done|done|exact pinged_reach|by vm_compute].
  - by vm_compute.
  - by vm_compute.
  - exists d1, k, d'. split; [exact Ht|]. split; [exact Hk|exact Hw].
Defined.
