(* ===== verification/Shutdown.v ===== *)
(** * Stopping the server: [ChatServer::stop], called from [on_signal] of [src/main.cpp]

    [stop] closes the listener and every connection, tells the reactor's loop to
    end and shuts the pool down, which runs the requests that wait.  The handler
    of SIGINT and SIGTERM runs on the reactor's thread, so the loop makes no
    further action: it ends when the handler returns. *)
From S2P Require Import Prelude Util Crypto Framing Repositories Session Presence RoomManager.
From S2P Require Import Messages Json JsonProofs Connection World Router Handlers HandlerLogic.
From S2P Require Import HandlerSpecs Server HandlerProps Interleaving.

(** [ChatServer::stop] up to the joining of the workers. *)
Definition stop_all (y : Server) : Server := pool_stop (stop y).

(** [on_signal]; [g_server] is null until [init] has succeeded. *)
Definition on_signal (g_server : option Server) : option Server := stop_all <$> g_server.

Section shutdown.
Context `{Env, FloatText, FloatCast, Settings}.

(** [pool_->shutdown()]: the workers run what waits, in the order they take it. *)
Definition finish_queue (order : list nat) (y : Server) : Server :=
  foldl (λ y i, run_task i y) y order.

(** ** Nothing is sent after the stop *)

Definition silent (c : Connection) : bool := c.(closing) || c.(closed).
Definition all_silent (cs : gmap Z Connection) : Prop :=
  ∀ cid c, cs !! cid = Some c → silent c = true.

Lemma push_all_silent evs c : silent c = true → push_all evs c = c.
Proof.
  intros Hc. unfold push_all. induction evs as [|ev evs IH]; [done|]. cbn [foldl].
  unfold pushed at 2, accepts. unfold silent in Hc. rewrite Hc. exact IH.
Qed.

(** Payloads handed to silent connections change none of them but for its owner. *)
Lemma sent_silent tr cs cs' :
  all_silent cs → sent tr cs cs' → (∀ cid, anon <$> cs' !! cid = anon <$> cs !! cid) ∧ all_silent cs'.
Proof.
  intros Hs Hsent.
  assert (∀ cid, anon <$> cs' !! cid = anon <$> cs !! cid) as He.
  { intros cid. rewrite Hsent. destruct (cs !! cid) as [c|] eqn:Hc; [|done]. cbn. f_equal.
    apply push_all_silent. exact (Hs cid c Hc). }
  split; [done|]. intros cid c' Hc'. specialize (He cid). rewrite Hc' in He.
  destruct (cs !! cid) as [c|] eqn:Hc; [|done]. cbn in He. apply (inj Some) in He.
  assert (silent (anon c') = silent (anon c)) as Hsil by by rewrite He.
  change (silent c' = silent c) in Hsil. rewrite Hsil. by eapply Hs.
Qed.

(** Closing the connections of a list makes them silent and keeps their output. *)
Lemma close_all_silent l w w' :
  mfor l (λ cid, on_conn cid Connection.close) w = (Ret tt, w') →
  ∀ cid, match w.(w_conns) !! cid, w'.(w_conns) !! cid with
         | Some c, Some c' => c'.(wbuf) = c.(wbuf) ∧ c'.(closed) = c.(closed) ∧
             (cid ∈ l ∨ c.(closing) = true → c'.(closing) = true)
         | None, None => True
         | _, _ => False
         end.
Proof.
  revert w. induction l as [|x l IH]; intros w Hm cid; cbn [mfor] in Hm.
  { injection Hm as <-. destruct (w_conns w !! cid); [|done]. split_and!; [done|done|].
    intros [Hin|]; [by apply elem_of_nil in Hin|done]. }
  destruct (on_conn x Connection.close w) as [o w1] eqn:H1'. unfold mbind, M_bind in Hm. rewrite H1' in Hm.
  destruct o as [[]|]; [|done]. specialize (IH w1 Hm cid). unfold on_conn in H1'.
  destruct (w_conns w !! x) as [c|] eqn:Hx.
  2:{ injection H1' as <-. destruct (w_conns w !! cid) as [c|] eqn:Hc; [|done].
      destruct (w_conns w' !! cid) as [c'|]; [|done]. destruct IH as (? & ? & Hcl). split_and!; [done|done|].
      intros [[->|Hin]%elem_of_cons|?]; [congruence|apply Hcl; by left|apply Hcl; by right]. }
  unfold Connection.close, schedule_close in H1'.
  assert (∃ c1, w_conns w1 = <[x := c1]> (w_conns w) ∧ c1.(wbuf) = c.(wbuf) ∧
    c1.(closed) = c.(closed) ∧ c1.(closing) = true) as (c1 & Hw1 & Hb & Hcd & Hcg).
  { destruct (closing c) eqn:Hcl; injection H1' as <-; eexists; (split; [reflexivity|]); done. }
  rewrite Hw1 in IH. destruct (decide (cid = x)) as [->|Hne].
  - rewrite lookup_insert_eq in IH. rewrite Hx. destruct (w_conns w' !! x) as [c'|]; [|done].
    destruct IH as (-> & -> & Hcl). split_and!; [done|done|]. intros _. apply Hcl. by right.
  - rewrite lookup_insert_ne in IH by done. destruct (w_conns w !! cid) as [c0|]; [|done].
    destruct (w_conns w' !! cid) as [c'|]; [|done]. destruct IH as (? & ? & Hcl). split_and!; [done|done|].
    intros [[->|Hin]%elem_of_cons|?]; [done|apply Hcl; by left|apply Hcl; by right].
Qed.

(** Every connection that is open is known to a listening server, so [stop] closes
    them all. *)
Lemma stop_silent n y :
  server_ok n y → y.(sv_listening) = true →
  all_silent (stop y).(sv_world).(w_conns) ∧
  ∀ cid, wbuf <$> (stop y).(sv_world).(w_conns) !! cid = wbuf <$> y.(sv_world).(w_conns) !! cid.
Proof.
  intros Hy Hl. unfold stop.
  destruct (close_all_spec n (elements (sv_conns y)) _ (sv_world_ok _ _ Hy)) as (w' & Hm & _ & _).
  rewrite Hm. cbn [sv_world]. pose proof (close_all_silent _ _ _ Hm) as Hc. split.
  - intros cid c' Hc'. specialize (Hc cid). rewrite Hc' in Hc.
    destruct (w_conns (sv_world y) !! cid) as [c|] eqn:E; [|done]. destruct Hc as (_ & Hcd & Hcg).
    unfold silent. destruct (closed c) eqn:Hcl; [rewrite Hcd; apply orb_true_r|].
    rewrite Hcg; [done|]. left. apply elem_of_elements. by apply (sv_open _ _ Hy Hl cid c).
  - intros cid. specialize (Hc cid). repeat case_match; try done. cbn. f_equal. by destruct Hc.
Qed.

Lemma run_task_silent n i y :
  server_ok n y → n <= u64_max - 2 → all_silent y.(sv_world).(w_conns) →
  server_ok (n + 1) (run_task i y) ∧ all_silent (run_task i y).(sv_world).(w_conns) ∧
  (∀ cid, wbuf <$> (run_task i y).(sv_world).(w_conns) !! cid =
          wbuf <$> y.(sv_world).(w_conns) !! cid).
Proof.
  intros Hy Hn Hs. split; [by apply run_task_ok|].
  destruct (sv_tasks y !! i) as [[cid payload]|] eqn:Ht.
  2:{ unfold run_task. by rewrite Ht. }
  destruct (run_task_spec n i cid payload y Hy Hn Ht) as (tr & _ & _ & Hsent & _).
  destruct (sent_silent tr _ _ Hs Hsent) as [He Hs']. split; [done|].
  intros c. specialize (He c). apply (f_equal (fmap wbuf)) in He.
  rewrite <-!option_fmap_compose in He. exact He.
Qed.

Lemma finish_queue_silent order n y :
  server_ok n y → n + Z.of_nat (length order) <= u64_max - 1 → all_silent y.(sv_world).(w_conns) →
  server_ok (n + Z.of_nat (length order)) (finish_queue order y) ∧
  (∀ cid, wbuf <$> (finish_queue order y).(sv_world).(w_conns) !! cid =
          wbuf <$> y.(sv_world).(w_conns) !! cid).
Proof.
  revert n y. induction order as [|i order IH]; intros n y Hy Hn Hs.
  { cbn. rewrite Z.add_0_r. done. }
  cbn [length] in *. destruct (run_task_silent n i y Hy ltac:(lia) Hs) as (Hy1 & Hs1 & Hw1).
  destruct (IH (n + 1) (run_task i y) Hy1 ltac:(lia) Hs1) as [Hok Hw]. cbn [finish_queue foldl].
  split; [by replace (n + Z.of_nat (S (length order))) with (n + 1 + Z.of_nat (length order)) by lia|].
  intros cid. rewrite <-Hw1. apply Hw.
Qed.

Lemma finish_queue_empty y :
  (finish_queue (replicate (length y.(sv_tasks)) 0%nat) y).(sv_tasks) = [].
Proof.
  remember (sv_tasks y) as l eqn:Hl. revert y Hl. induction l as [|[cid p] l IH]; intros y Hl; [done|].
  cbn [length replicate finish_queue foldl]. apply IH. unfold run_task. by rewrite <-Hl.
Qed.
End shutdown.

(** ** Properties *)

(** C20: a stop runs the requests that wait and delivers nothing they send.  After
    [ChatServer::stop] on a listening server, whatever order the workers take the
    queue in, no connection's output has a byte more than when [stop] was
    called, so neither a reply nor an event of those requests reaches a client;
    the state stays consistent, the queue can be emptied and takes no new
    request. *)
Theorem stop_drops_replies `{Env, FloatText, FloatCast, Settings} max ttl n y order :
  server_reach max (fresh_world ttl) n y → y.(sv_listening) = true →
  n + Z.of_nat (length order) <= u64_max - 1 →
  let y' := finish_queue order (stop_all y) in
  server_ok (n + Z.of_nat (length order)) y' ∧
  (∀ cid, wbuf <$> y'.(sv_world).(w_conns) !! cid = wbuf <$> y.(sv_world).(w_conns) !! cid) ∧
  (finish_queue (replicate (length y.(sv_tasks)) 0%nat) (stop_all y)).(sv_tasks) = [] ∧
  ∀ cid payload, on_frame cid payload (stop_all y) = stop_all y.
Proof.
  intros Hr Hl Hn y'.
  assert (server_ok n y) as Hy.
  { apply (server_reach_ok max (fresh_world ttl) 0 n y); [apply fresh_world_ok|done..|lia]. }
  destruct (stop_silent n y Hy Hl) as [Hs Hw].
  assert (server_ok n (stop_all y)) as Hok by (destruct (stop_ok n y Hy); by split).
  destruct (finish_queue_silent order n (stop_all y) Hok Hn Hs) as [Hok' Hw']. split_and!.
  - exact Hok'.
  - intros cid. rewrite <-Hw. apply Hw'.
  - assert (length (sv_tasks y) = length (sv_tasks (stop_all y))) as ->; [|apply finish_queue_empty].
    unfold stop_all, stop. by destruct (mfor _ _ _).
  - intros cid payload. unfold on_frame. done.
Qed.

(** *** Example: a message that waits when the server is stopped *)

Definition serve_one (cid : Z) (text : string) : list server_op :=
  [SvEvent cid EvRead [RecvData (to_bytes (frame text))] []; SvTask 0].

(** Eve (user 1, connection 1) and bob (connection 2) are logged in; bob's message
    to eve has arrived and waits for a worker. *)
Definition chat_ops : list server_op :=
  [SvListen [AcceptOk; AcceptOk; AcceptAgain]] ++
  serve_one 1 register_text ++ serve_one 2 register_bob ++ serve_one 1 login_text ++
  serve_one 2 login_bob ++ [SvEvent 2 EvRead [RecvData (to_bytes (frame dm_to_eve))] []].

Fixpoint test_run (ops : list server_op) (n : Z) (y : Server) : Z * Server :=
  match ops with
  | [] => (n, y)
  | o :: ops => test_run ops (n + op_cost o) (test_step o y)
  end.

Lemma test_run_reach ops n y : test_reach n y → test_reach (test_run ops n y).1 (test_run ops n y).2.
Proof.
  revert n y. induction ops as [|o ops IH]; intros n y Hr; [exact Hr|].
  cbn [test_run]. apply IH. by apply sreach_step.
Qed.

Definition dm_waiting : Z * Server := test_run chat_ops 0 (server_start (fresh_world 3600)).

Definition test_finish : list nat → Server → Server :=
  @finish_queue test_env test_float test_cast test_settings.

Lemma stop_drops_replies_witness :
  wbuf <$> (test_finish [0%nat] (stop_all dm_waiting.2)).(sv_world).(w_conns) !! 1 =
  wbuf <$> dm_waiting.2.(sv_world).(w_conns) !! 1.
Proof.
  destruct (@stop_drops_replies test_env test_float test_cast test_settings 65536 3600 dm_waiting.1
    dm_waiting.2 [0%nat]) as (_ & Hw & _).
  - apply test_run_reach. constructor.
  - vm_compute. reflexivity.
  - vm_compute. discriminate.
  - exact (Hw 1).
Defined.

(** The message is lost: it is stored as delivered and not queued for eve, while her
    connection was handed nothing. *)
Example stop_loses_message :
  let w := (test_finish [0%nat] (stop_all dm_waiting.2)).(sv_world) in
  ((λ m, (m.(m_receiver_id), m.(m_content), m.(m_status))) <$> w.(w_repos).(messages),
   queue_of w.(w_repos) 1) = ([(Some 1, "hi", 1)], []).
Proof. vm_compute. reflexivity. Qed.
