(* ===== verification/Tests.v ===== *)
(** * The repository's own tests, run on the model

    [tests/test_framing.cpp] and [tests/test_router.cpp], test by test, as
    computations of the definitions they exercise; a test is a boolean that is
    true when every [CHECK] holds.  [tests/test_thread_pool.cpp] depends on the
    scheduler: what it expects of one run is proved for every run in [ThreadPool]
    ([pool_runs_each_task_once], [pool_shutdown_drains]). *)
From S2P Require Import Prelude Util Crypto Framing Repositories Presence RoomManager.

(** ** [tests/test_framing.cpp] *)

Definition ping_payload : string :=
  let q := String (ascii_of_byte 34) "" in
  "{" +:+ q +:+ "type" +:+ q +:+ ":" +:+ q +:+ "ping" +:+ q +:+ "," +:+ q +:+ "id" +:+ q +:+ ":42}".

Definition frame_encode_decode_roundtrip : bool :=
  let framed := frame ping_payload in
  let n := Z.of_nat (String.length ping_payload) in
  (Z.of_nat (String.length framed) =? n + 4) &&
  bool_decide (take 4 (to_bytes framed) = [0; 0; 0; n]) &&
  match feed decoder_init framed with
  | (Ret frames, _) => bool_decide (frames = [ping_payload])
  | _ => false
  end.

(** One byte at a time. *)
Definition frame_decoder_handles_partial_and_multi : bool :=
  let both := frame "hello" +:+ frame "world!" in
  match feed_all decoder_init ((λ c, String c "") <$> chars both) with
  | (Ret frames, _) => bool_decide (frames = ["hello"; "world!"])
  | _ => false
  end.

Definition frame_decoder_rejects_oversize : bool :=
  match feed (mkDecoder [] true 4 4) (frame "toolong") with
  | (Throw (RuntimeError _), _) => true
  | _ => false
  end.

Definition sha256_known_answers : bool :=
  String.eqb (hex_encode (sha256 []))
    "e3b0c44298fc1c149afbf4c8996fb92427ae41e4649b934ca495991b7852b855" &&
  String.eqb (hex_encode (sha256 (to_bytes "abc")))
    "ba7816bf8f01cfea414140de5dae2223b00361a396177a9cb410ff61f20015ad".

(** The salt is drawn at random in the test; the number of iterations, 1000 there,
    is a parameter here and small in the run below ([password_roundtrip] has
    every number). *)
Definition password_hash_roundtrip (iter : Z) (salt : list Z) : bool :=
  let h := make_password_hash "hunter2" iter salt in
  verify_password_hash "hunter2" h && negb (verify_password_hash "Hunter2" h) &&
  negb (verify_password_hash "" h).

Definition base64_roundtrip_test : bool :=
  let v := [0; 1; 2; 3; 4; 5; 6; 7; 8; 9; 10; 255] in
  bool_decide (base64_decode (base64_encode v) = v).

(** ** [tests/test_router.cpp] *)

(** Run a test on a fresh store; an exception fails it. *)
Definition on_fresh (m : M Repositories bool) : bool :=
  match m repos_init with (Ret b, _) => b | _ => false end.

(** [*optional] of a test. *)
Definition deref {A S : Type} (o : option A) : M S A :=
  match o with Some a => mret a | None => throw (RuntimeError "bad optional access") end.

Definition new_user (name : string) : M Repositories Z :=
  o ← create_user name "x" 0; deref o.

Definition repo_user_create_and_lookup : bool := on_fresh (
  a ← create_user "alice" "h1" 0;
  b ← create_user "bob" "h2" 0;
  dup ← create_user "alice" "h3" 0;
  got ← find_user_by_username "alice";
  mret (bool_decide (is_Some a) && bool_decide (is_Some b) && bool_decide (dup = None) &&
        match got with
        | Some u => bool_decide (Some u.(u_id) = a) && String.eqb u.(u_username) "alice"
        | None => false
        end)).

Fixpoint increasing (l : list Z) : bool :=
  match l with
  | x :: ((y :: _) as l) => (x <? y) && increasing l
  | _ => true
  end.

Definition repo_dm_history_ordering : bool := on_fresh (
  a ← new_user "a"; b ← new_user "b";
  mfor (seqZ 0 5) (λ i, insert_dm a b ("msg " +:+ to_string i) (1000 + i) ;; mret tt) ;;
  h ← history_dm a b 0 10;
  mret ((length h =? 5)%nat && increasing (m_id <$> h))).

Definition repo_offline_queue_drains : bool := on_fresh (
  a ← new_user "a"; b ← new_user "b";
  o1 ← insert_dm a b "1" 100; m1 ← deref o1;
  o2 ← insert_dm a b "2" 101; m2 ← deref o2;
  enqueue_undelivered m1 b ;; enqueue_undelivered m2 b ;;
  drained ← drain_undelivered b;
  again ← drain_undelivered b;
  mret ((length drained =? 2)%nat && (length again =? 0)%nat)).

Definition presence_transitions : bool :=
  bool_decide (connections_of presence_init 123 = []) && negb (is_online presence_init 123).

Definition room_manager_cache_round_trip : bool :=
  match (u1 ← on_store (new_user "u1"); u2 ← on_store (new_user "u2");
         o ← on_store (create_room "general" 0); rid ← deref o;
         on_store (join_room rid u1) ;; on_store (join_room rid u2) ;;
         mems ← members_of rid; b1 ← RoomManager.is_member rid u1; b2 ← RoomManager.is_member rid u2;
         on_store (leave_room rid u1) ;; on_leave rid u1 ;;
         b3 ← RoomManager.is_member rid u1;
         mret ((length mems =? 2)%nat && b1 && b2 && negb b3)) (rooms_init, repos_init) with
  | (Ret b, _) => b
  | _ => false
  end.

(** ** They pass *)

Example framing_tests_pass :
  forallb id [frame_encode_decode_roundtrip; frame_decoder_handles_partial_and_multi;
    frame_decoder_rejects_oversize; sha256_known_answers; base64_roundtrip_test] = true.
Proof. vm_compute. reflexivity. Qed.

Example router_tests_pass :
  forallb id [repo_user_create_and_lookup; repo_dm_history_ordering; repo_offline_queue_drains;
    presence_transitions; room_manager_cache_round_trip] = true.
Proof. vm_compute. reflexivity. Qed.

Example password_test_passes : password_hash_roundtrip 2 (seqZ 0 16) = true.
Proof. vm_compute. reflexivity. Qed.
